(* ===== verification/_CoqProject ===== *)
-Q . S2P
Prelude.v
Exits.v
Trace.v
Steps.v
MemIsZero.v
RbTree.v
RbShape.v
RbWalk.v
RbInsert.v
RbErase.v
RbOps.v
Cfs.v
DList.v
TimedRing.v
Libc.v
RingTest.v
XgsmPdu.v
XgsmModem.v
XgsmMain.v
ThrHttp.v
ThrPlHttp.v
ThrPlSession.v
SessionQueue.v
QueueProgress.v
PoolSystem.v
PoolShutdown.v
PoolProgram.v
PoolServer.v
BinPatch.v
Econv.v
SplitMb.v
SymLookup.v
SpinLocks.v
EthCat.v
Sload.v
StackPool.v
TokenRing.v
Peers.v
Timers.v
AioTest.v
SignalFd.v
Launchers.v
Xtty.v
EpollTest.v
TotalMess.v
DeadConn.v
PageScan.v
HexDump.v
EpollPwait.v
Ztest.v
FgetLight.v
EpwBench.v
PollRdhup.v
ExtFd.v
ZeroBench.v
SloadMain.v
QspinsMain.v
QspinsThreads.v
SignalProcs.v
SigThreads.v
HttpMain.v
HttpSystem.v
LatctxMain.v
EvSemMain.v
Stats.v
SloadChild.v
ExBench.v
Tools.v
