(* ===== verification/Prelude.v ===== *)
(** * The trivia programs: a verification library

    trivia is a collection of small stand-alone C programs: each file under src/ is
    a program of its own, and no two of them are linked together.  This library
    models the logic of those that have some, in the order of their weight, and
    proves what makes each of them correct.

    ** The files and what they model

    - [Prelude] (this file): the results and the state monad in which C code is
      written down, total-correctness rules for it, machine integers, counting.
    - [Libc]: what the programs use of ctype.h, string.h, stdlib.h and stdio.h.
    - [MemIsZero]: memiszero.c, the three scans for a non-zero byte over a block of
      memory with an address.
    - smart-queue.c.  [RbTree] has every function of its red-black tree, on a heap
      of nodes whose colour is packed into the parent word; [RbShape] relates heaps
      to trees, by zippers, with a frame rule for each access; [RbWalk], [RbInsert]
      and [RbErase] are the walks and the two rebalancing loops, and [RbOps] states
      what the operations do.  [Cfs] is the fair queue on top of the tree
      (cfs_queue, cfs_dequeue, cfs_test).  [DList] has the circular lists and
      [TimedRing] the ring of 256 lists with its bitmap (tr_queue, tr_dequeue).
    - xgsm.c.  [XgsmPdu] builds SMS messages (xgsm_create_PDU and what it calls);
      [XgsmModem] is the dialogue with the modem, over a class of serial devices,
      and main; [XgsmMain] says what main writes for given options.
    - thrhttp.c is [ThrHttp]: buffered stream, sending, request parsing, the session
      and the accepting loop, over the class [Net] of kernels.
    - thrplhttp.c is [ThrPlHttp] (its own reader, request block and exits; the
      functions whose text is the one of thrhttp.c are taken from [ThrHttp]),
      [SessionQueue] (the queue between acceptor and service threads with its mutex
      and condition variables, as a step relation) and [PoolServer] (main, the start
      and the end of the threads, their bodies and the x-wrappers).  [ThrPlSession]
      takes a whole session of it to the lines it receives.  These parts meet in
      [PoolSystem]: the threads of a CPU, each with the session it runs, the clients and
      the counters; [QueueProgress] has the measure of work left that a step of the
      queue decreases, and [PoolShutdown] what happens after the broadcast of main;
      [PoolProgram] is all CPUs, the signal and main.
    - [HttpMain] is the accepting main of thrhttp.c, and [HttpSystem] has main and the
      threads of the connections together.
    - [BinPatch], [Econv], [SplitMb], [EthCat]: the programs of those names.
      [SymLookup] has nma2n.c and ka2n.c, a Module each.
    - sload.c is [Sload] (jitter, options, the loop of a child), [SloadChild] (the rounds
      of a child, the loop it burns, the least sample) and [SloadMain] (the calibration,
      the parent and its children).
    - qspins.c is [SpinLocks] (the two locks on their machine words, with one step
      relation each, Modules [ticket] and [spin]), [QspinsMain] and [QspinsThreads] (the
      test threads, and all of them on the ring of ticket locks as a step relation).
    - [StackPool] is pth-stk-test.c: main and its threads as a step relation.
    - Tests of event descriptors: [TokenRing] is pipetest-4.c and eventfd-bench.c
      (Modules [pipetest] and [evbench]), [EpwBench] epwbench.c, [Timers] timerfd-test.c
      and timerfd-test2.c, [AioTest] eventfd-aio-test.c; [Peers] is eventfd-sem.c and the
      threads of pthread-lat-ctx.c (Modules [evsem] and [latctx]), [EvSemMain] and
      [LatctxMain] are the mains of these; [SignalFd] and [SignalProcs] are signalfd-test.c,
      in one process and in several, and [SigThreads] its two ways to make a thread;
      [EpollTest] is epoll_test.c, [EpollPwait] epoll_pwait_test.c, [TotalMess]
      totalmess.c, [PollRdhup] pollrdhup-test.c, [ExtFd] extfd-test.c, [FgetLight]
      fget-light-test.c.
    - Other programs: [ZeroBench] is the main of memiszero.c and [RingTest] that of
      smart-queue.c with tr_test; [Launchers] is swrap.c, sexecp.c and sxncat.c, [Xtty]
      xtty.c, [DeadConn] deadconn.c, [PageScan] nzmalloc-test.c, nzmmap-test.c and
      smiffy.c, [HexDump] chexdump.c, [Ztest] ztest.c,
      [Tools] ht2date.c and syminfo.c, [ExBench] cpp-exbench.cpp.  [Stats] has the averages
      of pipetest-4.c, eventfd-bench.c, epwbench.c and qspins.c, in doubles ([SpecFloat]).
    - Shared by these: [Exits] (a program that may call exit), [Steps] (step relations:
      what is reachable and what must happen), [Trace] (programs as the calls they make).

    ** How the code is written down

    A function that keeps state is a function in the monad [M S], where the record
    [S] has the fields of the C structures and globals; a loop is a Fixpoint on fuel;
    the guards and early returns are those of the code.  Reads and writes outside a
    block, null pointers, negative shifts and divisions by zero are [Fault], so every
    theorem that ends in [Ok] is also one about memory safety.  Words are integers
    with their wrap written out ([u64], [s32], ...), bytes are integers, C strings
    lists of bytes.  What the programs ask of the kernel is a class or a record of
    functions ([Net], [serial] devices, [raw_socket], [Kernel]); theorems that need a
    behaviour of it use a scripted instance (pieces received, parts sent, errors).
    Threads and processes are step relations whose steps are the critical sections, the
    atomic instructions or the system calls; invariants go by rule induction over the
    reachable states, and [inevitable] says that a state is reached by every run.

    A program that calls exit is in the monad [E S] of [Exits].  Where the logic of a
    program is the order of its calls and what it does with their results, it is written
    over one operation [os] that makes a call ([Trace]): [tracing answers] answers from
    a function of all earlier calls, and records them, so that a theorem for all
    [answers] holds for every kernel.  Where a fork is such a call, the answer 0 makes
    the program go on as the child.  Time is the answer of a call; a clock that goes on
    ([clock_goes]) is what makes the timing loops end.

    Fuel: the theorems say that any fuel above a bound gives the result, never that
    a result is right if there is one.  The bounds are the height of the tree (log2
    of its size), the bytes to read or to send for loops over input and output, the looks
    at the clock that make up the time wanted for timing loops, and for the scan of
    [BinPatch] the size of the input times that of the pattern.

    ** The theorems

    - Red-black tree: insertion and removal give the in-order sequence with the node
      in its place or without it, and keep the tree red-black; walking follows the
      sequence; replacing a node changes nothing else.
    - Queues of smart-queue.c: the fair queue refines a stable time-ordered queue and
      the ring an array of first-in first-out queues, on every legal sequence of
      calls; when [tr_dequeue] returns the earliest task and when it loses one; the
      benchmarks never meet the null pointer it then returns.
    - xgsm.c: layout and round trips of the encodings, the recognition of answers
      however the reads are cut, the errors of 8-bit texts and of an end of file.
    - HTTP servers: a session of thrhttp is the session on the plain byte stream
      whatever the pieces received and sent, and one of thrplhttp the session on whole
      lines; what failing receives and sends do; the buffered reader of thrplhttp keeps
      its shape and loses no byte under every sequence of calls, and what it and the
      request block accept; no session is lost in the queue of a CPU and no wake-up while
      the server runs, so that every client is served once, in order and with the right
      reply, and the counters are the sums; after the signal the program always ends
      with every thread joined and exact totals, unless a thread was about to sleep at the
      broadcast, which then sleeps for ever; main starts, wakes, joins and adds up
      every thread once; every connection of thrhttp has a thread or is
      closed at once, and every client of it is served.
    - Locks and threads: exclusion and order of the ticket lock across the wrap of
      its counters, exclusion of the spin lock, the totals of the stack pool, which
      ends unless its first wait comes too late; the threads of the lock test take locks
      in a ring and still always end.
    - Event descriptors: the token rings end with every token counted whatever order the
      kernel reports; asynchronous requests are completed and reported once; timers
      expire when the programs say; signals are read once; the peers and the threads
      always end; no byte is lost in totalmess, whose
      threads end when the pipes have room; what the verdicts of the epoll tests tell.
    - Launchers: a command runs only with the group and the user set, in this order.
    - Tools and benchmarks: what binpatch replaces, which addresses splitmb accepts, which
      files it writes, what econv extracts and converts, what nma2n and ka2n print, which
      frame ethcat sends, the range of the jitter of sload, the rounds of its children and
      the sums of its parent, which samples the averages depend on, what the page
      tests count, the round trip of chexdump; the timing loops end, and with what.

    ** What is not modelled

    The shares sload prints in doubles, and in general the text printed around the
    numbers of a benchmark: where a program's output is its result the bytes are
    modelled, elsewhere printing is a call that carries the values.  The texts of the
    usage functions, which end in exit.  The tables of system call numbers and flags that
    only name a call to the kernel.  Allocations succeed, except where the allocator is
    an argument or a call.  getopt is an argument of the mains that use it: its results
    in order.  The scripts (shell, Perl) are outside this library. *)
From Stdlib Require Import ZArith Lia Bool.
From stdpp Require Import base tactics list gmap strings.

#[global] Open Scope Z_scope.

(** The hints of the development. *)
Create HintDb trivia.

(** ** Results of C code

    [Ok a]    the code returns [a];
    [Fault]   the code reads or writes memory it does not own, dereferences a
              null pointer or divides by zero: the C standard gives it no meaning;
    [NoFuel]  the bound on the number of loop iterations was reached. *)
Inductive res (A : Type) : Type :=
| Ok (a : A)
| Fault
| NoFuel.
Arguments Ok {A} a.
Arguments Fault {A}.
Arguments NoFuel {A}.

#[export] Instance res_ret : MRet res := fun A a => Ok a.
#[export] Instance res_bind : MBind res := fun A B k m =>
  match m with Ok a => k a | Fault => Fault | NoFuel => NoFuel end.

Lemma res_bind_ok {A B} (a : A) (k : A -> res B) : (Ok a ≫= k) = k a.
Proof. done. Qed.

(** ** Stateful C code: a state monad over [res] *)
Definition M (S A : Type) : Type := S -> res (A * S).

#[export] Instance M_ret S : MRet (M S) := fun A a s => Ok (a, s).
#[export] Instance M_bind S : MBind (M S) := fun A B k m s =>
  match m s with Ok (a, s') => k a s' | Fault => Fault | NoFuel => NoFuel end.

Definition fault {S A} : M S A := fun _ => Fault.
Definition nofuel {S A} : M S A := fun _ => NoFuel.
Definition gets {S A} (f : S -> A) : M S A := fun s => Ok (f s, s).
Definition puts {S} (f : S -> S) : M S unit := fun s => Ok (tt, f s).
Definition lift_res {S A} (r : res A) : M S A := fun s =>
  match r with Ok a => Ok (a, s) | Fault => Fault | NoFuel => NoFuel end.

(** Total correctness: [m] run from [s] returns, and the result satisfies [Q]. *)
Definition wp {S A} (m : M S A) (s : S) (Q : A -> S -> Prop) : Prop :=
  match m s with Ok (a, s') => Q a s' | _ => False end.

Lemma wp_ret {S A} (a : A) (s : S) (Q : A -> S -> Prop) :
  Q a s -> wp (mret a) s Q.
Proof. exact id. Qed.

Lemma wp_bind {S A B} (m : M S A) (k : A -> M S B) s Q :
  wp m s (fun a s' => wp (k a) s' Q) -> wp (m ≫= k) s Q.
Proof.
  unfold wp, mbind, M_bind. destruct (m s) as [[a s']| |]; done.
Qed.

Lemma run_bind {S A B} (m : M S A) (k : A -> M S B) s a s' :
  m s = Ok (a, s') -> (m ≫= k) s = k a s'.
Proof. unfold mbind, M_bind. by intros ->. Qed.

Lemma wp_mono {S A} (m : M S A) s (P Q : A -> S -> Prop) :
  wp m s P -> (forall a s', P a s' -> Q a s') -> wp m s Q.
Proof. unfold wp. destruct (m s) as [[a s']| |]; eauto. Qed.

Lemma wp_gets {S A} (f : S -> A) s (Q : A -> S -> Prop) :
  Q (f s) s -> wp (gets f) s Q.
Proof. exact id. Qed.

Lemma wp_get {S} (s : S) (Q : S -> S -> Prop) : Q s s -> wp (gets id) s Q.
Proof. exact id. Qed.

Lemma wp_puts {S} (f : S -> S) s (Q : unit -> S -> Prop) :
  Q tt (f s) -> wp (puts f) s Q.
Proof. exact id. Qed.

Lemma wp_run {S A} (m : M S A) s Q :
  wp m s Q <-> exists a s', m s = Ok (a, s') /\ Q a s'.
Proof.
  unfold wp. destruct (m s) as [[a s']| |]; split.
  - intros HQ. exists a, s'. done.
  - intros (a0 & s0 & [= <- <-] & HQ). done.
  - done.
  - intros (a0 & s0 & [=] & _).
  - done.
  - intros (a0 & s0 & [=] & _).
Qed.

(** A [for] loop over the values of a list. *)
Fixpoint for_each {S A} (l : list A) (f : A -> M S unit) : M S unit :=
  match l with
  | [] => mret tt
  | x :: l => f x;; for_each l f
  end.

(** Its invariant [I] speaks of the values done. *)
Lemma wp_for_each_from {S A} (I : list A -> S -> Prop) (f : A -> M S unit) l :
  forall l0 s (Q : unit -> S -> Prop),
  (forall l1 x l2 s', l0 ++ l = l1 ++ x :: l2 -> I l1 s' ->
     wp (f x) s' (fun _ s'' => I (l1 ++ [x]) s'')) ->
  I l0 s -> (forall s', I (l0 ++ l) s' -> Q tt s') -> wp (for_each l f) s Q.
Proof.
  induction l as [|x l IH]; intros l0 s Q Hf H0 HQ; cbn [for_each].
  - apply wp_ret, HQ. by rewrite app_nil_r.
  - apply wp_bind. eapply wp_mono; [by eapply (Hf l0 x l)|]. intros [] s' Hs'.
    apply (IH (l0 ++ [x])); [|done|]; rewrite <- app_assoc; done.
Qed.

Lemma wp_for_each {S A} (I : list A -> S -> Prop) (f : A -> M S unit) l s (Q : unit -> S -> Prop) :
  (forall l1 x l2 s', l = l1 ++ x :: l2 -> I l1 s' ->
     wp (f x) s' (fun _ s'' => I (l1 ++ [x]) s'')) ->
  I [] s -> (forall s', I l s' -> Q tt s') -> wp (for_each l f) s Q.
Proof. intros. by eapply (wp_for_each_from I f l []). Qed.

(** ** Machine integers *)
Definition u8 (z : Z) : Z := z mod 2 ^ 8.
Definition u16 (z : Z) : Z := z mod 2 ^ 16.
Definition u32 (z : Z) : Z := z mod 2 ^ 32.
Definition u64 (z : Z) : Z := z mod 2 ^ 64.
Definition s8 (z : Z) : Z := (z + 2 ^ 7) mod 2 ^ 8 - 2 ^ 7.
Definition s32 (z : Z) : Z := (z + 2 ^ 31) mod 2 ^ 32 - 2 ^ 31.
Definition s64 (z : Z) : Z := (z + 2 ^ 63) mod 2 ^ 64 - 2 ^ 63.

Lemma u32_small z : 0 <= z < 2 ^ 32 -> u32 z = z.
Proof. intros. unfold u32. by apply Z.mod_small. Qed.
Lemma u64_small z : 0 <= z < 2 ^ 64 -> u64 z = z.
Proof. intros. unfold u64. by apply Z.mod_small. Qed.
Lemma s32_small z : - 2 ^ 31 <= z < 2 ^ 31 -> s32 z = z.
Proof. intros. unfold s32. rewrite Z.mod_small; lia. Qed.
Lemma s64_small z : - 2 ^ 63 <= z < 2 ^ 63 -> s64 z = z.
Proof. intros. unfold s64. rewrite Z.mod_small; lia. Qed.
Lemma u64_add_u64 a b : u64 (u64 a + b) = u64 (a + b).
Proof. apply Zplus_mod_idemp_l. Qed.
Lemma u64_range z : 0 <= u64 z < 2 ^ 64.
Proof. apply Z.mod_pos_bound. lia. Qed.
Lemma u32_range z : 0 <= u32 z < 2 ^ 32.
Proof. apply Z.mod_pos_bound. lia. Qed.

Lemma u64_bits z k : 0 <= k < 64 -> Z.testbit (u64 z) k = Z.testbit z k.
Proof. intros. unfold u64. apply Z.mod_pow2_bits_low. lia. Qed.

Lemma u64_bits_high z k : 64 <= k -> Z.testbit (u64 z) k = false.
Proof. intros. unfold u64. apply Z.mod_pow2_bits_high. lia. Qed.

(** The mask of the bits from [c] on. *)
Lemma shiftl_ones_bits c k : 0 <= c -> 0 <= k -> Z.testbit (Z.shiftl 1 c - 1) k = (k <? c).
Proof.
  intros. rewrite Z.shiftl_1_l, <- Z.sub_1_r || rewrite Z.shiftl_1_l.
  replace (2 ^ c - 1) with (Z.ones c) by (rewrite Z.ones_equiv; lia).
  destruct (Z.ltb_spec k c); [apply Z.ones_spec_low|apply Z.ones_spec_high]; lia.
Qed.

(** A non-negative number below [2^n] whose low [n] bits are clear is zero. *)
Lemma bits_zero n z : 0 <= n -> 0 <= z < 2 ^ n ->
  (forall k, 0 <= k < n -> Z.testbit z k = false) -> z = 0.
Proof.
  intros Hn Hz Hb. apply Z.bits_inj_0. intros k.
  destruct (Z.ltb_spec k 0); [by apply Z.testbit_neg_r|].
  destruct (Z.ltb_spec k n); [apply Hb; lia|].
  rewrite <- (Z.mod_small z (2 ^ n)) by lia. by rewrite Z.mod_pow2_bits_high by lia.
Qed.

(** Masking with [2^k - 1] and with its complement. *)
Lemma land_low_mask x k : 0 <= k -> Z.land x (2 ^ k - 1) = x mod 2 ^ k.
Proof.
  intros Hk. rewrite <- Z.land_ones by done. by rewrite Z.ones_equiv, Z.sub_1_r.
Qed.

Lemma land_high_mask x k : 0 <= k -> Z.land x (Z.lnot (2 ^ k - 1)) = x - x mod 2 ^ k.
Proof.
  intros Hk. rewrite <- Z.ldiff_land.
  replace (2 ^ k - 1) with (Z.ones k) by (rewrite Z.ones_equiv; lia).
  rewrite Z.ldiff_ones_r, Z.shiftl_mul_pow2, Z.shiftr_div_pow2 by lia.
  pose proof (Z.div_mod x (2 ^ k)). lia.
Qed.

(** The lowest digit of a number in base [b] and the others. *)
Lemma digit_mod b c n : 0 <= c < b -> (c + b * n) mod b = c.
Proof. intros Hc. rewrite Z.mul_comm, Z.mod_add by lia. by apply Z.mod_small. Qed.

Lemma digit_div b c n : 0 <= c < b -> (c + b * n) / b = n.
Proof. intros Hc. rewrite Z.mul_comm, Z.div_add by lia. by rewrite Z.div_small. Qed.

(** [or] of numbers with no bit in common is their sum. *)
Lemma lor_add_disjoint a b : Z.land a b = 0 -> Z.lor a b = a + b.
Proof. intros H. rewrite Z.add_nocarry_lxor by done. by rewrite Z.lxor_lor. Qed.

Lemma lor_shiftl a b n : 0 <= n -> 0 <= a < 2 ^ n -> 0 <= b ->
  Z.lor a (Z.shiftl b n) = a + b * 2 ^ n.
Proof.
  intros Hn Ha Hb. rewrite Z.shiftl_mul_pow2 by done. apply lor_add_disjoint.
  apply Z.bits_inj_0. intros k. rewrite Z.land_spec.
  destruct (Z.ltb_spec k 0); [by rewrite Z.testbit_neg_r|].
  destruct (Z.ltb_spec k n); [rewrite Z.mul_pow2_bits_low by lia; apply andb_false_r|].
  rewrite <- (Z.mod_small a (2 ^ n)) by lia. by rewrite Z.mod_pow2_bits_high by lia.
Qed.

(** [or] of two non-negative numbers is zero exactly when both are. *)
Lemma lor_eq_0 a b : Z.lor a b = 0 <-> a = 0 /\ b = 0.
Proof. apply Z.lor_eq_0_iff. Qed.

(** ** The sum of a list *)
Definition zsum (l : list Z) : Z := foldr Z.add 0 l.

Lemma zsum_cons x l : zsum (x :: l) = x + zsum l.
Proof. done. Qed.

Lemma zsum_app l l' : zsum (l ++ l') = zsum l + zsum l'.
Proof. induction l as [|x l IH]; [done|]. cbn [app]. rewrite !zsum_cons, IH. lia. Qed.

Lemma zsum_insert l i x y : l !! i = Some y -> zsum (<[i := x]> l) = zsum l - y + x.
Proof.
  revert i. induction l as [|z l IH]; intros i Hi; [done|]. destruct i as [|i]; [injection Hi as ->; cbn [insert list_insert]; rewrite !zsum_cons; lia|].
  change (<[S i := x]> (z :: l)) with (z :: <[i := x]> l). rewrite !zsum_cons, IH by done. lia.
Qed.

Lemma zsum_nonneg l : Forall (fun x => 0 <= x) l -> 0 <= zsum l.
Proof. induction 1 as [|x l Hx _ IH]; [done|]. rewrite zsum_cons. lia. Qed.

#[export] Instance zsum_perm : Proper ((≡ₚ) ==> (=)) zsum.
Proof. induction 1 as [|x l k _ IH|x y l|l k m _ IH1 _ IH2]; rewrite ?zsum_cons; lia. Qed.

Lemma zsum_lookup_le l i x : Forall (fun y => 0 <= y) l -> l !! i = Some x -> x <= zsum l.
Proof.
  intros Hl Hi. assert (0 <= zsum (<[i := 0]> l)) as H by (apply zsum_nonneg, Forall_insert; [done|lia]).
  rewrite (zsum_insert _ _ _ _ Hi) in H. lia.
Qed.

Lemma zsum_replicate m x : zsum (replicate m x) = Z.of_nat m * x.
Proof. induction m as [|m IH]; [done|]. cbn [replicate]. rewrite zsum_cons, IH. lia. Qed.

(** ** Counting the elements of a list that are equal to a value *)
Section counting.
Context {A : Type} `{EqDecision A}.

Definition count (x : A) (l : list A) : Z := Z.of_nat (length (filter (eq x) l)).

Lemma count_nonneg x l : 0 <= count x l.
Proof. unfold count. lia. Qed.

Lemma count_insert x l i y z : l !! i = Some y ->
  count x (<[i := z]> l) = count x l - (if decide (x = y) then 1 else 0) + (if decide (x = z) then 1 else 0).
Proof.
  intros Hy. assert (Hi : (i < length l)%nat) by (by eapply lookup_lt_Some).
  rewrite insert_take_drop by done. rewrite <- (take_drop_middle l i y Hy) at 3.
  unfold count. rewrite !filter_app, !length_app, !filter_cons.
  destruct (decide (x = z)), (decide (x = y)); cbn [length]; lia.
Qed.

Lemma count_pos x l i : l !! i = Some x -> 0 < count x l.
Proof.
  intros Hi. rewrite <- (take_drop_middle l i x Hi). unfold count.
  rewrite filter_app, length_app, filter_cons, decide_True by done. cbn [length]. lia.
Qed.

Lemma count_elem x l : 0 < count x l -> x ∈ l.
Proof.
  unfold count. destruct (filter (eq x) l) as [|y k] eqn:E; cbn [length]; [lia|]. intros _.
  assert (y ∈ filter (eq x) l) as Hy by (rewrite E; by left). by apply list_elem_of_filter in Hy as [-> ?].
Qed.

Lemma count_zero x l : count x l = 0 -> x ∉ l.
Proof. intros Hc [i Hi]%list_elem_of_lookup. apply count_pos in Hi. lia. Qed.

Lemma count_absent x l : x ∉ l -> count x l = 0.
Proof.
  intros Hx. pose proof (count_nonneg x l). destruct (Z.eq_dec (count x l) 0); [done|].
  destruct Hx. apply count_elem. lia.
Qed.

Lemma count_all x l : count x l = Z.of_nat (length l) -> Forall (fun y => y = x) l.
Proof.
  unfold count. induction l as [|y l IH]; [by constructor|]. rewrite filter_cons. cbn [length].
  pose proof (length_filter (eq x) l). case_decide as Hy; cbn [length]; intros Hl; [|lia].
  constructor; [done|]. apply IH. lia.
Qed.

Lemma count_replicate x y n : x <> y -> count x (replicate n y) = 0.
Proof.
  intros Hx. unfold count. induction n as [|n IH]; [done|]. cbn [replicate]. rewrite filter_cons. by case_decide.
Qed.
End counting.

(** A value in an updated list is the new one or was there before. *)
Lemma elem_of_insert_list {A} (l : list A) i x y z : l !! i = Some y -> z ∈ <[i := x]> l -> z = x \/ z ∈ l.
Proof.
  intros Hy Hz. apply list_elem_of_lookup in Hz as [j Hj].
  apply list_lookup_insert_Some in Hj as [(-> & -> & _)|[_ Hj]]; [by left|].
  right. apply list_elem_of_lookup. by exists j.
Qed.

(** A filter that keeps everything. *)
Lemma filter_all {A} (P : A -> Prop) `{forall x, Decision (P x)} (l : list A) : (forall x, x ∈ l -> P x) -> filter P l = l.
Proof.
  induction l as [|x l IH]; intros Hl; [done|]. rewrite filter_cons, decide_True by (apply Hl; by left).
  f_equal. apply IH. intros y Hy. apply Hl. by right.
Qed.
