(* ===== verification/Exits.v ===== *)
(** * Ending the program: an exit monad over the state monad

    A computation of type [E S A] returns [inr a], or ends the whole program with
    [inl code], the argument of [exit] or the result of main. *)
From Stdlib Require Import ZArith Lia Bool.
From stdpp Require Import base tactics list.
From S2P Require Import Prelude.

Section exits.
Context {S : Type}.
Definition E (A : Type) : Type := M S (Z + A).
Definition e_ret {A} (a : A) : E A := mret (inr a).
Definition e_exit {A} (code : Z) : E A := mret (inl code).
Definition e_bind {A B} (m : E A) (k : A -> E B) : E B :=
  r ← m; match r with inl code => mret (inl code) | inr a => k a end.
Definition e_run {A} (m : M S A) : E A := a ← m; mret (inr a).

(** [for] over the values of a list. *)
Fixpoint e_for_each {A} (l : list A) (f : A -> E unit) : E unit :=
  match l with
  | [] => e_ret tt
  | x :: l => e_bind (f x) (fun _ => e_for_each l f)
  end.

(** The result of main: its exit code. *)
Definition e_main (m : E Z) : M S Z := r ← m; mret (match r with inl code => code | inr code => code end).
End exits.
Arguments E S A : clear implicits.
Notation "x <~ m ; k" := (e_bind m (fun x => k)) (at level 20, m at level 100, k at level 200) : stdpp_scope.

(** ** Rules *)
Section rules.
Context {S : Type}.

(** What must hold of a result: [P] of an exit code, [Q] of a value. *)
Definition either {A} (P : Z -> S -> Prop) (Q : A -> S -> Prop) (r : Z + A) (s : S) : Prop :=
  match r with inl c => P c s | inr a => Q a s end.

Lemma wp_e_ret {A} (a : A) (s : S) Q : Q (inr a) s -> wp (e_ret a) s Q.
Proof. exact id. Qed.
Lemma wp_e_exit {A} c (s : S) (Q : Z + A -> S -> Prop) : Q (inl c) s -> wp (e_exit c) s Q.
Proof. exact id. Qed.

Lemma wp_e_bind {A B} (m : E S A) (k : A -> E S B) s Q :
  wp m s (either (fun c s' => Q (inl c) s') (fun a s' => wp (k a) s' Q)) -> wp (e_bind m k) s Q.
Proof.
  intros Hm. apply wp_bind. eapply wp_mono; [exact Hm|]. intros [c|a] s' H; [by apply wp_ret|done].
Qed.

(** A first part that is known to return. *)
Lemma wp_e_seq {A B} (m : E S A) (k : A -> E S B) s a s' Q :
  m s = Ok (inr a, s') -> wp (k a) s' Q -> wp (e_bind m k) s Q.
Proof. intros Hm Hk. apply wp_e_bind. unfold wp at 1. by rewrite Hm. Qed.

Lemma run_e_bind {A B} (m : E S A) (k : A -> E S B) s a s' :
  m s = Ok (inr a, s') -> e_bind m k s = k a s'.
Proof. intros Hm. unfold e_bind, mbind, M_bind. by rewrite Hm. Qed.

Lemma run_e_exit {A B} (m : E S A) (k : A -> E S B) s c s' :
  m s = Ok (inl c, s') -> e_bind m k s = Ok (inl c, s').
Proof. intros Hm. unfold e_bind, mbind, M_bind. by rewrite Hm. Qed.

Lemma run_e_run {A} (m : M S A) s a s' : m s = Ok (a, s') -> e_run m s = Ok (inr a, s').
Proof. intros Hm. unfold e_run, mbind, M_bind. by rewrite Hm. Qed.

Lemma wp_e_run {A} (m : M S A) s (Q : Z + A -> S -> Prop) : wp m s (fun a s' => Q (inr a) s') -> wp (e_run m) s Q.
Proof. intros Hm. apply wp_bind. eapply wp_mono; [exact Hm|]. intros a s' H. by apply wp_ret. Qed.
End rules.
