(* ===== verification/Trace.v ===== *)
(** * Programs seen by the calls they make

    A program whose logic is the order of its calls and what it does with their
    results is written over an operation [os] that makes a call.  [tracing answers]
    is the kernel that answers a call as the function [answers] says, which may look
    at all earlier calls, and records calls and answers: a theorem for all [answers]
    holds for every kernel.  A kernel with a clock that goes on is [clock_goes]. *)
From Stdlib Require Import ZArith Lia Bool.
From stdpp Require Import base tactics list.
From S2P Require Import Prelude Exits.

Class Os (C K : Type) := os : C -> M K Z.

(** A call in a program that may exit. *)
Definition sys {C K} `{!Os C K} (c : C) : E K Z := e_run (os c).

Section tracing.
Context {C : Type}.
Definition trace : Type := list (C * Z).

Definition tracing (answers : trace -> C -> Z) : Os C trace := fun c t =>
  let r := answers t c in Ok (r, (t ++ [(c, r)])%list).

Context (answers : trace -> C -> Z).
#[local] Instance the_os : Os C trace := tracing answers.

Lemma wp_call {B} c (k : Z -> E trace B) (t : trace) Q :
  wp (k (answers t c)) (t ++ [(c, answers t c)])%list Q -> wp (e_bind (sys c) k) t Q.
Proof. exact id. Qed.

Lemma wp_sys {B} c (k : Z -> E trace B) (t : trace) Q :
  (forall r, wp (k r) (t ++ [(c, r)])%list Q) -> wp (e_bind (sys c) k) t Q.
Proof. intros HQ. by apply wp_call. Qed.

(** [adds t m Q]: run from the trace [t], [m] returns, and [Q] holds of the result and
    of what the run has added to the trace. *)
Definition adds {A} (t : trace) (m : E trace A) (Q : Z + A -> trace -> Prop) : Prop :=
  wp m t (fun r t' => exists u, t' = (t ++ u)%list /\ Q r u).

Lemma adds_run {A} (m : E trace A) Q : adds [] m Q -> exists r t, m [] = Ok (r, t) /\ Q r t.
Proof.
  unfold adds, wp. destruct (m []) as [[r t]| |]; [|done|done]. intros (u & -> & HQ). by exists r, u.
Qed.

Lemma adds_ret {A} t (a : A) (Q : Z + A -> trace -> Prop) : Q (inr a) [] -> adds t (e_ret a) Q.
Proof. intros HQ. exists []. by rewrite app_nil_r. Qed.

Lemma adds_exit {A} t code (Q : Z + A -> trace -> Prop) : Q (inl code) [] -> adds t (e_exit code) Q.
Proof. intros HQ. exists []. by rewrite app_nil_r. Qed.

Lemma adds_mono {A} t (m : E trace A) (P Q : Z + A -> trace -> Prop) : adds t m P -> (forall r u, P r u -> Q r u) -> adds t m Q.
Proof. intros Hm H. eapply wp_mono; [exact Hm|]. intros r t' (u & -> & HP). eauto. Qed.

Lemma adds_bind {A B} t (m : E trace A) (k : A -> E trace B) (P : Z + A -> trace -> Prop) Q :
  adds t m P -> (forall code u, P (inl code) u -> Q (inl code) u) ->
  (forall a u, P (inr a) u -> adds (t ++ u) (k a) (fun r v => Q r (u ++ v))%list) -> adds t (e_bind m k) Q.
Proof.
  intros Hm Hx Hk. apply wp_e_bind. eapply wp_mono; [exact Hm|].
  intros [code|a] t' (u & -> & HP); cbn [either]; [eauto|].
  eapply wp_mono; [by apply Hk|]. intros r t' (v & -> & HQ). exists (u ++ v)%list. by rewrite (assoc_L (++)).
Qed.

Lemma adds_call {B} t c (k : Z -> E trace B) Q :
  adds (t ++ [(c, answers t c)]) (k (answers t c)) (fun r v => Q r ((c, answers t c) :: v)) -> adds t (e_bind (sys c) k) Q.
Proof.
  intros Hk. apply wp_call. eapply wp_mono; [exact Hk|]. intros r t' (v & -> & HQ). eexists. split; [|exact HQ].
  by rewrite <- (assoc_L (++)).
Qed.

(** Only what the answer is matters. *)
Lemma adds_sys {B} t c (k : Z -> E trace B) Q :
  (forall r, adds (t ++ [(c, r)]) (k r) (fun x v => Q x ((c, r) :: v))) -> adds t (e_bind (sys c) k) Q.
Proof. intros Hk. by apply adds_call. Qed.

(** A clock: the call [tick], told by [is_tick], whose answers depend on how often it was
    looked at before, go on, by [step] at the latest in [k] looks. *)
Definition looks (is_tick : C -> bool) (t : trace) : nat := length (List.filter (fun e => is_tick e.1) t).

Lemma looks_app is_tick t u : looks is_tick (t ++ u) = (looks is_tick t + looks is_tick u)%nat.
Proof. unfold looks. by rewrite List.filter_app, length_app. Qed.

Record clock_goes (is_tick : C -> bool) (tick : C) (clock : nat -> Z) (step : Z) (k : nat) : Prop := {
  clock_answers t : answers t tick = clock (looks is_tick t);
  clock_mono i j : (i <= j)%nat -> 0 <= clock i <= clock j;
  clock_bound i : clock i < 2 ^ 64;
  clock_step i : step <= clock (i + k)%nat - clock i
}.

(** The clock as a 64-bit number of microseconds. *)
Lemma adds_tick {B} is_tick tick clock step k t (f : Z -> E trace B) Q : clock_goes is_tick tick clock step k ->
  adds (t ++ [(tick, clock (looks is_tick t))]) (f (clock (looks is_tick t))) (fun r v => Q r ((tick, clock (looks is_tick t)) :: v)) ->
  adds t (e_bind (e_bind (sys tick) (fun tm => e_ret (u64 tm))) f) Q.
Proof.
  intros Hc Hf. refine (adds_call t tick (fun r => f (u64 r)) Q _).
  rewrite (clock_answers _ _ _ _ _ Hc), u64_small; [exact Hf|].
  pose proof (clock_bound _ _ _ _ _ Hc (looks is_tick t)). destruct (clock_mono _ _ _ _ _ Hc (looks is_tick t) (looks is_tick t)); lia.
Qed.

(** [m] returns, whatever it does. *)
Definition returns {A} (t : trace) (m : E trace A) : Prop := adds t m (fun _ _ => True).

Lemma returns_bind {A B} t (m : E trace A) (k : A -> E trace B) :
  returns t m -> (forall a u, returns (t ++ u) (k a)) -> returns t (e_bind m k).
Proof. intros Hm Hk. eapply adds_bind; [exact Hm|done|]. intros a u _. eapply adds_mono; [apply Hk|done]. Qed.

Lemma returns_for_each {A} (l : list A) (f : A -> E trace unit) :
  (forall x t, x ∈ l -> returns t (f x)) -> forall t, returns t (e_for_each l f).
Proof.
  induction l as [|x l IH]; intros Hf t; cbn [e_for_each]; [by apply adds_ret|].
  apply returns_bind; [apply Hf, list_elem_of_here|]. intros [] u. apply IH. intros y t' Hy. apply Hf. by apply list_elem_of_further.
Qed.
End tracing.
Arguments trace C : clear implicits.
