(* ===== verification/Steps.v ===== *)
(** * Step relations: reachable states and what must happen

    The programs with several processes or threads are step relations; a state is
    stuck when no step leads on from it. *)
From Stdlib Require Import Arith Lia Wf_nat.
From stdpp Require Import base tactics.

Section steps.
Context {S : Type} (R : S -> S -> Prop).

Inductive reach (start : S) : S -> Prop :=
| reach_start : reach start start
| reach_step s s' : reach start s -> R s s' -> reach start s'.

Lemma reach_first s s' s'' : R s s' -> reach s' s'' -> reach s s''.
Proof. intros Hs. induction 1; eauto using reach. Qed.

(** Whatever steps are taken, none of the states on the way is stuck and one with [Q]
    is reached. *)
Inductive inevitable (Q : S -> Prop) (s : S) : Prop :=
| inevitable_now : Q s -> inevitable Q s
| inevitable_later s1 : R s s1 -> (forall s', R s s' -> inevitable Q s') -> inevitable Q s.

Lemma inevitable_mono (P Q : S -> Prop) s : (forall x, P x -> Q x) -> inevitable P s -> inevitable Q s.
Proof. intros HPQ. induction 1; [by apply inevitable_now, HPQ|by eapply inevitable_later]. Qed.

Lemma reach_invariant (I : S -> Prop) start : I start -> (forall s s', I s -> R s s' -> I s') ->
  forall s, reach start s -> I s.
Proof. intros H0 Hs s. induction 1; eauto. Qed.

(** It must happen when an invariant holds, some measure falls with every step, and
    the states of the invariant that are stuck have [Q]. *)
Lemma inevitable_measure (I : S -> Prop) (rank : S -> nat) (Q : S -> Prop) :
  (forall s s', I s -> R s s' -> I s' /\ (rank s' < rank s)%nat) ->
  (forall s, I s -> Q s \/ exists s', R s s') ->
  forall s, I s -> inevitable Q s.
Proof.
  intros Hstep Hprog s. remember (rank s) as n eqn:Hn. revert s Hn.
  induction n as [n IH] using lt_wf_ind. intros s -> Hi.
  destruct (Hprog s Hi) as [Hq|[s1 Hs1]]; [by apply inevitable_now|].
  eapply inevitable_later; [exact Hs1|]. intros s' Hs'. destruct (Hstep s s' Hi Hs') as [Hi' Hr]. by eapply IH.
Qed.
End steps.
