(* ===== verification/MemIsZero.v ===== *)
(** * memiszero.c: is a memory block all zero?

    [memiszero] and [memiszero_32] read single bytes up to the first word
    boundary, then whole words, then the bytes left after the last word
    boundary; [memiszero_loop] reads byte by byte.  A block of memory is a
    base address with its bytes; an access outside of it, or a word access
    that is not aligned, is a [Fault].  The theorems say that on every
    address and length inside the block the three functions stay inside it
    and answer 1 exactly when every byte is zero. *)
From Stdlib Require Import ZArith Lia Bool.
From stdpp Require Import base tactics list.
From S2P Require Import Prelude.


Record block := { blk_base : Z; blk_data : list Z }.

Definition read_u8 (b : block) (a : Z) : res Z :=
  if a <? blk_base b then Fault
  else match blk_data b !! Z.to_nat (a - blk_base b) with
       | Some v => Ok v
       | None => Fault
       end.

(** Little-endian load of [w] bytes. *)
Fixpoint read_le (w : nat) (b : block) (a : Z) : res Z :=
  match w with
  | O => mret 0
  | S w => v ← read_u8 b a; r ← read_le w b (a + 1); mret (v + 256 * r)
  end.

Definition read_word (w : Z) (b : block) (a : Z) : res Z :=
  if a mod w =? 0 then read_le (Z.to_nat w) b a else Fault.

(** [cnt] consecutive [z |= *( __u8 const * ) p++;] statements: what a
    [switch] with [cnt] labels left to fall through executes. *)
Fixpoint or_bytes (cnt : nat) (b : block) (p z : Z) : res (Z * Z) :=
  match cnt with
  | O => mret (p, z)
  | S cnt => v ← read_u8 b p; or_bytes cnt b (p + 1) (Z.lor z v)
  end.

(** [for (; p < t; p += w) if ( *(word * ) p) return 0;]: [None] is the early
    return, [Some p] the pointer when the loop ends. *)
Fixpoint word_loop (fuel : nat) (w : Z) (b : block) (p t : Z) : res (option Z) :=
  match fuel with
  | O => NoFuel
  | S fuel =>
    if p <? t then
      v ← read_word w b p;
      if v =? 0 then word_loop fuel w b (p + w) t else mret None
    else mret (Some p)
  end.

(** [return !z;] *)
Definition c_not (z : Z) : Z := if z =? 0 then 1 else 0.

Definition memiszero (b : block) (p n : Z) : res Z :=
  if n <? 8 then
    pz ← or_bytes (Z.to_nat n) b p 0;
    mret (c_not pz.2)
  else
    let t := Z.land (u64 (p + n)) (Z.lnot 7) in
    let n' := Z.land (u64 (p + n)) 7 in
    pz ← (if Z.land p 7 =? 0 then mret (p, 0)
          else or_bytes (Z.to_nat (8 - Z.land p 7)) b p 0);
    if negb (pz.2 =? 0) then mret 0 else
    r ← word_loop (S (Z.to_nat n)) 8 b pz.1 t;
    match r with
    | None => mret 0
    | Some p' =>
      qz ← or_bytes (Z.to_nat n') b p' pz.2;
      mret (c_not qz.2)
    end.

Definition memiszero_32 (b : block) (p n : Z) : res Z :=
  if n <? 4 then
    pz ← or_bytes (Z.to_nat n) b p 0;
    mret (c_not pz.2)
  else
    let t := Z.land (u64 (p + n)) (Z.lnot 3) in
    let n' := Z.land (u64 (p + n)) 3 in
    pz ← (if Z.land p 3 =? 0 then mret (p, 0)
          else or_bytes (Z.to_nat (4 - Z.land p 3)) b p 0);
    if negb (pz.2 =? 0) then mret 0 else
    r ← word_loop (S (Z.to_nat n)) 4 b pz.1 t;
    match r with
    | None => mret 0
    | Some p' =>
      qz ← or_bytes (Z.to_nat n') b p' pz.2;
      mret (c_not qz.2)
    end.

Fixpoint byte_loop (fuel : nat) (b : block) (p t : Z) : res Z :=
  match fuel with
  | O => NoFuel
  | S fuel =>
    if p <? t then
      v ← read_u8 b p;
      if v =? 0 then byte_loop fuel b (p + 1) t else mret 0
    else mret 1
  end.

Definition memiszero_loop (b : block) (p n : Z) : res Z :=
  byte_loop (S (Z.to_nat n)) b p (p + n).

(** ** Specification *)

(** A C object: its bytes are bytes and it ends below the top of memory. *)
Definition block_ok (b : block) : Prop :=
  0 < blk_base b /\ blk_base b + Z.of_nat (length (blk_data b)) < 2 ^ 64 /\
  Forall (fun v => 0 <= v < 256) (blk_data b).

Definition in_block (b : block) (p n : Z) : Prop :=
  blk_base b <= p /\ 0 <= n /\ p + n <= blk_base b + Z.of_nat (length (blk_data b)).

(** The [n] bytes from address [p] on. *)
Definition slice (b : block) (p n : Z) : list Z :=
  take (Z.to_nat n) (drop (Z.to_nat (p - blk_base b)) (blk_data b)).

Definition all_zero (b : block) (p n : Z) : bool := forallb (Z.eqb 0) (slice b p n).

(** ** Lemmas *)
Lemma all_zero_S b p n :
  block_ok b -> in_block b p (1 + n) -> 0 <= n ->
  exists v, all_zero b p (1 + n) = (v =? 0) && all_zero b (p + 1) n /\
            read_u8 b p = Ok v /\ 0 <= v < 256.
Proof.
  intros (_ & _ & Hb) (H1 & H2 & H3) Hn. unfold all_zero, slice, read_u8.
  destruct (lookup_lt_is_Some_2 (blk_data b) (Z.to_nat (p - blk_base b))) as [v Hv]; [lia|].
  exists v. rewrite Hv. rewrite (proj2 (Z.ltb_ge _ _)) by lia.
  pose proof (Forall_lookup_1 _ _ _ _ Hb Hv). split; [|done].
  replace (Z.to_nat (1 + n)) with (S (Z.to_nat n)) by lia.
  rewrite (drop_S _ v) by done. cbn [take forallb]. rewrite Z.eqb_sym.
  do 4 f_equal. lia.
Qed.

Lemma all_zero_app b p n m : 0 <= n -> 0 <= m -> blk_base b <= p ->
  all_zero b p (n + m) = all_zero b p n && all_zero b (p + n) m.
Proof.
  intros. unfold all_zero. rewrite <- forallb_app. f_equal. unfold slice.
  replace (Z.to_nat (p + n - blk_base b)) with (Z.to_nat (p - blk_base b) + Z.to_nat n)%nat by lia.
  rewrite <- drop_drop. rewrite Z2Nat.inj_add by lia.
  rewrite <- (take_drop (Z.to_nat n) (take (Z.to_nat n + Z.to_nat m) _)).
  rewrite take_take, Nat.min_l by lia. by rewrite skipn_firstn_comm, Nat.add_comm, Nat.add_sub.
Qed.

Lemma all_zero_0 b p : all_zero b p 0 = true.
Proof. done. Qed.

Lemma or_bytes_ok b cnt p z :
  block_ok b -> in_block b p (Z.of_nat cnt) ->
  exists z', or_bytes cnt b p z = Ok (p + Z.of_nat cnt, z') /\
    (z' = 0 <-> z = 0 /\ all_zero b p (Z.of_nat cnt) = true).
Proof.
  intros Hb. revert p z. induction cnt as [|cnt IH]; intros p z Hin.
  { exists z. rewrite Z.add_0_r. tauto. }
  rewrite Nat2Z.inj_succ, <- Z.add_1_l in *.
  destruct (all_zero_S b p (Z.of_nat cnt)) as (v & Hs & Hr & Hv); [done..|lia|].
  destruct (IH (p + 1) (Z.lor z v)) as (z' & He & Hz); [unfold in_block in *; lia|].
  exists z'. cbn [or_bytes]. rewrite Hr. simpl mbind. rewrite He. split; [do 2 f_equal; lia|].
  rewrite Hz, lor_eq_0, Hs, andb_true_iff, Z.eqb_eq. tauto.
Qed.

Lemma read_le_ok b w a :
  block_ok b -> in_block b a (Z.of_nat w) ->
  exists v, read_le w b a = Ok v /\ 0 <= v /\
    (v = 0 <-> all_zero b a (Z.of_nat w) = true).
Proof.
  intros Hb. revert a. induction w as [|w IH]; intros a Hin.
  { exists 0. split; [done|]. split; [done|]. done. }
  rewrite Nat2Z.inj_succ, <- Z.add_1_l in *.
  destruct (all_zero_S b a (Z.of_nat w)) as (v & Hs & Hr & Hv); [done..|lia|].
  destruct (IH (a + 1)) as (r & He & Hr0 & Hz); [unfold in_block in *; lia|].
  exists (v + 256 * r). cbn [read_le]. rewrite Hr. simpl mbind. rewrite He.
  split; [done|]. split; [lia|]. rewrite Hs, andb_true_iff, Z.eqb_eq, <- Hz. lia.
Qed.

Lemma word_loop_ok b w p t k fuel :
  block_ok b -> 0 < w -> p mod w = 0 -> 0 <= k -> t = p + w * k -> in_block b p (t - p) ->
  (Z.to_nat k < fuel)%nat ->
  word_loop fuel w b p t = Ok (if all_zero b p (t - p) then Some t else None).
Proof.
  intros Hb Hw Hp Hk -> Hin Hf. replace (p + w * k - p) with (w * k) in * by lia.
  revert p k Hp Hk Hin Hf. induction fuel as [|fuel IH]; intros p k Hp Hk Hin Hf; [lia|].
  simpl. destruct (Z.ltb_spec p (p + w * k)) as [Hlt|Hge].
  - assert (0 < k) by nia. replace (w * k) with (w + w * (k - 1)) in * by lia.
    destruct (read_le_ok b (Z.to_nat w) p) as (v & Hr & _ & Hz);
      [done|unfold in_block in *; nia|].
    rewrite Z2Nat.id in Hz by lia. rewrite all_zero_app by (unfold in_block in *; nia).
    unfold read_word. rewrite Hp. simpl. rewrite Hr. simpl.
    destruct (Z.eqb_spec v 0) as [->|Hne].
    + rewrite (proj1 Hz eq_refl). rewrite Z.add_assoc. rewrite IH.
      * simpl. by replace (p + w + w * (k - 1)) with (p + (w + w * (k - 1))) by lia.
      * by rewrite <- Z.add_mod_idemp_r, Z_mod_same_full, Z.add_0_r by lia.
      * lia.
      * unfold in_block in *. nia.
      * lia.
    + destruct (all_zero b p w); [tauto|done].
  - assert (k = 0) as -> by nia. rewrite Z.mul_0_r, Z.add_0_r. done.
Qed.

(** Both optimised functions are this one, at word sizes 8 and 4. *)
Lemma word_scan_ok b p n s :
  0 < s -> block_ok b -> in_block b p n -> 2 ^ s <= n ->
  (let w := 2 ^ s in
   let t := Z.land (u64 (p + n)) (Z.lnot (w - 1)) in
   let n' := Z.land (u64 (p + n)) (w - 1) in
   pz ← (if Z.land p (w - 1) =? 0 then mret (p, 0)
         else or_bytes (Z.to_nat (w - Z.land p (w - 1))) b p 0);
   if negb (pz.2 =? 0) then mret 0 else
   r ← word_loop (S (Z.to_nat n)) w b pz.1 t;
   match r with
   | None => mret 0
   | Some p' =>
     qz ← or_bytes (Z.to_nat n') b p' pz.2;
     mret (c_not qz.2)
   end) = Ok (if all_zero b p n then 1 else 0).
Proof.
  intros Hs Hb Hin Hn. cbv zeta.
  pose proof Hb as (Hb1 & Hb2 & _). pose proof Hin as (Hi1 & Hi2 & Hi3).
  rewrite !u64_small, land_high_mask, !land_low_mask by lia.
  assert (Hw : 0 < 2 ^ s) by (apply Z.pow_pos_nonneg; lia).
  set (w := 2 ^ s) in *.
  set (h := if p mod w =? 0 then 0 else w - p mod w).
  pose proof (Z.mod_pos_bound p w Hw). pose proof (Z.mod_pos_bound (p + n) w Hw).
  assert (Hh : 0 <= h < w /\ (p + h) mod w = 0).
  { subst h. destruct (Z.eqb_spec (p mod w) 0); [rewrite Z.add_0_r; lia|].
    split; [lia|]. rewrite (Z.div_mod p w) at 1 by lia.
    replace (w * (p / w) + p mod w + (w - p mod w)) with ((p / w + 1) * w) by lia.
    apply Z.mod_mul. lia. }
  set (m := (p + n) mod w) in *. set (t := p + n - m) in *.
  assert (exists k, 0 <= k /\ t = p + h + w * k) as (k & Hk & Ht).
  { exists ((p + n) / w - (p + h) / w).
    pose proof (Z.div_mod (p + n) w). pose proof (Z.div_mod (p + h) w).
    assert ((p + h) / w <= (p + n) / w) by (apply Z.div_le_mono; lia).
    subst t m. lia. }
  assert (Hph : p + h <= t) by nia.
  assert (Hmh : 0 <= m) by (subst m; lia).
  assert (Hn' : n = h + ((t - (p + h)) + m)) by (subst t; lia).
  destruct (or_bytes_ok b (Z.to_nat h) p 0) as (z & Hz1 & Hz2);
    [done|unfold in_block; lia|].
  rewrite Z2Nat.id in * by lia.
  replace (if p mod w =? 0 then mret (p, 0) else or_bytes (Z.to_nat (w - p mod w)) b p 0)
    with (@Ok (Z * Z) (p + h, z)); cycle 1.
  { rewrite <- Hz1. subst h. by destruct (Z.eqb_spec (p mod w) 0). }
  cbn [mbind res_bind fst snd].
  rewrite Hn' at 2. rewrite all_zero_app, all_zero_app by lia.
  replace (p + h + (t - (p + h))) with t by lia.
  destruct (Z.eqb_spec z 0) as [->|Hz]; cbn [negb]; cycle 1.
  { destruct (all_zero b p h); [tauto|done]. }
  rewrite (proj2 (proj1 Hz2 eq_refl)), andb_true_l.
  rewrite (word_loop_ok b w (p + h) t k) by (unfold in_block; first [done | lia | nia]).
  simpl. destruct (all_zero b (p + h) (t - (p + h))); [|done]. simpl.
  destruct (or_bytes_ok b (Z.to_nat m) t 0) as (z' & Hz1' & Hz2');
    [done|unfold in_block; lia|].
  rewrite Z2Nat.id in * by lia. rewrite Hz1'. simpl. unfold c_not.
  destruct (Z.eqb_spec z' 0) as [->|Hz']; [by rewrite (proj2 (proj1 Hz2' eq_refl))|].
  destruct (all_zero b t m); tauto.
Qed.

Lemma short_scan_ok b p n :
  block_ok b -> in_block b p n ->
  (pz ← or_bytes (Z.to_nat n) b p 0; mret (c_not pz.2)) =
  Ok (if all_zero b p n then 1 else 0).
Proof.
  intros Hb Hin. pose proof Hin as (_ & Hn & _).
  destruct (or_bytes_ok b (Z.to_nat n) p 0) as (z & Hz1 & Hz2); [done|by rewrite Z2Nat.id|].
  rewrite Hz1. simpl. rewrite Z2Nat.id in Hz2 by done. unfold c_not.
  destruct (Z.eqb_spec z 0) as [->|Hz]; [by rewrite (proj2 (proj1 Hz2 eq_refl))|].
  destruct (all_zero b p n); tauto.
Qed.

Lemma byte_loop_ok b p n fuel :
  block_ok b -> in_block b p n -> (Z.to_nat n < fuel)%nat ->
  byte_loop fuel b p (p + n) = Ok (if all_zero b p n then 1 else 0).
Proof.
  intros Hb. revert p n. induction fuel as [|fuel IH]; intros p n Hin Hf; [lia|].
  pose proof Hin as (_ & Hn & _). simpl. destruct (Z.ltb_spec p (p + n)) as [Hlt|Hge].
  - replace n with (1 + (n - 1)) in * by lia.
    destruct (all_zero_S b p (n - 1)) as (v & Hs & Hr & Hv); [done..|lia|].
    rewrite Hr, Hs. simpl. destruct (Z.eqb_spec v 0) as [Hv0|]; [|done]. rewrite Z.add_assoc.
    rewrite IH; [done|unfold in_block in *; lia|lia].
  - replace n with 0 by lia. done.
Qed.

(** ** Properties *)

(** What each of the three scans answers. *)
Lemma scans_ok (b : block) (p n : Z) : block_ok b -> in_block b p n -> forall scan, scan ∈ [memiszero; memiszero_32; memiszero_loop] ->
  scan b p n = Ok (if all_zero b p n then 1 else 0).
Proof.
  intros Hb Hin scan. rewrite !elem_of_cons, elem_of_nil. intros [->|[->|[->|[]]]].
  - unfold memiszero. destruct (Z.ltb_spec n 8); [by apply short_scan_ok|]. by apply (word_scan_ok b p n 3).
  - unfold memiszero_32. destruct (Z.ltb_spec n 4); [by apply short_scan_ok|]. by apply (word_scan_ok b p n 2).
  - unfold memiszero_loop. by apply byte_loop_ok; [..|lia].
Qed.

(** C27: on every block of memory and every address and length inside it,
    [memiszero] terminates, touches only bytes of the range (whole words only
    at aligned addresses), and answers 1 exactly when all of them are zero. *)
Theorem memiszero_correct (b : block) (p n : Z) :
  block_ok b -> in_block b p n ->
  memiszero b p n = Ok (if all_zero b p n then 1 else 0).
Proof.
  intros Hb Hin. by apply scans_ok; [..|left].
Qed.

Lemma memiszero_correct_witness :
  let b := {| blk_base := 1003; blk_data := replicate 20 0 ++ [7] |} in
  memiszero b 1003 20 = Ok 1 /\ memiszero b 1004 20 = Ok 0.
Proof.
  split.
  - rewrite memiszero_correct; [reflexivity| |vm_compute; repeat split; discriminate].
    split_and!; [reflexivity..|]. repeat constructor; lia.
  - rewrite memiszero_correct; [reflexivity| |vm_compute; repeat split; discriminate].
    split_and!; [reflexivity..|]. repeat constructor; lia.
Defined.

(** C36: the 32-bit and the 64-bit scans and the byte loop are equivalent on
    every range of a block. *)
Theorem memiszero_variants_agree (b : block) (p n : Z) :
  block_ok b -> in_block b p n ->
  memiszero_32 b p n = memiszero_loop b p n /\ memiszero b p n = memiszero_loop b p n.
Proof.
  intros Hb Hin. rewrite !(scans_ok b p n Hb Hin) by (rewrite !elem_of_cons; auto). done.
Qed.

Lemma memiszero_variants_agree_witness :
  let b := {| blk_base := 1003; blk_data := replicate 20 0 ++ [7] |} in
  memiszero_32 b 1005 19 = memiszero_loop b 1005 19 /\
  memiszero b 1005 19 = memiszero_loop b 1005 19.
Proof.
  apply memiszero_variants_agree; [|vm_compute; repeat split; discriminate].
  split_and!; [reflexivity..|]. repeat constructor; lia.
Defined.

