(* ===== verification/RbTree.v ===== *)
(** * smart-queue.c: the red-black tree code, as it manipulates memory

    Nodes live at integer addresses in a finite map.  As in the C code the
    parent pointer and the colour share one machine word: nodes are aligned to
    8 bytes, the two low bits of the address are free and bit 0 holds the
    colour (0 red, 1 black).  A dereference of the null pointer or of an
    address that holds no node is a [Fault]; loops take fuel. *)
From Stdlib Require Import ZArith Lia Bool.
From stdpp Require Import base tactics list gmap.
From S2P Require Import Prelude.

Record rb_node := mk_rb {
  rb_parent_color : Z;
  rb_right : Z;
  rb_left : Z
}.

(** The nodes of the program and the one [struct rb_root] in use. *)
Record rb_heap := mk_heap {
  rb_nodes : gmap Z rb_node;
  rb_root : Z
}.

Definition RB_RED : Z := 0.
Definition RB_BLACK : Z := 1.
Definition NULL : Z := 0.

Abbreviation RB := (M rb_heap).

(** ** Memory accesses *)
Definition load (p : Z) : RB rb_node := fun h =>
  if p =? NULL then Fault
  else match rb_nodes h !! p with Some n => Ok (n, h) | None => Fault end.

Definition update (p : Z) (f : rb_node -> rb_node) : RB unit :=
  n ← load p;
  puts (fun h => mk_heap (<[p := f n]> (rb_nodes h)) (rb_root h)).

Definition get_left (p : Z) : RB Z := n ← load p; mret (rb_left n).
Definition get_right (p : Z) : RB Z := n ← load p; mret (rb_right n).
Definition set_left (p v : Z) : RB unit :=
  update p (fun n => mk_rb (rb_parent_color n) (rb_right n) v).
Definition set_right (p v : Z) : RB unit :=
  update p (fun n => mk_rb (rb_parent_color n) v (rb_left n)).
Definition get_root : RB Z := gets rb_root.
Definition set_root (v : Z) : RB unit := puts (fun h => mk_heap (rb_nodes h) v).

Definition get_pc (p : Z) : RB Z := n ← load p; mret (rb_parent_color n).
Definition set_pc (p v : Z) : RB unit :=
  update p (fun n => mk_rb v (rb_right n) (rb_left n)).

(** ** The macros and inline functions *)
Definition rb_parent (p : Z) : RB Z := w ← get_pc p; mret (Z.land w (Z.lnot 3)).
Definition rb_color (p : Z) : RB Z := w ← get_pc p; mret (Z.land w 1).
Definition rb_is_red (p : Z) : RB bool := c ← rb_color p; mret (c =? 0).
Definition rb_is_black (p : Z) : RB bool := c ← rb_color p; mret (negb (c =? 0)).
Definition rb_set_red (p : Z) : RB unit := w ← get_pc p; set_pc p (Z.land w (Z.lnot 1)).
Definition rb_set_black (p : Z) : RB unit := w ← get_pc p; set_pc p (Z.lor w 1).
Definition rb_set_parent (p q : Z) : RB unit :=
  w ← get_pc p; set_pc p (Z.lor (Z.land w 3) q).
Definition rb_set_color (p c : Z) : RB unit :=
  w ← get_pc p; set_pc p (Z.lor (Z.land w (Z.lnot 1)) c).

Definition RB_EMPTY_ROOT : RB bool := r ← gets rb_root; mret (r =? NULL).
Definition RB_EMPTY_NODE (p : Z) : RB bool := q ← rb_parent p; mret (q =? p).
Definition RB_CLEAR_NODE (p : Z) : RB unit := rb_set_parent p p.

(** [!p || rb_is_black(p)] and [p && rb_is_red(p)] *)
Definition null_or_black (p : Z) : RB bool :=
  if p =? NULL then mret true else rb_is_black p.
Definition nonnull_red (p : Z) : RB bool :=
  if p =? NULL then mret false else rb_is_red p.

(** The places a [struct rb_node **] of this code points to. *)
Inductive rb_link := LRoot | LLeft (p : Z) | LRight (p : Z).

Definition get_link (l : rb_link) : RB Z :=
  match l with LRoot => get_root | LLeft p => get_left p | LRight p => get_right p end.
Definition set_link (l : rb_link) (v : Z) : RB unit :=
  match l with LRoot => set_root v | LLeft p => set_left p v | LRight p => set_right p v end.

Definition rb_link_node (node parent : Z) (l : rb_link) : RB unit :=
  set_pc node parent;;
  set_right node NULL;;
  set_left node NULL;;
  set_link l node.

(** ** Rotations *)
Definition __rb_rotate_left (node : Z) : RB unit :=
  right ← get_right node;
  parent ← rb_parent node;
  rl ← get_left right;
  set_right node rl;;
  (if negb (rl =? NULL) then
     rl' ← get_left right; rb_set_parent rl' node
   else mret tt);;
  set_left right node;;
  rb_set_parent right parent;;
  (if negb (parent =? NULL) then
     pl ← get_left parent;
     if node =? pl then set_left parent right else set_right parent right
   else set_root right);;
  rb_set_parent node right.

Definition __rb_rotate_right (node : Z) : RB unit :=
  left ← get_left node;
  parent ← rb_parent node;
  lr ← get_right left;
  set_left node lr;;
  (if negb (lr =? NULL) then
     lr' ← get_right left; rb_set_parent lr' node
   else mret tt);;
  set_right left node;;
  rb_set_parent left parent;;
  (if negb (parent =? NULL) then
     pr ← get_right parent;
     if node =? pr then set_right parent left else set_left parent left
   else set_root left);;
  rb_set_parent node left.

(** ** Insertion *)
Fixpoint insert_color_loop (fuel : nat) (node : Z) : RB unit :=
  match fuel with
  | O => nofuel
  | S fuel =>
    parent ← rb_parent node;
    if parent =? NULL then mret tt else
    pred ← rb_is_red parent;
    if negb pred then mret tt else
    gparent ← rb_parent parent;
    gl ← get_left gparent;
    if parent =? gl then
      uncle ← get_right gparent;
      ured ← nonnull_red uncle;
      if (ured : bool) then
        rb_set_black uncle;; rb_set_black parent;; rb_set_red gparent;;
        insert_color_loop fuel gparent
      else
        pr ← get_right parent;
        np ← (if pr =? node then __rb_rotate_left parent;; mret (parent, node)
              else mret (node, parent));
        rb_set_black np.2;; rb_set_red gparent;;
        __rb_rotate_right gparent;;
        insert_color_loop fuel np.1
    else
      uncle ← get_left gparent;
      ured ← nonnull_red uncle;
      if (ured : bool) then
        rb_set_black uncle;; rb_set_black parent;; rb_set_red gparent;;
        insert_color_loop fuel gparent
      else
        pl ← get_left parent;
        np ← (if pl =? node then __rb_rotate_right parent;; mret (parent, node)
              else mret (node, parent));
        rb_set_black np.2;; rb_set_red gparent;;
        __rb_rotate_left gparent;;
        insert_color_loop fuel np.1
  end.

Definition rb_insert_color (fuel : nat) (node : Z) : RB unit :=
  insert_color_loop fuel node;;
  r ← get_root; rb_set_black r.

(** ** Removal *)

(** [(!other->rb_left || rb_is_black(other->rb_left)) &&
     (!other->rb_right || rb_is_black(other->rb_right))] *)
Definition both_black (other : Z) : RB bool :=
  ol ← get_left other; olb ← null_or_black ol;
  if (olb : bool) then or ← get_right other; null_or_black or else mret false.

(** The result is the final value of [node]. *)
Fixpoint erase_color_loop (fuel : nat) (node parent : Z) : RB Z :=
  match fuel with
  | O => nofuel
  | S fuel =>
    nb ← null_or_black node;
    root ← get_root;
    if negb (nb && negb (node =? root)) then mret node else
    pl ← get_left parent;
    if pl =? node then
      other0 ← get_right parent;
      ored ← rb_is_red other0;
      other ← (if (ored : bool) then
                 rb_set_black other0;; rb_set_red parent;;
                 __rb_rotate_left parent;; get_right parent
               else mret other0);
      both ← both_black other;
      if (both : bool) then
        rb_set_red other;;
        gp ← rb_parent parent;
        erase_color_loop fuel parent gp
      else
        or ← get_right other; orb ← null_or_black or;
        other' ← (if (orb : bool) then
                    ol ← get_left other;
                    (if negb (ol =? NULL) then rb_set_black ol else mret tt);;
                    rb_set_red other;;
                    __rb_rotate_right other;; get_right parent
                  else mret other);
        pc ← rb_color parent;
        rb_set_color other' pc;;
        rb_set_black parent;;
        or' ← get_right other';
        (if negb (or' =? NULL) then rb_set_black or' else mret tt);;
        __rb_rotate_left parent;;
        get_root
    else
      other0 ← get_left parent;
      ored ← rb_is_red other0;
      other ← (if (ored : bool) then
                 rb_set_black other0;; rb_set_red parent;;
                 __rb_rotate_right parent;; get_left parent
               else mret other0);
      both ← both_black other;
      if (both : bool) then
        rb_set_red other;;
        gp ← rb_parent parent;
        erase_color_loop fuel parent gp
      else
        ol ← get_left other; olb ← null_or_black ol;
        other' ← (if (olb : bool) then
                    or ← get_right other;
                    (if negb (or =? NULL) then rb_set_black or else mret tt);;
                    rb_set_red other;;
                    __rb_rotate_left other;; get_left parent
                  else mret other);
        pc ← rb_color parent;
        rb_set_color other' pc;;
        rb_set_black parent;;
        ol' ← get_left other';
        (if negb (ol' =? NULL) then rb_set_black ol' else mret tt);;
        __rb_rotate_right parent;;
        get_root
  end.

Definition __rb_erase_color (fuel : nat) (node parent : Z) : RB unit :=
  n ← erase_color_loop fuel node parent;
  if negb (n =? NULL) then rb_set_black n else mret tt.

(** [while ((left = node->rb_left) != NULL) node = left;] *)
Fixpoint go_left (fuel : nat) (node : Z) : RB Z :=
  match fuel with
  | O => nofuel
  | S fuel =>
    left ← get_left node;
    if left =? NULL then mret node else go_left fuel left
  end.

Fixpoint go_right (fuel : nat) (node : Z) : RB Z :=
  match fuel with
  | O => nofuel
  | S fuel =>
    right ← get_right node;
    if right =? NULL then mret node else go_right fuel right
  end.

(** Unlinking a node with at most one child; the result is the [child],
    [parent] and [color] the code has at its label [color]. *)
Definition erase_unlink1 (node child : Z) : RB (Z * Z * Z) :=
  parent ← rb_parent node;
  color ← rb_color node;
  (if negb (child =? NULL) then rb_set_parent child parent else mret tt);;
  (if negb (parent =? NULL) then
     pl ← get_left parent;
     if pl =? node then set_left parent child else set_right parent child
   else set_root child);;
  mret (child, parent, color).

(** Unlinking a node with two children: its successor takes its place. *)
Definition erase_unlink2 (fuel : nat) (old : Z) : RB (Z * Z * Z) :=
  node0 ← get_right old;
  node ← go_left fuel node0;
  child ← get_right node;
  parent0 ← rb_parent node;
  color ← rb_color node;
  (if negb (child =? NULL) then rb_set_parent child parent0 else mret tt);;
  parent ← (if parent0 =? old then set_right parent0 child;; mret node
            else set_left parent0 child;; mret parent0);
  opc ← get_pc old; set_pc node opc;;
  oright ← get_right old; set_right node oright;;
  oleft ← get_left old; set_left node oleft;;
  op ← rb_parent old;
  (if negb (op =? NULL) then
     opl ← get_left op;
     if opl =? old then set_left op node else set_right op node
   else set_root node);;
  oleft' ← get_left old;
  rb_set_parent oleft' node;;
  oright' ← get_right old;
  (if negb (oright' =? NULL) then rb_set_parent oright' node else mret tt);;
  mret (child, parent, color).

Definition rb_erase (fuel : nat) (node : Z) : RB unit :=
  l ← get_left node;
  r ← get_right node;
  cpc ← (if l =? NULL then erase_unlink1 node r
         else if r =? NULL then erase_unlink1 node l
         else erase_unlink2 fuel node);
  if cpc.2 =? RB_BLACK then __rb_erase_color fuel cpc.1.1 cpc.1.2 else mret tt.

(** ** Walking the tree *)
Definition rb_first (fuel : nat) : RB Z :=
  n ← get_root;
  if n =? NULL then mret NULL else go_left fuel n.

Definition rb_last (fuel : nat) : RB Z :=
  n ← get_root;
  if n =? NULL then mret NULL else go_right fuel n.

(** [while ((parent = rb_parent(node)) && node == parent->rb_right) node = parent;] *)
Fixpoint climb_right (fuel : nat) (node : Z) : RB Z :=
  match fuel with
  | O => nofuel
  | S fuel =>
    parent ← rb_parent node;
    if parent =? NULL then mret parent else
    pr ← get_right parent;
    if node =? pr then climb_right fuel parent else mret parent
  end.

Fixpoint climb_left (fuel : nat) (node : Z) : RB Z :=
  match fuel with
  | O => nofuel
  | S fuel =>
    parent ← rb_parent node;
    if parent =? NULL then mret parent else
    pl ← get_left parent;
    if node =? pl then climb_left fuel parent else mret parent
  end.

Definition rb_next (fuel : nat) (node : Z) : RB Z :=
  p ← rb_parent node;
  if p =? node then mret NULL else
  r ← get_right node;
  if negb (r =? NULL) then go_left fuel r else climb_right fuel node.

Definition rb_prev (fuel : nat) (node : Z) : RB Z :=
  p ← rb_parent node;
  if p =? node then mret NULL else
  l ← get_left node;
  if negb (l =? NULL) then go_right fuel l else climb_left fuel node.

Definition rb_replace_node (victim new : Z) : RB unit :=
  parent ← rb_parent victim;
  (if negb (parent =? NULL) then
     pl ← get_left parent;
     if victim =? pl then set_left parent new else set_right parent new
   else set_root new);;
  vl ← get_left victim;
  (if negb (vl =? NULL) then rb_set_parent vl new else mret tt);;
  vr ← get_right victim;
  (if negb (vr =? NULL) then rb_set_parent vr new else mret tt);;
  v ← load victim;
  update new (fun _ => v).
