(* ===== verification/RbShape.v ===== *)
(** * Red-black trees in memory: shapes, contexts and local specifications

    [tree_at h t] relates a heap to a functional tree [t] whose in-order
    sequence of node addresses is [addrs t].  A context [ctx] is a tree with a
    hole; [fill k t] plugs it.  Every memory operation of the balancing code is
    specified at the node under a context, so that the proofs of the loops
    only move the hole and never look at the heap again. *)
From Stdlib Require Import ZArith Lia Bool.
From stdpp Require Import base tactics list gmap.
From S2P Require Import Prelude RbTree.

Inductive color := Red | Black.
#[export] Instance color_eq_dec : EqDecision color.
Proof. solve_decision. Defined.

Inductive tree := E | T (c : color) (l : tree) (p : Z) (r : tree).

Definition root_of (t : tree) : Z := match t with E => NULL | T _ _ p _ => p end.
Definition color_of (t : tree) : color := match t with E => Black | T c _ _ _ => c end.

(** In-order sequence of the node addresses. *)
Fixpoint addrs (t : tree) : list Z :=
  match t with E => [] | T _ l p r => addrs l ++ p :: addrs r end.

Definition bit_of (c : color) : Z := match c with Red => RB_RED | Black => RB_BLACK end.
Definition pack (par : Z) (c : color) : Z := par + bit_of c.

Fixpoint rep (m : gmap Z rb_node) (par : Z) (t : tree) : Prop :=
  match t with
  | E => True
  | T c l p r =>
    m !! p = Some (mk_rb (pack par c) (root_of r) (root_of l)) /\ rep m p l /\ rep m p r
  end.

(** Node addresses are not null and leave the low bits free. *)
Definition aligned (a : Z) : Prop := 0 < a /\ a mod 8 = 0.

Definition tree_at (h : rb_heap) (t : tree) : Prop :=
  rb_root h = root_of t /\ rep (rb_nodes h) NULL t /\
  NoDup (addrs t) /\ Forall aligned (addrs t).

(** ** Contexts *)
Inductive ctx :=
| Top
| CL (c : color) (k : ctx) (p : Z) (r : tree)
| CR (c : color) (k : ctx) (l : tree) (p : Z).

Fixpoint fill (k : ctx) (t : tree) : tree :=
  match k with
  | Top => t
  | CL c k p r => fill k (T c t p r)
  | CR c k l p => fill k (T c l p t)
  end.

Definition ctx_parent (k : ctx) : Z :=
  match k with Top => NULL | CL _ _ p _ => p | CR _ _ _ p => p end.

Fixpoint before (k : ctx) : list Z :=
  match k with
  | Top => []
  | CL _ k _ _ => before k
  | CR _ k l p => before k ++ addrs l ++ [p]
  end.

Fixpoint after (k : ctx) : list Z :=
  match k with
  | Top => []
  | CL _ k p r => p :: addrs r ++ after k
  | CR _ k _ _ => after k
  end.

Fixpoint depth (k : ctx) : nat :=
  match k with Top => O | CL _ k _ _ => S (depth k) | CR _ k _ _ => S (depth k) end.

Fixpoint height (t : tree) : nat :=
  match t with E => O | T _ l _ r => S (Nat.max (height l) (height r)) end.

Lemma addrs_fill k t : addrs (fill k t) = before k ++ addrs t ++ after k.
Proof.
  revert t. induction k as [|c k IH p r|c k IH l p]; intros t; simpl.
  - by rewrite app_nil_r.
  - rewrite IH. simpl. by rewrite <- !app_assoc.
  - rewrite IH. simpl. by rewrite <- !app_assoc.
Qed.

(** Proves equalities between in-order sequences. *)
Ltac addrs_eq :=
  rewrite ?addrs_fill; cbn [addrs fill before after];
  repeat (rewrite <- app_assoc || rewrite <- app_comm_cons || rewrite app_nil_r); reflexivity.

Fixpoint rep_ctx (m : gmap Z rb_node) (k : ctx) (x : Z) : Prop :=
  match k with
  | Top => True
  | CL c k p r =>
    m !! p = Some (mk_rb (pack (ctx_parent k) c) (root_of r) x) /\
    rep m p r /\ rep_ctx m k p
  | CR c k l p =>
    m !! p = Some (mk_rb (pack (ctx_parent k) c) x (root_of l)) /\
    rep m p l /\ rep_ctx m k p
  end.

Lemma rep_fill m k t :
  rep m NULL (fill k t) <-> rep_ctx m k (root_of t) /\ rep m (ctx_parent k) t.
Proof.
  revert t. induction k as [|c k IH p r|c k IH l p]; intros t; simpl.
  - tauto.
  - rewrite IH. simpl. tauto.
  - rewrite IH. simpl. tauto.
Qed.

(** The address of the topmost node of a filled context. *)
Definition top_of (k : ctx) (x : Z) : Z :=
  match k with Top => x | _ => root_of (fill k E) end.

Lemma root_fill k t t' :
  k <> Top -> root_of (fill k t) = root_of (fill k t').
Proof.
  revert t t'. induction k as [|c k IH p r|c k IH l p]; intros t t' Hk; [done| |].
  - simpl. destruct k; [done| |]; by apply IH.
  - simpl. destruct k; [done| |]; by apply IH.
Qed.

(** ** Frame lemmas *)
Lemma rep_frame m m' par t :
  (forall a, a ∈ addrs t -> m' !! a = m !! a) -> rep m par t -> rep m' par t.
Proof.
  revert par. induction t as [|c l IHl p r IHr]; intros par Hf; simpl; [done|].
  intros (Hp & Hl & Hr). simpl in Hf. split_and!.
  - rewrite Hf; [done|set_solver].
  - apply IHl; [|done]. intros a Ha. apply Hf. set_solver.
  - apply IHr; [|done]. intros a Ha. apply Hf. set_solver.
Qed.

Lemma rep_ctx_frame m m' k x :
  (forall a, a ∈ before k \/ a ∈ after k -> m' !! a = m !! a) ->
  rep_ctx m k x -> rep_ctx m' k x.
Proof.
  revert x. induction k as [|c k IH p r|c k IH l p]; intros x Hf; simpl; [done|..];
    simpl in Hf; intros (Hp & Hs & Hk); split_and!.
  - rewrite Hf; [done|set_solver].
  - eapply rep_frame; [|done]. intros a Ha. apply Hf. set_solver.
  - apply IH; [|done]. intros a Ha. apply Hf. set_solver.
  - rewrite Hf; [done|set_solver].
  - eapply rep_frame; [|done]. intros a Ha. apply Hf. set_solver.
  - apply IH; [|done]. intros a Ha. apply Hf. set_solver.
Qed.

Lemma ctx_top_dec (k : ctx) : {k = Top} + {k <> Top}.
Proof. destruct k; [by left|by right..]. Qed.

Lemma root_of_elem t : t <> E -> root_of t ∈ addrs t.
Proof. destruct t; [done|]. set_solver. Qed.

Lemma ctx_parent_elem k : k <> Top -> ctx_parent k ∈ before k \/ ctx_parent k ∈ after k.
Proof. destruct k; [done|..]; set_solver. Qed.

(** ** The word that packs parent and colour *)
Lemma pack_parent par c : par mod 8 = 0 -> Z.land (pack par c) (Z.lnot 3) = par.
Proof.
  intros H. rewrite (land_high_mask _ 2) by lia. change (2 ^ 2) with 4.
  assert (par mod 4 = 0) by (Z.div_mod_to_equations; lia).
  unfold pack. destruct c; simpl; unfold RB_RED, RB_BLACK;
    Z.div_mod_to_equations; lia.
Qed.

Lemma pack_color par c : par mod 8 = 0 -> Z.land (pack par c) 1 = bit_of c.
Proof.
  intros H. rewrite (land_low_mask _ 1) by lia. change (2 ^ 1) with 2.
  unfold pack. destruct c; simpl; unfold RB_RED, RB_BLACK;
    Z.div_mod_to_equations; lia.
Qed.

Lemma pack_low par c : par mod 8 = 0 -> Z.land (pack par c) 3 = bit_of c.
Proof.
  intros H. rewrite (land_low_mask _ 2) by lia. change (2 ^ 2) with 4.
  unfold pack. destruct c; simpl; unfold RB_RED, RB_BLACK;
    Z.div_mod_to_equations; lia.
Qed.

Lemma pack_clear par c : par mod 8 = 0 -> Z.land (pack par c) (Z.lnot 1) = par.
Proof.
  intros H. rewrite (land_high_mask _ 1) by lia. change (2 ^ 1) with 2.
  unfold pack. destruct c; simpl; unfold RB_RED, RB_BLACK;
    Z.div_mod_to_equations; lia.
Qed.

Lemma lor_bit_parent c q : q mod 8 = 0 -> Z.lor (bit_of c) q = pack q c.
Proof.
  intros H. unfold pack. rewrite Z.add_comm. apply lor_add_disjoint.
  assert (Z.land q 1 = 0) as Hq.
  { rewrite (land_low_mask _ 1) by lia. change (2 ^ 1) with 2. Z.div_mod_to_equations; lia. }
  rewrite Z.land_comm. destruct c; [by rewrite Z.land_0_r|done].
Qed.

Lemma lor_parent_bit c q : q mod 8 = 0 -> Z.lor q (bit_of c) = pack q c.
Proof. intros H. rewrite Z.lor_comm. by apply lor_bit_parent. Qed.

Lemma pack_lor_1 par c : par mod 8 = 0 -> Z.lor (pack par c) 1 = pack par Black.
Proof.
  intros H. rewrite <- !lor_parent_bit by done. rewrite <- Z.lor_assoc. by destruct c.
Qed.

(** ** Focused trees *)
Definition clean (k : ctx) (ts : list Z) : Prop :=
  NoDup (before k ++ ts ++ after k) /\ Forall aligned (before k ++ ts ++ after k).

Lemma tree_at_focus h k t :
  tree_at h (fill k t) <->
  rb_root h = root_of (fill k t) /\ rep_ctx (rb_nodes h) k (root_of t) /\
  rep (rb_nodes h) (ctx_parent k) t /\ clean k (addrs t).
Proof. unfold tree_at, clean. rewrite rep_fill, addrs_fill. tauto. Qed.

Lemma clean_disjoint k ts a :
  clean k ts -> a ∈ ts -> a ∈ before k \/ a ∈ after k -> False.
Proof.
  intros (Hnd & _) Ha Hk. rewrite !NoDup_app in Hnd. destruct Hnd as (_ & H1 & _ & H2 & _).
  destruct Hk as [Hk|Hk]; [apply (H1 a Hk); set_solver|by apply (H2 a Ha)].
Qed.

Lemma clean_aligned k ts a : clean k ts -> a ∈ ts -> aligned a.
Proof. intros (_ & Hal) Ha. rewrite Forall_forall in Hal. apply Hal. set_solver. Qed.

Lemma clean_nodup k ts : clean k ts -> NoDup ts.
Proof. intros (Hnd & _). rewrite !NoDup_app in Hnd. tauto. Qed.

Lemma clean_parent k ts : clean k ts -> ctx_parent k mod 8 = 0.
Proof.
  intros (_ & Hal). rewrite Forall_forall in Hal.
  destruct (ctx_top_dec k) as [->|Hk]; [done|].
  apply (Hal (ctx_parent k)). pose proof (ctx_parent_elem k Hk). set_solver.
Qed.

Lemma clean_parent_null k ts : clean k ts -> k <> Top -> ctx_parent k <> NULL.
Proof.
  intros (_ & Hal) Hk. rewrite Forall_forall in Hal.
  assert (aligned (ctx_parent k)) as [? _]; [|unfold NULL; lia].
  apply Hal. pose proof (ctx_parent_elem k Hk). set_solver.
Qed.

Lemma clean_parent_notin k ts a : clean k ts -> a ∈ ts -> a <> ctx_parent k.
Proof.
  intros Hc Ha ->. pose proof (clean_aligned _ _ _ Hc Ha) as [Hp _].
  destruct (ctx_top_dec k) as [->|Hk]; [unfold ctx_parent, NULL in *; lia|].
  by apply (clean_disjoint _ _ _ Hc Ha), ctx_parent_elem.
Qed.

Lemma clean_eq k ts ts' : ts = ts' -> clean k ts -> clean k ts'.
Proof. by intros ->. Qed.

Lemma clean_drop k la x lb : clean k (la ++ x :: lb) -> clean k (la ++ lb).
Proof.
  unfold clean. rewrite <- !app_assoc. simpl. intros [H1 H2].
  assert (before k ++ la ++ x :: lb ++ after k ≡ₚ x :: before k ++ la ++ lb ++ after k)
    as Hp by solve_Permutation.
  rewrite Hp in H1, H2. apply NoDup_cons in H1 as [_ ?]. apply Forall_cons in H2 as [_ ?]. done.
Qed.

Lemma clean_swap k la x lb y : clean k (la ++ x :: lb) ->
  aligned y -> y ∉ before k ++ la ++ lb ++ after k -> clean k (la ++ y :: lb).
Proof.
  intros Hc Hal Hni. apply clean_drop in Hc. revert Hc. unfold clean.
  rewrite <- !app_assoc. simpl. intros [H1 H2].
  assert (before k ++ la ++ y :: lb ++ after k ≡ₚ y :: before k ++ la ++ lb ++ after k)
    as -> by solve_Permutation.
  split; [by apply NoDup_cons|by apply Forall_cons].
Qed.

(** ** The link to the hole *)

(** The sibling of the hole. *)
Definition sibling (k : ctx) : tree :=
  match k with Top => E | CL _ _ _ r => r | CR _ _ l _ => l end.

Definition upd_hole (k : ctx) (y : Z) (m : gmap Z rb_node) : gmap Z rb_node :=
  match k with
  | Top => m
  | CL c k p r => <[p := mk_rb (pack (ctx_parent k) c) (root_of r) y]> m
  | CR c k l p => <[p := mk_rb (pack (ctx_parent k) c) y (root_of l)]> m
  end.

Definition upd_root (k : ctx) (y root : Z) : Z :=
  match k with Top => y | _ => root end.

Lemma upd_hole_ne k y m a : a <> ctx_parent k -> upd_hole k y m !! a = m !! a.
Proof. destruct k; simpl; intros; [done|by rewrite lookup_insert_ne..]. Qed.

Lemma upd_hole_eq k y m m' :
  k <> Top -> upd_hole k y m !! ctx_parent k = upd_hole k y m' !! ctx_parent k.
Proof. destruct k; simpl; intros; [done|by rewrite !lookup_insert_eq..]. Qed.

Lemma rep_ctx_upd_hole m m' k x y ts :
  clean k ts -> rep_ctx m k x ->
  (forall a, a ∈ before k \/ a ∈ after k -> a <> ctx_parent k -> m' !! a = m !! a) ->
  (k <> Top -> m' !! ctx_parent k = upd_hole k y m !! ctx_parent k) ->
  rep_ctx m' k y.
Proof.
  intros (Hnd & _) Hr Hf Hp. destruct k as [|c k p r|c k l p]; [done|..]; simpl in *;
    destruct Hr as (_ & Hs & Hk); rewrite lookup_insert_eq in Hp;
    rewrite !NoDup_app, ?NoDup_cons, ?NoDup_app in Hnd; simpl in Hnd.
  - split_and!; [by apply Hp|..].
    + eapply rep_frame; [|done]. intros a Ha. apply Hf; set_solver.
    + eapply rep_ctx_frame; [|done]. intros a Ha. apply Hf; set_solver.
  - split_and!; [by apply Hp|..].
    + eapply rep_frame; [|done]. intros a Ha. apply Hf; set_solver.
    + eapply rep_ctx_frame; [|done]. intros a Ha. apply Hf; set_solver.
Qed.

Lemma root_upd h k t t' :
  rb_root h = root_of (fill k t) ->
  upd_root k (root_of t') (rb_root h) = root_of (fill k t').
Proof.
  intros Hr. destruct k; [done|..]; simpl upd_root; rewrite Hr; by apply root_fill.
Qed.

(** ** Memory accesses, one node at a time *)
Lemma wp_load h p n Q :
  rb_nodes h !! p = Some n -> p <> NULL -> Q n h -> wp (load p) h Q.
Proof. intros Hp Hn HQ. unfold wp, load. apply Z.eqb_neq in Hn. by rewrite Hn, Hp. Qed.

Lemma wp_update h p f n Q :
  rb_nodes h !! p = Some n -> p <> NULL ->
  Q tt (mk_heap (<[p := f n]> (rb_nodes h)) (rb_root h)) -> wp (update p f) h Q.
Proof. intros Hp Hn HQ. apply wp_bind. by eapply wp_load. Qed.

Section accessors.
Context (h : rb_heap) (p pc r l : Z).
Context (Hp : rb_nodes h !! p = Some (mk_rb pc r l)) (Hn : p <> NULL).

Lemma wp_get_left Q : Q l h -> wp (get_left p) h Q.
Proof. intros HQ. apply wp_bind. by eapply wp_load. Qed.
Lemma wp_get_right Q : Q r h -> wp (get_right p) h Q.
Proof. intros HQ. apply wp_bind. by eapply wp_load. Qed.
Lemma wp_get_pc Q : Q pc h -> wp (get_pc p) h Q.
Proof. intros HQ. apply wp_bind. by eapply wp_load. Qed.
Lemma wp_set_left v Q :
  Q tt (mk_heap (<[p := mk_rb pc r v]> (rb_nodes h)) (rb_root h)) -> wp (set_left p v) h Q.
Proof. intros HQ. by eapply wp_update. Qed.
Lemma wp_set_right v Q :
  Q tt (mk_heap (<[p := mk_rb pc v l]> (rb_nodes h)) (rb_root h)) -> wp (set_right p v) h Q.
Proof. intros HQ. by eapply wp_update. Qed.
Lemma wp_set_pc v Q :
  Q tt (mk_heap (<[p := mk_rb v r l]> (rb_nodes h)) (rb_root h)) -> wp (set_pc p v) h Q.
Proof. intros HQ. by eapply wp_update. Qed.
End accessors.

Section packed_accessors.
Context (h : rb_heap) (p par : Z) (c : color) (r l : Z).
Context (Hp : rb_nodes h !! p = Some (mk_rb (pack par c) r l)) (Hn : p <> NULL).
Context (Hpar : par mod 8 = 0).

Lemma wp_rb_parent Q : Q par h -> wp (rb_parent p) h Q.
Proof.
  intros HQ. apply wp_bind. eapply wp_get_pc; [done..|]. apply wp_ret. by rewrite pack_parent.
Qed.
Lemma wp_rb_color Q : Q (bit_of c) h -> wp (rb_color p) h Q.
Proof.
  intros HQ. apply wp_bind. eapply wp_get_pc; [done..|]. apply wp_ret. by rewrite pack_color.
Qed.
Lemma wp_rb_is_red Q : Q (bool_decide (c = Red)) h -> wp (rb_is_red p) h Q.
Proof. intros HQ. apply wp_bind, wp_rb_color, wp_ret. by destruct c. Qed.
Lemma wp_rb_is_black Q : Q (bool_decide (c = Black)) h -> wp (rb_is_black p) h Q.
Proof. intros HQ. apply wp_bind, wp_rb_color, wp_ret. by destruct c. Qed.
Lemma wp_rb_set_parent q Q :
  q mod 8 = 0 ->
  Q tt (mk_heap (<[p := mk_rb (pack q c) r l]> (rb_nodes h)) (rb_root h)) ->
  wp (rb_set_parent p q) h Q.
Proof.
  intros Hq HQ. apply wp_bind. eapply wp_get_pc; [done..|]. eapply wp_set_pc; [done..|].
  by rewrite pack_low, lor_bit_parent.
Qed.
Lemma wp_rb_set_red Q :
  Q tt (mk_heap (<[p := mk_rb (pack par Red) r l]> (rb_nodes h)) (rb_root h)) ->
  wp (rb_set_red p) h Q.
Proof.
  intros HQ. apply wp_bind. eapply wp_get_pc; [done..|]. eapply wp_set_pc; [done..|].
  rewrite pack_clear by done. unfold pack in HQ at 1. simpl in HQ. by rewrite Z.add_0_r in HQ.
Qed.
Lemma wp_rb_set_black Q :
  Q tt (mk_heap (<[p := mk_rb (pack par Black) r l]> (rb_nodes h)) (rb_root h)) ->
  wp (rb_set_black p) h Q.
Proof.
  intros HQ. apply wp_bind. eapply wp_get_pc; [done..|]. eapply wp_set_pc; [done..|].
  by rewrite pack_lor_1.
Qed.
Lemma wp_rb_set_color c' Q :
  Q tt (mk_heap (<[p := mk_rb (pack par c') r l]> (rb_nodes h)) (rb_root h)) ->
  wp (rb_set_color p (bit_of c')) h Q.
Proof.
  intros HQ. apply wp_bind. eapply wp_get_pc; [done..|]. eapply wp_set_pc; [done..|].
  by rewrite pack_clear, lor_parent_bit.
Qed.
End packed_accessors.

(** Setting the parent of the root of a possibly empty subtree. *)
Definition upd_parent (t : tree) (q : Z) (m : gmap Z rb_node) : gmap Z rb_node :=
  match t with
  | E => m
  | T c l p r => <[p := mk_rb (pack q c) (root_of r) (root_of l)]> m
  end.

Lemma upd_parent_ne t q m a : a ∉ addrs t -> upd_parent t q m !! a = m !! a.
Proof.
  destruct t; simpl; intros; [done|]. rewrite lookup_insert_ne; [done|set_solver].
Qed.

(** Runs straight-line pointer code: one accessor at a time, with the lookups
    of the current heap computed from the updates made so far. *)
Ltac lookup_tac :=
  cbn [rb_nodes rb_root];
  repeat first
    [ rewrite lookup_insert_eq
    | rewrite lookup_insert_ne by congruence
    | rewrite upd_hole_ne by congruence
    | rewrite upd_parent_ne by assumption ];
  eassumption || reflexivity.

Ltac rb_step :=
  match goal with
  | |- wp (mbind _ _) _ _ => apply wp_bind
  | |- wp (mret _) _ _ => apply wp_ret; cbn beta
  | |- wp (get_left _) _ _ => eapply wp_get_left; [lookup_tac|done|]; cbn beta
  | |- wp (get_right _) _ _ => eapply wp_get_right; [lookup_tac|done|]; cbn beta
  | |- wp (get_pc _) _ _ => eapply wp_get_pc; [lookup_tac|done|]; cbn beta
  | |- wp (set_left _ _) _ _ => eapply wp_set_left; [lookup_tac|done|]; cbn [rb_nodes rb_root]
  | |- wp (set_right _ _) _ _ => eapply wp_set_right; [lookup_tac|done|]; cbn [rb_nodes rb_root]
  | |- wp (set_pc _ _) _ _ => eapply wp_set_pc; [lookup_tac|done|]; cbn [rb_nodes rb_root]
  | |- wp (rb_parent _) _ _ => eapply wp_rb_parent; [lookup_tac|done|done|]; cbn beta
  | |- wp (rb_color _) _ _ => eapply wp_rb_color; [lookup_tac|done|done|]; cbn beta
  | |- wp (rb_is_red _) _ _ => eapply wp_rb_is_red; [lookup_tac|done|done|]; cbn beta
  | |- wp (rb_is_black _) _ _ => eapply wp_rb_is_black; [lookup_tac|done|done|]; cbn beta
  | |- wp (rb_set_parent _ _) _ _ =>
    eapply wp_rb_set_parent; [lookup_tac|done|done|done|]; cbn [rb_nodes rb_root]
  | |- wp (rb_set_red _) _ _ =>
    eapply wp_rb_set_red; [lookup_tac|done|done|]; cbn [rb_nodes rb_root]
  | |- wp (rb_set_black _) _ _ =>
    eapply wp_rb_set_black; [lookup_tac|done|done|]; cbn [rb_nodes rb_root]
  | |- wp get_root _ _ => apply wp_gets; cbn [rb_nodes rb_root]
  | |- wp (set_root _) _ _ => apply wp_puts; cbn [rb_nodes rb_root]
  end.

(** The child link of the parent of [x] is redirected to [y]. *)
Section relink.
Context (h : rb_heap) (k : ctx) (x y : Z).
Context (Hk : rep_ctx (rb_nodes h) k x) (Hx : x <> root_of (sibling k)).
Context (Hnull : k <> Top -> ctx_parent k <> NULL).

Lemma wp_relink_left Q :
  Q tt (mk_heap (upd_hole k y (rb_nodes h)) (upd_root k y (rb_root h))) ->
  wp (if negb (ctx_parent k =? NULL) then
        pl ← get_left (ctx_parent k);
        if x =? pl then set_left (ctx_parent k) y else set_right (ctx_parent k) y
      else set_root y) h Q.
Proof.
  intros HQ. destruct k as [|c k' p r|c k' l p]; simpl in *.
  - by rb_step.
  - rewrite (proj2 (Z.eqb_neq p NULL)) by auto. simpl. destruct Hk as (Hp & _).
    assert (p <> NULL) by auto. repeat rb_step. rewrite Z.eqb_refl. by rb_step.
  - rewrite (proj2 (Z.eqb_neq p NULL)) by auto. simpl. destruct Hk as (Hp & _).
    assert (p <> NULL) by auto. repeat rb_step.
    rewrite (proj2 (Z.eqb_neq x (root_of l))) by done. by rb_step.
Qed.

Lemma wp_relink_right Q :
  Q tt (mk_heap (upd_hole k y (rb_nodes h)) (upd_root k y (rb_root h))) ->
  wp (if negb (ctx_parent k =? NULL) then
        pr ← get_right (ctx_parent k);
        if x =? pr then set_right (ctx_parent k) y else set_left (ctx_parent k) y
      else set_root y) h Q.
Proof.
  intros HQ. destruct k as [|c k' p r|c k' l p]; simpl in *.
  - by rb_step.
  - rewrite (proj2 (Z.eqb_neq p NULL)) by auto. simpl. destruct Hk as (Hp & _).
    assert (p <> NULL) by auto. repeat rb_step.
    rewrite (proj2 (Z.eqb_neq x (root_of r))) by done. by rb_step.
  - rewrite (proj2 (Z.eqb_neq p NULL)) by auto. simpl. destruct Hk as (Hp & _).
    assert (p <> NULL) by auto. repeat rb_step. rewrite Z.eqb_refl. by rb_step.
Qed.
End relink.

Lemma sibling_elem k :
  sibling k <> E -> root_of (sibling k) ∈ before k \/ root_of (sibling k) ∈ after k.
Proof.
  destruct k as [|c k p r|c k l p]; simpl; [done|..]; intros Hs;
    pose proof (root_of_elem _ Hs); set_solver.
Qed.

Lemma clean_sibling k ts a : clean k ts -> a ∈ ts -> a <> root_of (sibling k).
Proof.
  intros Hc Ha Heq. pose proof (clean_aligned _ _ _ Hc Ha) as [Hp _].
  destruct (sibling k) eqn:Hs; [simpl in Heq; unfold NULL in *; lia|].
  rewrite <- Hs in Heq. apply (clean_disjoint _ _ _ Hc Ha). rewrite Heq.
  apply sibling_elem. by rewrite Hs.
Qed.

Lemma clean_not_null k ts a : clean k ts -> a ∈ ts -> a <> NULL.
Proof. intros Hc Ha. pose proof (clean_aligned _ _ _ Hc Ha) as [? _]. unfold NULL. lia. Qed.

Lemma upd_parent_frame t q m m' a :
  m' !! a = m !! a -> upd_parent t q m' !! a = upd_parent t q m !! a.
Proof.
  destruct t; simpl; intros; [done|]. by rewrite !lookup_insert; case_decide.
Qed.

Lemma rep_upd_parent m m' par q t :
  NoDup (addrs t) -> rep m par t ->
  (forall a, a ∈ addrs t -> m' !! a = upd_parent t q m !! a) ->
  rep m' q t.
Proof.
  destruct t as [|c l p r]; simpl; [done|]. intros Hnd (_ & Hl & Hr) Hf.
  rewrite NoDup_app, NoDup_cons in Hnd. split_and!.
  - rewrite Hf by set_solver. by rewrite lookup_insert_eq.
  - eapply rep_frame; [|done]. intros a Ha. rewrite Hf by set_solver.
    rewrite lookup_insert_ne; [done|set_solver].
  - eapply rep_frame; [|done]. intros a Ha. rewrite Hf by set_solver.
    rewrite lookup_insert_ne; [done|set_solver].
Qed.

Lemma wp_set_parent_opt h h0 t par q Q :
  rep (rb_nodes h0) par t -> par mod 8 = 0 -> q mod 8 = 0 ->
  (forall a, a ∈ addrs t -> rb_nodes h !! a = rb_nodes h0 !! a) ->
  Forall aligned (addrs t) ->
  Q tt (mk_heap (upd_parent t q (rb_nodes h)) (rb_root h)) ->
  wp (if negb (root_of t =? NULL) then rb_set_parent (root_of t) q else mret tt) h Q.
Proof.
  intros Hr Hpar Hq Hf Hal HQ. destruct t as [|c l p r]; [by destruct h|]; simpl in *.
  destruct Hr as (Hp & _). assert (p <> NULL).
  { rewrite Forall_forall in Hal. assert (aligned p) as [? _] by (apply Hal; set_solver).
    unfold NULL. lia. }
  rewrite (proj2 (Z.eqb_neq p NULL)) by done. simpl.
  eapply wp_rb_set_parent; [rewrite Hf by set_solver|..]; done.
Qed.

Lemma wp_set_parent_read h h0 y pc r b par q Q :
  rb_nodes h !! y = Some (mk_rb pc r (root_of b)) -> y <> NULL ->
  rep (rb_nodes h0) par b -> par mod 8 = 0 -> q mod 8 = 0 ->
  (forall a, a ∈ addrs b -> rb_nodes h !! a = rb_nodes h0 !! a) ->
  Forall aligned (addrs b) ->
  Q tt (mk_heap (upd_parent b q (rb_nodes h)) (rb_root h)) ->
  wp (if negb (root_of b =? NULL) then b' ← get_left y; rb_set_parent b' q else mret tt) h Q.
Proof.
  intros Hy Hn Hb Hpar Hq Hf Hal HQ.
  pose proof (wp_set_parent_opt h h0 b par q Q Hb Hpar Hq Hf Hal HQ) as Hw.
  revert Hw. destruct (root_of b =? NULL); [done|]. cbn [negb]. intros Hw. repeat rb_step. exact Hw.
Qed.

Lemma wp_set_parent_read_r h h0 y pc l b par q Q :
  rb_nodes h !! y = Some (mk_rb pc (root_of b) l) -> y <> NULL ->
  rep (rb_nodes h0) par b -> par mod 8 = 0 -> q mod 8 = 0 ->
  (forall a, a ∈ addrs b -> rb_nodes h !! a = rb_nodes h0 !! a) ->
  Forall aligned (addrs b) ->
  Q tt (mk_heap (upd_parent b q (rb_nodes h)) (rb_root h)) ->
  wp (if negb (root_of b =? NULL) then b' ← get_right y; rb_set_parent b' q else mret tt) h Q.
Proof.
  intros Hy Hn Hb Hpar Hq Hf Hal HQ.
  pose proof (wp_set_parent_opt h h0 b par q Q Hb Hpar Hq Hf Hal HQ) as Hw.
  revert Hw. destruct (root_of b =? NULL); [done|]. cbn [negb]. intros Hw. repeat rb_step. exact Hw.
Qed.

(** Lookups that were not touched by the updates of the current heap. *)
Ltac frame_lookup :=
  cbn [rb_nodes rb_root];
  repeat first
    [ rewrite lookup_insert_ne by (intros ->; tauto)
    | rewrite upd_hole_ne by tauto
    | rewrite upd_parent_ne by tauto ];
  done.


(** ** Rotations *)

(** Everything the separation of a subtree [a x b y d] from its context
    says about the addresses a rotation touches. *)
Record rot_facts (k : ctx) (a b d : tree) (x y : Z) : Prop := {
  rf_par : ctx_parent k mod 8 = 0;
  rf_x8 : x mod 8 = 0;
  rf_y8 : y mod 8 = 0;
  rf_xn : x <> NULL;
  rf_yn : y <> NULL;
  rf_xp : x <> ctx_parent k;
  rf_yp : y <> ctx_parent k;
  rf_xy : x <> y;
  rf_xb : x ∉ addrs b;
  rf_yb : y ∉ addrs b;
  rf_xs : x <> root_of (sibling k);
  rf_b : Forall aligned (addrs b);
  rf_ndb : NoDup (addrs b);
  rf_k : forall z, z ∈ before k \/ z ∈ after k -> z <> x /\ z <> y /\ (z ∉ addrs b);
  rf_fa : forall z, z ∈ addrs a ->
    z <> x /\ z <> y /\ (z ∉ addrs b) /\ z <> ctx_parent k;
  rf_fd : forall z, z ∈ addrs d ->
    z <> x /\ z <> y /\ (z ∉ addrs b) /\ z <> ctx_parent k;
  rf_fb : forall z, z ∈ addrs b -> z <> x /\ z <> y /\ z <> ctx_parent k
}.

Lemma rot_facts_sym k a b d x y : x <> root_of (sibling k) ->
  rot_facts k a b d y x -> rot_facts k a b d x y.
Proof.
  intros Hs [???????????????Ha Hd Hb]. split; try done; firstorder.
Qed.

Lemma clean_rot k a b d x y :
  clean k (addrs a ++ x :: addrs b ++ y :: addrs d) -> rot_facts k a b d x y.
Proof.
  intros Hc. pose proof (clean_nodup _ _ Hc) as Hnd.
  rewrite !NoDup_app, !NoDup_cons, !NoDup_app, ?NoDup_cons in Hnd.
  assert (x ∈ addrs a ++ x :: addrs b ++ y :: addrs d) as Hxi by set_solver +.
  assert (y ∈ addrs a ++ x :: addrs b ++ y :: addrs d) as Hyi by set_solver +.
  destruct Hnd as (Hna & Ha & Hx & Hnb & Hb & Hy & Hnd).
  assert (Hpar : forall z, z ∈ addrs a ++ x :: addrs b ++ y :: addrs d -> z <> ctx_parent k).
  { intros z Hz. by eapply clean_parent_notin. }
  split.
  - by eapply clean_parent.
  - by apply (clean_aligned _ _ _ Hc Hxi).
  - by apply (clean_aligned _ _ _ Hc Hyi).
  - by eapply clean_not_null.
  - by eapply clean_not_null.
  - by apply Hpar.
  - by apply Hpar.
  - clear -Hx. set_solver.
  - clear -Hx. set_solver.
  - clear -Hb. set_solver.
  - by eapply clean_sibling.
  - apply Forall_forall. intros z Hz. apply (clean_aligned _ _ _ Hc). set_solver +Hz.
  - done.
  - intros z Hz. split_and!; intros Hz'; [subst z..|];
      (eapply (clean_disjoint _ _ _ Hc); [|exact Hz]); [set_solver +..|set_solver +Hz'].
  - intros z Hz. specialize (Hpar z). split_and!; [clear -Ha Hz; set_solver..|].
    apply Hpar. set_solver +Hz.
  - intros z Hz. specialize (Hpar z). split_and!; [clear -Hx Hz; set_solver|clear -Hy Hz; set_solver
      |clear -Hb Hz; set_solver|]. apply Hpar. set_solver +Hz.
  - intros z Hz. specialize (Hpar z). split_and!; [clear -Hx Hz; set_solver|clear -Hb Hz; set_solver|].
    apply Hpar. set_solver +Hz.
Qed.

(** The heap after a rotation around [x] whose child [y] comes up. *)
Lemma wp_rotate_left h k c x a c' b y d Q :
  tree_at h (fill k (T c a x (T c' b y d))) ->
  (forall h', tree_at h' (fill k (T c' (T c a x b) y d)) -> Q tt h') ->
  wp (__rb_rotate_left x) h Q.
Proof.
  rewrite tree_at_focus. intros (Hroot & Hk & (Hx & Ha & Hy & Hb & Hd) & Hc) HQ.
  destruct (clean_rot k a b d x y Hc) as [???????????? Hndb Hfk Hfa Hfd Hfb].
  unfold __rb_rotate_left. cbn [root_of] in *. repeat rb_step.
  eapply wp_set_parent_read; [lookup_tac|done|exact Hb|done|done|..|done|].
  { intros z Hz. specialize (Hfb z Hz). frame_lookup. }
  cbn [rb_nodes rb_root]. repeat rb_step.
  eapply wp_relink_left; [|done|by eapply clean_parent_null|].
  { eapply rep_ctx_frame; [|exact Hk]. intros z Hz. specialize (Hfk z Hz). frame_lookup. }
  cbn [rb_nodes rb_root]. repeat rb_step. apply HQ, tree_at_focus.
  cbn [rb_nodes rb_root root_of rep ctx_parent]. split_and!.
  - by erewrite <- root_upd.
  - eapply rep_ctx_upd_hole; [exact Hc|exact Hk|..].
    + intros z Hz Hne. specialize (Hfk z Hz). frame_lookup.
    + intros Hk'. rewrite lookup_insert_ne by done. by apply upd_hole_eq.
  - lookup_tac.
  - lookup_tac.
  - eapply rep_frame; [|exact Ha]. intros z Hz. specialize (Hfa z Hz). frame_lookup.
  - eapply rep_upd_parent; [exact Hndb|exact Hb|]. intros z Hz.
    destruct (Hfb z Hz) as (? & ? & ?).
    rewrite lookup_insert_ne, upd_hole_ne, !lookup_insert_ne by done.
    apply upd_parent_frame. by rewrite lookup_insert_ne by done.
  - eapply rep_frame; [|exact Hd]. intros z Hz. specialize (Hfd z Hz). frame_lookup.
  - eapply clean_eq; [|exact Hc]. simpl. by rewrite <- app_assoc.
Qed.

Lemma wp_rotate_right h k c x d c' a y b Q :
  tree_at h (fill k (T c (T c' a y b) x d)) ->
  (forall h', tree_at h' (fill k (T c' a y (T c b x d))) -> Q tt h') ->
  wp (__rb_rotate_right x) h Q.
Proof.
  rewrite tree_at_focus. intros (Hroot & Hk & (Hx & (Hy & Ha & Hb) & Hd) & Hc) HQ.
  eapply (clean_eq _ _ (addrs a ++ y :: addrs b ++ x :: addrs d)) in Hc;
    [|simpl; by rewrite <- app_assoc].
  assert (x <> root_of (sibling k)) as Hs.
  { eapply clean_sibling; [exact Hc|]. set_solver +. }
  destruct (rot_facts_sym _ _ _ _ _ _ Hs (clean_rot k a b d y x Hc))
    as [???????????? Hndb Hfk Hfa Hfd Hfb].
  unfold __rb_rotate_right. cbn [root_of] in *. repeat rb_step.
  eapply wp_set_parent_read_r; [lookup_tac|done|exact Hb|done|done|..|done|].
  { intros z Hz. specialize (Hfb z Hz). frame_lookup. }
  cbn [rb_nodes rb_root]. repeat rb_step.
  eapply wp_relink_right; [|done|by eapply clean_parent_null|].
  { eapply rep_ctx_frame; [|exact Hk]. intros z Hz. specialize (Hfk z Hz). frame_lookup. }
  cbn [rb_nodes rb_root]. repeat rb_step. apply HQ, tree_at_focus.
  cbn [rb_nodes rb_root root_of rep ctx_parent]. split_and!.
  - by erewrite <- root_upd.
  - eapply rep_ctx_upd_hole; [exact Hc|exact Hk|..].
    + intros z Hz Hne. specialize (Hfk z Hz). frame_lookup.
    + intros Hk'. rewrite lookup_insert_ne by done. by apply upd_hole_eq.
  - lookup_tac.
  - eapply rep_frame; [|exact Ha]. intros z Hz. specialize (Hfa z Hz). frame_lookup.
  - lookup_tac.
  - eapply rep_upd_parent; [exact Hndb|exact Hb|]. intros z Hz.
    destruct (Hfb z Hz) as (? & ? & ?).
    rewrite lookup_insert_ne, upd_hole_ne, !lookup_insert_ne by done.
    apply upd_parent_frame. by rewrite lookup_insert_ne by done.
  - eapply rep_frame; [|exact Hd]. intros z Hz. specialize (Hfd z Hz). frame_lookup.
  - eapply clean_eq; [|exact Hc]. simpl. done.
Qed.

(** ** Reads and recolourings at a focused node *)
Lemma tree_at_node h k c l p r :
  tree_at h (fill k (T c l p r)) ->
  rb_nodes h !! p = Some (mk_rb (pack (ctx_parent k) c) (root_of r) (root_of l)) /\
  p <> NULL /\ ctx_parent k mod 8 = 0.
Proof.
  rewrite tree_at_focus. intros (_ & _ & (Hp & _) & Hc). split_and!; [done| |].
  - eapply clean_not_null; [exact Hc|]. simpl. set_solver +.
  - by eapply clean_parent.
Qed.

Lemma tree_at_children h k c l p r :
  tree_at h (fill k (T c l p r)) -> r <> E -> root_of l <> root_of r.
Proof.
  rewrite tree_at_focus. intros (_ & _ & _ & Hc) Hr Heq.
  pose proof (root_of_elem r Hr) as Hri. pose proof (clean_nodup _ _ Hc) as Hnd.
  simpl in Hnd. rewrite NoDup_app, NoDup_cons in Hnd. destruct Hnd as (_ & Hd & _).
  destruct l as [|c' l1 q l2].
  - apply (clean_not_null _ _ (root_of r) Hc); [set_solver +Hri|done].
  - apply (Hd (root_of r)); [rewrite <- Heq; set_solver +|set_solver +Hri].
Qed.

(** A child is not its sibling. *)
Lemma at_child_ne h k c l p r c' l' x r' :
  tree_at h (fill k (T c l p r)) ->
  (r = T c' l' x r' -> root_of l <> x) /\ (l = T c' l' x r' -> root_of r <> x).
Proof.
  intros Ht. split.
  - intros ->. by apply (tree_at_children _ _ _ _ _ _ Ht).
  - intros ->. destruct r as [|c2 l2 x2 r2].
    + destruct (tree_at_node h (CL c k p E) c' l' x r' Ht) as (_ & Hx & _). by intros <-.
    + intros Heq. by apply (tree_at_children _ _ _ _ _ _ Ht).
Qed.

Lemma at_get_left h k c l p r Q :
  tree_at h (fill k (T c l p r)) -> Q (root_of l) h -> wp (get_left p) h Q.
Proof. intros (Hp & Hn & _)%tree_at_node HQ. by eapply wp_get_left. Qed.

Lemma at_get_right h k c l p r Q :
  tree_at h (fill k (T c l p r)) -> Q (root_of r) h -> wp (get_right p) h Q.
Proof. intros (Hp & Hn & _)%tree_at_node HQ. by eapply wp_get_right. Qed.

Lemma at_parent h k c l p r Q :
  tree_at h (fill k (T c l p r)) -> Q (ctx_parent k) h -> wp (rb_parent p) h Q.
Proof. intros (Hp & Hn & H8)%tree_at_node HQ. by eapply wp_rb_parent. Qed.

Lemma at_color h k c l p r Q :
  tree_at h (fill k (T c l p r)) -> Q (bit_of c) h -> wp (rb_color p) h Q.
Proof. intros (Hp & Hn & H8)%tree_at_node HQ. by eapply wp_rb_color. Qed.

Lemma at_is_red h k c l p r Q :
  tree_at h (fill k (T c l p r)) -> Q (bool_decide (c = Red)) h -> wp (rb_is_red p) h Q.
Proof. intros (Hp & Hn & H8)%tree_at_node HQ. by eapply wp_rb_is_red. Qed.

Lemma at_root h t Q : tree_at h t -> Q (root_of t) h -> wp get_root h Q.
Proof. intros (Hr & _) HQ. apply wp_gets. by rewrite Hr. Qed.

Lemma at_null_or_black h k t Q :
  tree_at h (fill k t) -> Q (bool_decide (color_of t = Black)) h ->
  wp (null_or_black (root_of t)) h Q.
Proof.
  destruct t as [|c l p r]; [done|]. intros (Hp & Hn & H8)%tree_at_node HQ.
  unfold null_or_black. apply Z.eqb_neq in Hn as Hb. simpl. rewrite Hb.
  by eapply wp_rb_is_black.
Qed.

Lemma at_nonnull_red h k t Q :
  tree_at h (fill k t) -> Q (bool_decide (color_of t = Red)) h ->
  wp (nonnull_red (root_of t)) h Q.
Proof.
  destruct t as [|c l p r]; [done|]. intros (Hp & Hn & H8)%tree_at_node HQ.
  unfold nonnull_red. apply Z.eqb_neq in Hn as Hb. simpl. rewrite Hb.
  by eapply wp_rb_is_red.
Qed.

Lemma tree_at_recolor h k c c' l p r :
  tree_at h (fill k (T c l p r)) ->
  tree_at (mk_heap (<[p := mk_rb (pack (ctx_parent k) c') (root_of r) (root_of l)]> (rb_nodes h))
                   (rb_root h)) (fill k (T c' l p r)).
Proof.
  rewrite !tree_at_focus. intros (Hroot & Hk & (Hp & Hl & Hr) & Hc). simpl.
  pose proof (clean_nodup _ _ Hc) as Hnd. simpl in Hnd.
  rewrite NoDup_app, NoDup_cons in Hnd. destruct Hnd as (_ & Hld & Hrd & _).
  split_and!; [|..|done].
  - rewrite Hroot. destruct (ctx_top_dec k) as [->|Hk']; [done|]. by apply root_fill.
  - eapply rep_ctx_frame; [|exact Hk]. intros a Ha. apply lookup_insert_ne. intros <-.
    eapply clean_disjoint; [exact Hc| |exact Ha]. simpl. set_solver +.
  - by rewrite lookup_insert_eq.
  - eapply rep_frame; [|exact Hl]. intros a Ha. apply lookup_insert_ne. intros <-.
    apply (Hld p Ha). set_solver +.
  - eapply rep_frame; [|exact Hr]. intros a Ha. apply lookup_insert_ne. by intros <-.
Qed.

Lemma at_set_red h k c l p r Q :
  tree_at h (fill k (T c l p r)) ->
  (forall h', tree_at h' (fill k (T Red l p r)) -> Q tt h') -> wp (rb_set_red p) h Q.
Proof.
  intros Ht HQ. destruct (tree_at_node _ _ _ _ _ _ Ht) as (Hp & Hn & H8).
  eapply wp_rb_set_red; [done..|]. by eapply HQ, tree_at_recolor.
Qed.

Lemma at_set_black h k c l p r Q :
  tree_at h (fill k (T c l p r)) ->
  (forall h', tree_at h' (fill k (T Black l p r)) -> Q tt h') -> wp (rb_set_black p) h Q.
Proof.
  intros Ht HQ. destruct (tree_at_node _ _ _ _ _ _ Ht) as (Hp & Hn & H8).
  eapply wp_rb_set_black; [done..|]. by eapply HQ, tree_at_recolor.
Qed.

Lemma at_set_color h k c c' l p r Q :
  tree_at h (fill k (T c l p r)) ->
  (forall h', tree_at h' (fill k (T c' l p r)) -> Q tt h') ->
  wp (rb_set_color p (bit_of c')) h Q.
Proof.
  intros Ht HQ. destruct (tree_at_node _ _ _ _ _ _ Ht) as (Hp & Hn & H8).
  eapply wp_rb_set_color; [done..|]. by eapply HQ, tree_at_recolor.
Qed.

(** ** Red-black trees *)

(** [is_rb t c n]: no red node of [t] has a red child, every path has [n]
    black nodes, and the root has colour [c] (an empty tree is black). *)
Inductive is_rb : tree -> color -> nat -> Prop :=
| rb_E : is_rb E Black 0
| rb_R l p r n : is_rb l Black n -> is_rb r Black n -> is_rb (T Red l p r) Red n
| rb_B l p r cl cr n : is_rb l cl n -> is_rb r cr n -> is_rb (T Black l p r) Black (S n).

(** [ctx_rb k c n]: [k] becomes a red-black tree when plugged with one of black
    height [n], provided that tree is black or the colour [c] of the node above
    the hole is.  Above the root there is no node; the root has to be black. *)
Inductive ctx_rb : ctx -> color -> nat -> Prop :=
| crb_Top n : ctx_rb Top Red n
| crb_LR k p r n : ctx_rb k Black n -> is_rb r Black n -> ctx_rb (CL Red k p r) Red n
| crb_RR k l p n : ctx_rb k Black n -> is_rb l Black n -> ctx_rb (CR Red k l p) Red n
| crb_LB k c p r cr n : ctx_rb k c (S n) -> is_rb r cr n -> ctx_rb (CL Black k p r) Black n
| crb_RB k c l p cl n : ctx_rb k c (S n) -> is_rb l cl n -> ctx_rb (CR Black k l p) Black n.

#[export] Hint Constructors is_rb ctx_rb : trivia.

(** The red-black trees of the program: the root is black. *)
Definition rbtree (t : tree) : Prop := exists n, is_rb t Black n.

Lemma is_rb_color t c n : is_rb t c n -> color_of t = c.
Proof. by destruct 1. Qed.

Lemma is_rb_black_or t c n : is_rb t c n -> color_of t = Black -> is_rb t Black n.
Proof. intros H. pose proof (is_rb_color _ _ _ H). congruence. Qed.

Lemma fill_rb k t ck c n :
  ctx_rb k ck n -> is_rb t c n -> c = Black \/ ck = Black -> rbtree (fill k t).
Proof.
  intros Hk. revert t c. induction Hk; intros t c' Ht Hor; simpl.
  - destruct Hor as [->|]; [by eexists|done].
  - destruct Hor as [->|]; [|done]. eapply IHHk; [by constructor|by right].
  - destruct Hor as [->|]; [|done]. eapply IHHk; [by constructor|by right].
  - eapply IHHk; [by econstructor|by left].
  - eapply IHHk; [by econstructor|by left].
Qed.

Lemma rbtree_black c l p r : rbtree (T c l p r) -> c = Black.
Proof. intros [n H]. by inversion H. Qed.

(** Zippers into red-black trees. *)
Lemma rb_unfill k t n : is_rb (fill k t) Black n ->
  exists ck c m, ctx_rb k ck m /\ is_rb t c m /\ (c = Black \/ ck = Black).
Proof.
  revert t. induction k as [|c k IH p r|c k IH l p]; intros t; simpl; intros H.
  - exists Red, Black, n. split_and!; [constructor|done|by left].
  - destruct (IH _ H) as (ck & c' & m & Hk & Ht & Hor).
    inversion Ht; subst; [destruct Hor as [| ->]; [done|]|]; eauto 10 with trivia.
  - destruct (IH _ H) as (ck & c' & m & Hk & Ht & Hor).
    inversion Ht; subst; [destruct Hor as [| ->]; [done|]|]; eauto 10 with trivia.
Qed.

Lemma fill_root_in k t : k <> Top ->
  root_of (fill k t) ∈ before k \/ root_of (fill k t) ∈ after k.
Proof.
  revert t. induction k as [|c k IH p r|c k IH l p]; intros t Hk; [done|..]; simpl;
    (destruct (ctx_top_dec k) as [->|Hk']; [simpl; set_solver +|]).
  - destruct (IH (T c t p r) Hk'); set_solver.
  - destruct (IH (T c l p t) Hk'); set_solver.
Qed.

(** The node under a proper context is not the root of the whole tree. *)
Lemma fill_root_ne h k t : tree_at h (fill k t) -> k <> Top -> root_of t <> root_of (fill k t).
Proof.
  rewrite tree_at_focus. intros (_ & _ & _ & Hc) Hk Heq.
  pose proof (fill_root_in k t Hk) as Hin. destruct t as [|c l p r].
  - destruct Hc as (_ & Hal). rewrite Forall_forall in Hal.
    assert (aligned (root_of (fill k E))) as [? _] by (apply Hal; simpl; set_solver +Hin).
    simpl in Heq. unfold NULL in Heq. lia.
  - rewrite <- Heq in Hin. apply (clean_disjoint _ _ p Hc); [simpl; set_solver +|done].
Qed.

(** ** Removing and replacing a node *)

(** [pl =? x] for [x =? pl] in the redirection of the parent's link. *)
Lemma wp_relink_left' h k x y Q :
  rep_ctx (rb_nodes h) k x -> x <> root_of (sibling k) ->
  (k <> Top -> ctx_parent k <> NULL) ->
  Q tt (mk_heap (upd_hole k y (rb_nodes h)) (upd_root k y (rb_root h))) ->
  wp (if negb (ctx_parent k =? NULL) then
        pl ← get_left (ctx_parent k);
        if pl =? x then set_left (ctx_parent k) y else set_right (ctx_parent k) y
      else set_root y) h Q.
Proof.
  intros Hk Hx Hnull HQ. pose proof (wp_relink_left h k x y Hk Hx Hnull Q HQ) as Hw.
  revert Hw. destruct (ctx_parent k =? NULL); cbn [negb]; [done|].
  unfold wp, mbind, M_bind. destruct (get_left _ h) as [[pl h']| |]; [|done..].
  by rewrite Z.eqb_sym.
Qed.

(** The heap that results when the only child [t1] of a node takes its place. *)
Lemma tree_at_remove h k c l x r t1 :
  tree_at h (fill k (T c l x r)) -> (l = E /\ t1 = r) \/ (r = E /\ t1 = l) ->
  tree_at (mk_heap (upd_hole k (root_of t1) (upd_parent t1 (ctx_parent k) (rb_nodes h)))
                   (upd_root k (root_of t1) (rb_root h))) (fill k t1).
Proof.
  rewrite !tree_at_focus. intros (Hroot & Hk & (Hx & Hl & Hr) & Hc) Hor.
  assert (addrs (T c l x r) = addrs t1 ++ [x] \/ addrs (T c l x r) = x :: addrs t1) as Ha.
  { destruct Hor as [[-> ->]|[-> ->]]; simpl; [by right|by left]. }
  assert (forall z, z ∈ addrs t1 -> z ∈ addrs (T c l x r)) as Hsub.
  { intros z Hz. destruct Ha as [->| ->]; set_solver +Hz. }
  assert (rep (rb_nodes h) x t1) as Ht1 by (destruct Hor as [[-> ->]|[-> ->]]; done).
  pose proof (clean_nodup _ _ Hc) as Hnd. cbn [rb_nodes rb_root]. split_and!.
  - by erewrite <- root_upd.
  - eapply rep_ctx_upd_hole; [exact Hc|exact Hk|..].
    + intros z Hz Hne. rewrite upd_hole_ne by done. apply upd_parent_ne. intros Hin.
      by apply (clean_disjoint _ _ _ Hc (Hsub z Hin)).
    + intros Hk'. by apply upd_hole_eq.
  - eapply rep_upd_parent; [|exact Ht1|].
    + destruct Ha as [Ha|Ha]; rewrite Ha in Hnd; [by apply NoDup_app in Hnd as [? _]
        |by apply NoDup_cons in Hnd as [_ ?]].
    + intros z Hz. apply upd_hole_ne. eapply clean_parent_notin; [exact Hc|by apply Hsub].
  - destruct Hor as [[-> ->]|[-> ->]]; simpl in Hc.
    + by apply (clean_drop k [] x).
    + apply clean_drop in Hc. by rewrite app_nil_r in Hc.
Qed.

(** A heap in which [y] has taken the place of [x] represents the tree with
    [y] for [x]. *)
Lemma tree_at_replace h m' root' k c l x r y :
  tree_at h (fill k (T c l x r)) ->
  aligned y -> y ∉ addrs (fill k (T c l x r)) ->
  m' !! y = Some (mk_rb (pack (ctx_parent k) c) (root_of r) (root_of l)) ->
  (forall z, z ∈ addrs l -> m' !! z = upd_parent l y (rb_nodes h) !! z) ->
  (forall z, z ∈ addrs r -> m' !! z = upd_parent r y (rb_nodes h) !! z) ->
  (forall z, z ∈ before k \/ z ∈ after k -> z <> ctx_parent k -> m' !! z = rb_nodes h !! z) ->
  (k <> Top -> m' !! ctx_parent k = upd_hole k y (rb_nodes h) !! ctx_parent k) ->
  root' = upd_root k y (rb_root h) ->
  tree_at (mk_heap m' root') (fill k (T c l y r)).
Proof.
  rewrite addrs_fill, !tree_at_focus. intros (Hroot & Hk & (Hx & Hl & Hr) & Hc) Hal Hni.
  intros Hy Hfl Hfr Hfk Hp ->. pose proof (clean_nodup _ _ Hc) as Hnd. simpl in Hnd.
  rewrite NoDup_app, NoDup_cons in Hnd. destruct Hnd as (Hndl & _ & _ & Hndr).
  cbn [rb_nodes rb_root]. split_and!.
  - by erewrite <- (root_upd _ _ _ (T c l y r)).
  - eapply rep_ctx_upd_hole; [exact Hc|exact Hk|exact Hfk|exact Hp].
  - split_and!; [done| |].
    + by eapply rep_upd_parent.
    + by eapply rep_upd_parent.
  - eapply clean_swap; [exact Hc|done|]. simpl in Hni. set_solver +Hni.
Qed.
