(* ===== verification/RbWalk.v ===== *)
(** * rb_first, rb_last, rb_next, rb_prev: walking a red-black tree in order *)
From Stdlib Require Import ZArith Lia Bool.
From stdpp Require Import base tactics list gmap.
From S2P Require Import Prelude RbTree RbShape.

(** ** Composition of contexts: [ks] inside the hole of [k] *)
Fixpoint comp (k ks : ctx) : ctx :=
  match ks with
  | Top => k
  | CL c ks p r => CL c (comp k ks) p r
  | CR c ks l p => CR c (comp k ks) l p
  end.

Lemma fill_comp k ks t : fill (comp k ks) t = fill k (fill ks t).
Proof. revert t. induction ks; intros t; simpl; auto. Qed.

Lemma depth_comp k ks : depth (comp k ks) = (depth k + depth ks)%nat.
Proof. induction ks; simpl; lia. Qed.

Lemma before_comp k ks : before (comp k ks) = before k ++ before ks.
Proof. induction ks; simpl; [by rewrite app_nil_r|done|]. by rewrite IHks, <- app_assoc. Qed.

Lemma after_comp k ks : after (comp k ks) = after ks ++ after k.
Proof. induction ks; simpl; [done| |done]. by rewrite IHks, <- app_assoc. Qed.

Lemma ctx_rb_comp k1 k2 ks :
  (forall c n, ctx_rb k1 c n -> ctx_rb k2 c n) ->
  forall c n, ctx_rb (comp k1 ks) c n -> ctx_rb (comp k2 ks) c n.
Proof.
  intros Hk. induction ks; intros c' n; simpl; [apply Hk|..]; inversion 1; subst;
    eauto with trivia.
Qed.

Lemma height_fill k t : (depth k + height t <= height (fill k t))%nat.
Proof.
  revert t. induction k as [|c k IH p r|c k IH l p]; intros t; cbn [depth fill]; [lia|..].
  - specialize (IH (T c t p r)). simpl in IH. lia.
  - specialize (IH (T c l p t)). simpl in IH. lia.
Qed.

(** ** Nodes of a tree and their contexts *)

(** The node that follows [a] in the in-order sequence is the root of a
    subtree of [t]. *)
Lemma focus_at t a x b : NoDup (addrs t) -> addrs t = a ++ x :: b ->
  exists k c l r, t = fill k (T c l x r) /\ a = before k ++ addrs l /\ b = addrs r ++ after k.
Proof.
  intros Hnd Ht. assert (x ∈ addrs t) as Hx by (rewrite Ht; set_solver +).
  assert (exists k c l r, t = fill k (T c l x r)) as (k & c & l & r & ->).
  { clear -Hx. induction t as [|c l IHl p r IHr]; [set_solver +Hx|].
    cbn [addrs] in Hx. rewrite elem_of_app, elem_of_cons in Hx. destruct Hx as [Hx|[->|Hx]].
    - destruct (IHl Hx) as (k & c' & l' & r' & ->). exists (comp (CL c Top p r) k), c', l', r'.
      by rewrite fill_comp.
    - by exists Top, c, l, r.
    - destruct (IHr Hx) as (k & c' & l' & r' & ->). exists (comp (CR c Top l p) k), c', l', r'.
      by rewrite fill_comp. }
  exists k, c, l, r. split; [done|]. rewrite addrs_fill in Ht, Hnd. cbn [addrs] in Ht, Hnd.
  rewrite <- app_assoc, <- app_comm_cons, app_assoc in Ht, Hnd.
  pose proof Hnd as Hnd'. rewrite Ht in Hnd'.
  apply NoDup_app in Hnd as (_ & Hd1 & _). apply NoDup_app in Hnd' as (_ & Hd2 & _).
  destruct (not_elem_of_app_cons_inv_l x x (before k ++ addrs l) (addrs r ++ after k) a b)
    as (<- & _ & <-); [intros Hi; apply (Hd2 x Hi); set_solver +
      |intros Hi; apply (Hd1 x Hi); set_solver +|done|done].
Qed.

(** ** The leftmost and the rightmost node *)
Definition last_of (l : list Z) : Z := default NULL (last l).

Lemma last_of_app l x r : last_of (l ++ x :: r) = last_of (x :: r).
Proof. unfold last_of. by rewrite last_app_cons. Qed.

Lemma go_left_ok t : forall fuel h k Q,
  t <> E -> (height t <= fuel)%nat -> tree_at h (fill k t) -> Q (hd NULL (addrs t)) h ->
  wp (go_left fuel (root_of t)) h Q.
Proof.
  induction t as [|c l IH p r _]; intros fuel h k Q Hne Hf Ht HQ; [done|].
  simpl in Hf. destruct fuel as [|fuel]; [lia|]. cbn [go_left root_of]. apply wp_bind.
  eapply at_get_left; [exact Ht|]. destruct l as [|c1 l1 q r1]; [by apply wp_ret|].
  destruct (tree_at_node h (CL c k p r) _ _ _ _ Ht) as (_ & Hq & _).
  cbn [root_of]. rewrite (proj2 (Z.eqb_neq q NULL)) by done.
  eapply (IH fuel h (CL c k p r)); [done|lia|exact Ht|].
  revert HQ. cbn [addrs]. by destruct (addrs l1).
Qed.

Lemma go_right_ok t : forall fuel h k Q,
  t <> E -> (height t <= fuel)%nat -> tree_at h (fill k t) -> Q (last_of (addrs t)) h ->
  wp (go_right fuel (root_of t)) h Q.
Proof.
  induction t as [|c l _ p r IH]; intros fuel h k Q Hne Hf Ht HQ; [done|].
  simpl in Hf. destruct fuel as [|fuel]; [lia|]. cbn [go_right root_of]. apply wp_bind.
  eapply at_get_right; [exact Ht|].
  cbn [addrs] in HQ. rewrite last_of_app in HQ.
  destruct r as [|c1 l1 q r1]; [by apply wp_ret|].
  destruct (tree_at_node h (CR c k l p) _ _ _ _ Ht) as (_ & Hq & _).
  cbn [root_of]. rewrite (proj2 (Z.eqb_neq q NULL)) by done.
  eapply (IH fuel h (CR c k l p)); [done|lia|exact Ht|].
  cbn [addrs] in HQ |- *. rewrite app_comm_cons in HQ. by rewrite last_of_app in *.
Qed.

(** The path to the leftmost node of a subtree. *)
Lemma leftmost_path c l p r :
  exists ks cy y ch, T c l p r = fill ks (T cy E y ch) /\ before ks = [] /\ (depth ks < height (T c l p r))%nat.
Proof.
  revert c p r. induction l as [|c1 l1 IH p1 r1 _]; intros c p r.
  - exists Top, c, p, r. simpl. split_and!; [done..|lia].
  - destruct (IH c1 p1 r1) as (ks & cy & y & ch & Heq & Hs & Hd).
    exists (comp (CL c Top p r) ks), cy, y, ch. rewrite fill_comp, <- Heq, depth_comp, before_comp.
    split_and!; [done|done|simpl in *; lia].
Qed.

(** ** Climbing to the parent *)
Lemma climb_right_ok k : forall fuel h t Q,
  t <> E -> (depth k < fuel)%nat -> tree_at h (fill k t) -> Q (hd NULL (after k)) h ->
  wp (climb_right fuel (root_of t)) h Q.
Proof.
  induction k as [|c k IH p r|c k IH l p]; intros fuel h t Q Hne Hf Ht HQ;
    simpl in Hf; (destruct fuel as [|fuel]; [lia|]); cbn [climb_right];
    (destruct t as [|ct tl x tr]; [done|]); apply wp_bind;
    (eapply at_parent; [exact Ht|]); cbn [ctx_parent root_of] in *.
  - by apply wp_ret.
  - destruct (tree_at_node h k c _ p r Ht) as (_ & Hp & _).
    rewrite (proj2 (Z.eqb_neq p NULL)) by done. apply wp_bind.
    eapply at_get_right; [exact Ht|].
    destruct (at_child_ne h k c _ p r ct tl x tr Ht) as [_ Hn].
    rewrite (proj2 (Z.eqb_neq x (root_of r))) by (symmetry; by apply Hn). by apply wp_ret.
  - destruct (tree_at_node h k c l p _ Ht) as (_ & Hp & _).
    rewrite (proj2 (Z.eqb_neq p NULL)) by done. apply wp_bind.
    eapply at_get_right; [exact Ht|]. cbn [root_of]. rewrite Z.eqb_refl.
    eapply (IH fuel h (T c l p (T ct tl x tr))); [done|lia|exact Ht|exact HQ].
Qed.

Lemma climb_left_ok k : forall fuel h t Q,
  t <> E -> (depth k < fuel)%nat -> tree_at h (fill k t) -> Q (last_of (before k)) h ->
  wp (climb_left fuel (root_of t)) h Q.
Proof.
  induction k as [|c k IH p r|c k IH l p]; intros fuel h t Q Hne Hf Ht HQ;
    simpl in Hf; (destruct fuel as [|fuel]; [lia|]); cbn [climb_left];
    (destruct t as [|ct tl x tr]; [done|]); apply wp_bind;
    (eapply at_parent; [exact Ht|]); cbn [ctx_parent root_of] in *.
  - by apply wp_ret.
  - destruct (tree_at_node h k c _ p r Ht) as (_ & Hp & _).
    rewrite (proj2 (Z.eqb_neq p NULL)) by done. apply wp_bind.
    eapply at_get_left; [exact Ht|]. cbn [root_of]. rewrite Z.eqb_refl.
    eapply (IH fuel h (T c (T ct tl x tr) p r)); [done|lia|exact Ht|exact HQ].
  - destruct (tree_at_node h k c l p _ Ht) as (_ & Hp & _).
    rewrite (proj2 (Z.eqb_neq p NULL)) by done. apply wp_bind.
    eapply at_get_left; [exact Ht|].
    destruct (at_child_ne h k c l p _ ct tl x tr Ht) as [Hn _].
    rewrite (proj2 (Z.eqb_neq x (root_of l))) by (symmetry; by apply Hn). apply wp_ret.
    revert HQ. cbn [before]. rewrite app_assoc. by rewrite last_of_app.
Qed.

(** ** The four operations *)
Section walk.
Context (fuel : nat) (h : rb_heap) (t : tree).
Context (Ht : tree_at h t) (Hf : (height t < fuel)%nat).

Lemma rb_first_ok Q : Q (hd NULL (addrs t)) h -> wp (rb_first fuel) h Q.
Proof.
  intros HQ. apply wp_bind. eapply at_root; [exact Ht|]. destruct t as [|c l p r]; [done|].
  destruct (tree_at_node h Top c l p r Ht) as (_ & Hp & _). cbn [root_of].
  rewrite (proj2 (Z.eqb_neq p NULL)) by done.
  eapply (go_left_ok (T c l p r) fuel h Top); [done|lia|done|done].
Qed.

Lemma rb_last_ok Q : Q (last_of (addrs t)) h -> wp (rb_last fuel) h Q.
Proof.
  intros HQ. apply wp_bind. eapply at_root; [exact Ht|]. destruct t as [|c l p r]; [done|].
  destruct (tree_at_node h Top c l p r Ht) as (_ & Hp & _). cbn [root_of].
  rewrite (proj2 (Z.eqb_neq p NULL)) by done.
  eapply (go_right_ok (T c l p r) fuel h Top); [done|lia|done|done].
Qed.

Lemma parent_ne k c l x r : t = fill k (T c l x r) -> ctx_parent k <> x.
Proof.
  intros Heq. pose proof Ht as Ht'. rewrite Heq, tree_at_focus in Ht'.
  destruct Ht' as (_ & _ & _ & Hc). intros Hx. symmetry in Hx. revert Hx.
  eapply clean_parent_notin; [exact Hc|]. set_solver +.
Qed.

Lemma rb_next_ok a x b Q : addrs t = a ++ x :: b ->
  Q (hd NULL b) h -> wp (rb_next fuel x) h Q.
Proof.
  intros Ha HQ. pose proof Ht as (_ & _ & Hnd & _).
  destruct (focus_at t a x b Hnd Ha) as (k & c & l & r & Heq & _ & ->).
  pose proof (parent_ne _ _ _ _ _ Heq) as Hpx. rewrite Heq in Ht, Hf.
  pose proof (height_fill k (T c l x r)) as Hh. simpl in Hh.
  apply wp_bind. eapply at_parent; [exact Ht|]. rewrite (proj2 (Z.eqb_neq _ _)) by done.
  apply wp_bind. eapply at_get_right; [exact Ht|]. destruct r as [|rc rl q rr]; cbn [root_of].
  - rewrite Z.eqb_refl. cbn [negb].
    eapply (climb_right_ok k fuel h (T c l x E)); [done|lia|done|done].
  - destruct (tree_at_node h (CR c k l x) rc rl q rr Ht) as (_ & Hq & _).
    rewrite (proj2 (Z.eqb_neq q NULL)) by done. cbn [negb].
    eapply (go_left_ok (T rc rl q rr) fuel h (CR c k l x)); [done|simpl in *; lia|done|].
    revert HQ. cbn [addrs]. by destruct (addrs rl).
Qed.

Lemma rb_prev_ok a x b Q : addrs t = a ++ x :: b ->
  Q (last_of a) h -> wp (rb_prev fuel x) h Q.
Proof.
  intros Ha HQ. pose proof Ht as (_ & _ & Hnd & _).
  destruct (focus_at t a x b Hnd Ha) as (k & c & l & r & Heq & -> & _).
  pose proof (parent_ne _ _ _ _ _ Heq) as Hpx. rewrite Heq in Ht, Hf.
  pose proof (height_fill k (T c l x r)) as Hh. simpl in Hh.
  apply wp_bind. eapply at_parent; [exact Ht|]. rewrite (proj2 (Z.eqb_neq _ _)) by done.
  apply wp_bind. eapply at_get_left; [exact Ht|]. destruct l as [|lc ll q lr]; cbn [root_of].
  - rewrite Z.eqb_refl. cbn [negb]. cbn [addrs] in HQ. rewrite app_nil_r in HQ.
    eapply (climb_left_ok k fuel h (T c E x r)); [done|lia|done|done].
  - destruct (tree_at_node h (CL c k x r) lc ll q lr Ht) as (_ & Hq & _).
    rewrite (proj2 (Z.eqb_neq q NULL)) by done. cbn [negb].
    eapply (go_right_ok (T lc ll q lr) fuel h (CL c k x r)); [done|simpl in *; lia|done|].
    revert HQ. cbn [addrs]. rewrite app_assoc. by rewrite !last_of_app.
Qed.
End walk.
