(* ===== verification/RbInsert.v ===== *)
(** * rb_link_node and rb_insert_color: insertion keeps a red-black tree *)
From Stdlib Require Import ZArith Lia Bool.
From stdpp Require Import base tactics list gmap.
From S2P Require Import Prelude RbTree RbShape.

(** What the loop leaves: the same sequence of nodes, balanced up to the
    colour of the root. *)
Definition balanced_as (t t' : tree) : Prop :=
  addrs t' = addrs t /\
  match t' with E => False | T _ l p r => rbtree (T Black l p r) end.

Lemma balanced_fill k x l r ck n :
  ctx_rb k ck n -> is_rb l Black n -> is_rb r Black n -> k = Top \/ ck = Black ->
  balanced_as (fill k (T Red l x r)) (fill k (T Red l x r)).
Proof.
  intros Hk Hl Hr Hor. split; [done|]. destruct Hor as [->| ->].
  - simpl. eexists. by econstructor.
  - destruct (fill_rb k (T Red l x r) Black Red n) as [m Hm];
      [done|by constructor|by right|].
    destruct (fill k (T Red l x r)) as [|c' l' p' r'] eqn:Hf.
    + apply (f_equal addrs) in Hf. rewrite addrs_fill in Hf. simpl in Hf.
      by destruct (before k), (addrs l).
    + assert (c' = Black) as -> by (eapply rbtree_black; by exists m). by exists m.
Qed.

Lemma balanced_as_trans t1 t2 t3 :
  addrs t2 = addrs t1 -> balanced_as t2 t3 -> balanced_as t1 t3.
Proof. unfold balanced_as. intuition congruence. Qed.

(** The loop stops at once under a black parent or at the root. *)
Lemma insert_loop_stop fuel h k x l r ck n Q :
  tree_at h (fill k (T Red l x r)) -> ctx_rb k ck n ->
  is_rb l Black n -> is_rb r Black n -> k = Top \/ ck = Black ->
  (forall h' t', tree_at h' t' -> balanced_as (fill k (T Red l x r)) t' -> Q tt h') ->
  wp (insert_color_loop (S fuel) x) h Q.
Proof.
  intros Ht Hk Hl Hr Hor HQ. cbn [insert_color_loop]. apply wp_bind.
  eapply at_parent; [exact Ht|]. pose proof (balanced_fill _ x _ _ _ _ Hk Hl Hr Hor).
  destruct (Z.eqb_spec (ctx_parent k) NULL) as [|Hne]; [apply wp_ret; eauto|].
  destruct Hor as [->| ->]; [done|].
  apply wp_bind. destruct k as [|c k p s|c k s p]; [done|..]; inversion Hk; subst.
  - eapply (at_is_red _ k Black _ p s); [exact Ht|]. apply wp_ret. eauto.
  - eapply (at_is_red _ k Black s p _); [exact Ht|]. apply wp_ret. eauto.
Qed.

(** A red node [p] with a red child [x], on either side. *)
Definition red_red (n : nat) (p x : Z) (tp : tree) : Prop :=
  exists l r s, is_rb l Black n /\ is_rb r Black n /\ is_rb s Black n /\
    (tp = T Red (T Red l x r) p s \/ tp = T Red s p (T Red l x r)).

Lemma red_red_root n p x tp : red_red n p x tp -> exists l r, tp = T Red l p r.
Proof. intros (l & r & s & _ & _ & _ & [->| ->]); eauto. Qed.

(** The inner rotation brings the red child to the outside. *)
Lemma straighten_left h k tp n p x (K : Z * Z -> RB unit) Q :
  tree_at h (fill k tp) -> red_red n p x tp ->
  (forall h' l' x' r' p' s', tree_at h' (fill k (T Red (T Red l' x' r') p' s')) ->
     addrs (T Red (T Red l' x' r') p' s') = addrs tp ->
     is_rb l' Black n -> is_rb r' Black n -> is_rb s' Black n -> wp (K (x', p')) h' Q) ->
  wp (pr ← get_right p;
      np ← (if pr =? x then __rb_rotate_left p;; mret (p, x) else mret (x, p)); K np) h Q.
Proof.
  intros Ht (l & r & s & Hl & Hr & Hs & [->| ->]) HK; apply wp_bind;
    (eapply at_get_right; [exact Ht|]).
  - destruct (at_child_ne _ _ _ _ _ _ Red l x r Ht) as [_ Hne].
    rewrite (proj2 (Z.eqb_neq (root_of s) x)) by auto. by apply (HK h l x r p s).
  - simpl. rewrite Z.eqb_refl. do 2 apply wp_bind. eapply wp_rotate_left; [exact Ht|].
    intros h' Ht'. apply wp_ret. eapply HK; [exact Ht'| |done..]. addrs_eq.
Qed.

Lemma straighten_right h k tp n p x (K : Z * Z -> RB unit) Q :
  tree_at h (fill k tp) -> red_red n p x tp ->
  (forall h' l' x' r' p' s', tree_at h' (fill k (T Red s' p' (T Red l' x' r'))) ->
     addrs (T Red s' p' (T Red l' x' r')) = addrs tp ->
     is_rb l' Black n -> is_rb r' Black n -> is_rb s' Black n -> wp (K (x', p')) h' Q) ->
  wp (pl ← get_left p;
      np ← (if pl =? x then __rb_rotate_right p;; mret (p, x) else mret (x, p)); K np) h Q.
Proof.
  intros Ht (l & r & s & Hl & Hr & Hs & [->| ->]) HK; apply wp_bind;
    (eapply at_get_left; [exact Ht|]).
  - simpl. rewrite Z.eqb_refl. do 2 apply wp_bind. eapply wp_rotate_right; [exact Ht|].
    intros h' Ht'. apply wp_ret. eapply HK; [exact Ht'| |done..]. addrs_eq.
  - destruct (at_child_ne _ _ _ _ _ _ Red l x r Ht) as [Hne _].
    rewrite (proj2 (Z.eqb_neq (root_of s) x)) by auto. by apply (HK h l x r p s).
Qed.

(** What one turn of the loop needs from the turns that follow. *)
Definition loop_spec (fuel : nat) : Prop := forall h k x l r ck n Q,
  (depth k < fuel)%nat ->
  tree_at h (fill k (T Red l x r)) -> ctx_rb k ck n ->
  is_rb l Black n -> is_rb r Black n ->
  (forall h' t', tree_at h' t' -> balanced_as (fill k (T Red l x r)) t' -> Q tt h') ->
  wp (insert_color_loop fuel x) h Q.

Section step.
Context (fuel : nat) (IH : loop_spec (S fuel)).
Context (h : rb_heap) (k : ctx) (g p x : Z) (u tp : tree) (ck cu : color) (n : nat).
Context (Q : unit -> rb_heap -> Prop).
Context (Hf : (depth k < S fuel)%nat).
Context (Hk : ctx_rb k ck (S n)) (Hu : is_rb u cu n) (Hp : red_red n p x tp).

Lemma red_red_blacken : exists l r,
  tp = T Red l p r /\ is_rb (T Black l p r) Black (S n).
Proof.
  destruct Hp as (l & r & s & Hl & Hr & Hs & [->| ->]); do 2 eexists; split;
    eauto with trivia.
Qed.

Lemma insert_step_left :
  tree_at h (fill k (T Black tp g u)) ->
  (forall h' t', tree_at h' t' -> balanced_as (fill k (T Black tp g u)) t' -> Q tt h') ->
  wp (uncle ← get_right g;
      ured ← nonnull_red uncle;
      if (ured : bool) then
        rb_set_black uncle;; rb_set_black p;; rb_set_red g;;
        insert_color_loop (S fuel) g
      else
        pr ← get_right p;
        np ← (if pr =? x then __rb_rotate_left p;; mret (p, x) else mret (x, p));
        rb_set_black np.2;; rb_set_red g;; __rb_rotate_right g;;
        insert_color_loop (S fuel) np.1) h Q.
Proof.
  intros Ht HQ. apply wp_bind. eapply at_get_right; [exact Ht|].
  apply wp_bind. eapply (at_nonnull_red h (CR Black k tp g) u); [exact Ht|].
  pose proof (is_rb_color _ _ _ Hu) as Hcu. case_bool_decide as Hc.
  - destruct u as [|? ul q ur]; [done|]. simpl in Hc. subst. simpl in Hu.
    destruct red_red_blacken as (a & b & -> & Hb). cbn [root_of].
    apply wp_bind. eapply (at_set_black h (CR Black k _ g)); [exact Ht|]. intros h1 Ht1.
    apply wp_bind. eapply (at_set_black h1 (CL Black k g _)); [exact Ht1|]. intros h2 Ht2.
    apply wp_bind. eapply (at_set_red h2 k); [exact Ht2|]. intros h3 Ht3.
    eapply IH; [exact Hf|exact Ht3|exact Hk|done|inversion Hu; subst; by econstructor|].
    intros h' t' Ht' Hb'. apply (HQ h' t' Ht'). eapply balanced_as_trans; [|exact Hb'].
    addrs_eq.
  - eapply (straighten_left h (CL Black k g u)); [exact Ht|exact Hp|].
    intros h1 l' x' r' p' s' Ht1 Ha Hl Hr Hs. cbn [fst snd].
    assert (is_rb u Black n) as Hu' by (destruct cu; [congruence|done]).
    apply wp_bind. eapply (at_set_black h1 (CL Black k g u)); [exact Ht1|]. intros h2 Ht2.
    apply wp_bind. eapply (at_set_red h2 k); [exact Ht2|]. intros h3 Ht3.
    apply wp_bind. eapply (wp_rotate_right h3 k); [exact Ht3|]. intros h4 Ht4.
    eapply (insert_loop_stop fuel h4 (CL Black k p' (T Red s' g u)));
      [exact Ht4|eauto with trivia|exact Hl|exact Hr|by right|].
    intros h' t' Ht' Hb'. apply (HQ h' t' Ht'). eapply balanced_as_trans; [|exact Hb'].
    cbn [fill]. rewrite !addrs_fill. cbn [addrs]. rewrite <- Ha. addrs_eq.
Qed.

Lemma insert_step_right :
  tree_at h (fill k (T Black u g tp)) ->
  (forall h' t', tree_at h' t' -> balanced_as (fill k (T Black u g tp)) t' -> Q tt h') ->
  wp (uncle ← get_left g;
      ured ← nonnull_red uncle;
      if (ured : bool) then
        rb_set_black uncle;; rb_set_black p;; rb_set_red g;;
        insert_color_loop (S fuel) g
      else
        pl ← get_left p;
        np ← (if pl =? x then __rb_rotate_right p;; mret (p, x) else mret (x, p));
        rb_set_black np.2;; rb_set_red g;; __rb_rotate_left g;;
        insert_color_loop (S fuel) np.1) h Q.
Proof.
  intros Ht HQ. apply wp_bind. eapply at_get_left; [exact Ht|].
  apply wp_bind. eapply (at_nonnull_red h (CL Black k g tp) u); [exact Ht|].
  pose proof (is_rb_color _ _ _ Hu) as Hcu. case_bool_decide as Hc.
  - destruct u as [|? ul q ur]; [done|]. simpl in Hc. subst. simpl in Hu.
    destruct red_red_blacken as (a & b & -> & Hb). cbn [root_of].
    apply wp_bind. eapply (at_set_black h (CL Black k g _)); [exact Ht|]. intros h1 Ht1.
    apply wp_bind. eapply (at_set_black h1 (CR Black k _ g)); [exact Ht1|]. intros h2 Ht2.
    apply wp_bind. eapply (at_set_red h2 k); [exact Ht2|]. intros h3 Ht3.
    eapply IH; [exact Hf|exact Ht3|exact Hk|inversion Hu; subst; by econstructor|done|].
    intros h' t' Ht' Hb'. apply (HQ h' t' Ht'). eapply balanced_as_trans; [|exact Hb'].
    addrs_eq.
  - eapply (straighten_right h (CR Black k u g)); [exact Ht|exact Hp|].
    intros h1 l' x' r' p' s' Ht1 Ha Hl Hr Hs. cbn [fst snd].
    assert (is_rb u Black n) as Hu' by (destruct cu; [congruence|done]).
    apply wp_bind. eapply (at_set_black h1 (CR Black k u g)); [exact Ht1|]. intros h2 Ht2.
    apply wp_bind. eapply (at_set_red h2 k); [exact Ht2|]. intros h3 Ht3.
    apply wp_bind. eapply (wp_rotate_left h3 k); [exact Ht3|]. intros h4 Ht4.
    eapply (insert_loop_stop fuel h4 (CR Black k (T Red u g s') p'));
      [exact Ht4|eauto with trivia|exact Hl|exact Hr|by right|].
    intros h' t' Ht' Hb'. apply (HQ h' t' Ht'). eapply balanced_as_trans; [|exact Hb'].
    cbn [fill]. rewrite !addrs_fill. cbn [addrs]. rewrite <- Ha. addrs_eq.
Qed.
End step.

(** One turn of the loop at a red node [x] under a red [p] under a black [g]. *)
Lemma insert_turn fuel h k x p tp ck n Q :
  loop_spec (S fuel) -> (depth k <= S fuel)%nat ->
  ctx_rb k Black n -> red_red n p x tp -> ck = Black ->
  tree_at h (fill k tp) ->
  wp (rb_parent x) h (fun q h' => q = p /\ h' = h) ->
  (forall h' t', tree_at h' t' -> balanced_as (fill k tp) t' -> Q tt h') ->
  wp (insert_color_loop (S (S fuel)) x) h Q.
Proof.
  intros IH Hf Hk Hp _ Ht Hpar HQ. cbn [insert_color_loop]. apply wp_bind.
  eapply wp_mono; [exact Hpar|]. intros ? ? [-> ->]. fold insert_color_loop.
  destruct (red_red_root _ _ _ _ Hp) as (a & b & Htp). rewrite Htp in Ht.
  destruct (tree_at_node _ _ _ _ _ _ Ht) as (_ & Hpn & _).
  rewrite (proj2 (Z.eqb_neq p NULL)) by done.
  apply wp_bind. eapply (at_is_red h k); [exact Ht|]. cbn [bool_decide negb].
  rewrite bool_decide_eq_true_2 by done. cbn [negb].
  apply wp_bind. eapply (at_parent h k); [exact Ht|]. apply wp_bind.
  inversion Hk as [| | |k1 c1 g u cu n1 Hk1 Hu|k1 c1 u g cu n1 Hk1 Hu]; subst k n1;
    cbn [ctx_parent fill depth] in *.
  - eapply (at_get_left h k1); [exact Ht|]. cbn [root_of]. rewrite Z.eqb_refl.
    rewrite <- Htp in Ht. eapply insert_step_left; eauto.
  - eapply (at_get_left h k1); [exact Ht|].
    destruct (at_child_ne h k1 _ _ _ _ Red a p b Ht) as [Hne _].
    rewrite (proj2 (Z.eqb_neq p (root_of u))) by (symmetry; by eapply Hne).
    rewrite <- Htp in Ht. eapply insert_step_right; eauto.
Qed.

Lemma insert_loop_ok fuel : loop_spec fuel.
Proof.
  induction fuel as [|fuel IH]; intros h k x l r ck n Q Hf Ht Hk Hl Hr HQ; [lia|].
  destruct ck; [|eapply insert_loop_stop; eauto].
  inversion Hk as [|k0 p s n0 Hk0 Hs|k0 s p n0 Hk0 Hs| |]; subst;
    [eapply insert_loop_stop; eauto|..]; (destruct fuel as [|fuel]; [simpl in Hf; lia|]).
  - eapply (insert_turn fuel h k0 x p); [exact IH|simpl in Hf; lia|exact Hk0| |done|exact Ht| |exact HQ].
    + exists l, r, s. auto.
    + by eapply at_parent; [exact Ht|].
  - eapply (insert_turn fuel h k0 x p); [exact IH|simpl in Hf; lia|exact Hk0| |done|exact Ht| |exact HQ].
    + exists l, r, s. auto.
    + by eapply at_parent; [exact Ht|].
Qed.
