(* ===== verification/RbErase.v ===== *)
(** * rb_erase and __rb_erase_color: removal keeps a red-black tree *)
From Stdlib Require Import ZArith Lia Bool.
From stdpp Require Import base tactics list gmap.
From S2P Require Import Prelude RbTree RbShape RbWalk.

(** ** The rebalancing loop *)

(** [t] is one black node short of black height [S n]: painting its root black
    would repair it if the root is red. *)
Definition deficient (t : tree) (n : nat) : Prop :=
  match t with
  | T Red l p r => is_rb (T Black l p r) Black (S n)
  | _ => is_rb t Black n
  end.

Definition blacken (t : tree) : tree :=
  match t with E => E | T _ l p r => T Black l p r end.

Definition loop_post (t0 : tree) (Q : Z -> rb_heap -> Prop) : Prop :=
  forall h' k t, tree_at h' (fill k t) -> addrs (fill k t) = addrs t0 ->
    rbtree (fill k (blacken t)) -> Q (root_of t) h'.

Lemma loop_post_eq t0 t1 Q : addrs t1 = addrs t0 -> loop_post t0 Q -> loop_post t1 Q.
Proof. unfold loop_post. intros ->. done. Qed.

Lemma rbtree_blacken t : rbtree t -> blacken t = t.
Proof. intros [n H]. by inversion H. Qed.

Definition erase_spec (fuel : nat) : Prop := forall h k t ck n Q,
  (depth k < fuel)%nat -> tree_at h (fill k t) -> ctx_rb k ck (S n) -> deficient t n ->
  loop_post (fill k t) Q ->
  wp (erase_color_loop fuel (root_of t) (ctx_parent k)) h Q.

(** The loop ends at a red node. *)
Lemma erase_loop_red fuel h k l p r ck n Q :
  tree_at h (fill k (T Red l p r)) -> ctx_rb k ck (S n) ->
  is_rb (T Black l p r) Black (S n) -> loop_post (fill k (T Red l p r)) Q ->
  wp (erase_color_loop (S fuel) p (ctx_parent k)) h Q.
Proof.
  intros Ht Hk Hr HQ. cbn [erase_color_loop]. apply wp_bind.
  eapply (at_null_or_black h k (T Red l p r)); [exact Ht|]. cbn [color_of].
  apply wp_bind. eapply at_root; [exact Ht|]. rewrite bool_decide_eq_false_2 by done.
  cbn [andb negb]. apply wp_ret. apply (HQ h k (T Red l p r)); [done..|].
  eapply fill_rb; [exact Hk|exact Hr|by left].
Qed.

Section step.
Context (fuel : nat) (h : rb_heap) (k : ctx) (c : color) (t s : tree) (p : Z).
Context (ck : color) (n : nat) (Q : Z -> rb_heap -> Prop).

Section left.
Context (Ht : tree_at h (fill (CL c k p s) t)).
Context (Hk : ctx_rb (CL c k p s) ck (S n)) (Hn : is_rb t Black n).

(** A red sibling is rotated away; the new one is black. *)
Lemma sibling_black_left (K : Z -> RB Z) :
  (forall h' c' k' ck' sl o sr,
     tree_at h' (fill (CL c' k' p (T Black sl o sr)) t) ->
     ctx_rb (CL c' k' p (T Black sl o sr)) ck' (S n) ->
     addrs (fill (CL c' k' p (T Black sl o sr)) t) = addrs (fill (CL c k p s) t) ->
     (c' = Black -> depth k' = depth k) -> wp (K o) h' Q) ->
  wp (ored ← rb_is_red (root_of s);
      other ← (if (ored : bool) then
                 rb_set_black (root_of s);; rb_set_red p;;
                 __rb_rotate_left p;; get_right p
               else mret (root_of s)); K other) h Q.
Proof.
  intros HK.
  assert (exists sc sl o sr, s = T sc sl o sr) as (sc & sl & o & sr & ->).
  { inversion Hk as [|? ? ? ? _ Hs| |? ? ? ? ? ? _ Hs|]; inversion Hs; subst; eauto. }
  apply wp_bind. eapply (at_is_red h (CR c k t p)); [exact Ht|]. apply wp_bind.
  case_bool_decide as Hsc; cycle 1.
  - apply wp_ret. destruct sc; [done|]. by eapply HK.
  - subst sc. inversion Hk as [|? ? ? ? _ Hs| |k0 c0 ? ? cs ? Hk0 Hs|]; subst; [by inversion Hs|].
    inversion Hs as [|? ? ? ? Hsl Hsr|]; subst.
    inversion Hsl as [| |a q b ca cb m Ha Hb]; subst. cbn [root_of].
    apply wp_bind. eapply (at_set_black h (CR Black k t p)); [exact Ht|]. intros h1 Ht1.
    apply wp_bind. eapply (at_set_red h1 k); [exact Ht1|]. intros h2 Ht2.
    apply wp_bind. eapply (wp_rotate_left h2 k); [exact Ht2|]. intros h3 Ht3.
    eapply (at_get_right h3 (CL Black k o sr)); [exact Ht3|].
    eapply (HK h3 Red (CL Black k o sr)); [exact Ht3|eauto with trivia| |done].
    addrs_eq.
Qed.

(** A black outer nephew is exchanged for the red inner one. *)
Lemma nephew_red_left sl o sr (K : Z -> RB Z) :
  s = T Black sl o sr -> (color_of sl = Black -> color_of sr = Black -> False) ->
  (forall h' a o' b q d, 
     tree_at h' (fill (CL c k p (T Black a o' (T Red b q d))) t) ->
     (exists ca, is_rb a ca n) -> is_rb b Black n -> is_rb d Black n ->
     addrs (fill (CL c k p (T Black a o' (T Red b q d))) t) = addrs (fill (CL c k p s) t) ->
     wp (K o') h' Q) ->
  wp (or ← get_right o; orb ← null_or_black or;
      other' ← (if (orb : bool) then
                  ol ← get_left o;
                  (if negb (ol =? NULL) then rb_set_black ol else mret tt);;
                  rb_set_red o;;
                  __rb_rotate_right o;; get_right p
                else mret o); K other') h Q.
Proof.
  intros -> Hred HK.
  assert (exists cl cr, is_rb sl cl n /\ is_rb sr cr n) as (cl & cr & Hsl & Hsr).
  { inversion Hk as [|? ? ? ? _ Hs| |? ? ? ? ? ? _ Hs|]; inversion Hs; subst; eauto. }
  apply wp_bind. eapply (at_get_right h (CR c k t p)); [exact Ht|].
  apply wp_bind. eapply (at_null_or_black h (CR Black (CR c k t p) sl o) sr); [exact Ht|].
  apply wp_bind. case_bool_decide as Hsrc; cycle 1.
  - apply wp_ret. inversion Hsr as [|b q d ? Hb Hd|]; subst; [done| |done].
    eapply (HK h sl o b q d); [exact Ht|eauto..].
  - assert (color_of sl <> Black) as Hslc by (intros ?; by apply Hred).
    inversion Hsl as [|a q b ? Ha Hb|]; subst; [done| |done].
    apply wp_bind. eapply (at_get_left h (CR c k t p)); [exact Ht|]. cbn [root_of].
    destruct (tree_at_node h (CL Black (CR c k t p) o sr) Red a q b Ht) as (_ & Hq & _).
    rewrite (proj2 (Z.eqb_neq q NULL)) by done. cbn [negb].
    apply wp_bind. eapply (at_set_black h (CL Black (CR c k t p) o sr)); [exact Ht|].
    intros h1 Ht1. apply wp_bind. eapply (at_set_red h1 (CR c k t p)); [exact Ht1|].
    intros h2 Ht2. apply wp_bind. eapply (wp_rotate_right h2 (CR c k t p)); [exact Ht2|].
    intros h3 Ht3. eapply (at_get_right h3 k); [exact Ht3|]. cbn [root_of].
    eapply (HK h3 a q b o sr); [exact Ht3|eauto|exact Hb| |addrs_eq].
    by apply (is_rb_black_or _ _ _ Hsr).
Qed.

(** The final recolouring and rotation. *)
Lemma erase_finish_left a o b q d :
  s = T Black a o (T Red b q d) ->
  (exists ca, is_rb a ca n) -> is_rb b Black n -> is_rb d Black n ->
  loop_post (fill (CL c k p s) t) Q ->
  wp (pc ← rb_color p;
      rb_set_color o pc;;
      rb_set_black p;;
      or' ← get_right o;
      (if negb (or' =? NULL) then rb_set_black or' else mret tt);;
      __rb_rotate_left p;;
      get_root) h Q.
Proof.
  intros -> (ca & Ha) Hb Hd HQ.
  apply wp_bind. eapply (at_color h k); [exact Ht|].
  apply wp_bind. eapply (at_set_color h (CR c k t p)); [exact Ht|]. intros h1 Ht1.
  apply wp_bind. eapply (at_set_black h1 k); [exact Ht1|]. intros h2 Ht2.
  apply wp_bind. eapply (at_get_right h2 (CR Black k t p)); [exact Ht2|]. cbn [root_of].
  destruct (tree_at_node h2 (CR c (CR Black k t p) a o) Red b q d Ht2) as (_ & Hq & _).
  rewrite (proj2 (Z.eqb_neq q NULL)) by done. cbn [negb].
  apply wp_bind. eapply (at_set_black h2 (CR c (CR Black k t p) a o)); [exact Ht2|].
  intros h3 Ht3. apply wp_bind. eapply (wp_rotate_left h3 k); [exact Ht3|]. intros h4 Ht4.
  eapply at_root; [exact Ht4|].
  assert (rbtree (fill k (T c (T Black t p a) o (T Black b q d)))) as Hrb.
  { inversion Hk; subst.
    - eapply fill_rb; [done|constructor; by econstructor|by right].
    - eapply fill_rb; [done|by repeat econstructor|by left]. }
  apply (HQ h4 Top); cbn [fill]; [done|addrs_eq|by rewrite rbtree_blacken].
Qed.
End left.

Section right.
Context (Ht : tree_at h (fill (CR c k s p) t)).
Context (Hk : ctx_rb (CR c k s p) ck (S n)) (Hn : is_rb t Black n).

Lemma sibling_black_right (K : Z -> RB Z) :
  (forall h' c' k' ck' sl o sr,
     tree_at h' (fill (CR c' k' (T Black sl o sr) p) t) ->
     ctx_rb (CR c' k' (T Black sl o sr) p) ck' (S n) ->
     addrs (fill (CR c' k' (T Black sl o sr) p) t) = addrs (fill (CR c k s p) t) ->
     (c' = Black -> depth k' = depth k) -> wp (K o) h' Q) ->
  wp (ored ← rb_is_red (root_of s);
      other ← (if (ored : bool) then
                 rb_set_black (root_of s);; rb_set_red p;;
                 __rb_rotate_right p;; get_left p
               else mret (root_of s)); K other) h Q.
Proof.
  intros HK.
  assert (exists sc sl o sr, s = T sc sl o sr) as (sc & sl & o & sr & ->).
  { inversion Hk as [| |? ? ? ? _ Hs| |? ? ? ? ? ? _ Hs]; inversion Hs; subst; eauto. }
  apply wp_bind. eapply (at_is_red h (CL c k p t)); [exact Ht|]. apply wp_bind.
  case_bool_decide as Hsc; cycle 1.
  - apply wp_ret. destruct sc; [done|]. by eapply HK.
  - subst sc. inversion Hk as [| |? ? ? ? _ Hs| |k0 c0 ? ? cs ? Hk0 Hs]; subst; [by inversion Hs|].
    inversion Hs as [|? ? ? ? Hsl Hsr|]; subst.
    inversion Hsr as [| |a q b ca cb m Ha Hb]; subst. cbn [root_of].
    apply wp_bind. eapply (at_set_black h (CL Black k p t)); [exact Ht|]. intros h1 Ht1.
    apply wp_bind. eapply (at_set_red h1 k); [exact Ht1|]. intros h2 Ht2.
    apply wp_bind. eapply (wp_rotate_right h2 k); [exact Ht2|]. intros h3 Ht3.
    eapply (at_get_left h3 (CR Black k sl o)); [exact Ht3|].
    eapply (HK h3 Red (CR Black k sl o)); [exact Ht3|eauto with trivia| |done].
    addrs_eq.
Qed.

Lemma nephew_red_right sl o sr (K : Z -> RB Z) :
  s = T Black sl o sr -> (color_of sl = Black -> color_of sr = Black -> False) ->
  (forall h' a o' b q d,
     tree_at h' (fill (CR c k (T Black (T Red b q d) o' a) p) t) ->
     (exists ca, is_rb a ca n) -> is_rb b Black n -> is_rb d Black n ->
     addrs (fill (CR c k (T Black (T Red b q d) o' a) p) t) = addrs (fill (CR c k s p) t) ->
     wp (K o') h' Q) ->
  wp (ol ← get_left o; olb ← null_or_black ol;
      other' ← (if (olb : bool) then
                  or ← get_right o;
                  (if negb (or =? NULL) then rb_set_black or else mret tt);;
                  rb_set_red o;;
                  __rb_rotate_left o;; get_left p
                else mret o); K other') h Q.
Proof.
  intros -> Hred HK.
  assert (exists cl cr, is_rb sl cl n /\ is_rb sr cr n) as (cl & cr & Hsl & Hsr).
  { inversion Hk as [| |? ? ? ? _ Hs| |? ? ? ? ? ? _ Hs]; inversion Hs; subst; eauto. }
  apply wp_bind. eapply (at_get_left h (CL c k p t)); [exact Ht|].
  apply wp_bind. eapply (at_null_or_black h (CL Black (CL c k p t) o sr) sl); [exact Ht|].
  apply wp_bind. case_bool_decide as Hslc; cycle 1.
  - apply wp_ret. inversion Hsl as [|b q d ? Hb Hd|]; subst; [done| |done].
    eapply (HK h sr o b q d); [exact Ht|eauto..].
  - assert (color_of sr <> Black) as Hsrc by (intros ?; by apply Hred).
    inversion Hsr as [|b q a ? Hb Ha|]; subst; [done| |done].
    apply wp_bind. eapply (at_get_right h (CL c k p t)); [exact Ht|]. cbn [root_of].
    destruct (tree_at_node h (CR Black (CL c k p t) sl o) Red b q a Ht) as (_ & Hq & _).
    rewrite (proj2 (Z.eqb_neq q NULL)) by done. cbn [negb].
    apply wp_bind. eapply (at_set_black h (CR Black (CL c k p t) sl o)); [exact Ht|].
    intros h1 Ht1. apply wp_bind. eapply (at_set_red h1 (CL c k p t)); [exact Ht1|].
    intros h2 Ht2. apply wp_bind. eapply (wp_rotate_left h2 (CL c k p t)); [exact Ht2|].
    intros h3 Ht3. eapply (at_get_left h3 k); [exact Ht3|]. cbn [root_of].
    eapply (HK h3 a q sl o b); [exact Ht3|eauto| |exact Hb|addrs_eq].
    by apply (is_rb_black_or _ _ _ Hsl).
Qed.

Lemma erase_finish_right a o b q d :
  s = T Black (T Red b q d) o a ->
  (exists ca, is_rb a ca n) -> is_rb b Black n -> is_rb d Black n ->
  loop_post (fill (CR c k s p) t) Q ->
  wp (pc ← rb_color p;
      rb_set_color o pc;;
      rb_set_black p;;
      ol' ← get_left o;
      (if negb (ol' =? NULL) then rb_set_black ol' else mret tt);;
      __rb_rotate_right p;;
      get_root) h Q.
Proof.
  intros -> (ca & Ha) Hb Hd HQ.
  apply wp_bind. eapply (at_color h k); [exact Ht|].
  apply wp_bind. eapply (at_set_color h (CL c k p t)); [exact Ht|]. intros h1 Ht1.
  apply wp_bind. eapply (at_set_black h1 k); [exact Ht1|]. intros h2 Ht2.
  apply wp_bind. eapply (at_get_left h2 (CL Black k p t)); [exact Ht2|]. cbn [root_of].
  destruct (tree_at_node h2 (CL c (CL Black k p t) o a) Red b q d Ht2) as (_ & Hq & _).
  rewrite (proj2 (Z.eqb_neq q NULL)) by done. cbn [negb].
  apply wp_bind. eapply (at_set_black h2 (CL c (CL Black k p t) o a)); [exact Ht2|].
  intros h3 Ht3. apply wp_bind. eapply (wp_rotate_right h3 k); [exact Ht3|]. intros h4 Ht4.
  eapply at_root; [exact Ht4|].
  assert (rbtree (fill k (T c (T Black b q d) o (T Black a p t)))) as Hrb.
  { inversion Hk; subst.
    - eapply fill_rb; [done|constructor; by econstructor|by right].
    - eapply fill_rb; [done|by repeat econstructor|by left]. }
  apply (HQ h4 Top); cbn [fill]; [done|addrs_eq|by rewrite rbtree_blacken].
Qed.
End right.
End step.

(** Both nephews black: the sibling is painted red and the loop goes up. *)
Lemma at_both_black h k c l p r Q :
  tree_at h (fill k (T c l p r)) ->
  Q (bool_decide (color_of l = Black) && bool_decide (color_of r = Black)) h ->
  wp (both_black p) h Q.
Proof.
  intros Ht HQ. apply wp_bind. eapply at_get_left; [exact Ht|].
  apply wp_bind. eapply (at_null_or_black h (CL c k p r) l); [exact Ht|].
  case_bool_decide; [|by apply wp_ret].
  apply wp_bind. eapply at_get_right; [exact Ht|].
  by eapply (at_null_or_black h (CR c k l p) r); [exact Ht|].
Qed.

(** The parent [p] of colour [c] above a subtree that is a black node short
    everywhere: the loop goes on from [p]. *)
Lemma erase_up fuel h c k l p r ck n Q :
  erase_spec fuel -> (0 < fuel)%nat -> (c = Black -> depth k < fuel)%nat ->
  tree_at h (fill k (T c l p r)) -> is_rb (T Black l p r) Black (S n) ->
  ctx_rb k ck (match c with Red => S n | Black => S (S n) end) ->
  loop_post (fill k (T c l p r)) Q ->
  wp (gp ← rb_parent p; erase_color_loop fuel p gp) h Q.
Proof.
  intros IH Hf Hd Ht Hr Hk HQ. apply wp_bind. eapply (at_parent h k); [exact Ht|].
  destruct c.
  - destruct fuel as [|fuel]; [lia|]. by eapply erase_loop_red.
  - eapply (IH h k (T Black l p r)); [auto|exact Ht|exact Hk|exact Hr|exact HQ].
Qed.

(** The rest of a turn once the sibling is black. *)
Section turn.
Context (fuel : nat) (IH : erase_spec fuel) (Hf : (0 < fuel)%nat).
Context (h : rb_heap) (k : ctx) (c : color) (t sl sr : tree) (p o : Z).
Context (ck : color) (n : nat) (Q : Z -> rb_heap -> Prop).
Context (Hd : c = Black -> (depth k < fuel)%nat) (Hn : is_rb t Black n).

Lemma erase_turn_left :
  tree_at h (fill (CL c k p (T Black sl o sr)) t) ->
  ctx_rb (CL c k p (T Black sl o sr)) ck (S n) ->
  loop_post (fill (CL c k p (T Black sl o sr)) t) Q ->
  wp (both ← both_black o;
      if (both : bool) then
        rb_set_red o;; gp ← rb_parent p; erase_color_loop fuel p gp
      else
        or ← get_right o; orb ← null_or_black or;
        other' ← (if (orb : bool) then
                    ol ← get_left o;
                    (if negb (ol =? NULL) then rb_set_black ol else mret tt);;
                    rb_set_red o;; __rb_rotate_right o;; get_right p
                  else mret o);
        pc ← rb_color p; rb_set_color other' pc;; rb_set_black p;;
        or' ← get_right other';
        (if negb (or' =? NULL) then rb_set_black or' else mret tt);;
        __rb_rotate_left p;; get_root) h Q.
Proof.
  intros Ht Hk HQ. apply wp_bind. eapply (at_both_black h (CR c k t p)); [exact Ht|].
  destruct (bool_decide_reflect (color_of sl = Black)) as [Hsl|Hsl];
    [destruct (bool_decide_reflect (color_of sr = Black)) as [Hsr|Hsr]|]; cbn [andb].
  - apply wp_bind. eapply (at_set_red h (CR c k t p)); [exact Ht|]. intros h1 Ht1.
    assert (is_rb (T Black t p (T Red sl o sr)) Black (S n)) as Hrb.
    { inversion Hk as [|? ? ? ? _ Hs| |? ? ? ? ? ? _ Hs|]; inversion Hs; subst;
        eauto using is_rb_black_or with trivia. }
    inversion Hk; subst; eapply (erase_up fuel h1 _ k); eauto;
      (eapply loop_post_eq; [|exact HQ]; addrs_eq).
  - eapply nephew_red_left; [exact Ht|exact Hk|exact Hn|done|done|].
    intros h1 a o' b q d Ht1 Ha Hb Hd1 Heq.
    eapply erase_finish_left; [exact Ht1| |exact Hn|done|exact Ha|done..|].
    + inversion Hk; subst; destruct Ha; econstructor; eauto with trivia.
    + by eapply loop_post_eq.
  - eapply nephew_red_left; [exact Ht|exact Hk|exact Hn|done|done|].
    intros h1 a o' b q d Ht1 Ha Hb Hd1 Heq.
    eapply erase_finish_left; [exact Ht1| |exact Hn|done|exact Ha|done..|].
    + inversion Hk; subst; destruct Ha; econstructor; eauto with trivia.
    + by eapply loop_post_eq.
Qed.

Lemma erase_turn_right :
  tree_at h (fill (CR c k (T Black sl o sr) p) t) ->
  ctx_rb (CR c k (T Black sl o sr) p) ck (S n) ->
  loop_post (fill (CR c k (T Black sl o sr) p) t) Q ->
  wp (both ← both_black o;
      if (both : bool) then
        rb_set_red o;; gp ← rb_parent p; erase_color_loop fuel p gp
      else
        ol ← get_left o; olb ← null_or_black ol;
        other' ← (if (olb : bool) then
                    or ← get_right o;
                    (if negb (or =? NULL) then rb_set_black or else mret tt);;
                    rb_set_red o;; __rb_rotate_left o;; get_left p
                  else mret o);
        pc ← rb_color p; rb_set_color other' pc;; rb_set_black p;;
        ol' ← get_left other';
        (if negb (ol' =? NULL) then rb_set_black ol' else mret tt);;
        __rb_rotate_right p;; get_root) h Q.
Proof.
  intros Ht Hk HQ. apply wp_bind. eapply (at_both_black h (CL c k p t)); [exact Ht|].
  destruct (bool_decide_reflect (color_of sl = Black)) as [Hsl|Hsl];
    [destruct (bool_decide_reflect (color_of sr = Black)) as [Hsr|Hsr]|]; cbn [andb].
  - apply wp_bind. eapply (at_set_red h (CL c k p t)); [exact Ht|]. intros h1 Ht1.
    assert (is_rb (T Black (T Red sl o sr) p t) Black (S n)) as Hrb.
    { inversion Hk as [| |? ? ? ? _ Hs| |? ? ? ? ? ? _ Hs]; inversion Hs; subst;
        eauto using is_rb_black_or with trivia. }
    inversion Hk; subst; eapply (erase_up fuel h1 _ k); eauto;
      (eapply loop_post_eq; [|exact HQ]; addrs_eq).
  - eapply nephew_red_right; [exact Ht|exact Hk|exact Hn|done|done|].
    intros h1 a o' b q d Ht1 Ha Hb Hd1 Heq.
    eapply erase_finish_right; [exact Ht1| |exact Hn|done|exact Ha|done..|].
    + inversion Hk; subst; destruct Ha; econstructor; eauto with trivia.
    + by eapply loop_post_eq.
  - eapply nephew_red_right; [exact Ht|exact Hk|exact Hn|done|done|].
    intros h1 a o' b q d Ht1 Ha Hb Hd1 Heq.
    eapply erase_finish_right; [exact Ht1| |exact Hn|done|exact Ha|done..|].
    + inversion Hk; subst; destruct Ha; econstructor; eauto with trivia.
    + by eapply loop_post_eq.
Qed.
End turn.

Lemma erase_loop_ok fuel : erase_spec fuel.
Proof.
  induction fuel as [|fuel IH]; intros h k t ck n Q Hf Ht Hk Hdef HQ; [lia|].
  destruct (decide (color_of t = Red)) as [Hc|Hc].
  { destruct t as [|tc l p r]; [done|]. simpl in Hc. subst. by eapply erase_loop_red. }
  assert (is_rb t Black n) as Hn by (destruct t as [|[] ? ? ?]; done).
  cbn [erase_color_loop]. apply wp_bind. eapply at_null_or_black; [exact Ht|].
  rewrite bool_decide_eq_true_2 by (destruct (color_of t); done).
  apply wp_bind. eapply at_root; [exact Ht|]. cbn [andb].
  destruct (ctx_top_dec k) as [->|Hkt].
  { cbn [fill]. rewrite Z.eqb_refl. apply wp_ret. apply (HQ h Top); [done..|]. cbn [fill].
    rewrite rbtree_blacken; by eexists. }
  pose proof (fill_root_ne h k t Ht Hkt) as Hrne. apply Z.eqb_neq in Hrne as ->. cbn [negb].
  destruct k as [|c k p s|c k s p]; [done|..]; cbn [ctx_parent fill depth] in *.
  - apply wp_bind. eapply (at_get_left h k); [exact Ht|]. rewrite Z.eqb_refl.
    apply wp_bind. eapply (at_get_right h k); [exact Ht|].
    eapply sibling_black_left; [exact Ht|exact Hk|].
    intros h' c' k' ck' sl o sr Ht' Hk' Ha Hd.
    eapply erase_turn_left; [exact IH|lia|intros Hc'; rewrite (Hd Hc'); lia|exact Hn|exact Ht'|exact Hk'|].
    by eapply loop_post_eq.
  - apply wp_bind. eapply (at_get_left h k); [exact Ht|].
    assert (root_of s <> root_of t) as Hne.
    { destruct t as [|tc tl x tr].
      - inversion Hk as [| |? ? ? ? _ Hs| |? ? ? ? ? ? _ Hs]; inversion Hs; subst;
          by destruct (tree_at_node h (CL _ k p E) _ _ _ _ Ht) as (_ & ? & _).
      - by apply (tree_at_children _ _ _ _ _ _ Ht). }
    apply Z.eqb_neq in Hne as ->.
    apply wp_bind. eapply (at_get_left h k); [exact Ht|].
    eapply sibling_black_right; [exact Ht|exact Hk|].
    intros h' c' k' ck' sl o sr Ht' Hk' Ha Hd.
    eapply erase_turn_right; [exact IH|lia|intros Hc'; rewrite (Hd Hc'); lia|exact Hn|exact Ht'|exact Hk'|].
    by eapply loop_post_eq.
Qed.

(** [__rb_erase_color] repairs a tree whose subtree at the hole lost a black
    node. *)
Lemma erase_color_ok fuel h k t ck n Q :
  (depth k < fuel)%nat -> tree_at h (fill k t) -> ctx_rb k ck (S n) -> deficient t n ->
  (forall h' t', tree_at h' t' -> addrs t' = addrs (fill k t) -> rbtree t' -> Q tt h') ->
  wp (__rb_erase_color fuel (root_of t) (ctx_parent k)) h Q.
Proof.
  intros Hf Ht Hk Hd HQ. apply wp_bind.
  eapply (erase_loop_ok fuel h k t ck n); [done..|].
  intros h1 k1 t1 Ht1 Ha Hrb. destruct t1 as [|c l p r]; cbn [root_of blacken] in *.
  - apply wp_ret. by eapply HQ.
  - destruct (tree_at_node _ _ _ _ _ _ Ht1) as (_ & Hp & _).
    rewrite (proj2 (Z.eqb_neq p NULL)) by done. cbn [negb].
    eapply at_set_black; [exact Ht1|]. intros h2 Ht2. apply (HQ h2 _ Ht2); [|done].
    rewrite <- Ha, !addrs_fill. done.
Qed.

(** ** Unlinking *)

(** Unlinking a node that has at most one child, [t1]. *)
Lemma wp_unlink1 h k c l x r t1 Q :
  tree_at h (fill k (T c l x r)) -> (l = E /\ t1 = r) \/ (r = E /\ t1 = l) ->
  (forall h', tree_at h' (fill k t1) -> Q (root_of t1, ctx_parent k, bit_of c) h') ->
  wp (erase_unlink1 x (root_of t1)) h Q.
Proof.
  intros Ht Hor HQ. pose proof (tree_at_remove _ _ _ _ _ _ _ Ht Hor) as Ht'.
  apply wp_bind. eapply at_parent; [exact Ht|]. apply wp_bind. eapply at_color; [exact Ht|].
  pose proof Ht as Ht0. rewrite tree_at_focus in Ht0.
  destruct Ht0 as (_ & Hk & (Hx & Hl & Hr) & Hc).
  assert (x ∈ addrs (T c l x r)) as Hxi by set_solver +.
  assert (Hsub : forall z, z ∈ addrs t1 -> z ∈ addrs (T c l x r)).
  { destruct Hor as [[-> ->]|[-> ->]]; set_solver +. }
  apply wp_bind. eapply (wp_set_parent_opt h h t1 x);
    [by destruct Hor as [[-> ->]|[-> ->]]|by apply (clean_aligned _ _ _ Hc Hxi)
    |by eapply clean_parent|done| |].
  { apply Forall_forall. intros z Hz. by eapply clean_aligned, Hsub. }
  apply wp_bind. eapply wp_relink_left'.
  - eapply rep_ctx_frame; [|exact Hk]. intros z Hz. cbn [rb_nodes]. apply upd_parent_ne.
    intros Hin. by apply (clean_disjoint _ _ _ Hc (Hsub _ Hin)).
  - by eapply clean_sibling.
  - by eapply clean_parent_null.
  - cbn [rb_nodes rb_root]. apply wp_ret. by apply HQ.
Qed.

(** First half of the removal of a node with two children: the successor [y]
    leaves the tree. *)
Lemma wp_detach h k c l x ks cy y ch (K : Z -> RB (Z * Z * Z)) Q :
  tree_at h (fill (comp (CR c k l x) ks) (T cy E y ch)) -> before ks = [] ->
  (forall h', tree_at h' (fill (comp (CR c k l x) ks) ch) ->
     rb_nodes h' !! y = rb_nodes h !! y ->
     wp (K (ctx_parent (comp (CR c k l y) ks))) h' Q) ->
  wp ((if negb (root_of ch =? NULL)
       then rb_set_parent (root_of ch) (ctx_parent (comp (CR c k l x) ks)) else mret tt);;
      parent ← (if ctx_parent (comp (CR c k l x) ks) =? x
                then set_right (ctx_parent (comp (CR c k l x) ks)) (root_of ch);; mret y
                else set_left (ctx_parent (comp (CR c k l x) ks)) (root_of ch);;
                     mret (ctx_parent (comp (CR c k l x) ks)));
      K parent) h Q.
Proof.
  intros Ht Hs HK. pose proof (tree_at_remove _ _ _ _ _ _ ch Ht (or_introl (conj eq_refl eq_refl)))
    as Ht'.
  pose proof Ht as Ht0. rewrite tree_at_focus in Ht0.
  destruct Ht0 as (_ & Hk & (Hy & _ & Hch) & Hc).
  pose proof (clean_nodup _ _ Hc) as Hnd. simpl in Hnd. apply NoDup_cons in Hnd as [Hyni _].
  assert (y ∈ addrs (T cy E y ch)) as Hyi by set_solver +.
  apply wp_bind. eapply (wp_set_parent_opt h h ch y);
    [done|by apply (clean_aligned _ _ _ Hc Hyi)|by eapply clean_parent|done| |].
  { apply Forall_forall. intros z Hz. eapply clean_aligned; [exact Hc|]. set_solver +Hz. }
  pose proof (clean_parent_notin _ _ _ Hc Hyi) as Hyp.
  assert (Hpch : ctx_parent (comp (CR c k l x) ks) ∉ addrs ch).
  { intros Hin. eapply clean_parent_notin; [exact Hc| |reflexivity]. set_solver +Hin. }
  assert (Hlk : upd_hole (comp (CR c k l x) ks) (root_of ch)
    (upd_parent ch (ctx_parent (comp (CR c k l x) ks)) (rb_nodes h)) !! y = rb_nodes h !! y).
  { rewrite upd_hole_ne by done. by apply upd_parent_ne. }
  pose proof (clean_parent_null _ _ Hc) as Hpn.
  apply wp_bind. destruct ks as [|cq ks q s|cq ks s q];
    [| |cbn [before] in Hs; by destruct (before ks), (addrs s)]; cbn [comp ctx_parent] in *.
  - rewrite Z.eqb_refl. apply wp_bind. destruct Hk as (Hx & _).
    eapply wp_set_right; [cbn [rb_nodes]; rewrite upd_parent_ne by done; exact Hx|by apply Hpn|].
    apply wp_ret. by apply HK.
  - assert (q <> x) as Hqx.
    { intros ->. cbn [fill] in Ht. rewrite fill_comp in Ht. cbn [fill] in Ht.
      rewrite tree_at_focus in Ht. destruct Ht as (_ & _ & _ & Hc2).
      apply clean_nodup in Hc2. simpl in Hc2. rewrite NoDup_app, NoDup_cons, addrs_fill in Hc2.
      destruct Hc2 as (_ & _ & Hni & _). apply Hni. simpl. set_solver +. }
    apply Z.eqb_neq in Hqx as ->. apply wp_bind. destruct Hk as (Hx & _).
    eapply wp_set_left; [cbn [rb_nodes]; rewrite upd_parent_ne by done; exact Hx|by apply Hpn|].
    apply wp_ret. by apply HK.
Qed.

Lemma wp_set_parent_some h h0 t par q Q :
  t <> E -> rep (rb_nodes h0) par t -> par mod 8 = 0 -> q mod 8 = 0 ->
  (forall a, a ∈ addrs t -> rb_nodes h !! a = rb_nodes h0 !! a) ->
  Forall aligned (addrs t) ->
  Q tt (mk_heap (upd_parent t q (rb_nodes h)) (rb_root h)) ->
  wp (rb_set_parent (root_of t) q) h Q.
Proof.
  intros Hne Hr Hpar Hq Hf Hal HQ.
  pose proof (wp_set_parent_opt h h0 t par q Q Hr Hpar Hq Hf Hal HQ) as Hw.
  pose proof (root_of_elem t Hne) as Hin. rewrite Forall_forall in Hal.
  destruct (Hal _ Hin) as [Hp _].
  by rewrite (proj2 (Z.eqb_neq (root_of t) NULL)) in Hw by (unfold NULL; lia).
Qed.

(** What the separation of [x], its subtrees and a node [y] outside the tree
    says about addresses. *)
Record place_facts (k : ctx) (l r : tree) (x y : Z) : Prop := {
  pf_p8 : ctx_parent k mod 8 = 0;
  pf_x8 : x mod 8 = 0;
  pf_y8 : y mod 8 = 0;
  pf_xn : x <> NULL;
  pf_yn : y <> NULL;
  pf_xy : x <> y;
  pf_xp : x <> ctx_parent k;
  pf_yp : y <> ctx_parent k;
  pf_xl : x ∉ addrs l;
  pf_yl : y ∉ addrs l;
  pf_yr : y ∉ addrs r;
  pf_l : forall z, z ∈ addrs l -> z <> x /\ z <> y /\ z <> ctx_parent k /\ (z ∉ addrs r);
  pf_r : forall z, z ∈ addrs r -> z <> x /\ z <> y /\ z <> ctx_parent k /\ (z ∉ addrs l);
  pf_k : forall z, z ∈ before k \/ z ∈ after k ->
    z <> x /\ z <> y /\ (z ∉ addrs l) /\ (z ∉ addrs r);
  pf_al : Forall aligned (addrs l);
  pf_ar : Forall aligned (addrs r)
}.

Lemma clean_place k c l x r y : clean k (addrs (T c l x r)) -> aligned y ->
  y ∉ before k ++ addrs (T c l x r) ++ after k -> place_facts k l r x y.
Proof.
  intros Hc [Hy0 Hy8] Hni. simpl in Hc, Hni.
  assert (x ∈ addrs l ++ x :: addrs r) as Hxi by set_solver +.
  assert (Hp : forall z, z ∈ addrs l ++ x :: addrs r -> z <> ctx_parent k).
  { intros z Hz. by eapply clean_parent_notin. }
  pose proof (clean_nodup _ _ Hc) as Hnd. rewrite NoDup_app, NoDup_cons in Hnd.
  destruct Hnd as (_ & Hd & Hxr & _).
  assert (Hxl : x ∉ addrs l) by (intros Hi; apply (Hd x Hi); set_solver +).
  assert (Hyk : forall z, z ∈ before k \/ z ∈ after k -> z <> y)
    by (intros z Hz ->; clear -Hni Hz; set_solver).
  split; try (by eapply clean_parent); try (by eapply clean_not_null);
    try (by apply (clean_aligned _ _ _ Hc Hxi)); try (unfold NULL; lia); try done.
  - intros ->. set_solver +Hni.
  - by apply Hp.
  - destruct (ctx_top_dec k) as [->|Hk']; [unfold ctx_parent, NULL; lia|]. intros ->.
    by eapply (Hyk _ (ctx_parent_elem k Hk')).
  - set_solver +Hni.
  - set_solver +Hni.
  - intros z Hz. specialize (Hd z Hz). split_and!; [set_solver +Hd|intros ->; set_solver +Hni Hz
      |apply Hp; set_solver +Hz|set_solver +Hd].
  - intros z Hz. split_and!; [by intros ->|intros ->; set_solver +Hni Hz
      |apply Hp; set_solver +Hz|intros Hl; apply (Hd z Hl); set_solver +Hz].
  - intros z Hz. split_and!; [|by apply Hyk|..]; try intros ->; try intros Hi;
      (eapply (clean_disjoint _ _ _ Hc); [|exact Hz]); [set_solver +|set_solver +Hi..].
  - apply Forall_forall. intros z Hz. eapply clean_aligned; [exact Hc|]. set_solver +Hz.
  - apply Forall_forall. intros z Hz. eapply clean_aligned; [exact Hc|]. set_solver +Hz.
Qed.

(** Second half: [y] takes the place, the colour and the links of [x]. *)
Lemma wp_take_place h k c l x r y ny (a b d : Z) Q :
  tree_at h (fill k (T c l x r)) -> l <> E ->
  rb_nodes h !! y = Some ny -> aligned y -> y ∉ addrs (fill k (T c l x r)) ->
  (forall h', tree_at h' (fill k (T c l y r)) -> Q (a, b, d) h') ->
  wp (opc ← get_pc x; set_pc y opc;;
      oright ← get_right x; set_right y oright;;
      oleft ← get_left x; set_left y oleft;;
      op ← rb_parent x;
      (if negb (op =? NULL) then
         opl ← get_left op;
         if opl =? x then set_left op y else set_right op y
       else set_root y);;
      oleft' ← get_left x;
      rb_set_parent oleft' y;;
      oright' ← get_right x;
      (if negb (oright' =? NULL) then rb_set_parent oright' y else mret tt);;
      mret (a, b, d)) h Q.
Proof.
  intros Ht Hl Hy Hal Hni HQ. pose proof Ht as Ht0. rewrite tree_at_focus in Ht0.
  destruct Ht0 as (_ & Hk & (Hx & Hrl & Hrr) & Hc). destruct ny as [ypc yr yl].
  assert (x <> root_of (sibling k)) as Hxs by (eapply clean_sibling; [exact Hc|set_solver +]).
  pose proof (clean_parent_null _ _ Hc) as Hpn.
  pose proof Hni as Hni'. rewrite addrs_fill in Hni'.
  destruct (clean_place _ _ _ _ _ _ Hc Hal Hni') as [??????????? Hfl Hfr Hfk ??].
  repeat rb_step. eapply wp_relink_left'; [|done|done|].
  { eapply rep_ctx_frame; [|exact Hk]. intros z Hz. destruct (Hfk z Hz) as (? & ? & ? & ?).
    lookup_tac. }
  cbn [rb_nodes rb_root]. repeat rb_step.
  eapply (wp_set_parent_some _ h l x); [done|done|done|done| |..].
  { intros z Hz. destruct (Hfl z Hz) as (? & ? & ? & ?). lookup_tac. }
  { done. }
  cbn [rb_nodes rb_root].
  repeat rb_step.
  eapply (wp_set_parent_opt _ h r x); [done|done|done| |..].
  { intros z Hz. destruct (Hfr z Hz) as (? & ? & ? & ?). lookup_tac. }
  { done. }
  cbn [rb_nodes rb_root]. apply wp_ret. apply HQ.
  eapply tree_at_replace; [exact Ht|done|done|..|done].
  - rewrite upd_parent_ne, upd_parent_ne, upd_hole_ne by done. by rewrite lookup_insert_eq.
  - intros z Hz. destruct (Hfl z Hz) as (? & ? & ? & ?). rewrite upd_parent_ne by done.
    apply upd_parent_frame. lookup_tac.
  - intros z Hz. destruct (Hfr z Hz) as (? & ? & ? & ?).
    apply upd_parent_frame. lookup_tac.
  - intros z Hz Hne. destruct (Hfk z Hz) as (? & ? & ? & ?). lookup_tac.
  - intros Hk'. destruct (Hfk _ (ctx_parent_elem k Hk')) as (? & ? & ? & ?).
    rewrite upd_parent_ne, upd_parent_ne by done. by apply upd_hole_eq.
Qed.

Lemma wp_unlink2 fuel h k c l x r ks cy y ch Q :
  r = fill ks (T cy E y ch) -> before ks = [] -> (height r <= fuel)%nat ->
  tree_at h (fill k (T c l x r)) -> l <> E ->
  (forall h', tree_at h' (fill (comp (CR c k l y) ks) ch) ->
     Q (root_of ch, ctx_parent (comp (CR c k l y) ks), bit_of cy) h') ->
  wp (erase_unlink2 fuel x) h Q.
Proof.
  intros -> Hs Hf Ht Hl HQ. apply wp_bind. eapply at_get_right; [exact Ht|].
  pose proof (height_fill ks (T cy E y ch)) as Hh.
  assert (Hne : fill ks (T cy E y ch) <> E).
  { intros He. apply (f_equal addrs) in He. rewrite addrs_fill in He. by destruct (before ks). }
  apply wp_bind. eapply (go_left_ok _ fuel h (CR c k l x)); [done|done|done|].
  rewrite addrs_fill, Hs. cbn [addrs app hd].
  assert (Ht' : tree_at h (fill (comp (CR c k l x) ks) (T cy E y ch))) by by rewrite fill_comp.
  apply wp_bind. eapply at_get_right; [exact Ht'|].
  apply wp_bind. eapply at_parent; [exact Ht'|].
  apply wp_bind. eapply at_color; [exact Ht'|].
  destruct (tree_at_node _ _ _ _ _ _ Ht') as (Hy & _ & _).
  eapply wp_detach; [exact Ht'|done|]. intros h1 Ht1 Hy1.
  rewrite fill_comp in Ht1. cbn [fill] in Ht1. rewrite Hy in Hy1.
  pose proof Ht' as (_ & _ & Hnd & Hal).
  rewrite addrs_fill in Hnd, Hal. cbn [addrs app] in Hnd, Hal.
  eapply (wp_take_place h1 k c l x (fill ks ch)); [exact Ht1|done|exact Hy1| |..].
  - rewrite Forall_forall in Hal. apply Hal. set_solver +.
  - change (fill k (T c l x (fill ks ch))) with (fill (CR c k l x) (fill ks ch)).
    rewrite <- fill_comp, addrs_fill. rewrite <- Permutation_middle in Hnd.
    by apply NoDup_cons in Hnd as [? _].
  - intros h' Ht2. apply HQ. by rewrite fill_comp.
Qed.

(** ** rb_erase *)
(** A node taken from under a context: the rest is balanced, or a black node
    short at the hole. *)
Definition removed (k : ctx) (c : color) (t : tree) : Prop :=
  match c with
  | Red => rbtree (fill k t)
  | Black => exists ck n, ctx_rb k ck (S n) /\ deficient t n
  end.

Lemma deficient_child t c n : is_rb t c n -> deficient t n.
Proof. inversion 1; subst; simpl; eauto with trivia. Qed.

Lemma erase_rest fuel h k c t Q :
  (depth k < fuel)%nat -> tree_at h (fill k t) -> removed k c t ->
  (forall h' t', tree_at h' t' -> addrs t' = before k ++ addrs t ++ after k -> rbtree t' -> Q tt h') ->
  wp (if bit_of c =? RB_BLACK then __rb_erase_color fuel (root_of t) (ctx_parent k)
      else mret tt) h Q.
Proof.
  intros Hf Ht Hr HQ. destruct c; cbn [bit_of removed] in *.
  - apply wp_ret. eapply HQ; [exact Ht|by rewrite addrs_fill|done].
  - destruct Hr as (ck & n & Hk & Hd). eapply erase_color_ok; [done|exact Ht|exact Hk|exact Hd|].
    intros h' t'. rewrite addrs_fill. apply HQ.
Qed.

(** The node to unlink has at most one child. *)
Lemma removed_child k c l x r t1 ck n :
  ctx_rb k ck n -> is_rb (T c l x r) c n -> c = Black \/ ck = Black ->
  (l = E /\ t1 = r) \/ (r = E /\ t1 = l) -> removed k c t1.
Proof.
  intros Hk Ht Hc Hor. assert (exists m c1, is_rb t1 c1 m /\ n = match c with Red => m | Black => S m end
    /\ (c = Red -> c1 = Black)) as (m & c1 & Ht1 & -> & Hc1).
  { destruct Hor as [[-> ->]|[-> ->]]; inversion Ht; subst; do 2 eexists; split_and!; eauto; done. }
  destruct c; cbn [removed].
  - rewrite (Hc1 eq_refl) in Ht1. eapply fill_rb; [exact Hk|exact Ht1|by left].
  - exists ck, m. split; [done|]. by eapply deficient_child.
Qed.

Lemma removed_rename k c l x y ks cy ch :
  removed (comp (CR c k l x) ks) cy ch -> removed (comp (CR c k l y) ks) cy ch.
Proof.
  assert (Hr : forall c0 n, ctx_rb (CR c k l x) c0 n -> ctx_rb (CR c k l y) c0 n)
    by (inversion 1; subst; eauto with trivia).
  destruct cy; cbn [removed].
  - intros [n H]. destruct (rb_unfill _ _ _ H) as (ck & c' & m & Hk & Ht & Hor).
    eapply fill_rb; [by eapply ctx_rb_comp|done|done].
  - intros (ck & n & Hk & Hd). exists ck, n. split; [|done]. by eapply ctx_rb_comp.
Qed.

Lemma rbtree_removed k c l x r t1 :
  rbtree (fill k (T c l x r)) -> (l = E /\ t1 = r) \/ (r = E /\ t1 = l) -> removed k c t1.
Proof.
  intros [n H] Hor. destruct (rb_unfill _ _ _ H) as (ck & c' & m & Hk & Ht & Hc).
  pose proof (is_rb_color _ _ _ Ht) as Hcc. cbn [color_of] in Hcc. subst c'.
  eapply removed_child; [exact Hk|exact Ht|done|done].
Qed.

Lemma rb_erase_focus fuel h k c l x r Q :
  tree_at h (fill k (T c l x r)) -> rbtree (fill k (T c l x r)) ->
  (height (fill k (T c l x r)) < fuel)%nat ->
  (forall h' t', tree_at h' t' -> addrs t' = before k ++ addrs l ++ addrs r ++ after k ->
     rbtree t' -> Q tt h') ->
  wp (rb_erase fuel x) h Q.
Proof.
  intros Ht Hrb Hf HQ. pose proof (height_fill k (T c l x r)) as Hh.
  apply wp_bind. eapply at_get_left; [exact Ht|].
  apply wp_bind. eapply at_get_right; [exact Ht|]. apply wp_bind.
  assert (Hone : forall t1, (l = E /\ t1 = r) \/ (r = E /\ t1 = l) ->
    wp (erase_unlink1 x (root_of t1)) h (fun cpc h' =>
      wp (if cpc.2 =? RB_BLACK then __rb_erase_color fuel cpc.1.1 cpc.1.2 else mret tt) h' Q)).
  { intros t1 Hor. eapply wp_unlink1; [exact Ht|done|]. intros h1 Ht1.
    eapply erase_rest; [simpl in Hh; lia|exact Ht1|by eapply rbtree_removed|].
    intros h' t' Ht' Ha. apply HQ; [done|]. rewrite Ha.
    destruct Hor as [[-> ->]|[-> ->]]; done. }
  destruct l as [|lc ll lp lr]; [by apply (Hone r); left|].
  destruct (tree_at_node h (CL c k x r) _ _ _ _ Ht) as (_ & Hlp & _).
  cbn [root_of]. rewrite (proj2 (Z.eqb_neq lp NULL)) by done.
  destruct r as [|rc rl rp rr]; [by apply (Hone (T lc ll lp lr)); right|].
  destruct (tree_at_node h (CR c k _ x) _ _ _ _ Ht) as (_ & Hrp & _).
  cbn [root_of]. rewrite (proj2 (Z.eqb_neq rp NULL)) by done.
  destruct (leftmost_path rc rl rp rr) as (ks & cy & y & ch & Heq & Hs & Hd).
  eapply wp_unlink2; [exact Heq|done|simpl in Hh |- *; lia|exact Ht|done|].
  intros h1 Ht1. rewrite Heq in Hrb.
  eapply erase_rest; [rewrite depth_comp; simpl in *; lia|exact Ht1| |].
  - eapply removed_rename, (rbtree_removed _ cy E y ch); [|by left].
    rewrite fill_comp. exact Hrb.
  - intros h' t' Ht' Ha. apply HQ; [done|]. rewrite Ha, Heq.
    rewrite before_comp, after_comp, addrs_fill, Hs. addrs_eq.
Qed.

(** [rb_erase] takes a node out of the sequence and keeps a red-black tree. *)
Lemma rb_erase_ok fuel h t a x b Q :
  tree_at h t -> rbtree t -> (height t < fuel)%nat -> addrs t = a ++ x :: b ->
  (forall h' t', tree_at h' t' -> rbtree t' -> addrs t' = a ++ b -> Q tt h') ->
  wp (rb_erase fuel x) h Q.
Proof.
  intros Ht Hrb Hf Ha HQ. pose proof Ht as (_ & _ & Hnd & _).
  destruct (focus_at t a x b Hnd Ha) as (k & c & l & r & -> & -> & ->).
  eapply rb_erase_focus; [exact Ht|exact Hrb|done|]. intros h' t' Ht' Ha' Hrb'.
  apply (HQ h' t' Ht' Hrb'). by rewrite Ha', <- app_assoc.
Qed.
