(* ===== verification/RbOps.v ===== *)
(** * The operations of the red-black tree: what smart-queue.c relies on

    Insertion, removal, replacement and the walks, each as one statement about
    the in-order sequence of node addresses, with the height bound that gives
    the fuel and with the preservation of the set of allocated nodes. *)
From Stdlib Require Import ZArith Lia Bool.
From stdpp Require Import base tactics list gmap.
From S2P Require Import Prelude RbTree RbShape RbWalk RbInsert RbErase.

(** ** Insertion *)

(** The [struct rb_node **] that holds the link to the hole. *)
Definition link_of (k : ctx) : rb_link :=
  match k with Top => LRoot | CL _ _ p _ => LLeft p | CR _ _ _ p => LRight p end.

(** A node outside the tree, allocated and aligned. *)
Definition fresh_node (h : rb_heap) (t : tree) (x : Z) : Prop :=
  is_Some (rb_nodes h !! x) /\ aligned x /\ x ∉ addrs t.

Lemma wp_link_node h k x Q :
  tree_at h (fill k E) -> fresh_node h (fill k E) x ->
  (forall h', tree_at h' (fill k (T Red E x E)) -> Q tt h') ->
  wp (rb_link_node x (ctx_parent k) (link_of k)) h Q.
Proof.
  intros Ht ([n Hx] & [Hx0 Hx8] & Hni) HQ. rewrite tree_at_focus in Ht.
  destruct Ht as (Hroot & Hk & _ & Hc). rewrite addrs_fill in Hni. cbn [addrs app] in *.
  assert (x <> NULL) as Hxn by (unfold NULL; lia). destruct n as [pc r l].
  assert (Hfk : forall z, z ∈ before k \/ z ∈ after k -> z <> x)
    by (intros z Hz ->; set_solver +Hni Hz).
  assert (Hxp : k <> Top -> ctx_parent k <> x).
  { intros Hk'. by apply Hfk, ctx_parent_elem. }
  pose proof (clean_parent_null _ _ Hc) as Hpn.
  assert (Hfin : tree_at (mk_heap (upd_hole k x (<[x := mk_rb (ctx_parent k) NULL NULL]> (rb_nodes h)))
      (upd_root k x (rb_root h))) (fill k (T Red E x E))).
  { apply tree_at_focus. cbn [rb_nodes rb_root rep root_of addrs app]. split_and!; try done.
    - by erewrite <- (root_upd _ _ _ (T Red E x E)).
    - eapply rep_ctx_upd_hole; [exact Hc|exact Hk|..].
      + intros z Hz Hne. rewrite upd_hole_ne, lookup_insert_ne by (done || (intros <-; by eapply Hfk)).
        done.
      + intros Hk'. by apply upd_hole_eq.
    - rewrite upd_hole_ne.
      + rewrite lookup_insert_eq. unfold pack. simpl. unfold RB_RED. by rewrite Z.add_0_r.
      + intros ->. destruct (ctx_top_dec k) as [->|Hk']; [done|]. by apply (Hxp Hk').
    - unfold clean in *. cbn [app] in *. rewrite <- Permutation_middle.
      rewrite NoDup_cons, Forall_cons. destruct Hc. done. }
  unfold rb_link_node. repeat rb_step. rewrite !insert_insert_eq.
  destruct k as [|c k p r'|c k l' p]; cbn [link_of set_link ctx_parent] in *.
  - apply wp_puts. cbn [rb_nodes]. by apply HQ.
  - destruct Hk as (Hp & _). assert (p <> NULL) by by apply Hpn. assert (p <> x) by by apply Hxp.
    rb_step. by apply HQ.
  - destruct Hk as (Hp & _). assert (p <> NULL) by by apply Hpn. assert (p <> x) by by apply Hxp.
    rb_step. by apply HQ.
Qed.

Lemma wp_insert fuel h k x Q :
  tree_at h (fill k E) -> rbtree (fill k E) -> fresh_node h (fill k E) x ->
  (height (fill k E) < fuel)%nat ->
  (forall h' t', tree_at h' t' -> rbtree t' -> addrs t' = before k ++ x :: after k -> Q tt h') ->
  wp (rb_link_node x (ctx_parent k) (link_of k);; rb_insert_color fuel x) h Q.
Proof.
  intros Ht [n Hrb] Hx Hf HQ. pose proof (height_fill k E) as Hh.
  destruct (rb_unfill _ _ _ Hrb) as (ck & c & m & Hk & HE & _). inversion HE; subst.
  apply wp_bind. eapply wp_link_node; [done..|]. intros h1 Ht1.
  apply wp_bind. eapply (insert_loop_ok fuel h1 k x E E);
    [lia|exact Ht1|exact Hk|constructor|constructor|].
  intros h2 t2 Ht2 [Ha Hb]. destruct t2 as [|c2 l2 y r2]; [done|].
  apply wp_bind. eapply at_root; [exact Ht2|]. cbn [root_of].
  eapply (at_set_black h2 Top); [exact Ht2|]. intros h3 Ht3.
  eapply HQ; [exact Ht3|exact Hb|]. cbn [fill addrs] in *. rewrite Ha.
  by rewrite addrs_fill.
Qed.

(** ** Replacement *)
Lemma wp_replace h k c l x r y Q :
  tree_at h (fill k (T c l x r)) -> fresh_node h (fill k (T c l x r)) y ->
  (forall h', tree_at h' (fill k (T c l y r)) -> Q tt h') ->
  wp (rb_replace_node x y) h Q.
Proof.
  intros Ht ([ny Hy] & Hal & Hni) HQ. pose proof Ht as Ht0. rewrite tree_at_focus in Ht0.
  destruct Ht0 as (_ & Hk & (Hx & Hrl & Hrr) & Hc). destruct ny as [ypc yr yl].
  assert (x <> root_of (sibling k)) as Hxs by (eapply clean_sibling; [exact Hc|set_solver +]).
  pose proof (clean_parent_null _ _ Hc) as Hpn.
  pose proof Hni as Hni'. rewrite addrs_fill in Hni'.
  assert (x ∉ addrs r) as Hxr.
  { apply clean_nodup in Hc. simpl in Hc. rewrite NoDup_app, NoDup_cons in Hc. by destruct Hc as (_ & _ & ? & _). }
  destruct (clean_place _ _ _ _ _ _ Hc Hal Hni') as [??????????? Hfl Hfr Hfk ??].
  unfold rb_replace_node. repeat rb_step.
  eapply wp_relink_left; [exact Hk|done|done|].
  cbn [rb_nodes rb_root]. repeat rb_step.
  eapply (wp_set_parent_opt _ h l x); [done|done|done| |..].
  { intros z Hz. destruct (Hfl z Hz) as (? & ? & ? & ?). lookup_tac. }
  { done. }
  cbn [rb_nodes rb_root]. repeat rb_step.
  eapply (wp_set_parent_opt _ h r x); [done|done|done| |..].
  { intros z Hz. destruct (Hfr z Hz) as (? & ? & ? & ?). lookup_tac. }
  { done. }
  cbn [rb_nodes rb_root]. apply wp_bind. eapply wp_load; [lookup_tac|done|].
  eapply wp_update; [lookup_tac|done|]. cbn [rb_nodes rb_root]. apply HQ.
  eapply tree_at_replace; [exact Ht|done|done|..|done].
  - by rewrite lookup_insert_eq.
  - intros z Hz. destruct (Hfl z Hz) as (? & ? & ? & ?).
    rewrite lookup_insert_ne, upd_parent_ne by done. apply upd_parent_frame. lookup_tac.
  - intros z Hz. destruct (Hfr z Hz) as (? & ? & ? & ?).
    rewrite lookup_insert_ne by done. apply upd_parent_frame. lookup_tac.
  - intros z Hz Hne. destruct (Hfk z Hz) as (? & ? & ? & ?). lookup_tac.
  - intros Hk'. destruct (Hfk _ (ctx_parent_elem k Hk')) as (? & ? & ? & ?).
    rewrite lookup_insert_ne, upd_parent_ne, upd_parent_ne by done. done.
Qed.

(** ** The operations allocate and free nothing *)
Class Keeps {A} (m : RB A) : Prop :=
  keeps : forall h a h', m h = Ok (a, h') -> dom (rb_nodes h') = dom (rb_nodes h).

#[export] Instance keeps_ret {A} (a : A) : Keeps (mret a).
Proof. by intros h a' h' [= _ <-]. Qed.

#[export] Instance keeps_bind {A B} (m : RB A) (k : A -> RB B) :
  Keeps m -> (forall a, Keeps (k a)) -> Keeps (m ≫= k).
Proof.
  intros Hm Hk h b h'. unfold mbind, M_bind. destruct (m h) as [[a h1]| |] eqn:E; [|done..].
  intros Hb. by rewrite (Hk a _ _ _ Hb), (Hm _ _ _ E).
Qed.

#[export] Instance keeps_if {A} (b : bool) (m1 m2 : RB A) :
  Keeps m1 -> Keeps m2 -> Keeps (if b then m1 else m2).
Proof. by destruct b. Qed.

#[export] Instance keeps_nofuel {A} : Keeps (@nofuel rb_heap A).
Proof. done. Qed.

#[export] Instance keeps_get_root : Keeps get_root.
Proof. by intros h a h' [= _ <-]. Qed.

#[export] Instance keeps_set_root v : Keeps (set_root v).
Proof. by intros h a h' [= _ <-]. Qed.

#[export] Instance keeps_load p : Keeps (load p).
Proof.
  intros h a h'. unfold load. destruct (p =? NULL), (rb_nodes h !! p); [done..| |done].
  by intros [= _ <-].
Qed.

#[export] Instance keeps_update p f : Keeps (update p f).
Proof.
  intros h a h'. unfold update, mbind, M_bind, load, puts.
  destruct (p =? NULL), (rb_nodes h !! p) eqn:E; [done..| |done]. intros [= _ <-].
  cbn [rb_nodes]. apply dom_insert_lookup_L. by eexists.
Qed.

(** Operations that are compositions of those above. *)
Ltac keeps := intros; repeat (apply _ || (progress cbv beta) || (apply keeps_bind; intros) || apply keeps_if).

#[export] Instance keeps_get_left p : Keeps (get_left p). Proof. unfold get_left. keeps. Qed.
#[export] Instance keeps_get_right p : Keeps (get_right p). Proof. unfold get_right. keeps. Qed.
#[export] Instance keeps_set_left p v : Keeps (set_left p v). Proof. unfold set_left. keeps. Qed.
#[export] Instance keeps_set_right p v : Keeps (set_right p v). Proof. unfold set_right. keeps. Qed.
#[export] Instance keeps_get_pc p : Keeps (get_pc p). Proof. unfold get_pc. keeps. Qed.
#[export] Instance keeps_set_pc p v : Keeps (set_pc p v). Proof. unfold set_pc. keeps. Qed.
#[export] Instance keeps_parent p : Keeps (rb_parent p). Proof. unfold rb_parent. keeps. Qed.
#[export] Instance keeps_color p : Keeps (rb_color p). Proof. unfold rb_color. keeps. Qed.
#[export] Instance keeps_is_red p : Keeps (rb_is_red p). Proof. unfold rb_is_red. keeps. Qed.
#[export] Instance keeps_is_black p : Keeps (rb_is_black p). Proof. unfold rb_is_black. keeps. Qed.
#[export] Instance keeps_set_red p : Keeps (rb_set_red p). Proof. unfold rb_set_red. keeps. Qed.
#[export] Instance keeps_set_black p : Keeps (rb_set_black p).
Proof. unfold rb_set_black. keeps. Qed.
#[export] Instance keeps_set_parent p q : Keeps (rb_set_parent p q).
Proof. unfold rb_set_parent. keeps. Qed.
#[export] Instance keeps_set_color p c : Keeps (rb_set_color p c).
Proof. unfold rb_set_color. keeps. Qed.
#[export] Instance keeps_null_or_black p : Keeps (null_or_black p).
Proof. unfold null_or_black. keeps. Qed.
#[export] Instance keeps_nonnull_red p : Keeps (nonnull_red p).
Proof. unfold nonnull_red. keeps. Qed.
#[export] Instance keeps_both_black p : Keeps (both_black p).
Proof. unfold both_black. keeps. Qed.
#[export] Instance keeps_set_link l v : Keeps (set_link l v). Proof. destruct l; keeps. Qed.
#[export] Instance keeps_get_link l : Keeps (get_link l). Proof. destruct l; keeps. Qed.
#[export] Instance keeps_link_node x p l : Keeps (rb_link_node x p l).
Proof. unfold rb_link_node. keeps. Qed.
#[export] Instance keeps_rotate_left x : Keeps (__rb_rotate_left x).
Proof. unfold __rb_rotate_left. keeps. Qed.
#[export] Instance keeps_rotate_right x : Keeps (__rb_rotate_right x).
Proof. unfold __rb_rotate_right. keeps. Qed.
#[export] Instance keeps_insert_loop fuel x : Keeps (insert_color_loop fuel x).
Proof. revert x. induction fuel; cbn [insert_color_loop]; keeps. Qed.
#[export] Instance keeps_insert_color fuel x : Keeps (rb_insert_color fuel x).
Proof. unfold rb_insert_color. keeps. Qed.
#[export] Instance keeps_erase_loop fuel x p : Keeps (erase_color_loop fuel x p).
Proof. revert x p. induction fuel; cbn [erase_color_loop]; keeps. Qed.
#[export] Instance keeps_erase_color fuel x p : Keeps (__rb_erase_color fuel x p).
Proof. unfold __rb_erase_color. keeps. Qed.
#[export] Instance keeps_go_left fuel x : Keeps (go_left fuel x).
Proof. revert x. induction fuel; cbn [go_left]; keeps. Qed.
#[export] Instance keeps_unlink1 x c : Keeps (erase_unlink1 x c).
Proof. unfold erase_unlink1. keeps. Qed.
#[export] Instance keeps_unlink2 fuel x : Keeps (erase_unlink2 fuel x).
Proof. unfold erase_unlink2. keeps. Qed.
#[export] Instance keeps_erase fuel x : Keeps (rb_erase fuel x).
Proof. unfold rb_erase. keeps. Qed.
#[export] Instance keeps_replace x y : Keeps (rb_replace_node x y).
Proof. unfold rb_replace_node. keeps. Qed.

Lemma wp_keeps {A} (m : RB A) h Q : Keeps m ->
  wp m h (fun a h' => dom (rb_nodes h') = dom (rb_nodes h) -> Q a h') -> wp m h Q.
Proof.
  intros Hm. rewrite !wp_run. intros (a & h' & He & HQ). exists a, h'. split; [done|].
  apply HQ. by eapply Hm.
Qed.

(** ** Height *)
Lemma is_rb_height t c n : is_rb t c n ->
  (height t <= 2 * n + match c with Red => 1 | Black => 0 end)%nat /\
  (2 ^ n <= S (length (addrs t)))%nat.
Proof.
  induction 1 as [|l p r n _ [IH1 IH2] _ [IH3 IH4]|l p r cl cr n _ [IH1 IH2] _ [IH3 IH4]];
    cbn [height addrs]; rewrite ?length_app; cbn [length].
  - simpl. lia.
  - lia.
  - rewrite Nat.pow_succ_r'. destruct cl, cr; lia.
Qed.

(** A red-black tree with [n] nodes is at most [2 log2 (n + 1)] levels high, so
    that every loop of the tree code makes at most one turn more than that. *)
Lemma rbtree_height t :
  rbtree t -> (height t <= 2 * Nat.log2 (S (length (addrs t))))%nat.
Proof.
  intros [n H]. destruct (is_rb_height _ _ _ H) as [Hh Hn].
  pose proof (Nat.log2_le_mono _ _ Hn) as Hl. rewrite Nat.log2_pow2 in Hl by lia. lia.
Qed.

(** ** What the users of the tree rely on *)

(** C1: [rb_link_node] at any free link followed by [rb_insert_color] inserts the
    node at the place of the link in the in-order sequence; the tree stays
    red-black and no other node is touched. *)
Theorem rb_insert_correct fuel h k x :
  tree_at h (fill k E) -> rbtree (fill k E) -> fresh_node h (fill k E) x ->
  (2 * Nat.log2 (S (length (addrs (fill k E)))) < fuel)%nat ->
  exists h' t',
    (rb_link_node x (ctx_parent k) (link_of k);; rb_insert_color fuel x) h = Ok (tt, h') /\
    tree_at h' t' /\ rbtree t' /\ addrs t' = before k ++ x :: after k /\
    dom (rb_nodes h') = dom (rb_nodes h).
Proof.
  intros Ht Hrb Hx Hf.
  assert (wp (rb_link_node x (ctx_parent k) (link_of k);; rb_insert_color fuel x) h
    (fun _ h' => exists t', tree_at h' t' /\ rbtree t' /\ addrs t' = before k ++ x :: after k /\
      dom (rb_nodes h') = dom (rb_nodes h))) as Hw.
  { pose proof (rbtree_height _ Hrb).
    apply wp_keeps; [apply _|]. eapply wp_insert; [done..|lia|]. eauto 10. }
  apply wp_run in Hw as ([] & h' & He & t' & Ht'). eauto.
Qed.

(** C2: [rb_erase] of any node of a red-black tree takes exactly that node out of
    the in-order sequence and leaves a red-black tree. *)
Theorem rb_erase_correct fuel h t a x b :
  tree_at h t -> rbtree t -> (2 * Nat.log2 (S (length (addrs t))) < fuel)%nat ->
  addrs t = a ++ x :: b ->
  exists h' t', rb_erase fuel x h = Ok (tt, h') /\
    tree_at h' t' /\ rbtree t' /\ addrs t' = a ++ b /\ dom (rb_nodes h') = dom (rb_nodes h).
Proof.
  intros Ht Hrb Hf Ha.
  assert (wp (rb_erase fuel x) h (fun _ h' => exists t', tree_at h' t' /\ rbtree t' /\
    addrs t' = a ++ b /\ dom (rb_nodes h') = dom (rb_nodes h))) as Hw.
  { pose proof (rbtree_height _ Hrb).
    apply wp_keeps; [apply _|]. eapply rb_erase_ok; [done|done|lia|done|]. eauto 10. }
  apply wp_run in Hw as ([] & h' & He & t' & Ht'). eauto.
Qed.

(** C37: the walks follow the in-order sequence: [rb_next] and [rb_prev] return the
    neighbours of a node or the null pointer at the ends, [rb_first] and
    [rb_last] the ends; none of them changes the heap. *)
Theorem rb_walk_correct fuel h t a x b :
  tree_at h t -> rbtree t -> (2 * Nat.log2 (S (length (addrs t))) < fuel)%nat ->
  addrs t = a ++ x :: b ->
  rb_next fuel x h = Ok (hd NULL b, h) /\
  rb_prev fuel x h = Ok (default NULL (last a), h) /\
  rb_first fuel h = Ok (hd NULL (addrs t), h) /\
  rb_last fuel h = Ok (default NULL (last (addrs t)), h).
Proof.
  intros Ht Hrb Hlog Ha. pose proof (rbtree_height _ Hrb) as Hh.
  assert (height t < fuel)%nat as Hf by lia.
  assert (Hrun : forall (m : RB Z) v, (forall Q : Z -> rb_heap -> Prop, Q v h -> wp m h Q) -> m h = Ok (v, h)).
  { intros m v Hm. destruct (proj1 (wp_run m h (fun a s => a = v /\ s = h)) (Hm _ (conj eq_refl eq_refl)))
      as (? & ? & He & -> & ->). done. }
  split_and!; apply Hrun; intros Q HQ.
  - by eapply rb_next_ok.
  - by eapply rb_prev_ok.
  - by eapply rb_first_ok.
  - by eapply rb_last_ok.
Qed.

(** *** Cleared nodes *)
Lemma wp_exact {A} (m : RB A) a h h' : wp m h (fun b s => b = a /\ s = h') -> m h = Ok (a, h').
Proof. intros (? & ? & He & -> & ->)%wp_run. done. Qed.

Lemma parent_of_cleared w p : p mod 8 = 0 -> Z.land (Z.lor (Z.land w 3) p) (Z.lnot 3) = p.
Proof.
  intros Hp. assert (Hp' : p = p / 8 * 2 ^ 3) by (Z.div_mod_to_equations; lia).
  apply Z.bits_inj'. intros n Hn. rewrite Z.land_spec, Z.lor_spec, Z.land_spec, Z.lnot_spec by done.
  destruct (Z.lt_ge_cases n 3).
  - assert (Z.testbit p n = false) as -> by (rewrite Hp'; by apply Z.mul_pow2_bits_low).
    by destruct (Z.testbit w n), (Z.testbit 3 n).
  - rewrite (Z.bits_above_log2 3 n) by (cbn; lia). by rewrite andb_false_r, orb_false_l, andb_true_r.
Qed.

(** RB_EMPTY_ROOT and RB_EMPTY_NODE tell whether the tree is empty and a node is out of
    it: a node of the tree is not taken for a cleared one, RB_CLEAR_NODE on a node that is
    not in the tree leaves the tree alone, and from then on the node is known to be out,
    and [rb_next] and [rb_prev] of it are null. *)
Theorem rb_clear_node_correct fuel h t x : tree_at h t ->
  RB_EMPTY_ROOT h = Ok (bool_decide (addrs t = []), h) /\
  (x ∈ addrs t -> RB_EMPTY_NODE x h = Ok (false, h)) /\
  (fresh_node h t x -> exists h', RB_CLEAR_NODE x h = Ok (tt, h') /\ tree_at h' t /\
     RB_EMPTY_NODE x h' = Ok (true, h') /\ rb_next fuel x h' = Ok (NULL, h') /\ rb_prev fuel x h' = Ok (NULL, h')).
Proof.
  intros Ht. pose proof Ht as (Hroot & Hrep & Hnd & Hal). split_and!.
  - unfold RB_EMPTY_ROOT, mbind, M_bind, gets, mret, M_ret. rewrite Hroot. destruct t as [|c l p r]; cbn [root_of addrs]; [done|].
    rewrite bool_decide_eq_false_2 by by destruct (addrs l). rewrite (proj2 (Z.eqb_neq p NULL)); [done|].
    cbn [addrs] in Hal. rewrite Forall_app, Forall_cons in Hal. unfold aligned, NULL in *. lia.
  - intros (a & b & Ha)%list_elem_of_split. destruct (focus_at t a x b Hnd Ha) as (k & c & l & r & Heq & _ & _).
    apply wp_exact, wp_bind. pose proof (parent_ne h t Ht _ _ _ _ _ Heq) as Hne. rewrite Heq in Ht. eapply at_parent; [exact Ht|].
    apply wp_ret. by rewrite (proj2 (Z.eqb_neq _ _)).
  - intros ([[pc r l] Hx] & [Hx0 Hx8] & Hni). assert (Hxn : x <> NULL) by (unfold NULL; lia).
    set (h' := mk_heap (<[x := mk_rb (Z.lor (Z.land pc 3) x) r l]> (rb_nodes h)) (rb_root h)).
    assert (Hx' : rb_nodes h' !! x = Some (mk_rb (Z.lor (Z.land pc 3) x) r l)) by apply lookup_insert_eq.
    assert (Hpar : forall Q : Z -> rb_heap -> Prop, Q x h' -> wp (rb_parent x) h' Q).
    { intros Q HQ. apply wp_bind. eapply wp_get_pc; [exact Hx'|done|]. apply wp_ret. by rewrite parent_of_cleared. }
    exists h'. split_and!.
    + apply wp_exact. unfold RB_CLEAR_NODE, rb_set_parent. apply wp_bind. eapply wp_get_pc; [exact Hx|done|].
      by eapply wp_set_pc; [exact Hx|done|].
    + split_and!; [done| |done|done]. eapply rep_frame; [|exact Hrep]. intros a Ha. cbn. rewrite lookup_insert_ne; [done|].
      intros ->. done.
    + apply wp_exact, wp_bind, Hpar, wp_ret. by rewrite Z.eqb_refl.
    + apply wp_exact, wp_bind, Hpar. rewrite Z.eqb_refl. by apply wp_ret.
    + apply wp_exact, wp_bind, Hpar. rewrite Z.eqb_refl. by apply wp_ret.
Qed.

(** [rb_replace_node] puts a node that is not in the tree in the place of one
    that is: the sequence, the shape and the colours stay. *)
Theorem rb_replace_correct h t a x b y :
  tree_at h t -> rbtree t -> addrs t = a ++ x :: b -> fresh_node h t y ->
  exists h' t', rb_replace_node x y h = Ok (tt, h') /\
    tree_at h' t' /\ rbtree t' /\ addrs t' = a ++ y :: b.
Proof.
  intros Ht [n Hrb] Ha Hy. pose proof Ht as (_ & _ & Hnd & _).
  destruct (focus_at t a x b Hnd Ha) as (k & c & l & r & -> & -> & ->).
  assert (Hrb' : rbtree (fill k (T c l y r))).
  { destruct (rb_unfill _ _ _ Hrb) as (ck & c' & m & Hk & Hm & Hor).
    eapply fill_rb; [exact Hk| |exact Hor]. inversion Hm; subst; eauto with trivia. }
  assert (wp (rb_replace_node x y) h (fun _ h' => tree_at h' (fill k (T c l y r)))) as Hw.
  { eapply wp_replace; [done..|]. auto. }
  apply wp_run in Hw as ([] & h' & He & Ht'). exists h', (fill k (T c l y r)).
  split_and!; [done..|]. rewrite addrs_fill. cbn [addrs]. by rewrite <- !app_assoc.
Qed.

(** ** A concrete tree *)
Definition sample_tree : tree := T Black (T Red E 8 E) 16 (T Red E 24 E).
Definition sample_heap : rb_heap :=
  mk_heap (<[8 := mk_rb 16 0 0]> (<[16 := mk_rb 1 24 8]> (<[24 := mk_rb 16 0 0]>
    (<[32 := mk_rb 0 0 0]> ∅)))) 16.

Lemma sample_at : tree_at sample_heap sample_tree.
Proof.
  split_and!; [done|repeat split|..]; cbn [addrs sample_tree app].
  - rewrite !NoDup_cons, !elem_of_cons, !elem_of_nil. split_and!; [lia..|]. apply NoDup_nil_2.
  - repeat (apply Forall_cons; split; [by split|]). apply Forall_nil_2.
Qed.

Lemma sample_rb : rbtree sample_tree.
Proof. exists 1%nat. by repeat econstructor. Qed.

Lemma sample_fresh : fresh_node sample_heap sample_tree 32.
Proof. split_and!; [by eexists|done|]. cbn. rewrite !elem_of_cons, elem_of_nil. lia. Qed.

Lemma rb_insert_witness : exists h' t',
  (rb_link_node 32 24 (LRight 24);; rb_insert_color 9 32) sample_heap = Ok (tt, h') /\
  tree_at h' t' /\ rbtree t' /\ addrs t' = [8; 16; 24; 32] /\
  dom (rb_nodes h') = dom (rb_nodes sample_heap).
Proof.
  apply (rb_insert_correct 9 sample_heap (CR Red (CR Black Top (T Red E 8 E) 16) E 24) 32);
    [apply sample_at|apply sample_rb|apply sample_fresh|cbn; lia].
Defined.

Lemma rb_erase_witness : exists h' t', rb_erase 9 16 sample_heap = Ok (tt, h') /\
  tree_at h' t' /\ rbtree t' /\ addrs t' = [8; 24] /\
  dom (rb_nodes h') = dom (rb_nodes sample_heap).
Proof.
  apply (rb_erase_correct 9 sample_heap sample_tree [8] 16 [24]);
    [apply sample_at|apply sample_rb|cbn; lia|done].
Defined.

Lemma rb_walk_witness :
  rb_next 9 8 sample_heap = Ok (16, sample_heap) /\
  rb_prev 9 8 sample_heap = Ok (NULL, sample_heap) /\
  rb_first 9 sample_heap = Ok (8, sample_heap) /\ rb_last 9 sample_heap = Ok (24, sample_heap).
Proof.
  apply (rb_walk_correct 9 sample_heap sample_tree [] 8 [16; 24]);
    [apply sample_at|apply sample_rb|cbn; lia|done].
Defined.

Lemma rb_replace_witness : exists h' t', rb_replace_node 16 32 sample_heap = Ok (tt, h') /\
  tree_at h' t' /\ rbtree t' /\ addrs t' = [8; 32; 24].
Proof.
  apply (rb_replace_correct sample_heap sample_tree [8] 16 [24] 32);
    [apply sample_at|apply sample_rb|done|apply sample_fresh].
Defined.
