(* ===== verification/Cfs.v ===== *)
(** * smart-queue.c: the fair run queue (cfs_queue, cfs_dequeue, cfs_test)

    A task is the address of its [struct rb_node], the first member of
    [struct cfs_task].  The state has the heap of the tree, the cached leftmost
    node and the [t] members of the tasks.  The queue is specified as a list of
    (time, task) pairs, ordered by time and first-in first-out among equal
    times. *)
From Stdlib Require Import ZArith Lia Bool Sorted.
From stdpp Require Import base tactics list gmap sorting.
From S2P Require Import Prelude RbTree RbShape RbWalk RbErase RbOps.

Record cfs_rq := mk_cfs {
  cfs_heap : rb_heap;
  cfs_leftmost : Z;
  cfs_t : gmap Z Z
}.

Abbreviation CFS := (M cfs_rq).

(** ** Memory *)
Definition on_tree {A} (m : RB A) : CFS A := fun s =>
  match m (cfs_heap s) with
  | Ok (a, h) => Ok (a, mk_cfs h (cfs_leftmost s) (cfs_t s))
  | Fault => Fault
  | NoFuel => NoFuel
  end.

Definition get_t (p : Z) : CFS Z := fun s =>
  if p =? NULL then Fault
  else match cfs_t s !! p with Some t => Ok (t, s) | None => Fault end.

Definition set_t (p t : Z) : CFS unit :=
  _ ← get_t p;
  puts (fun s => mk_cfs (cfs_heap s) (cfs_leftmost s) (<[p := t]> (cfs_t s))).

Definition set_leftmost (v : Z) : CFS unit :=
  puts (fun s => mk_cfs (cfs_heap s) v (cfs_t s)).

(** ** The operations *)
Definition cfs_rqinit : CFS unit :=
  set_leftmost NULL;;
  on_tree (set_root NULL).

(** The loop over [link]: the final [link], [parent] and [leftmost]. *)
Fixpoint cfs_find (fuel : nat) (t : Z) (link : rb_link) (parent : Z) (leftmost : bool) :
    CFS (rb_link * Z * bool) :=
  match fuel with
  | O => nofuel
  | S fuel =>
    node ← on_tree (get_link link);
    if node =? NULL then mret (link, parent, leftmost) else
    et ← get_t node;
    node' ← on_tree (get_link link);
    if t <? et then cfs_find fuel t (LLeft node') node leftmost
    else cfs_find fuel t (LRight node') node false
  end.

Definition cfs_queue (fuel : nat) (tsk t : Z) : CFS unit :=
  set_t tsk t;;
  lpl ← cfs_find fuel t LRoot NULL true;
  (if (lpl.2 : bool) then set_leftmost tsk else mret tt);;
  on_tree (rb_link_node tsk lpl.1.2 lpl.1.1);;
  on_tree (rb_insert_color fuel tsk).

Definition __dequeue_task_fair (fuel : nat) (p : Z) : CFS unit :=
  lm ← gets cfs_leftmost;
  (if lm =? p then set_leftmost NULL else mret tt);;
  on_tree (rb_erase fuel p).

Definition first_fair (fuel : nat) : CFS Z :=
  lm ← gets cfs_leftmost;
  if negb (lm =? NULL) then mret lm else on_tree (rb_first fuel).

Definition cfs_dequeue (fuel : nat) : CFS Z :=
  first ← first_fair fuel;
  (if negb (first =? NULL) then __dequeue_task_fair fuel first else mret tt);;
  mret first.

(** ** Specification: a time-ordered queue *)
Fixpoint q_insert (t x : Z) (q : list (Z * Z)) : list (Z * Z) :=
  match q with
  | [] => [(t, x)]
  | e :: q' => if t <? e.1 then (t, x) :: e :: q' else e :: q_insert t x q'
  end.

Definition time_of (s : cfs_rq) (x : Z) : Z := default 0 (cfs_t s !! x).

Record cfs_inv (s : cfs_rq) (t : tree) : Prop := {
  ci_tree : tree_at (cfs_heap s) t;
  ci_rb : rbtree t;
  ci_dom : dom (cfs_t s) = dom (rb_nodes (cfs_heap s));
  ci_in : forall x, x ∈ addrs t -> is_Some (cfs_t s !! x);
  ci_sorted : StronglySorted (fun x y => time_of s x <= time_of s y) (addrs t);
  ci_left : cfs_leftmost s = NULL \/ cfs_leftmost s = hd NULL (addrs t)
}.

(** The state [s] holds the queue [q]. *)
Definition timed (s : cfs_rq) (l : list Z) : list (Z * Z) := (fun x => (time_of s x, x)) <$> l.
Definition cfs_holds (s : cfs_rq) (q : list (Z * Z)) : Prop :=
  exists t, cfs_inv s t /\ q = timed s (addrs t).

(** A task that may be queued: allocated and not queued yet. *)
Definition cfs_idle (s : cfs_rq) (q : list (Z * Z)) (x : Z) : Prop :=
  x ∈ dom (cfs_t s) /\ aligned x /\ x ∉ q.*2.

Definition enough (fuel n : nat) : Prop := (2 * Nat.log2 (S n) + 1 < fuel)%nat.

(** ** Proofs *)
Lemma wp_on_tree {A} (m : RB A) s (Q : A -> cfs_rq -> Prop) :
  wp m (cfs_heap s) (fun a h => Q a (mk_cfs h (cfs_leftmost s) (cfs_t s))) ->
  wp (on_tree m) s Q.
Proof. unfold wp, on_tree. by destruct (m (cfs_heap s)) as [[a h]| |]. Qed.

Lemma wp_get_t s p v Q : cfs_t s !! p = Some v -> p <> NULL -> Q v s -> wp (get_t p) s Q.
Proof. intros Hp Hn HQ. unfold wp, get_t. apply Z.eqb_neq in Hn. by rewrite Hn, Hp. Qed.

Lemma wp_get_link h k t Q : tree_at h (fill k t) -> Q (root_of t) h -> wp (get_link (link_of k)) h Q.
Proof.
  intros Ht HQ. destruct k as [|c k p r|c k l p]; cbn [link_of get_link].
  - by eapply at_root.
  - by eapply (at_get_left h k).
  - by eapply (at_get_right h k).
Qed.

(** Insertion after the entries that are not later. *)
Lemma q_insert_split t x a b :
  Forall (fun e => e.1 <= t) a -> Forall (fun e => t < e.1) b ->
  q_insert t x (a ++ b) = a ++ (t, x) :: b.
Proof.
  intros Ha Hb. induction Ha as [|e a He Ha IH]; cbn [q_insert app].
  - destruct Hb as [|e b He Hb]; cbn [q_insert]; [done|]. by rewrite (proj2 (Z.ltb_lt _ _)).
  - rewrite (proj2 (Z.ltb_ge _ _)) by done. by rewrite IH.
Qed.

Section find.
Context (s : cfs_rq) (t0 : tree) (t : Z) (Hinv : cfs_inv s t0).

(** The loop keeps the later tasks after the hole and the others before it. *)
Lemma cfs_find_ok sub : forall fuel k lm Q,
  fill k sub = t0 -> (height sub < fuel)%nat ->
  Forall (fun x => time_of s x <= t) (before k) -> Forall (fun x => t < time_of s x) (after k) ->
  lm = bool_decide (before k = []) ->
  (forall k', fill k' E = t0 -> Forall (fun x => time_of s x <= t) (before k') ->
     Forall (fun x => t < time_of s x) (after k') ->
     Q (link_of k', ctx_parent k', bool_decide (before k' = [])) s) ->
  wp (cfs_find fuel t (link_of k) (ctx_parent k) lm) s Q.
Proof.
  destruct Hinv as [Ht Hrb Hdom Hin Hsort _].
  induction sub as [|c l IHl p r IHr]; intros fuel k lm Q <- Hf Hb Ha -> HQ;
    (destruct fuel as [|fuel]; [lia|]); cbn [cfs_find]; apply wp_bind, wp_on_tree;
    (eapply wp_get_link; [exact Ht|]); cbn [root_of] in *; destruct s as [h lf ts];
    cbn [cfs_heap cfs_leftmost cfs_t] in *.
  { apply wp_ret. by apply HQ. }
  destruct (tree_at_node h k c l p r Ht) as (_ & Hp & _).
  rewrite (proj2 (Z.eqb_neq p NULL)) by done.
  assert (p ∈ addrs (fill k (T c l p r))) as Hpi by (rewrite addrs_fill; set_solver +).
  destruct (Hin p Hpi) as [tp Htp].
  apply wp_bind. eapply wp_get_t; [exact Htp|done|].
  apply wp_bind, wp_on_tree. eapply wp_get_link; [exact Ht|]. cbn [root_of].
  cbn [cfs_heap cfs_leftmost cfs_t height] in *.
  assert (time_of (mk_cfs h lf ts) p = tp) as Hpt by (unfold time_of; cbn; by rewrite Htp).
  rewrite addrs_fill in Hsort. cbn [addrs] in Hsort.
  rewrite <- app_assoc in Hsort. apply StronglySorted_app in Hsort as (_ & _ & Hsort).
  apply StronglySorted_app in Hsort as (Hlp & _ & Hsort).
  rewrite <- app_comm_cons in Hsort. apply StronglySorted_inv in Hsort as [_ Hpr].
  destruct (Z.ltb_spec t tp) as [Hlt|Hle].
  - eapply (IHl fuel (CL c k p r)); [done|lia|done| |done|].
    + cbn [after]. apply Forall_cons. split; [by rewrite Hpt|].
      eapply Forall_impl; [exact Hpr|]. cbn. lia.
    + cbn [before]. intros k' Hk'. by apply HQ.
  - assert (bool_decide (before (CR c k l p) = []) = false) as Hbf.
    { apply bool_decide_eq_false_2. cbn [before]. by destruct (before k), (addrs l). }
    eapply (IHr fuel (CR c k l p)); [done|lia| |done|done|].
    + cbn [before]. rewrite !Forall_app, Forall_singleton. split_and!; [done| |lia].
      apply Forall_forall. intros z Hz. specialize (Hlp z p Hz). rewrite Hpt in Hlp.
      assert (time_of (mk_cfs h lf ts) z <= tp); [apply Hlp; set_solver +|lia].
    + intros k' Hk'. by apply HQ.
Qed.
End find.

Lemma wp_on_tree_seq {A B} (m : RB A) (n : RB B) s (Q : B -> cfs_rq -> Prop) :
  wp (m;; n) (cfs_heap s) (fun a h => Q a (mk_cfs h (cfs_leftmost s) (cfs_t s))) ->
  wp (on_tree m;; on_tree n) s Q.
Proof.
  unfold wp, on_tree, mbind, M_bind. destruct (m (cfs_heap s)) as [[a h]| |]; [|done..].
  cbn [cfs_heap cfs_leftmost cfs_t]. by destruct (n h) as [[b h']| |].
Qed.

Lemma time_of_ne s lf h x t y :
  y <> x -> time_of (mk_cfs h lf (<[x := t]> (cfs_t s))) y = time_of s y.
Proof. intros Hne. unfold time_of. cbn [cfs_t]. by rewrite lookup_insert_ne. Qed.

Lemma sorted_ext (f g : Z -> Z) l : (forall x, x ∈ l -> f x = g x) ->
  StronglySorted (fun x y => f x <= f y) l -> StronglySorted (fun x y => g x <= g y) l.
Proof.
  induction l as [|x l IH]; intros Hf Hs; [constructor|].
  apply StronglySorted_inv in Hs as [Hs Hx]. constructor.
  - apply IH; [|done]. intros y Hy. apply Hf. set_solver +Hy.
  - rewrite Forall_forall in Hx |- *. intros y Hy.
    rewrite <- !Hf by set_solver +Hy. by apply Hx.
Qed.

(** The store [tsk->t = t] to a task that is not queued. *)
Lemma cfs_inv_set_t s t0 x t : cfs_inv s t0 -> x ∈ dom (cfs_t s) -> x ∉ addrs t0 ->
  cfs_inv (mk_cfs (cfs_heap s) (cfs_leftmost s) (<[x := t]> (cfs_t s))) t0.
Proof.
  intros [Ht Hrb Hdom Hin Hs Hl] Hx Hni.
  assert (Hne : forall y, y ∈ addrs t0 -> y <> x) by (intros y Hy ->; done).
  split; try done; cbn [cfs_heap cfs_t].
  - rewrite <- Hdom. apply dom_insert_lookup_L. by apply elem_of_dom.
  - intros y Hy. rewrite lookup_insert_ne by (symmetry; auto). auto.
  - eapply sorted_ext; [|exact Hs]. intros y Hy. symmetry. by apply time_of_ne, Hne.
Qed.

Lemma timed_tasks s l : (timed s l).*2 = l.
Proof. unfold timed. rewrite <- list_fmap_compose. apply list_fmap_id. Qed.

Lemma timed_length s l : length (timed s l) = length l.
Proof. apply length_fmap. Qed.

Lemma timed_ext s s' l : (forall x, x ∈ l -> time_of s x = time_of s' x) -> timed s l = timed s' l.
Proof. intros Hf. apply list_fmap_ext. intros i x Hx. rewrite Hf; [done|]. by eapply list_elem_of_lookup_2. Qed.

(** Putting [x] between the tasks that are not later and those that are. *)
Lemma sorted_insert (f : Z -> Z) a x b :
  StronglySorted (fun x y => f x <= f y) (a ++ b) ->
  Forall (fun y => f y <= f x) a -> Forall (fun y => f x < f y) b ->
  StronglySorted (fun x y => f x <= f y) (a ++ x :: b).
Proof.
  rewrite !StronglySorted_app. intros (Hab & Ha & Hb) Hax Hxb.
  rewrite Forall_forall in Hax, Hxb. split_and!; [|done|].
  - intros y z Hy. rewrite elem_of_cons. intros [->|Hz]; auto.
  - constructor; [done|]. apply Forall_forall. intros y Hy. specialize (Hxb y Hy). lia.
Qed.

Lemma cfs_queue_ok fuel s q x t : cfs_holds s q -> cfs_idle s q x -> enough fuel (length q) ->
  wp (cfs_queue fuel x t) s (fun _ s' =>
    cfs_holds s' (q_insert t x q) /\ dom (cfs_t s') = dom (cfs_t s)).
Proof.
  intros (t0 & Hinv & ->) (Hx & Hal & Hni) Hf. rewrite timed_tasks in Hni.
  rewrite timed_length in Hf. unfold enough in Hf.
  assert (x <> NULL) as Hxn by (destruct Hal; unfold NULL; lia).
  pose proof (cfs_inv_set_t s t0 x t Hinv Hx Hni) as Hinv1.
  pose proof Hx as [t1 Ht1]%elem_of_dom.
  apply wp_bind, wp_bind. eapply wp_get_t; [exact Ht1|done|]. apply wp_puts.
  set (s1 := mk_cfs _ _ _) in *. pose proof Hinv1 as [Ht Hrb Hdom Hin Hs Hl].
  pose proof (rbtree_height _ Hrb) as Hh.
  apply wp_bind. eapply (cfs_find_ok s1 t0 t Hinv1 t0 fuel Top);
    [done|lia|constructor|constructor|done|].
  intros k Hk Hb Ha. cbn [fst snd]. subst t0.
  apply wp_bind. eapply (wp_mono _ _ (fun _ s2 =>
    s2 = mk_cfs (cfs_heap s) (if bool_decide (before k = []) then x else cfs_leftmost s) (cfs_t s1)));
    [by case_bool_decide|].
  intros _ ? ->. apply wp_on_tree_seq. apply wp_keeps; [apply _|].
  eapply wp_insert; [exact Ht|exact Hrb| |lia|].
  { split_and!; [|done|done]. apply elem_of_dom. change (x ∈ dom (rb_nodes (cfs_heap s1))).
    rewrite <- Hdom. cbn. set_solver +. }
  intros h' t' Ht' Hrb' Ha' Hd'. cbn [cfs_heap cfs_leftmost cfs_t] in *.
  assert (time_of s1 x = t) as Hxt by (unfold time_of, s1; cbn; by rewrite lookup_insert_eq).
  assert (Hne : forall y, y ∈ addrs (fill k E) -> time_of s1 y = time_of s y)
    by (intros y Hy; apply time_of_ne; by intros ->).
  rewrite addrs_fill in *. cbn [addrs app] in *. split.
  2:{ cbn. rewrite dom_insert_L. set_solver +Hx. }
  exists t'. split; [split; [done|done|..]|]; cbn [cfs_heap cfs_leftmost cfs_t].
  - rewrite Hdom. by rewrite Hd'.
  - intros y. rewrite Ha', elem_of_app, elem_of_cons. intros [Hy|[->|Hy]];
      [apply Hin; set_solver +Hy|unfold s1; cbn; rewrite lookup_insert_eq; by eexists|
       apply Hin; set_solver +Hy].
  - rewrite Ha'. change (StronglySorted (fun x y => time_of s1 x <= time_of s1 y) (before k ++ x :: after k)).
    apply sorted_insert; [done|by rewrite Hxt..].
  - rewrite Ha'. destruct (before k) eqn:Hbk; [by right|]. by destruct Hl; [left|right].
  - rewrite Ha'. unfold timed at 2. rewrite fmap_app, fmap_cons.
    change (time_of (mk_cfs _ _ (cfs_t s1))) with (time_of s1). fold (timed s1).
    rewrite Hxt. unfold timed at 1. rewrite fmap_app. fold (timed s).
    rewrite q_insert_split.
    + f_equal; [|f_equal]; apply timed_ext; intros y Hy; (rewrite Hne by set_solver +Hy; done).
    + apply Forall_fmap. apply Forall_forall. intros y Hy. cbn. rewrite <- Hne by set_solver +Hy.
      rewrite Forall_forall in Hb. auto.
    + apply Forall_fmap. apply Forall_forall. intros y Hy. cbn. rewrite <- Hne by set_solver +Hy.
      rewrite Forall_forall in Ha. auto.
Qed.

Lemma cfs_inv_left s t0 : cfs_inv s t0 ->
  cfs_inv (mk_cfs (cfs_heap s) NULL (cfs_t s)) t0.
Proof. intros []. split; try done. by left. Qed.

Lemma wp_first_fair fuel s t0 Q : cfs_inv s t0 -> (height t0 < fuel)%nat ->
  Q (hd NULL (addrs t0)) s -> wp (first_fair fuel) s Q.
Proof.
  intros [Ht Hrb Hdom Hin Hs Hl] Hf HQ. apply wp_bind, wp_gets.
  destruct (Z.eqb_spec (cfs_leftmost s) NULL) as [Heq|Hne]; cbn [negb].
  - apply wp_on_tree. eapply rb_first_ok; [done|done|]. by destruct s.
  - apply wp_ret. destruct Hl as [|Hl]; [done|]. by rewrite Hl.
Qed.

Lemma cfs_dequeue_ok fuel s q : cfs_holds s q -> enough fuel (length q) ->
  wp (cfs_dequeue fuel) s (fun x s' =>
    x = hd NULL q.*2 /\ cfs_holds s' (tail q) /\ cfs_t s' = cfs_t s).
Proof.
  intros (t0 & Hinv & ->) Hf. rewrite timed_length in Hf. unfold enough in Hf.
  rewrite timed_tasks. pose proof Hinv as [Ht Hrb Hdom Hin Hs Hl].
  pose proof (rbtree_height _ Hrb) as Hh.
  apply wp_bind. eapply wp_first_fair; [done|lia|].
  destruct (addrs t0) as [|x b] eqn:Ha; cbn [hd].
  { rewrite Z.eqb_refl. cbn [negb]. apply wp_bind, wp_ret, wp_ret. split_and!; [done| |done].
    exists t0. by rewrite Ha. }
  assert (x <> NULL) as Hxn.
  { destruct Ht as (_ & _ & _ & Hal). rewrite Ha, Forall_cons in Hal. destruct Hal as [[? _] _].
    unfold NULL. lia. }
  rewrite (proj2 (Z.eqb_neq x NULL)) by done. cbn [negb]. apply wp_bind, wp_bind, wp_gets.
  apply wp_bind. eapply (wp_mono _ _ (fun _ s2 =>
    s2 = mk_cfs (cfs_heap s) (if cfs_leftmost s =? x then NULL else cfs_leftmost s) (cfs_t s)));
    [by destruct (cfs_leftmost s =? x); [|destruct s]|].
  intros _ ? ->. apply wp_on_tree. apply wp_keeps; [apply _|].
  eapply (rb_erase_ok fuel _ t0 [] x b); [exact Ht|exact Hrb|lia|done|].
  intros h' t' Ht' Hrb' Ha' Hd'. apply wp_ret. cbn [cfs_heap cfs_leftmost cfs_t] in *.
  split_and!; [done| |done]. cbn [app] in Ha'. exists t'. split; [split; [done|done|..]|];
    cbn [cfs_heap cfs_leftmost cfs_t].
  - by rewrite Hdom, Hd'.
  - rewrite Ha'. intros y Hy. apply Hin. set_solver +Hy.
  - rewrite Ha'. by apply StronglySorted_inv in Hs as [? _].
  - destruct (Z.eqb_spec (cfs_leftmost s) x); [by left|]. left. by destruct Hl.
  - rewrite Ha'. done.
Qed.

Lemma wp_cfs_rqinit s : dom (cfs_t s) = dom (rb_nodes (cfs_heap s)) ->
  wp cfs_rqinit s (fun _ s' => cfs_holds s' [] /\ cfs_t s' = cfs_t s).
Proof.
  intros Hd. apply wp_bind, wp_puts, wp_on_tree, wp_puts. split; [|done].
  exists E. split; [|done]. split; cbn; [|by exists 0%nat; constructor|done| |constructor|by left].
  - split_and!; [done|done|apply NoDup_nil_2|apply Forall_nil_2].
  - intros x Hx. set_solver +Hx.
Qed.

(** ** Sequences of operations *)
Inductive cfs_op := OpQueue (x t : Z) | OpDequeue.

(** The program on a sequence of calls; the result lists the dequeued tasks. *)
Fixpoint cfs_run (fuel : nat) (ops : list cfs_op) : CFS (list Z) :=
  match ops with
  | [] => mret []
  | OpQueue x t :: ops => cfs_queue fuel x t;; cfs_run fuel ops
  | OpDequeue :: ops => x ← cfs_dequeue fuel; xs ← cfs_run fuel ops; mret (x :: xs)
  end.

(** The specification on the same calls. *)
Fixpoint q_run (ops : list cfs_op) (q : list (Z * Z)) : list Z * list (Z * Z) :=
  match ops with
  | [] => ([], q)
  | OpQueue x t :: ops => q_run ops (q_insert t x q)
  | OpDequeue :: ops => let r := q_run ops (tail q) in (hd NULL q.*2 :: r.1, r.2)
  end.

(** A task is queued only when it is allocated and not in the queue. *)
Fixpoint q_legal (alloc : gset Z) (ops : list cfs_op) (q : list (Z * Z)) : Prop :=
  match ops with
  | [] => True
  | OpQueue x t :: ops =>
    x ∈ alloc /\ aligned x /\ (x ∉ q.*2) /\ q_legal alloc ops (q_insert t x q)
  | OpDequeue :: ops => q_legal alloc ops (tail q)
  end.

Lemma q_insert_length t x q : length (q_insert t x q) = S (length q).
Proof. induction q as [|e q IH]; cbn; [done|]. case_match; cbn; by rewrite ?IH. Qed.

Lemma q_insert_perm t x q : q_insert t x q ≡ₚ (t, x) :: q.
Proof.
  induction q as [|e q IH]; cbn; [done|]. case_match; [done|]. rewrite IH. by apply Permutation_swap.
Qed.

Lemma cfs_run_ok fuel ops : forall s q,
  cfs_holds s q -> q_legal (dom (cfs_t s)) ops q -> enough fuel (length q + length ops) ->
  wp (cfs_run fuel ops) s (fun xs s' => xs = (q_run ops q).1 /\ cfs_holds s' (q_run ops q).2).
Proof.
  assert (Hm : forall n m, (n <= m)%nat -> enough fuel m -> enough fuel n).
  { unfold enough. intros n m Hnm. pose proof (Nat.log2_le_mono (S n) (S m)). lia. }
  induction ops as [|[x t|] ops IH]; intros s q Hq Hl Hf; cbn [cfs_run q_run].
  - by apply wp_ret.
  - destruct Hl as (Hx & Hal & Hni & Hl). apply wp_bind.
    eapply wp_mono; [eapply cfs_queue_ok; [exact Hq|done|]|].
    { eapply Hm; [|exact Hf]. lia. }
    intros _ s' [Hq' Hd']. apply IH; [done|by rewrite Hd'|].
    eapply Hm; [|exact Hf]. rewrite q_insert_length. cbn [length]. lia.
  - apply wp_bind. eapply wp_mono; [eapply cfs_dequeue_ok; [exact Hq|]|].
    { eapply Hm; [|exact Hf]. lia. }
    intros x s' (-> & Hq' & Hd'). apply wp_bind. eapply wp_mono; [eapply IH; [exact Hq'|..]|].
    + by rewrite Hd'.
    + eapply Hm; [|exact Hf]. destruct q; cbn [length tail]; lia.
    + intros xs s'' [-> Hq'']. by apply wp_ret.
Qed.

(** ** The benchmark *)
Definition NS_SLOT : Z := 5 * 1000000.

(** [tasks[i]] of the array that [malloc] returned at [base]: a [struct cfs_task]
    has 32 bytes. *)
Definition cfs_task_at (base : Z) (i : nat) : Z := base + 32 * Z.of_nat i.

(** [rnd i] is the value of the [i]-th call to [rand]. *)
Definition cfs_test (fuel : nat) (base : Z) (ntasks : nat) (times : Z) (loops : nat)
    (rnd : nat -> Z) : CFS unit :=
  cfs_rqinit;;
  for_each (seq 0 ntasks) (fun i =>
    set_t (cfs_task_at base i) 0;;
    (if times =? 0 then fault else mret tt);;
    cfs_queue fuel (cfs_task_at base i) (u64 (u64 (Z.rem (rnd i) times) * NS_SLOT)));;
  for_each (seq 0 loops) (fun _ =>
    tsk ← cfs_dequeue fuel;
    t ← get_t tsk;
    cfs_queue fuel tsk (u64 (t + u64 (u64 (Z.quot times 7) * NS_SLOT)))).

(** [malloc] returned room for the tasks. *)
Definition cfs_array (base : Z) (ntasks : nat) (s : cfs_rq) : Prop :=
  aligned base /\ dom (cfs_t s) = dom (rb_nodes (cfs_heap s)) /\
  forall i, (i < ntasks)%nat -> cfs_task_at base i ∈ dom (cfs_t s).

Section test.
Context (fuel : nat) (base : Z) (ntasks : nat) (times : Z) (loops : nat) (rnd : nat -> Z).
Context (Hn : (0 < ntasks)%nat) (Ht : times <> 0) (Hf : enough fuel ntasks).
Abbreviation tasks n := (cfs_task_at base <$> seq 0 n).

Lemma enough_le n m : (n <= m)%nat -> enough fuel m -> enough fuel n.
Proof. unfold enough. intros Hnm. pose proof (Nat.log2_le_mono (S n) (S m)). lia. Qed.

Lemma task_aligned i : aligned base -> aligned (cfs_task_at base i).
Proof. unfold cfs_task_at. intros [H0 H8]. split; [lia|]. Z.div_mod_to_equations; lia. Qed.

Lemma fresh_task i : cfs_task_at base i ∉ tasks i.
Proof.
  rewrite list_elem_of_fmap. intros (j & Hj & Hi%elem_of_seq).
  unfold cfs_task_at in Hj. lia.
Qed.

(** The queue holds the tasks [ts], whatever their times. *)
Definition cfs_tasks (al : gset Z) (ts : list Z) (s : cfs_rq) : Prop :=
  exists q, cfs_holds s q /\ q.*2 ≡ₚ ts /\ dom (cfs_t s) = al.

Lemma cfs_tasks_queue al ts s x t : cfs_tasks al ts s ->
  x ∈ al -> aligned x -> x ∉ ts -> (length ts <= ntasks)%nat ->
  wp (cfs_queue fuel x t) s (fun _ s' => cfs_tasks al (x :: ts) s').
Proof.
  intros (q & Hq & Hp & Hd) Hx Hal Hni Hle.
  assert (length q <= ntasks)%nat as Hlq.
  { rewrite <- Hp, length_fmap in Hle. done. }
  eapply wp_mono; [eapply cfs_queue_ok; [exact Hq| |by eapply enough_le]|].
  { split_and!; [by rewrite Hd|done|by rewrite Hp]. }
  intros _ s' [Hq' Hd']. exists (q_insert t x q). split_and!; [done| |congruence].
  by rewrite q_insert_perm, fmap_cons, Hp.
Qed.

(** One turn of the second loop. *)
Lemma cfs_tasks_turn al ts s dt : cfs_tasks al ts s -> ts <> [] -> (length ts <= ntasks)%nat ->
  (forall x, x ∈ ts -> x ∈ al /\ aligned x) ->
  wp (tsk ← cfs_dequeue fuel; t ← get_t tsk; cfs_queue fuel tsk (u64 (t + dt))) s
     (fun _ s' => cfs_tasks al ts s').
Proof.
  intros (q & Hq & Hp & Hd) Hne Hle Hal.
  assert (length q = length ts) as Hlq by (rewrite <- Hp; by rewrite length_fmap).
  apply wp_bind. eapply wp_mono; [eapply cfs_dequeue_ok; [exact Hq|eapply enough_le, Hf; lia]|].
  intros x s' (-> & Hq' & Hd').
  destruct q as [|[t x] q]; [by destruct ts|]. cbn [tail] in Hq'.
  change (hd NULL ((t, x) :: q).*2) with x in *. change (((t, x) :: q).*2) with (x :: q.*2) in Hp.
  assert (NoDup ts) as Hnd.
  { destruct Hq as (t0 & [Ht0 _ _ _ _ _] & Heq). apply (f_equal (fmap snd)) in Heq.
    rewrite timed_tasks in Heq. rewrite <- Hp. cbn in Heq |- *. rewrite Heq.
    by destruct Ht0 as (_ & _ & ? & _). }
  assert (x ∈ ts) as Hxt by (rewrite <- Hp; set_solver +).
  destruct (Hal x Hxt) as [Hxa [Hx0 Hx8]]. rewrite <- Hd, <- Hd' in Hxa.
  apply elem_of_dom in Hxa as [tx Htx].
  apply wp_bind. eapply wp_get_t; [exact Htx|unfold NULL; lia|].
  eapply wp_mono; [eapply (cfs_tasks_queue al q.*2 s' x); [|by apply Hal|done| |]|].
  - exists q. split_and!; [done..|]. by rewrite Hd'.
  - rewrite <- Hp in Hnd. by apply NoDup_cons in Hnd as [? _].
  - rewrite length_fmap. cbn [length] in Hlq. lia.
  - intros _ s'' (q'' & Hq'' & Hp'' & Hd''). exists q''. split_and!; [done| |done].
    by rewrite Hp''.
Qed.

Lemma cfs_test_ok s : cfs_array base ntasks s ->
  wp (cfs_test fuel base ntasks times loops rnd) s (fun _ s' => cfs_tasks (dom (cfs_t s)) (tasks ntasks) s').
Proof.
  intros (Hbase & Hdom & Hin). set (al := dom (cfs_t s)) in *.
  assert (Hal : forall x, x ∈ tasks ntasks -> x ∈ al /\ aligned x).
  { intros x (i & -> & Hi%elem_of_seq)%list_elem_of_fmap. split; [apply Hin; lia|by apply task_aligned]. }
  apply wp_bind. eapply wp_mono; [by apply wp_cfs_rqinit|]. intros _ s0 [Hq0 Hd0].
  apply wp_bind. apply (wp_for_each (fun l s' => cfs_tasks al (cfs_task_at base <$> l) s')).
  - intros l1 i l2 s' Hl (q & Hq & Hp & Hd).
    assert (l1 = seq 0 i /\ (i < ntasks)%nat) as [-> Hi].
    { assert (seq 0 ntasks !! length l1 = Some i) as Hlk by by rewrite Hl, list_lookup_middle.
      apply lookup_seq in Hlk as [-> Hlt]. split; [|done].
      apply (f_equal (take (length l1))) in Hl. rewrite take_app_length, take_seq in Hl.
      rewrite Nat.min_l in Hl by lia. by rewrite <- Hl at 1. }
    pose proof (Hin i Hi) as Hx. pose proof (task_aligned i Hbase) as Hxa.
    pose proof (fresh_task i) as Hfr. cbv beta. set (x := cfs_task_at base i) in *.
    rewrite <- Hd in Hx. pose proof Hx as [tx Htx]%elem_of_dom.
    apply wp_bind, wp_bind. eapply wp_get_t; [exact Htx|destruct Hxa; unfold NULL; lia|].
    apply wp_puts. rewrite (proj2 (Z.eqb_neq times 0)) by done. apply wp_bind, wp_ret.
    eapply wp_mono; [eapply (cfs_tasks_queue al (tasks i))|].
    + destruct Hq as (t0 & Hinv & ->). rewrite timed_tasks in Hp. exists (timed s' (addrs t0)).
      rewrite timed_tasks. split_and!; [|done|].
      * exists t0. split; [apply cfs_inv_set_t; [done|done|]|].
        { intros Hi'. apply Hfr. by rewrite <- Hp. }
        apply timed_ext. intros y Hy. symmetry. apply time_of_ne. intros ->.
        apply Hfr. by rewrite <- Hp.
      * cbn. rewrite dom_insert_L, <- Hd. set_solver +Hx.
    + by rewrite <- Hd.
    + done.
    + done.
    + rewrite length_fmap, length_seq. lia.
    + intros _ s'' (q2 & Hq'' & Hp'' & Hd''). exists q2. split_and!; [done| |done].
      rewrite Hp'', fmap_app. cbn [fmap list_fmap]. by rewrite <- Permutation_cons_append.
  - exists []. by rewrite Hd0.
  - intros s1 Hs1. apply (wp_for_each (fun _ s' => cfs_tasks al (tasks ntasks) s')); [|done|done].
    intros _ _ _ s' _ Hs'. eapply cfs_tasks_turn; [done| | |done].
    + by destruct ntasks; [lia|].
    + by rewrite length_fmap, length_seq.
Qed.
End test.

(** ** The contract of the queue *)

(** C9: [cfs_queue] and [cfs_dequeue] implement the time-ordered queue: every
    legal sequence of calls returns the tasks the specification returns, in
    order of their times and first-in first-out among equal times, a dequeue
    of the empty queue returns the null pointer, and no call faults. *)
Theorem cfs_refines_queue fuel ops s q :
  cfs_holds s q -> q_legal (dom (cfs_t s)) ops q -> enough fuel (length q + length ops) ->
  exists s', cfs_run fuel ops s = Ok ((q_run ops q).1, s') /\ cfs_holds s' (q_run ops q).2.
Proof.
  intros Hq Hl Hf. pose proof (cfs_run_ok fuel ops s q Hq Hl Hf) as Hw.
  apply wp_run in Hw as (xs & s' & He & -> & Hh). eauto.
Qed.

(** The benchmark [cfs_test] never dereferences a null task: on an array of
    [ntasks > 0] tasks it returns, and every task is queued exactly once. *)
Theorem cfs_test_safe fuel base ntasks times loops rnd s :
  (0 < ntasks)%nat -> times <> 0 -> enough fuel ntasks -> cfs_array base ntasks s ->
  exists s' q, cfs_test fuel base ntasks times loops rnd s = Ok (tt, s') /\
    cfs_holds s' q /\ q.*2 ≡ₚ (cfs_task_at base <$> seq 0 ntasks).
Proof.
  intros Hn Ht Hf Ha. pose proof (cfs_test_ok fuel base ntasks times loops rnd Hn Ht Hf s Ha) as Hw.
  apply wp_run in Hw as ([] & s' & He & q & Hq & Hp & _). eauto.
Qed.

(** ** Concrete runs *)
Definition sample_rq : cfs_rq :=
  mk_cfs (mk_heap (<[8 := mk_rb 0 0 0]> (<[40 := mk_rb 0 0 0]> (<[72 := mk_rb 0 0 0]> ∅))) 0) 0
         (<[8 := 0]> (<[40 := 0]> (<[72 := 0]> ∅))).

Lemma sample_empty : cfs_holds sample_rq [].
Proof.
  exists E. split; [|done].
  split; [|by exists 0%nat; constructor|done| |constructor|by left].
  - split_and!; [done|done|apply NoDup_nil_2|apply Forall_nil_2].
  - intros x Hx. set_solver +Hx.
Qed.

Lemma cfs_refines_queue_witness : exists s',
  cfs_run 9 [OpQueue 8 5; OpQueue 40 3; OpQueue 72 5; OpDequeue; OpDequeue; OpDequeue; OpDequeue]
    sample_rq = Ok ([40; 8; 72; 0], s') /\ cfs_holds s' [].
Proof.
  apply (cfs_refines_queue 9 [OpQueue 8 5; OpQueue 40 3; OpQueue 72 5; OpDequeue; OpDequeue;
    OpDequeue; OpDequeue] sample_rq []); [apply sample_empty| |unfold enough; cbn; lia].
  assert (dom (cfs_t sample_rq) = {[8; 40; 72]}) as -> by (unfold sample_rq; cbn; set_solver +).
  cbn. split_and!; try done; set_solver +.
Defined.

Lemma cfs_test_witness : exists s' q,
  cfs_test 9 8 3 256 1000 (fun i => Z.of_nat i) sample_rq = Ok (tt, s') /\
  cfs_holds s' q /\ q.*2 ≡ₚ [8; 40; 72].
Proof.
  apply (cfs_test_safe 9 8 3 256 1000 (fun i => Z.of_nat i) sample_rq);
    [lia|done|unfold enough; cbn; lia|].
  split_and!; [by split|done|]. intros i Hi.
  assert (dom (cfs_t sample_rq) = {[8; 40; 72]}) as -> by (unfold sample_rq; cbn; set_solver +).
  assert (i = 0 \/ i = 1 \/ i = 2)%nat as [-> |[-> | ->]] by lia; cbn; set_solver +.
Defined.
