(* ===== verification/DList.v ===== *)
(** * smart-queue.c: circular doubly linked lists (struct list_head)

    List heads and entries live at integer addresses; an empty list is a head
    linked to itself.  [ring m h xs] says that the memory [m] holds at [h] the
    head of a list with the entries [xs]. *)
From Stdlib Require Import ZArith Lia Bool.
From stdpp Require Import base tactics list gmap.
From S2P Require Import Prelude.

Record list_head := mk_lh { lh_next : Z; lh_prev : Z }.

Abbreviation links := (gmap Z list_head).
Abbreviation DL := (M links).

(** ** Memory accesses *)
Definition lh_load (p : Z) : DL list_head := fun m =>
  if p =? 0 then Fault
  else match m !! p with Some n => Ok (n, m) | None => Fault end.

Definition lh_get_next (p : Z) : DL Z := n ← lh_load p; mret (lh_next n).
Definition lh_get_prev (p : Z) : DL Z := n ← lh_load p; mret (lh_prev n).
Definition lh_set_next (p v : Z) : DL unit :=
  n ← lh_load p; puts (fun m => <[p := mk_lh v (lh_prev n)]> m).
Definition lh_set_prev (p v : Z) : DL unit :=
  n ← lh_load p; puts (fun m => <[p := mk_lh (lh_next n) v]> m).

(** ** The operations *)
Definition INIT_LIST_HEAD (list : Z) : DL unit :=
  lh_set_next list list;;
  lh_set_prev list list.

Definition __list_add (new prev next : Z) : DL unit :=
  lh_set_prev next new;;
  lh_set_next new next;;
  lh_set_prev new prev;;
  lh_set_next prev new.

Definition list_add_tail (new head : Z) : DL unit :=
  p ← lh_get_prev head;
  __list_add new p head.

Definition __list_del (prev next : Z) : DL unit :=
  lh_set_prev next prev;;
  lh_set_next prev next.

Definition list_del (entry : Z) : DL unit :=
  p ← lh_get_prev entry;
  n ← lh_get_next entry;
  __list_del p n;;
  lh_set_next entry 0;;
  lh_set_prev entry 0.

Definition list_empty (head : Z) : DL bool :=
  n ← lh_get_next head; mret (n =? head).

(** ** Representation *)

(** The entries [xs], linked in order after [p] and before [n]. *)
Fixpoint seg (m : links) (p : Z) (xs : list Z) (n : Z) : Prop :=
  match xs with
  | [] => True
  | x :: xs => m !! x = Some (mk_lh (hd n xs) p) /\ seg m x xs n
  end.

Definition ring (m : links) (h : Z) (xs : list Z) : Prop :=
  m !! h = Some (mk_lh (hd h xs) (List.last xs h)) /\ seg m h xs h /\
  NoDup (h :: xs) /\ (0 ∉ h :: xs).

Lemma seg_frame m m' p xs n :
  (forall x, x ∈ xs -> m' !! x = m !! x) -> seg m p xs n -> seg m' p xs n.
Proof.
  revert p. induction xs as [|x xs IH]; intros p Hf; cbn [seg]; [done|].
  intros [Hx Hs]. split; [rewrite Hf; [done|set_solver +]|]. apply IH; [|done].
  intros y Hy. apply Hf. set_solver +Hy.
Qed.

Lemma ring_frame m m' h xs :
  (forall x, x ∈ h :: xs -> m' !! x = m !! x) -> ring m h xs -> ring m' h xs.
Proof.
  intros Hf (Hh & Hs & ?). split_and!; try tauto.
  - rewrite Hf; [done|set_solver +].
  - eapply seg_frame; [|done]. intros x Hx. apply Hf. set_solver +Hx.
Qed.

Lemma seg_app m p xs ys n :
  seg m p (xs ++ ys) n <-> seg m p xs (hd n ys) /\ seg m (List.last xs p) ys n.
Proof.
  revert p. induction xs as [|x xs IH]; intros p; cbn [seg app]; [tauto|].
  rewrite IH. replace (hd n (xs ++ ys)) with (hd (hd n ys) xs) by by destruct xs.
  replace (List.last (x :: xs) p) with (List.last xs x); [tauto|].
  clear. revert x. induction xs as [|y xs IH]; intros x; [done|].
  cbn [List.last] in *. destruct xs; [done|]. by rewrite (IH x), <- (IH y).
Qed.

Lemma list_last_app (xs : list Z) y ys d : List.last (xs ++ y :: ys) d = List.last (y :: ys) d.
Proof.
  induction xs as [|x xs IH]; [done|]. cbn [app]. destruct xs; cbn [app List.last] in *; done.
Qed.

(** ** Specifications *)
Lemma wp_lh_next m p n pr Q :
  m !! p = Some (mk_lh n pr) -> p <> 0 -> Q n m -> wp (lh_get_next p) m Q.
Proof.
  intros Hp Hn HQ. unfold wp, lh_get_next, lh_load, mbind, M_bind.
  rewrite (proj2 (Z.eqb_neq p 0)), Hp by done. exact HQ.
Qed.

Lemma wp_lh_prev m p n pr Q :
  m !! p = Some (mk_lh n pr) -> p <> 0 -> Q pr m -> wp (lh_get_prev p) m Q.
Proof.
  intros Hp Hn HQ. unfold wp, lh_get_prev, lh_load, mbind, M_bind.
  rewrite (proj2 (Z.eqb_neq p 0)), Hp by done. exact HQ.
Qed.

Lemma wp_set_next m p n pr v Q :
  m !! p = Some (mk_lh n pr) -> p <> 0 -> Q tt (<[p := mk_lh v pr]> m) ->
  wp (lh_set_next p v) m Q.
Proof.
  intros Hp Hn HQ. unfold wp, lh_set_next, lh_load, mbind, M_bind.
  rewrite (proj2 (Z.eqb_neq p 0)), Hp by done. exact HQ.
Qed.

Lemma wp_set_prev m p n pr v Q :
  m !! p = Some (mk_lh n pr) -> p <> 0 -> Q tt (<[p := mk_lh n v]> m) ->
  wp (lh_set_prev p v) m Q.
Proof.
  intros Hp Hn HQ. unfold wp, lh_set_prev, lh_load, mbind, M_bind.
  rewrite (proj2 (Z.eqb_neq p 0)), Hp by done. exact HQ.
Qed.

Lemma wp_init m h e Q : m !! h = Some e -> h <> 0 ->
  Q tt (<[h := mk_lh h h]> m) -> wp (INIT_LIST_HEAD h) m Q.
Proof.
  destruct e as [n p]. intros Hh Hn HQ. apply wp_bind. eapply wp_set_next; [done..|].
  eapply wp_set_prev; [by rewrite lookup_insert_eq|done|]. by rewrite insert_insert_eq.
Qed.

Lemma ring_nil m h : m !! h = Some (mk_lh h h) -> h <> 0 -> ring m h [].
Proof.
  intros Hh Hn. split_and!; [done|done| |].
  - apply NoDup_singleton.
  - rewrite list_elem_of_singleton. auto.
Qed.

(** The last entry of a list, or its head, with the link behind it. *)
Lemma ring_last m h xs : ring m h xs ->
  (xs = [] /\ m !! h = Some (mk_lh h h)) \/
  (exists ys y, xs = ys ++ [y] /\ m !! y = Some (mk_lh h (List.last ys h)) /\
     List.last xs h = y /\ seg m h ys y).
Proof.
  intros (Hh & Hs & _). destruct xs as [|y ys _] using rev_ind; [by left|]. right.
  exists ys, y. apply seg_app in Hs as [Hs1 [Hs2 _]]. split_and!; [done|done| |done].
  by rewrite list_last_app.
Qed.

Lemma wp_list_add_tail m h xs x e Q :
  ring m h xs -> m !! x = Some e -> x <> 0 -> x ∉ h :: xs ->
  (forall m', ring m' h (xs ++ [x]) ->
     (forall y, y ∉ x :: h :: xs -> m' !! y = m !! y) -> Q tt m') ->
  wp (list_add_tail x h) m Q.
Proof.
  intros Hr Hx Hx0 Hni HQ. destruct e as [xn xp].
  pose proof Hr as (Hh & Hs & Hnd & H0).
  assert (h <> 0) as Hh0 by (intros ->; apply H0; set_solver +).
  assert (x <> h) as Hxh by (intros ->; apply Hni; set_solver +).
  apply wp_bind. eapply wp_lh_prev; [done..|].
  destruct (ring_last m h xs Hr) as [[-> Hh']|(ys & y & -> & Hy & Hl & Hsy)].
  - cbn [List.last hd] in *. apply wp_bind. eapply wp_set_prev; [done..|].
    apply wp_bind. eapply wp_set_next; [by rewrite lookup_insert_ne by done|done|].
    apply wp_bind. eapply wp_set_prev; [by rewrite lookup_insert_eq|done|].
    eapply wp_set_next; [by rewrite !lookup_insert_ne, lookup_insert_eq by done|done|].
    apply HQ.
    + split_and!; cbn [app hd List.last seg].
      * by rewrite lookup_insert_eq.
      * split; [|done]. rewrite lookup_insert_ne by done. by rewrite lookup_insert_eq.
      * rewrite NoDup_cons, list_elem_of_singleton. split; [auto|apply NoDup_singleton].
      * set_solver.
    + intros z Hz. rewrite !lookup_insert_ne by (set_solver +Hz). done.
  - rewrite Hl in *. assert (y ∈ h :: ys ++ [y]) as Hyi by set_solver +.
    assert (y <> 0) as Hy0 by (intros ->; by apply H0).
    assert (y <> x) as Hyx by (intros ->; by apply Hni).
    assert (y <> h) as Hyh by (intros ->; apply NoDup_cons in Hnd as [Hnd _]; set_solver +Hnd).
    apply wp_bind. eapply wp_set_prev; [done..|].
    apply wp_bind. eapply wp_set_next; [by rewrite lookup_insert_ne by done|done|].
    apply wp_bind. eapply wp_set_prev; [by rewrite lookup_insert_eq|done|].
    eapply wp_set_next; [by rewrite !lookup_insert_ne by done|done|].
    assert (Hys : forall z, z ∈ ys -> z <> x /\ z <> y /\ z <> h).
    { intros z Hz. rewrite NoDup_cons, NoDup_app in Hnd. destruct Hnd as (Hn1 & _ & Hn2 & _).
      split_and!; intros ->; [set_solver +Hni Hz|apply (Hn2 y Hz); set_solver +|set_solver +Hn1 Hz]. }
    apply HQ.
    + split_and!.
      * rewrite !lookup_insert_ne, lookup_insert_eq by done. f_equal. f_equal.
        { destruct ys; done. }
        by rewrite list_last_app.
      * rewrite <- app_assoc. apply seg_app. cbn [app seg hd]. split_and!; [|..|done].
        { eapply seg_frame; [|exact Hsy]. intros z Hz. destruct (Hys z Hz) as (? & ? & ?).
          by rewrite !lookup_insert_ne by done. }
        { by rewrite lookup_insert_eq. }
        { rewrite lookup_insert_ne by done. by rewrite lookup_insert_eq. }
      * rewrite app_comm_cons, NoDup_app. split_and!; [done| |apply NoDup_singleton].
        intros z Hz ->%list_elem_of_singleton. done.
      * rewrite app_comm_cons, elem_of_app, list_elem_of_singleton. intros [?|?]; [done|congruence].
    + intros z Hz. rewrite !lookup_insert_ne by (set_solver +Hz). done.
Qed.

Lemma wp_list_empty m h xs Q : ring m h xs -> Q (bool_decide (xs = [])) m -> wp (list_empty h) m Q.
Proof.
  intros (Hh & Hs & Hnd & H0) HQ. apply wp_bind.
  eapply wp_lh_next; [done|intros ->; apply H0; set_solver +|]. apply wp_ret.
  destruct xs as [|x xs]; cbn [hd]; [by rewrite Z.eqb_refl|].
  assert (x <> h) by (intros ->; apply NoDup_cons in Hnd as [Hn _]; set_solver +Hn).
  by rewrite (proj2 (Z.eqb_neq x h)).
Qed.

(** Unlinking the first entry. *)
Lemma wp_list_del_first m h x xs Q :
  ring m h (x :: xs) ->
  (forall m', ring m' h xs -> m' !! x = Some (mk_lh 0 0) ->
     (forall y, y ∉ h :: x :: xs -> m' !! y = m !! y) -> Q tt m') ->
  wp (list_del x) m Q.
Proof.
  intros (Hh & [Hx Hs] & Hnd & H0) HQ.
  apply NoDup_cons in Hnd as [Hhx Hnd]. apply NoDup_cons in Hnd as [Hxi Hnd].
  assert (h <> x) as Hne by (intros ->; apply Hhx; set_solver +).
  assert (h ∉ xs) as Hhi by set_solver +Hhx.
  assert (x <> 0 /\ h <> 0 /\ 0 ∉ xs) as (Hx0 & Hh0 & H0i).
  { split_and!; try intros ->; [apply H0; set_solver +..|set_solver +H0]. }
  apply wp_bind. eapply wp_lh_prev; [done..|]. apply wp_bind. eapply wp_lh_next; [done..|].
  destruct xs as [|y xs]; cbn [hd List.last] in *.
  - apply wp_bind, wp_bind. eapply wp_set_prev; [done..|].
    eapply wp_set_next; [by rewrite lookup_insert_eq|done|].
    apply wp_bind. eapply wp_set_next; [by rewrite !lookup_insert_ne by done|done|].
    eapply wp_set_prev; [by rewrite lookup_insert_eq|done|]. apply HQ.
    + split_and!; [|done|apply NoDup_singleton|set_solver].
      rewrite !lookup_insert_ne, lookup_insert_eq by done. done.
    + by rewrite lookup_insert_eq.
    + intros z Hz. rewrite !lookup_insert_ne by (set_solver +Hz). done.
  - destruct Hs as [Hy Hs].
    assert (y <> 0 /\ h <> y /\ x <> y) as (Hy0 & Hhy & Hxy).
    { split_and!; [set_solver|set_solver|set_solver]. }
    apply wp_bind, wp_bind. eapply wp_set_prev; [done..|].
    eapply wp_set_next; [by rewrite lookup_insert_ne by done|done|].
    apply wp_bind. eapply wp_set_next; [by rewrite !lookup_insert_ne by done|done|].
    eapply wp_set_prev; [by rewrite lookup_insert_eq|done|]. apply HQ.
    + split_and!; [|split| |set_solver].
      * rewrite !lookup_insert_ne, lookup_insert_eq by done. done.
      * rewrite !lookup_insert_ne by done. by rewrite lookup_insert_eq.
      * eapply seg_frame; [|exact Hs]. intros z Hz. apply NoDup_cons in Hnd as [Hyz _].
        rewrite !lookup_insert_ne by (set_solver). done.
      * by apply NoDup_cons.
    + by rewrite lookup_insert_eq.
    + intros z Hz. rewrite !lookup_insert_ne by (set_solver +Hz). done.
Qed.

Lemma seg_some m p xs n y : seg m p xs n -> y ∈ xs -> is_Some (m !! y).
Proof.
  revert p. induction xs as [|x xs IH]; intros p; cbn [seg]; [set_solver|].
  intros [Hx Hs]. rewrite elem_of_cons. intros [->|Hy]; [by eexists|by eapply IH].
Qed.

Lemma ring_some m h xs y : ring m h xs -> y ∈ h :: xs -> is_Some (m !! y).
Proof.
  intros (Hh & Hs & _). rewrite elem_of_cons. intros [->|Hy]; [by eexists|by eapply seg_some].
Qed.
