(* ===== verification/TimedRing.v ===== *)
(** * smart-queue.c: the timed ring (tr_queue, tr_dequeue, rel_ffs)

    A ring of 256 lists of tasks, one per time slot of 5 ms, and a bitmap of
    the slots in use.  A task is the address of its [lnk] member, the first
    member of [struct tr_task].  [ring_state] is the abstract ring: an array of
    first-in first-out queues with the base index and the base time. *)
From Stdlib Require Import ZArith Lia Bool.
From stdpp Require Import base tactics list gmap.
From S2P Require Import Prelude DList.

Definition MAX_RQ : Z := 256.
Definition RQ_MASK : Z := MAX_RQ - 1.
Definition BITS_X_LONG : Z := 64.
Definition MAP_LONGS : Z := MAX_RQ / BITS_X_LONG.
Definition NS_SLOT : Z := 5 * 1000000.

Record tr_rq := mk_tr {
  tr_ibase : Z;
  tr_tbase : Z;
  tr_tsks : Z;          (* the address of [tsks[0]] *)
  tr_map : list Z;
  tr_links : links;     (* the list heads and the [lnk] members *)
  tr_t : gmap Z Z       (* the [t] members *)
}.

Abbreviation TR := (M tr_rq).

(** ** Memory *)
Definition slot_head (s : tr_rq) (i : Z) : Z := tr_tsks s + 16 * i.

Definition on_links {A} (m : DL A) : TR A := fun s =>
  match m (tr_links s) with
  | Ok (a, l) => Ok (a, mk_tr (tr_ibase s) (tr_tbase s) (tr_tsks s) (tr_map s) l (tr_t s))
  | Fault => Fault
  | NoFuel => NoFuel
  end.

Definition set_ibase (v : Z) : TR unit :=
  puts (fun s => mk_tr v (tr_tbase s) (tr_tsks s) (tr_map s) (tr_links s) (tr_t s)).
Definition set_tbase (v : Z) : TR unit :=
  puts (fun s => mk_tr (tr_ibase s) v (tr_tsks s) (tr_map s) (tr_links s) (tr_t s)).
Definition set_map (v : list Z) : TR unit :=
  puts (fun s => mk_tr (tr_ibase s) (tr_tbase s) (tr_tsks s) v (tr_links s) (tr_t s)).

Definition get_word (i : Z) : TR Z := fun s =>
  match tr_map s !! Z.to_nat i with Some w => Ok (w, s) | None => Fault end.

Definition tr_get_t (p : Z) : TR Z := fun s =>
  if p =? 0 then Fault
  else match tr_t s !! p with Some t => Ok (t, s) | None => Fault end.
Definition tr_set_t (p t : Z) : TR unit :=
  _ ← tr_get_t p;
  puts (fun s => mk_tr (tr_ibase s) (tr_tbase s) (tr_tsks s) (tr_map s) (tr_links s)
                       (<[p := t]> (tr_t s))).

(** ** Bits *)

(** The first of the [n] numbers from [d] on that satisfies [P]. *)
Fixpoint first_in (P : Z -> bool) (n : nat) (d : Z) : option Z :=
  match n with
  | O => None
  | S n => if P d then Some d else first_in P n (d + 1)
  end.

(** [bsfq]: the number of the lowest bit that is set. *)
Definition __ffs (word : Z) : Z := default 0 (first_in (Z.testbit word) 64 0).

Definition __set_bit (nr : Z) : TR unit :=
  w ← get_word (nr / BITS_X_LONG);
  m ← gets tr_map;
  set_map (<[Z.to_nat (nr / BITS_X_LONG) := Z.lor w (u64 (Z.shiftl 1 (nr mod BITS_X_LONG)))]> m).

Definition __clear_bit (nr : Z) : TR unit :=
  w ← get_word (nr / BITS_X_LONG);
  m ← gets tr_map;
  set_map (<[Z.to_nat (nr / BITS_X_LONG) :=
             Z.land w (u64 (Z.lnot (u64 (Z.shiftl 1 (nr mod BITS_X_LONG)))))]> m).

(** ** The operations *)
Definition tr_rqinit : TR unit :=
  set_ibase 0;;
  set_tbase 0;;
  for_each (seq 0 256) (fun i => s ← gets id; on_links (INIT_LIST_HEAD (slot_head s (Z.of_nat i))));;
  set_map (repeat 0 4).

Fixpoint rel_ffs_loop (n : nat) (i mask : Z) : TR Z :=
  match n with
  | O => mret MAX_RQ
  | S n =>
    w ← get_word i;
    let v := Z.land w mask in
    if negb (v =? 0) then mret (i * BITS_X_LONG + __ffs v)
    else rel_ffs_loop n ((i + 1) mod MAP_LONGS) (u64 (Z.lnot 0))
  end.

Definition rel_ffs : TR Z :=
  ibase ← gets tr_ibase;
  let i := ibase / BITS_X_LONG in
  let b := ibase mod BITS_X_LONG in
  let mask := u64 (Z.lnot (u64 (Z.shiftl 1 b - 1))) in
  rel_ffs_loop (Z.to_nat MAP_LONGS) i mask.

Definition tr_dequeue : TR Z :=
  idx ← rel_ffs;
  if idx =? MAX_RQ then set_tbase 0;; mret 0 else
  s ← gets id;
  tsk ← on_links (lh_get_next (slot_head s idx));
  on_links (list_del tsk);;
  e ← on_links (list_empty (slot_head s idx));
  (if (e : bool) then __clear_bit idx else mret tt);;
  ibase ← gets tr_ibase;
  let d := Z.land (u32 (idx - ibase)) RQ_MASK in
  set_ibase idx;;
  tbase ← gets tr_tbase;
  set_tbase (u64 (tbase + u64 (NS_SLOT * d)));;
  mret tsk.

Definition tr_queue (tsk t : Z) : TR unit :=
  tbase ← gets tr_tbase;
  (if tbase =? 0 then t0 ← tr_get_t tsk; set_tbase t0 else mret tt);;
  tr_set_t tsk t;;
  s ← gets id;
  let idx := u32 (u64 (t - tr_tbase s) / NS_SLOT) in
  let idx := if MAX_RQ <=? idx then MAX_RQ - 1 else idx in
  let idx := Z.land (u32 (idx + tr_ibase s)) RQ_MASK in
  on_links (list_add_tail tsk (slot_head s idx));;
  __set_bit idx.

(** ** Specification: an array of queues *)
Record ring_state := mk_ring {
  r_ibase : Z;
  r_tbase : Z;
  r_slots : Z -> list Z;
  r_t : gmap Z Z
}.

Definition busy (r : ring_state) (i : Z) : bool :=
  match r_slots r i with [] => false | _ => true end.

Definition set_slot (f : Z -> list Z) (i : Z) (l : list Z) : Z -> list Z :=
  fun j => if j =? i then l else f j.

(** The distance from the base slot to the first slot in use, among the
    [256 - ibase mod 64] slots that the scan looks at. *)
Definition scan (r : ring_state) : option Z :=
  first_in (fun d => busy r ((r_ibase r + d) mod 256))
           (Z.to_nat (256 - r_ibase r mod 64)) 0.

Definition r_dequeue (r : ring_state) : Z * ring_state :=
  match scan r with
  | None => (0, mk_ring (r_ibase r) 0 (r_slots r) (r_t r))
  | Some d =>
    let i := (r_ibase r + d) mod 256 in
    (hd 0 (r_slots r i),
     mk_ring i (u64 (r_tbase r + NS_SLOT * d)) (set_slot (r_slots r) i (tail (r_slots r i))) (r_t r))
  end.

Definition r_queue (x t : Z) (r : ring_state) : ring_state :=
  let tb := if r_tbase r =? 0 then default 0 (r_t r !! x) else r_tbase r in
  let d := Z.min 255 (u32 (u64 (t - tb) / NS_SLOT)) in
  let i := (r_ibase r + d) mod 256 in
  mk_ring (r_ibase r) tb (set_slot (r_slots r) i (r_slots r i ++ [x])) (<[x := t]> (r_t r)).

Record tr_inv (s : tr_rq) (r : ring_state) : Prop := {
  ti_ibase : tr_ibase s = r_ibase r;
  ti_tbase : tr_tbase s = r_tbase r;
  ti_t : tr_t s = r_t r;
  ti_range : 0 <= r_ibase r < 256;
  ti_tsks : 0 < tr_tsks s;
  ti_len : length (tr_map s) = 4%nat;
  ti_words : forall w, w ∈ tr_map s -> 0 <= w < 2 ^ 64;
  ti_bits : forall i w, 0 <= i < 256 -> tr_map s !! Z.to_nat (i / 64) = Some w ->
    Z.testbit w (i mod 64) = busy r i;
  ti_rings : forall i, 0 <= i < 256 -> ring (tr_links s) (slot_head s i) (r_slots r i);
  ti_tasks : forall i x, 0 <= i < 256 -> x ∈ r_slots r i ->
    is_Some (r_t r !! x) /\ (forall j, 0 <= j < 256 -> x <> slot_head s j) /\
    (forall j, 0 <= j < 256 -> x ∈ r_slots r j -> j = i)
}.

(** ** Proofs: scanning *)
Lemma first_in_app P n m d :
  first_in P (n + m) d =
  match first_in P n d with Some x => Some x | None => first_in P m (d + Z.of_nat n) end.
Proof.
  revert d. induction n as [|n IH]; intros d; cbn [first_in Nat.add].
  - f_equal. lia.
  - destruct (P d); [done|]. rewrite IH. destruct (first_in P n (d + 1)); [done|]. f_equal. lia.
Qed.

Lemma first_in_shift P Q n d c :
  (forall k, 0 <= k < Z.of_nat n -> P (d + k) = Q (c + k)) ->
  first_in P n d = (fun x => x + (d - c)) <$> first_in Q n c.
Proof.
  revert d c. induction n as [|n IH]; intros d c HPQ; cbn [first_in]; [done|].
  pose proof (HPQ 0 ltac:(lia)) as H0. rewrite !Z.add_0_r in H0. rewrite H0.
  destruct (Q c); [cbn; f_equal; lia|]. rewrite (IH (d + 1) (c + 1)).
  - destruct (first_in Q n (c + 1)); cbn; [f_equal; lia|done].
  - intros k Hk. specialize (HPQ (k + 1) ltac:(lia)).
    replace (d + 1 + k) with (d + (k + 1)) by lia. by replace (c + 1 + k) with (c + (k + 1)) by lia.
Qed.

Lemma first_in_none P n d :
  first_in P n d = None <-> forall k, d <= k < d + Z.of_nat n -> P k = false.
Proof.
  revert d. induction n as [|n IH]; intros d; cbn [first_in]; [split; [lia|done]|].
  destruct (P d) eqn:HP; [split; [done|]|].
  - intros H. rewrite (H d) in HP; [done|lia].
  - rewrite IH. split; intros H k Hk; [|apply H; lia].
    destruct (decide (k = d)) as [->|]; [done|apply H; lia].
Qed.

Lemma first_in_some P n d x :
  first_in P n d = Some x <->
  d <= x < d + Z.of_nat n /\ P x = true /\ forall k, d <= k < x -> P k = false.
Proof.
  revert d. induction n as [|n IH]; intros d; cbn [first_in]; [split; [done|lia]|].
  destruct (P d) eqn:HP.
  - split; [intros [= <-]; split_and!; [lia|lia|done|lia]|]. intros (Hx & HPx & Hk).
    destruct (decide (x = d)) as [->|]; [done|]. rewrite Hk in HP; [done|lia].
  - rewrite IH. split; intros (Hx & HPx & Hk).
    + split_and!; [lia|lia|done|]. intros k Hk'. destruct (decide (k = d)) as [->|]; [done|].
      apply Hk. lia.
    + assert (x <> d) by (intros ->; congruence). split_and!; [lia|lia|done|].
      intros k Hk'. apply Hk. lia.
Qed.

Lemma mask_bits w c k : 0 <= c < 64 -> 0 <= k < 64 ->
  Z.testbit (Z.land w (u64 (Z.lnot (u64 (Z.shiftl 1 c - 1))))) k = Z.testbit w k && (c <=? k).
Proof.
  intros Hc Hk. rewrite Z.land_spec, u64_bits, Z.lnot_spec, u64_bits, shiftl_ones_bits by lia.
  f_equal. lia.
Qed.

Lemma land_range w m n : 0 <= n -> 0 <= w < 2 ^ n -> 0 <= Z.land w m < 2 ^ n.
Proof.
  intros Hn Hw. assert (Z.land w m = Z.land w m mod 2 ^ n) as ->.
  - apply Z.bits_inj'. intros k Hk. destruct (Z.ltb_spec k n).
    + by rewrite Z.mod_pow2_bits_low by lia.
    + rewrite Z.mod_pow2_bits_high, Z.land_spec by lia.
      rewrite <- (Z.mod_small w (2 ^ n)) by lia. by rewrite Z.mod_pow2_bits_high by lia.
  - apply Z.mod_pos_bound. lia.
Qed.

Lemma ffs_range v : 0 <= __ffs v < 64.
Proof.
  unfold __ffs. destruct (first_in _ 64 0) as [x|] eqn:Hf; [|done].
  apply first_in_some in Hf as (? & _). change (default 0 (Some x)) with x. lia.
Qed.

(** One word of the bitmap from bit [c] on. *)
Lemma word_scan w c : 0 <= w < 2 ^ 64 -> 0 <= c < 64 ->
  let v := Z.land w (u64 (Z.lnot (u64 (Z.shiftl 1 c - 1)))) in
  first_in (Z.testbit w) (Z.to_nat (64 - c)) c = if v =? 0 then None else Some (__ffs v).
Proof.
  intros Hw Hc v. pose proof (land_range w (u64 (Z.lnot (u64 (Z.shiftl 1 c - 1)))) 64 ltac:(lia) Hw) as Hv.
  fold v in Hv.
  assert (Hb : forall k, 0 <= k < 64 -> Z.testbit v k = Z.testbit w k && (c <=? k))
    by (intros; by apply mask_bits).
  destruct (Z.eqb_spec v 0) as [Hv0|Hv0].
  - apply first_in_none. intros k Hk. specialize (Hb k ltac:(lia)).
    rewrite Hv0, Z.testbit_0_l in Hb. destruct (Z.testbit w k); [lia|done].
  - unfold __ffs. destruct (first_in (Z.testbit v) 64 0) as [x|] eqn:Hx; cbn.
    + apply first_in_some in Hx as (Hx & Hvx & Hk). apply first_in_some.
      rewrite Hb in Hvx by lia. apply andb_true_iff in Hvx as [Hwx Hcx].
      split_and!; [lia|lia|done|]. intros k Hk'. specialize (Hk k ltac:(lia)).
      rewrite Hb in Hk by lia. destruct (Z.testbit w k); [lia|done].
    + exfalso. apply Hv0. apply (bits_zero 64); [lia|done|]. intros k Hk.
      eapply first_in_none in Hx; [exact Hx|lia].
Qed.

Lemma word_scan_all w : 0 <= w < 2 ^ 64 ->
  first_in (Z.testbit w) 64 0 =
  if Z.land w (u64 (Z.lnot 0)) =? 0 then None else Some (__ffs (Z.land w (u64 (Z.lnot 0)))).
Proof. intros Hw. apply (word_scan w 0); [done|lia]. Qed.

(** The whole bitmap, starting with bit [c] of word [i]. *)
Section scan.
Context (s : tr_rq) (r : ring_state) (Hinv : tr_inv s r).

Definition scan_from (n : nat) (d : Z) : option Z :=
  first_in (fun d => busy r ((r_ibase r + d) mod 256)) n d.

Lemma word_get i : 0 <= i < 4 -> exists w, tr_map s !! Z.to_nat i = Some w /\ 0 <= w < 2 ^ 64.
Proof.
  destruct Hinv. intros Hi. destruct (lookup_lt_is_Some_2 (tr_map s) (Z.to_nat i)) as [w Hw]; [lia|].
  exists w. split; [done|]. apply ti_words0. by eapply list_elem_of_lookup_2.
Qed.

(** The bits of word [i] from [c] on are the slots from distance [d] on. *)
Lemma scan_word i w c d : 0 <= i < 4 -> 0 <= c < 64 -> tr_map s !! Z.to_nat i = Some w ->
  (r_ibase r + d) mod 256 = 64 * i + c -> 0 <= d ->
  scan_from (Z.to_nat (64 - c)) d =
  (fun k => k + (d - c)) <$> first_in (Z.testbit w) (Z.to_nat (64 - c)) c.
Proof.
  intros Hi Hc Hw Hd Hd0. apply first_in_shift. intros k Hk. destruct Hinv.
  assert ((r_ibase r + (d + k)) mod 256 = 64 * i + (c + k)) as ->.
  { Z.div_mod_to_equations. lia. }
  rewrite <- (ti_bits0 (64 * i + (c + k)) w).
  - f_equal. Z.div_mod_to_equations. lia.
  - lia.
  - rewrite <- Hw. do 2 f_equal. Z.div_mod_to_equations. lia.
Qed.

Definition scan_result (o : option Z) : Z :=
  match o with Some d => (r_ibase r + d) mod 256 | None => MAX_RQ end.

Lemma rel_ffs_loop_ok n : forall i d,
  0 <= i < 4 -> 0 <= d -> (r_ibase r + d) mod 256 = 64 * i ->
  rel_ffs_loop n i (u64 (Z.lnot 0)) s = Ok (scan_result (scan_from (64 * n) d), s).
Proof.
  induction n as [|n IH]; intros i d Hi Hd Heq; [done|].
  destruct (word_get i Hi) as (w & Hw & Hwr).
  cbn [rel_ffs_loop]. unfold mbind at 1, M_bind at 1, get_word at 1. rewrite Hw.
  replace (64 * S n)%nat with (64 + 64 * n)%nat by lia.
  unfold scan_from at 1. rewrite first_in_app.
  pose proof (scan_word i w 0 d Hi ltac:(lia) Hw ltac:(lia) Hd) as Hs. unfold scan_from in Hs.
  change (Z.to_nat (64 - 0)) with 64%nat in Hs. rewrite Hs, word_scan_all by done.
  destruct (Z.eqb_spec (Z.land w (u64 (Z.lnot 0))) 0) as [Hv|Hv]; cbn [negb fmap option_fmap option_map].
  - fold (scan_from (64 * n) (d + Z.of_nat 64)). apply IH.
    + change MAP_LONGS with 4. Z.div_mod_to_equations. lia.
    + lia.
    + change MAP_LONGS with 4. Z.div_mod_to_equations. lia.
  - unfold mret, M_ret, scan_result. do 2 f_equal.
    pose proof (ffs_range (Z.land w (u64 (Z.lnot 0)))).
    unfold BITS_X_LONG. Z.div_mod_to_equations. lia.
Qed.

Lemma scan_scan_from : scan r = scan_from (Z.to_nat (256 - r_ibase r mod 64)) 0.
Proof. done. Qed.

Lemma rel_ffs_ok : rel_ffs s = Ok (scan_result (scan r), s).
Proof.
  pose proof Hinv as [Hib _ _ Hir _ _ _ _ _ _].
  set (i := r_ibase r / 64). set (b := r_ibase r mod 64).
  assert (0 <= i < 4 /\ 0 <= b < 64 /\ r_ibase r = 64 * i + b) as (Hi & Hb & Hibb).
  { unfold i, b. Z.div_mod_to_equations. lia. }
  destruct (word_get i Hi) as (w & Hw & Hwr).
  unfold rel_ffs, mbind at 1, M_bind at 1, gets. rewrite Hib.
  change BITS_X_LONG with 64. fold i b. change (Z.to_nat MAP_LONGS) with 4%nat.
  cbn [rel_ffs_loop]. fold rel_ffs_loop. unfold mbind at 1, M_bind at 1, get_word at 1. rewrite Hw.
  rewrite scan_scan_from. fold b.
  replace (Z.to_nat (256 - b)) with (Z.to_nat (64 - b) + 64 * 3)%nat by lia.
  unfold scan_from at 1. rewrite first_in_app.
  pose proof (scan_word i w b 0 Hi Hb Hw) as Hs. unfold scan_from in Hs.
  rewrite Hs by (rewrite ?Z.add_0_r, ?Z.mod_small; lia).
  rewrite word_scan by done.
  destruct (Z.eqb_spec (Z.land w (u64 (Z.lnot (u64 (1 ≪ b - 1))))) 0) as [Hv|Hv];
    cbn [negb fmap option_fmap option_map].
  - apply (rel_ffs_loop_ok 3).
    + change MAP_LONGS with 4. apply Z.mod_pos_bound. lia.
    + lia.
    + change MAP_LONGS with 4. rewrite Z2Nat.id by lia.
      replace (r_ibase r + (0 + (64 - b))) with (64 * (i + 1)) by lia.
      change 256 with (64 * 4). by rewrite Z.mul_mod_distr_l by lia.
  - unfold mret, M_ret, scan_result. do 2 f_equal.
    pose proof (ffs_range (Z.land w (u64 (Z.lnot (u64 (1 ≪ b - 1)))))).
    change BITS_X_LONG with 64. rewrite Z.mod_small by lia. lia.
Qed.
End scan.

(** ** Proofs: the bitmap and the lists under an update *)
Lemma wp_on_links {A} (m : DL A) s (Q : A -> tr_rq -> Prop) :
  wp m (tr_links s) (fun a l =>
    Q a (mk_tr (tr_ibase s) (tr_tbase s) (tr_tsks s) (tr_map s) l (tr_t s))) ->
  wp (on_links m) s Q.
Proof. unfold wp, on_links. by destruct (m (tr_links s)) as [[a l]| |]. Qed.

(** What a store to the bitmap leaves: bit [nr] is [b], the others are as
    before. *)
Definition bit_set (m m' : list Z) (nr : Z) (b : bool) : Prop :=
  length m' = length m /\ (forall w, w ∈ m' -> 0 <= w < 2 ^ 64) /\
  forall i w', 0 <= i < 256 -> m' !! Z.to_nat (i / 64) = Some w' ->
    exists w, m !! Z.to_nat (i / 64) = Some w /\
      Z.testbit w' (i mod 64) = if i =? nr then b else Z.testbit w (i mod 64).

Lemma store_bit m nr w w' b : 0 <= nr < 256 -> m !! Z.to_nat (nr / 64) = Some w ->
  (forall w, w ∈ m -> 0 <= w < 2 ^ 64) -> 0 <= w' < 2 ^ 64 ->
  (forall k, 0 <= k < 64 -> Z.testbit w' k = if k =? nr mod 64 then b else Z.testbit w k) ->
  bit_set m (<[Z.to_nat (nr / 64) := w']> m) nr b.
Proof.
  intros Hnr Hw Hwr Hw' Hb. split_and!.
  - apply length_insert.
  - intros v [i Hv]%list_elem_of_lookup. rewrite list_lookup_insert in Hv.
    case_decide; [congruence|]. apply Hwr. by eapply list_elem_of_lookup_2.
  - intros i v Hi Hv. rewrite list_lookup_insert in Hv. case_decide as Hc.
    + destruct Hc as [Hc _]. injection Hv as <-.
      assert (nr / 64 = i / 64) as Heq by (Z.div_mod_to_equations; lia).
      exists w. rewrite <- Heq. split; [done|]. rewrite Hb by (Z.div_mod_to_equations; lia).
      destruct (Z.eqb_spec i nr) as [->|Hne]; [by rewrite Z.eqb_refl|].
      rewrite (proj2 (Z.eqb_neq _ _)); [done|]. intros Hm. apply Hne.
      rewrite (Z.div_mod i 64), (Z.div_mod nr 64) by lia. lia.
    + exists v. split; [done|]. rewrite (proj2 (Z.eqb_neq i nr)); [done|]. intros ->.
      apply Hc. split; [done|]. by apply lookup_lt_Some in Hw.
Qed.

Lemma get_word_run s i w : tr_map s !! Z.to_nat i = Some w -> get_word i s = Ok (w, s).
Proof. intros Hw. unfold get_word. by rewrite Hw. Qed.

Lemma shiftl_1_bits n k : 0 <= n < 64 -> 0 <= k < 64 ->
  Z.testbit (u64 (Z.shiftl 1 n)) k = (k =? n).
Proof.
  intros. rewrite u64_bits, Z.shiftl_1_l, Z.pow2_bits_eqb by lia. apply Z.eqb_sym.
Qed.

Lemma lor_range a b n : 0 <= n -> 0 <= a < 2 ^ n -> 0 <= b < 2 ^ n -> 0 <= Z.lor a b < 2 ^ n.
Proof.
  intros Hn Ha Hb. assert (Z.lor a b = Z.lor a b mod 2 ^ n) as ->; [|apply Z.mod_pos_bound; lia].
  apply Z.bits_inj'. intros k Hk. destruct (Z.ltb_spec k n).
  - by rewrite Z.mod_pow2_bits_low by lia.
  - rewrite Z.mod_pow2_bits_high, Z.lor_spec by lia.
    rewrite <- (Z.mod_small a (2 ^ n)), <- (Z.mod_small b (2 ^ n)) by lia.
    by rewrite !Z.mod_pow2_bits_high by lia.
Qed.

Section bitmap.
Context (s : tr_rq) (nr : Z) (Hnr : 0 <= nr < 256) (Hlen : length (tr_map s) = 4%nat).
Context (Hwr : forall w, w ∈ tr_map s -> 0 <= w < 2 ^ 64).

Lemma nr_word : exists w, tr_map s !! Z.to_nat (nr / 64) = Some w /\ 0 <= w < 2 ^ 64.
Proof.
  destruct (lookup_lt_is_Some_2 (tr_map s) (Z.to_nat (nr / 64))) as [w Hw].
  { rewrite Hlen. Z.div_mod_to_equations. lia. }
  exists w. split; [done|]. apply Hwr. by eapply list_elem_of_lookup_2.
Qed.

Lemma wp_store_bit m' Q : Q tt (mk_tr (tr_ibase s) (tr_tbase s) (tr_tsks s) m' (tr_links s) (tr_t s)) ->
  wp (set_map m') s Q.
Proof. exact id. Qed.

Lemma wp_set_bit Q :
  (forall m', bit_set (tr_map s) m' nr true ->
     Q tt (mk_tr (tr_ibase s) (tr_tbase s) (tr_tsks s) m' (tr_links s) (tr_t s))) ->
  wp (__set_bit nr) s Q.
Proof.
  intros HQ. destruct nr_word as (w & Hw & Hw64). unfold __set_bit. change BITS_X_LONG with 64.
  apply wp_bind. unfold wp at 1. rewrite (get_word_run s (nr / 64) w Hw).
  apply wp_bind, wp_gets, wp_store_bit, HQ. eapply store_bit; [done|exact Hw|done|..].
  - apply lor_range; [lia|done|apply u64_range].
  - intros k Hk. rewrite Z.lor_spec, shiftl_1_bits by (done || apply Z.mod_pos_bound; lia).
    case_match; [apply orb_true_r|apply orb_false_r].
Qed.

Lemma wp_clear_bit Q :
  (forall m', bit_set (tr_map s) m' nr false ->
     Q tt (mk_tr (tr_ibase s) (tr_tbase s) (tr_tsks s) m' (tr_links s) (tr_t s))) ->
  wp (__clear_bit nr) s Q.
Proof.
  intros HQ. destruct nr_word as (w & Hw & Hw64). unfold __clear_bit. change BITS_X_LONG with 64.
  apply wp_bind. unfold wp at 1. rewrite (get_word_run s (nr / 64) w Hw).
  apply wp_bind, wp_gets, wp_store_bit, HQ. eapply store_bit; [done|exact Hw|done|..].
  - apply land_range; [lia|done].
  - intros k Hk. rewrite Z.land_spec, u64_bits, Z.lnot_spec, shiftl_1_bits
      by (lia || apply Z.mod_pos_bound; lia).
    case_match; [apply andb_false_r|apply andb_true_r].
Qed.
End bitmap.

(** ** Proofs: the operations *)
Lemma set_slot_eq f i l : set_slot f i l i = l.
Proof. unfold set_slot. by rewrite Z.eqb_refl. Qed.
Lemma set_slot_ne f i l j : j <> i -> set_slot f i l j = f j.
Proof. intros. unfold set_slot. by rewrite (proj2 (Z.eqb_neq j i)). Qed.

Lemma slot_head_inj s i j : slot_head s i = slot_head s j -> i = j.
Proof. unfold slot_head. lia. Qed.

Section frame.
Context (s : tr_rq) (r : ring_state) (Hinv : tr_inv s r) (idx : Z) (Hidx : 0 <= idx < 256).

(** A store to the nodes of one slot leaves the other rings alone. *)
Lemma other_rings m' j (extra : list Z) :
  (forall y, y ∉ extra -> y ∉ slot_head s idx :: r_slots r idx -> m' !! y = tr_links s !! y) ->
  (forall y i, 0 <= i < 256 -> y ∈ extra -> y ∉ slot_head s i :: r_slots r i \/ i = idx) ->
  0 <= j < 256 -> j <> idx -> ring m' (slot_head s j) (r_slots r j).
Proof.
  intros Hf He Hj Hne. destruct Hinv. eapply ring_frame; [|by apply ti_rings0].
  intros y Hy. apply Hf.
  - intros Hye. destruct (He y j Hj Hye); [done|congruence].
  - rewrite elem_of_cons in Hy |- *. intros [Hyi|Hyi]; destruct Hy as [Hyj|Hyj].
    + rewrite Hyi in Hyj. apply slot_head_inj in Hyj. congruence.
    + rewrite Hyi in Hyj. destruct (ti_tasks0 j _ Hj Hyj) as (_ & Hh & _). by apply (Hh idx Hidx).
    + rewrite Hyj in Hyi. destruct (ti_tasks0 idx _ Hidx Hyi) as (_ & Hh & _). by apply (Hh j Hj).
    + destruct (ti_tasks0 idx _ Hidx Hyi) as (_ & _ & Hu). apply Hne. by apply (Hu j).
Qed.
End frame.

Lemma busy_true r i : busy r i = true <-> r_slots r i <> [].
Proof. unfold busy. by destruct (r_slots r i). Qed.

(** The bitmap after the slot [nr] got the list [l]. *)
Lemma bits_after s r m' nr l b ib tb ts : tr_inv s r ->
  bit_set (tr_map s) m' nr b -> b = negb (bool_decide (l = [])) ->
  forall i w, 0 <= i < 256 -> m' !! Z.to_nat (i / 64) = Some w ->
    Z.testbit w (i mod 64) = busy (mk_ring ib tb (set_slot (r_slots r) nr l) ts) i.
Proof.
  intros [] (_ & _ & Hb) -> i w Hi Hw. destruct (Hb i w Hi Hw) as (w0 & Hw0 & ->).
  unfold busy. cbn [r_slots]. destruct (Z.eqb_spec i nr) as [->|Hne].
  - rewrite set_slot_eq. by destruct l.
  - rewrite set_slot_ne by done. by apply ti_bits0.
Qed.

(** The invariant after a change of the slot [idx]. *)
Section change.
Context (s : tr_rq) (r : ring_state) (Hinv : tr_inv s r) (idx : Z) (Hidx : 0 <= idx < 256).
Context (l : list Z) (m' : list Z) (lk : links) (ib tb : Z) (ts : gmap Z Z) (extra : list Z).
Context (Hib : 0 <= ib < 256) (Hts : forall x, is_Some (r_t r !! x) -> is_Some (ts !! x)).
Context (Hring : ring lk (slot_head s idx) l).
Context (Hf : forall y, y ∉ extra -> y ∉ slot_head s idx :: r_slots r idx ->
  lk !! y = tr_links s !! y).
Context (He : forall y i, 0 <= i < 256 -> y ∈ extra -> y ∉ slot_head s i :: r_slots r i \/ i = idx).
Context (Hbits : length m' = 4%nat /\ (forall w, w ∈ m' -> 0 <= w < 2 ^ 64) /\
  forall i w, 0 <= i < 256 -> m' !! Z.to_nat (i / 64) = Some w ->
    Z.testbit w (i mod 64) = busy (mk_ring ib tb (set_slot (r_slots r) idx l) ts) i).
Context (Hl : forall x, x ∈ l -> is_Some (ts !! x) /\
  (forall j, 0 <= j < 256 -> x <> slot_head s j) /\
  (forall j, 0 <= j < 256 -> x ∈ r_slots r j -> j = idx)).

Lemma inv_change : tr_inv (mk_tr ib tb (tr_tsks s) m' lk ts)
                          (mk_ring ib tb (set_slot (r_slots r) idx l) ts).
Proof.
  pose proof Hinv as []. destruct Hbits as (Hb1 & Hb2 & Hb3).
  split; cbn [tr_ibase tr_tbase tr_tsks tr_map tr_links tr_t r_ibase r_tbase r_slots r_t]; try done.
  - intros i Hi. destruct (decide (i = idx)) as [->|Hne].
    + by rewrite set_slot_eq.
    + rewrite set_slot_ne by done. by eapply (other_rings s r Hinv idx Hidx lk i extra).
  - intros i x Hi Hx. destruct (decide (i = idx)) as [->|Hne].
    + rewrite set_slot_eq in Hx. destruct (Hl x Hx) as (Hxt & Hxh & Hxj). split_and!; [done|done|].
      intros j Hj. destruct (decide (j = idx)); [done|]. rewrite set_slot_ne by done. by apply Hxj.
    + rewrite set_slot_ne in Hx by done. destruct (ti_tasks0 i x Hi Hx) as (Hxt & Hxh & Hxj).
      split_and!; [auto|done|]. intros j Hj. destruct (decide (j = idx)) as [->|].
      * rewrite set_slot_eq. intros Hxl. destruct (Hl x Hxl) as (_ & _ & Hu).
        symmetry. by apply Hu.
      * rewrite set_slot_ne by done. by apply Hxj.
Qed.
End change.

(** Nodes stay allocated. *)
Definition keeps_nodes (s s' : tr_rq) : Prop :=
  tr_tsks s' = tr_tsks s /\
  (forall y, is_Some (tr_links s !! y) -> is_Some (tr_links s' !! y)) /\
  (forall y, is_Some (tr_t s !! y) -> is_Some (tr_t s' !! y)).

(** The slot [d] slots behind [ib], and how far it is. *)
Lemma slot_ahead ib d : 0 <= d < 256 -> Z.land (u32 ((ib + d) mod 256 - ib)) RQ_MASK = d.
Proof.
  intros Hd. change RQ_MASK with (2 ^ 8 - 1). rewrite land_low_mask by lia. unfold u32.
  rewrite Z.mod_mod_divide by by exists (2 ^ 24). change (2 ^ 8) with 256. rewrite Zminus_mod_idemp_l.
  replace (ib + d - ib) with d by lia. by apply Z.mod_small.
Qed.

Lemma slot_of_distance ib n : 0 <= n ->
  Z.land (u32 ((if MAX_RQ <=? n then MAX_RQ - 1 else n) + ib)) RQ_MASK = (ib + Z.min 255 n) mod 256.
Proof.
  intros Hn. change MAX_RQ with 256.
  replace (if 256 <=? n then 256 - 1 else n) with (Z.min 255 n) by (destruct (Z.leb_spec 256 n); lia).
  change RQ_MASK with (2 ^ 8 - 1). rewrite land_low_mask by lia. unfold u32.
  rewrite Z.mod_mod_divide by by exists (2 ^ 24). by rewrite Z.add_comm.
Qed.

(** The end of [tr_dequeue]: the first task [x] of slot [d] was unlinked. *)
Lemma wp_dequeued s r d x xs l1 m' Q : tr_inv s r -> 0 <= d < 256 -> let idx := (r_ibase r + d) mod 256 in
  r_slots r idx = x :: xs -> ring l1 (slot_head s idx) xs -> is_Some (l1 !! x) ->
  (forall y, y ∉ slot_head s idx :: x :: xs -> l1 !! y = tr_links s !! y) ->
  bit_set (tr_map s) m' idx (negb (bool_decide (xs = []))) ->
  (forall s', tr_inv s' (mk_ring idx (u64 (r_tbase r + NS_SLOT * d)) (set_slot (r_slots r) idx xs) (r_t r)) -> keeps_nodes s s' -> Q x s') ->
  wp (ibase ← gets tr_ibase;
      let d := Z.land (u32 (idx - ibase)) RQ_MASK in
      set_ibase idx;; tbase ← gets tr_tbase;
      set_tbase (u64 (tbase + u64 (NS_SLOT * d)));; mret x)
     (mk_tr (tr_ibase s) (tr_tbase s) (tr_tsks s) m' l1 (tr_t s)) Q.
Proof.
  intros Hinv Hd idx Hsl Hr1 Hx1 Hf1 Hm' HQ.
  pose proof Hinv as [Hib Htb Htt Hir Ht0 Hlen Hw Hbits Hrings Htasks].
  assert (0 <= idx < 256) as Hidx by (apply Z.mod_pos_bound; lia). pose proof (Hrings idx Hidx) as Hr. rewrite Hsl in Hr.
  apply wp_bind, wp_gets. cbn [tr_ibase]. rewrite Hib. unfold idx at 1. rewrite slot_ahead by done.
  apply wp_bind, wp_puts. apply wp_bind, wp_gets. apply wp_bind, wp_puts, wp_ret.
  cbn [tr_ibase tr_tbase tr_tsks tr_map tr_links tr_t].
  rewrite (u64_small (NS_SLOT * d)), Htb, Htt by (unfold NS_SLOT; lia). apply HQ.
  - eapply (inv_change s r Hinv idx Hidx xs m' l1 idx _ (r_t r) []); [done|auto|done| |set_solver +|..].
    + intros y _ Hy. apply Hf1. by rewrite Hsl in Hy.
    + pose proof Hm' as (Hm1 & Hm2 & _). split_and!; [congruence|done|].
      intros i w Hi Hwi. eapply bits_after; [exact Hinv|exact Hm'|done|done|done].
    + intros y Hy. apply Htasks; [done|]. rewrite Hsl. set_solver +Hy.
  - split_and!; [done| |by rewrite <- Htt]. cbn [tr_links]. intros y Hy.
    destruct (decide (y ∈ slot_head s idx :: x :: xs)) as [Hin|Hni]; [|by rewrite Hf1].
    destruct (decide (y = x)) as [->|]; [done|]. eapply ring_some; [exact Hr1|]. set_solver.
Qed.

Lemma wp_tr_dequeue s r Q : tr_inv s r ->
  (forall s', tr_inv s' (r_dequeue r).2 -> keeps_nodes s s' -> Q (r_dequeue r).1 s') ->
  wp tr_dequeue s Q.
Proof.
  intros Hinv HQ. unfold tr_dequeue. apply wp_bind. unfold wp at 1.
  rewrite (rel_ffs_ok s r Hinv). unfold r_dequeue in HQ.
  destruct (scan r) as [d|] eqn:Hscan; cbn [scan_result fst snd] in *; cycle 1.
  { rewrite Z.eqb_refl. apply wp_bind, wp_puts, wp_ret. apply HQ; [by destruct Hinv|done]. }
  pose proof Hinv as [Hib Htb Htt Hir Ht0 Hlen Hw Hbits Hrings Htasks].
  set (idx := (r_ibase r + d) mod 256) in *.
  assert (0 <= idx < 256) as Hidx by (apply Z.mod_pos_bound; lia).
  apply first_in_some in Hscan as (Hd & Hbusy & _). fold idx in Hbusy.
  assert (0 <= d < 256) as Hd256 by (revert Hd; Z.div_mod_to_equations; lia).
  rewrite (proj2 (Z.eqb_neq idx MAX_RQ)) by (change MAX_RQ with 256; lia).
  apply busy_true in Hbusy. pose proof (Hrings idx Hidx) as Hr.
  destruct (r_slots r idx) as [|x xs] eqn:Hsl; [done|]. cbn [hd tail] in *.
  apply wp_bind, wp_gets. change (id s) with s. apply wp_bind, wp_on_links.
  pose proof Hr as (Hh & _ & Hnd & H0).
  eapply wp_lh_next; [exact Hh|intros Heq; apply H0; rewrite Heq; set_solver +|].
  apply wp_bind, wp_on_links. cbn [tr_links hd]. eapply wp_list_del_first; [exact Hr|].
  intros l1 Hr1 Hx1 Hf1. apply wp_bind, wp_on_links. cbn [tr_links].
  eapply wp_list_empty; [exact Hr1|]. cbn [tr_ibase tr_tbase tr_tsks tr_map tr_links tr_t].
  set (s1 := mk_tr _ _ _ _ _ _).
  assert (Hend : forall m', bit_set (tr_map s) m' idx (negb (bool_decide (xs = []))) -> _) by
    (intros m' Hm'; exact (wp_dequeued s r d x xs l1 m' Q Hinv Hd256 Hsl Hr1 (mk_is_Some _ _ Hx1) Hf1 Hm' HQ)).
  apply wp_bind. case_bool_decide as Hxs.
  - eapply (wp_clear_bit s1 idx Hidx); [done|done|]. intros m' Hm'. by apply Hend.
  - apply wp_ret. apply (Hend (tr_map s)). split_and!; [done|done|]. cbn [negb].
    intros i w Hi Hwi. exists w. split; [done|]. destruct (Z.eqb_spec i idx) as [->|]; [|done].
    rewrite (Hbits idx w) by done. unfold busy. by rewrite Hsl.
Qed.

(** A task that may be queued: allocated and in no slot. *)
Definition tr_idle (s : tr_rq) (r : ring_state) (x : Z) : Prop :=
  x <> 0 /\ is_Some (tr_links s !! x) /\ is_Some (tr_t s !! x) /\
  forall j, 0 <= j < 256 -> x <> slot_head s j /\ (x ∉ r_slots r j).

Lemma wp_tr_get_t s p v Q : tr_t s !! p = Some v -> p <> 0 -> Q v s -> wp (tr_get_t p) s Q.
Proof. intros Hp Hn HQ. unfold wp, tr_get_t. apply Z.eqb_neq in Hn. by rewrite Hn, Hp. Qed.

(** The end of [tr_queue]: the task is linked behind its slot, whose bit is set. *)
Lemma queued s r x t idx tb m' l1 : tr_inv s r -> tr_idle s r x -> 0 <= idx < 256 ->
  ring l1 (slot_head s idx) (r_slots r idx ++ [x]) ->
  (forall y, y ∉ x :: slot_head s idx :: r_slots r idx -> l1 !! y = tr_links s !! y) -> bit_set (tr_map s) m' idx true ->
  let s' := mk_tr (r_ibase r) tb (tr_tsks s) m' l1 (<[x:=t]> (r_t r)) in
  tr_inv s' (mk_ring (r_ibase r) tb (set_slot (r_slots r) idx (r_slots r idx ++ [x])) (<[x:=t]> (r_t r))) /\ keeps_nodes s s'.
Proof.
  intros Hinv (Hx0 & _ & _ & Hxj) Hidx Hr1 Hf1 Hm'. pose proof Hinv as [Hib Htb Htt Hir Ht0 Hlen Hw Hbits Hrings Htasks].
  assert (Ht : forall y, is_Some (r_t r !! y) -> is_Some (<[x:=t]> (r_t r) !! y)).
  { intros y Hy. destruct (decide (y = x)) as [->|]; [by rewrite lookup_insert_eq|by rewrite lookup_insert_ne]. }
  split; [|split_and!; [done|..]; cbn [tr_links tr_t]].
  - eapply (inv_change s r Hinv idx Hidx _ m' l1 _ _ _ [x]); [done|exact Ht|done|..].
    + intros y Hyx Hy. apply Hf1. rewrite elem_of_cons. rewrite list_elem_of_singleton in Hyx. tauto.
    + intros y i Hi Hyx. rewrite list_elem_of_singleton in Hyx. subst y. left.
      rewrite elem_of_cons. destruct (Hxj i Hi). tauto.
    + pose proof Hm' as (Hm1 & Hm2 & _). split_and!; [congruence|done|].
      intros i w Hi Hwi. eapply bits_after; [exact Hinv|exact Hm'| |done|done].
      rewrite bool_decide_eq_false_2; [done|]. by destruct (r_slots r idx).
    + intros y. rewrite elem_of_app, list_elem_of_singleton. intros [Hy| ->].
      * destruct (Htasks idx y Hidx Hy) as (Hv & Hy2 & Hy3). split_and!; [by apply Ht|done|done].
      * split_and!; [by rewrite lookup_insert_eq|intros j Hj; by apply Hxj|].
        intros j Hj Hi. by destruct (Hxj j Hj).
  - intros y Hy. destruct (decide (y ∈ x :: slot_head s idx :: r_slots r idx)) as [Hin|Hni]; [|by rewrite Hf1].
    eapply ring_some; [exact Hr1|]. set_solver +Hin.
  - rewrite Htt. exact Ht.
Qed.

Lemma wp_tr_queue s r x t Q : tr_inv s r -> tr_idle s r x ->
  (forall s', tr_inv s' (r_queue x t r) -> keeps_nodes s s' -> Q tt s') ->
  wp (tr_queue x t) s Q.
Proof.
  intros Hinv (Hx0 & [xl Hxl] & [xt Hxt] & Hxj) HQ. unfold r_queue in HQ.
  pose proof Hinv as [Hib Htb Htt Hir Ht0 Hlen Hw Hbits Hrings Htasks].
  set (tb := if r_tbase r =? 0 then _ else _) in *.
  set (d := Z.min 255 _) in *. set (idx := (r_ibase r + d) mod 256) in *.
  assert (0 <= idx < 256) as Hidx by (apply Z.mod_pos_bound; lia).
  unfold tr_queue. apply wp_bind, wp_gets.
  apply wp_bind. eapply (wp_mono _ _ (fun _ s1 =>
    s1 = mk_tr (tr_ibase s) tb (tr_tsks s) (tr_map s) (tr_links s) (tr_t s))).
  { subst tb. rewrite Htb. destruct (Z.eqb_spec (r_tbase r) 0) as [Heq|Hne].
    - apply wp_bind. eapply wp_tr_get_t; [exact Hxt|done|]. apply wp_puts. rewrite <- Htt, Hxt. done.
    - apply wp_ret. rewrite <- Htb. by destruct s. }
  intros _ ? ->. apply wp_bind, wp_bind. eapply wp_tr_get_t; [exact Hxt|done|].
  apply wp_puts, wp_bind, wp_gets. cbn [id tr_ibase tr_tbase tr_tsks tr_map tr_links tr_t].
  rewrite Hib, slot_of_distance by apply u32_range. fold d idx.
  apply wp_bind, wp_on_links. cbn [tr_links]. unfold slot_head at 1. cbn [tr_tsks].
  fold (slot_head s idx). destruct (Hxj idx Hidx) as [Hxh Hxs].
  eapply wp_list_add_tail; [by apply Hrings|exact Hxl|done| |].
  { rewrite elem_of_cons. tauto. }
  intros l1 Hr1 Hf1. cbn [tr_ibase tr_tbase tr_tsks tr_map tr_links tr_t].
  eapply (wp_set_bit (mk_tr _ _ _ _ _ _) idx Hidx); [done|done|].
  intros m' Hm'. cbn [tr_ibase tr_tbase tr_tsks tr_map tr_links tr_t] in *.
  rewrite Htt. destruct (queued s r x t idx tb m' l1) as [? ?]; try done. by apply HQ.
Qed.

(** ** Initialisation *)

(** The storage of a [struct tr_rq] and of the tasks. *)
Definition tr_storage (s : tr_rq) : Prop :=
  0 < tr_tsks s /\ forall i, 0 <= i < 256 -> is_Some (tr_links s !! slot_head s i).

Definition empty_ring (t : gmap Z Z) : ring_state := mk_ring 0 0 (fun _ => []) t.

Lemma wp_tr_rqinit s Q : tr_storage s ->
  (forall s', tr_inv s' (empty_ring (tr_t s)) -> keeps_nodes s s' -> Q tt s') ->
  wp tr_rqinit s Q.
Proof.
  intros [Ht Hs] HQ. apply wp_bind, wp_puts, wp_bind, wp_puts, wp_bind.
  cbn [tr_ibase tr_tbase tr_tsks tr_map tr_links tr_t].
  apply (wp_for_each (fun done s' =>
    tr_ibase s' = 0 /\ tr_tbase s' = 0 /\ tr_tsks s' = tr_tsks s /\ tr_t s' = tr_t s /\
    (forall y, is_Some (tr_links s !! y) -> is_Some (tr_links s' !! y)) /\
    forall i, i ∈ done -> tr_links s' !! slot_head s (Z.of_nat i) =
      Some (mk_lh (slot_head s (Z.of_nat i)) (slot_head s (Z.of_nat i))))).
  - intros l1 i l2 s' Hl (Hib & Htb & Hts & Htt & Hk & Hd). apply wp_bind, wp_gets, wp_on_links.
    change (id s') with s'. unfold slot_head at 1. rewrite Hts. fold (slot_head s (Z.of_nat i)).
    assert (0 <= Z.of_nat i < 256) as Hi.
    { assert (i ∈ seq 0 256) as Hi by (rewrite Hl; set_solver +). apply elem_of_seq in Hi. lia. }
    destruct (Hk _ (Hs _ Hi)) as [e He].
    eapply wp_init; [exact He|unfold slot_head; lia|]. cbn [tr_ibase tr_tbase tr_tsks tr_links tr_t].
    split_and!; try done.
    + intros y Hy. destruct (decide (y = slot_head s (Z.of_nat i))) as [->|].
      * by rewrite lookup_insert_eq.
      * rewrite lookup_insert_ne by done. auto.
    + intros j. rewrite elem_of_app, list_elem_of_singleton. intros [Hj| ->].
      * destruct (decide (j = i)) as [->|Hne]; [by rewrite lookup_insert_eq|].
        rewrite lookup_insert_ne; [by apply Hd|]. intros Heq%slot_head_inj. lia.
      * by rewrite lookup_insert_eq.
  - split_and!; try done. intros i Hi. set_solver +Hi.
  - intros s' (Hib & Htb & Hts & Htt & Hk & Hd). apply wp_puts. apply HQ.
    + split; cbn [tr_ibase tr_tbase tr_tsks tr_map tr_links tr_t empty_ring r_ibase r_tbase r_slots r_t];
        try done.
      * congruence.
      * intros w. cbn. rewrite !elem_of_cons, elem_of_nil. lia.
      * intros i w _ Hw%list_elem_of_lookup_2. cbn in Hw. rewrite !elem_of_cons, elem_of_nil in Hw.
        assert (w = 0) as -> by tauto. apply Z.testbit_0_l.
      * intros i Hi. unfold slot_head. cbn [tr_tsks]. rewrite Hts. fold (slot_head s i).
        apply ring_nil; [|unfold slot_head; lia].
        specialize (Hd (Z.to_nat i)). rewrite Z2Nat.id in Hd by lia. apply Hd, elem_of_seq. lia.
      * intros i x _ Hx. set_solver +Hx.
    + split_and!; [done|done|]. cbn [tr_t]. by rewrite Htt.
Qed.

(** ** Sequences of calls *)
Inductive tr_op := TrQueue (x t : Z) | TrDequeue.

Fixpoint tr_run (ops : list tr_op) : TR (list Z) :=
  match ops with
  | [] => mret []
  | TrQueue x t :: ops => tr_queue x t;; tr_run ops
  | TrDequeue :: ops => x ← tr_dequeue; xs ← tr_run ops; mret (x :: xs)
  end.

Fixpoint r_run (ops : list tr_op) (r : ring_state) : list Z * ring_state :=
  match ops with
  | [] => ([], r)
  | TrQueue x t :: ops => r_run ops (r_queue x t r)
  | TrDequeue :: ops =>
    let d := r_dequeue r in let e := r_run ops d.2 in (d.1 :: e.1, e.2)
  end.

(** Only allocated tasks that are in no slot are queued. *)
Fixpoint r_legal (alloc : Z -> Prop) (ops : list tr_op) (r : ring_state) : Prop :=
  match ops with
  | [] => True
  | TrQueue x t :: ops =>
    alloc x /\ (forall j, 0 <= j < 256 -> x ∉ r_slots r j) /\ r_legal alloc ops (r_queue x t r)
  | TrDequeue :: ops => r_legal alloc ops (r_dequeue r).2
  end.

(** A node that is no list head. *)
Definition tr_node (s : tr_rq) (x : Z) : Prop :=
  x <> 0 /\ is_Some (tr_links s !! x) /\ is_Some (tr_t s !! x) /\
  forall j, 0 <= j < 256 -> x <> slot_head s j.

Lemma tr_run_ok (alloc : Z -> Prop) ops : forall s r,
  tr_inv s r -> (forall x, alloc x -> tr_node s x) -> r_legal alloc ops r ->
  wp (tr_run ops) s (fun xs s' => xs = (r_run ops r).1 /\ tr_inv s' (r_run ops r).2).
Proof.
  assert (Hk : forall s s' x, keeps_nodes s s' -> tr_node s x -> tr_node s' x).
  { intros s s' x (H1 & H2 & H3) (Hx & Hl & Ht & Hj). split_and!; [done|auto|auto|].
    unfold slot_head in *. by rewrite H1. }
  induction ops as [|[x t|] ops IH]; intros s r Hinv Hal Hl; cbn [tr_run r_run].
  - by apply wp_ret.
  - destruct Hl as (Hx & Hni & Hl). destruct (Hal x Hx) as (Hx0 & Hxl & Hxt & Hxj).
    apply wp_bind. eapply wp_tr_queue; [exact Hinv|split_and!; auto|].
    intros s' Hinv' Hs'. apply IH; [done| |done]. eauto.
  - apply wp_bind. eapply wp_tr_dequeue; [exact Hinv|]. intros s' Hinv' Hs'.
    apply wp_bind. eapply wp_mono; [by eapply IH; eauto|]. intros xs s'' [-> Hi]. by apply wp_ret.
Qed.

(** ** Time order *)

(** Every task is in the slot of its time: its distance from the base slot is
    the number of whole slots between the base time and its time. *)
Definition r_timed (r : ring_state) : Prop :=
  0 <= r_tbase r < 2 ^ 64 /\
  forall i x t, 0 <= i < 256 -> x ∈ r_slots r i -> r_t r !! x = Some t ->
    r_tbase r <= t < 2 ^ 64 /\ (t - r_tbase r) / NS_SLOT = (i - r_ibase r) mod 256.

(** A slot in use among those that the scan looks at. *)
Definition r_visible (r : ring_state) : Prop :=
  exists i, 0 <= i < 256 /\ busy r i = true /\ (i - r_ibase r) mod 256 < 256 - r_ibase r mod 64.

Lemma dist_slot b i : 0 <= b < 256 -> 0 <= i < 256 -> (b + (i - b) mod 256) mod 256 = i.
Proof. intros. Z.div_mod_to_equations. lia. Qed.

Lemma scan_visible r : 0 <= r_ibase r < 256 -> r_visible r ->
  exists d, scan r = Some d /\ 0 <= d < 256 /\
    forall j, 0 <= j < 256 -> busy r j = true -> d <= (j - r_ibase r) mod 256.
Proof.
  intros Hb (i & Hi & Hbi & Hd). destruct (scan r) as [d|] eqn:Hs; unfold scan in Hs.
  - apply first_in_some in Hs as (Hd1 & _ & Hmin). exists d. split_and!; [done|lia| |].
    { revert Hd1. Z.div_mod_to_equations. lia. }
    intros j Hj Hbj. destruct (Z.le_gt_cases d ((j - r_ibase r) mod 256)) as [|Hlt]; [done|].
    exfalso. pose proof (Z.mod_pos_bound (j - r_ibase r) 256 ltac:(lia)).
    specialize (Hmin ((j - r_ibase r) mod 256) ltac:(lia)). cbv beta in Hmin.
    rewrite dist_slot in Hmin by done. congruence.
  - exfalso. pose proof (Z.mod_pos_bound (i - r_ibase r) 256 ltac:(lia)).
    eapply (proj1 (first_in_none _ _ _)) with (k := (i - r_ibase r) mod 256) in Hs; [|lia].
    cbv beta in Hs. rewrite dist_slot in Hs by done. congruence.
Qed.

Lemma r_timed_dequeue r d : 0 <= r_ibase r < 256 -> r_timed r -> scan r = Some d ->
  0 <= d < 256 -> (forall j, 0 <= j < 256 -> busy r j = true -> d <= (j - r_ibase r) mod 256) ->
  r_timed (r_dequeue r).2.
Proof.
  intros Hib [Htb Hr] Hs Hd Hmin. unfold r_dequeue. rewrite Hs. cbn [snd].
  split; cbn [r_tbase r_ibase r_slots r_t]; [apply u64_range|].
  intros j x t Hj Hx Ht. set (idx := (r_ibase r + d) mod 256) in *.
  assert (Hxj : x ∈ r_slots r j).
  { destruct (decide (j = idx)) as [->|Hne]; [|by rewrite set_slot_ne in Hx].
    rewrite set_slot_eq in Hx. destruct (r_slots r idx); [done|]. set_solver +Hx. }
  assert (Hbj : busy r j = true) by (apply busy_true; intros He; rewrite He in Hxj; set_solver +Hxj).
  specialize (Hmin j Hj Hbj). destruct (Hr j x t Hj Hxj Ht) as [Htr Hdist].
  pose proof (Z.mul_div_le (t - r_tbase r) NS_SLOT ltac:(done)).
  assert (NS_SLOT * d <= t - r_tbase r) by (unfold NS_SLOT in *; nia).
  rewrite u64_small by (unfold NS_SLOT in *; lia). split; [lia|].
  replace (t - (r_tbase r + NS_SLOT * d)) with (t - r_tbase r + - d * NS_SLOT) by lia.
  rewrite Z.div_add, Hdist by done. unfold idx. clear -Hmin Hd Hj Hib.
  Z.div_mod_to_equations. lia.
Qed.

(** The base time when [x] is queued. *)
Lemma r_queue_base r x : (r_tbase r = 0 -> r_t r !! x = Some 0) ->
  (if r_tbase r =? 0 then default 0 (r_t r !! x) else r_tbase r) = r_tbase r.
Proof. intros H0. destruct (Z.eqb_spec (r_tbase r) 0) as [E|]; [|done]. by rewrite H0, E. Qed.

Lemma r_timed_queue r x t : 0 <= r_ibase r < 256 -> r_timed r -> (r_tbase r = 0 -> r_t r !! x = Some 0) ->
  (forall j, 0 <= j < 256 -> x ∉ r_slots r j) ->
  r_tbase r <= t < r_tbase r + 256 * NS_SLOT -> t < 2 ^ 64 -> r_timed (r_queue x t r).
Proof.
  intros Hib [Htb Hr] Hnz Hni Ht Ht64. unfold r_queue. rewrite r_queue_base by done.
  assert (0 <= (t - r_tbase r) / NS_SLOT < 256) as Hd.
  { split; [apply Z.div_pos; [lia|done]|apply Z.div_lt_upper_bound; [done|lia]]. }
  rewrite (u64_small (t - r_tbase r)), u32_small by lia. rewrite Z.min_r by lia.
  split; cbn [r_tbase r_ibase r_slots r_t]; [done|].
  intros i y ty Hi Hy Hty. destruct (decide (y = x)) as [->|Hne].
  - rewrite lookup_insert_eq in Hty. injection Hty as <-. split; [lia|].
    destruct (decide (i = (r_ibase r + (t - r_tbase r) / NS_SLOT) mod 256)) as [Heq|Hne].
    + rewrite Heq. clear -Hd Hib. generalize dependent ((t - r_tbase r) / NS_SLOT).
      intros d Hd. Z.div_mod_to_equations. lia.
    + rewrite set_slot_ne in Hy by done. by destruct (Hni i Hi).
  - rewrite lookup_insert_ne in Hty by done. apply (Hr i y ty Hi); [|done].
    destruct (decide (i = (r_ibase r + (t - r_tbase r) / NS_SLOT) mod 256)) as [->|Hne'].
    + rewrite set_slot_eq, elem_of_app, list_elem_of_singleton in Hy. tauto.
    + by rewrite set_slot_ne in Hy.
Qed.

(** ** What the ring promises *)

(** C10: [tr_queue] and [tr_dequeue] with their pointers and bitmap implement the
    array of first-in first-out queues: on every legal sequence of calls they
    return the same tasks, never fault, and end in a well-formed ring. *)
Theorem tr_refines_ring ops s r (alloc : Z -> Prop) :
  tr_inv s r -> (forall x, alloc x -> tr_node s x) -> r_legal alloc ops r ->
  exists s', tr_run ops s = Ok ((r_run ops r).1, s') /\ tr_inv s' (r_run ops r).2.
Proof.
  intros Hinv Hal Hl. pose proof (tr_run_ok alloc ops s r Hinv Hal Hl) as Hw.
  apply wp_run in Hw as (xs & s' & He & -> & Hi). eauto.
Qed.

(** C28: when every task is in the slot of its time and some slot in use is in
    the part of the ring that the scan looks at, [tr_dequeue] returns a task of
    the earliest slot, the one queued first among those, and keeps every
    remaining task in the slot of its time. *)
Theorem tr_dequeue_earliest s r : tr_inv s r -> r_timed r -> r_visible r ->
  exists x s' r' i, tr_dequeue s = Ok (x, s') /\ tr_inv s' r' /\ r_timed r' /\
    0 <= i < 256 /\ head (r_slots r i) = Some x /\ r_slots r' i = tail (r_slots r i) /\
    forall j y tx ty, 0 <= j < 256 -> y ∈ r_slots r j ->
      r_t r !! x = Some tx -> r_t r !! y = Some ty ->
      (tx - r_tbase r) / NS_SLOT <= (ty - r_tbase r) / NS_SLOT.
Proof.
  intros Hinv Htm Hv. pose proof Hinv as [_ _ _ Hib _ _ _ _ _ _].
  destruct (scan_visible r Hib Hv) as (d & Hs & Hd & Hmin).
  assert (wp tr_dequeue s (fun x s' => x = (r_dequeue r).1 /\ tr_inv s' (r_dequeue r).2)) as Hw
    by (eapply wp_tr_dequeue; [exact Hinv|done]).
  apply wp_run in Hw as (x & s' & He & -> & Hi').
  set (i := (r_ibase r + d) mod 256).
  assert (0 <= i < 256) as Hi by (apply Z.mod_pos_bound; lia).
  pose proof Hs as Hs'. apply first_in_some in Hs' as (_ & Hbi & _). fold i in Hbi.
  apply busy_true in Hbi. pose proof (r_timed_dequeue r d Hib Htm Hs Hd Hmin) as Htm'.
  exists (r_dequeue r).1, s', (r_dequeue r).2, i. split_and!; try (done || lia).
  - unfold r_dequeue. rewrite Hs. cbn [fst]. fold i. by destruct (r_slots r i).
  - unfold r_dequeue. rewrite Hs. cbn [snd r_slots]. fold i. apply set_slot_eq.
  - intros j y tx ty Hj Hy Htx Hty. destruct Htm as [_ Htm].
    assert ((r_dequeue r).1 ∈ r_slots r i) as Hx.
    { unfold r_dequeue. rewrite Hs. cbn [fst]. fold i. destruct (r_slots r i); [done|]. set_solver +. }
    destruct (Htm i _ tx Hi Hx Htx) as [_ ->]. destruct (Htm j y ty Hj Hy Hty) as [_ ->].
    assert ((i - r_ibase r) mod 256 = d) as -> by (unfold i; clear -Hd Hib; Z.div_mod_to_equations; lia).
    apply Hmin; [done|]. apply busy_true. intros He'. rewrite He' in Hy. set_solver +Hy.
Qed.

(** Queueing a task whose time is within 256 slots of the base time puts it
    in the slot of its time. *)
Theorem tr_queue_timed s r x t : tr_inv s r -> r_timed r -> tr_idle s r x -> r_tbase r <> 0 ->
  r_tbase r <= t < r_tbase r + 256 * NS_SLOT -> t < 2 ^ 64 ->
  exists s' r', tr_queue x t s = Ok (tt, s') /\ tr_inv s' r' /\ r_timed r' /\
    x ∈ r_slots r' ((r_ibase r + (t - r_tbase r) / NS_SLOT) mod 256).
Proof.
  intros Hinv Htm Hx Hnz Ht Ht64. pose proof Hinv as [_ _ _ Hib _ _ _ _ _ _].
  assert (wp (tr_queue x t) s (fun _ s' => tr_inv s' (r_queue x t r))) as Hw
    by (eapply wp_tr_queue; [exact Hinv|exact Hx|done]).
  apply wp_run in Hw as ([] & s' & He & Hi'). exists s', (r_queue x t r). split_and!; [done|done|..].
  - destruct Hx as (_ & _ & _ & Hx). apply r_timed_queue; try done. intros j Hj. by destruct (Hx j Hj).
  - unfold r_queue. rewrite (proj2 (Z.eqb_neq _ _)) by done. cbn [r_slots]. destruct Htm as [Htb _].
    assert (0 <= (t - r_tbase r) / NS_SLOT < 256) as Hd.
    { split; [apply Z.div_pos; [lia|done]|apply Z.div_lt_upper_bound; [done|lia]]. }
    rewrite (u64_small (t - r_tbase r)), u32_small by lia. rewrite Z.min_r by lia.
    rewrite set_slot_eq. set_solver +.
Qed.

(** The calls of the next theorem, on the specification. *)
Definition losing_calls (x : Z) : list tr_op :=
  [TrQueue x (5 * NS_SLOT); TrDequeue; TrQueue x (260 * NS_SLOT); TrDequeue].

Lemma losing_run x t : t !! x = Some 0 ->
  (r_run (losing_calls x) (empty_ring t)).1 = [x; 0] /\
  r_slots (r_run (losing_calls x) (empty_ring t)).2 4 = [x] /\
  r_legal (fun y => y = x) (losing_calls x) (empty_ring t).
Proof.
  intros Ht. set (t1 := <[x := 5 * NS_SLOT]> t).
  assert (H1 : r_queue x (5 * NS_SLOT) (empty_ring t) =
    mk_ring 0 0 (set_slot (fun _ => []) 5 [x]) t1).
  { unfold r_queue. cbn [r_tbase r_t empty_ring r_ibase r_slots]. rewrite Z.eqb_refl, Ht. reflexivity. }
  unfold losing_calls. cbn [r_run r_legal]. rewrite H1. split_and!; try reflexivity.
  - intros j _. cbn. apply not_elem_of_nil.
  - intros j _. change (x ∉ set_slot (set_slot (fun _ => []) 5 [x]) 5 [] j). unfold set_slot.
    destruct (j =? 5); apply not_elem_of_nil.
Qed.

(** the scan of [rel_ffs] never returns to the low bits of the word it
    started in, so the ring loses tasks: a task queued 255 slots ahead of base
    slot 5 lands in slot 4, and the next [tr_dequeue] reports an empty ring
    while the task is still linked there. *)
Theorem tr_dequeue_loses_task s x : tr_storage s -> tr_node s x -> tr_t s !! x = Some 0 ->
  exists s', (tr_rqinit;; tr_run (losing_calls x)) s = Ok ([x; 0], s') /\
    ring (tr_links s') (slot_head s' 4) [x].
Proof.
  intros Hst Hx Ht. destruct (losing_run x (tr_t s) Ht) as (H1 & H2 & H3).
  assert (wp (tr_rqinit;; tr_run (losing_calls x)) s
    (fun xs s' => xs = [x; 0] /\ ring (tr_links s') (slot_head s' 4) [x])) as Hw.
  { apply wp_bind, wp_tr_rqinit; [done|]. intros s1 Hinv (Hk1 & Hk2 & Hk3).
    eapply wp_mono; [eapply (tr_run_ok (fun y => y = x)); [exact Hinv| |done]|].
    - intros y ->. destruct Hx as (? & ? & ? & ?). split_and!; auto. unfold slot_head. by rewrite Hk1.
    - intros xs s' [-> Hi]. split; [done|]. rewrite <- H2. by apply Hi. }
  apply wp_run in Hw as (xs & s' & He & -> & Hr). eauto.
Qed.

(** ** A concrete ring *)
Definition sample_links : links :=
  list_to_map ((fun i => (4096 + 16 * Z.of_nat i, mk_lh 0 0)) <$> seq 0 256) ∪
  {[ 8 := mk_lh 0 0; 16 := mk_lh 0 0; 24 := mk_lh 0 0 ]}.
Definition sample_times : gmap Z Z := {[ 8 := 0; 16 := 0; 24 := 0 ]}.
Definition sample_tr : tr_rq := mk_tr 0 0 4096 (repeat 0 4) sample_links sample_times.

Lemma sample_storage : tr_storage sample_tr.
Proof.
  split; [done|]. intros i Hi. unfold sample_tr, slot_head. cbn [tr_links tr_tsks].
  assert (forallb (fun i => bool_decide (is_Some (sample_links !! (4096 + 16 * Z.of_nat i)))) (seq 0 256) = true)
    as Hall by by vm_compute.
  rewrite forallb_forall in Hall. specialize (Hall (Z.to_nat i)).
  rewrite Z2Nat.id in Hall by lia. eapply bool_decide_eq_true_1. apply Hall. apply in_seq. lia.
Qed.

Lemma sample_node x : x = 8 \/ x = 16 \/ x = 24 -> tr_node sample_tr x.
Proof.
  intros Hx. split_and!; [lia|..].
  - destruct Hx as [->|[->| ->]]; by eexists.
  - destruct Hx as [->|[->| ->]]; by eexists.
  - intros j Hj. unfold slot_head. cbn. lia.
Qed.

(** The ring after its initialisation. *)
Definition ready_tr : tr_rq :=
  match tr_rqinit sample_tr with Ok (_, s) => s | _ => sample_tr end.

Lemma ready_inv : tr_inv ready_tr (empty_ring sample_times) /\ keeps_nodes sample_tr ready_tr.
Proof.
  assert (wp tr_rqinit sample_tr (fun _ s' =>
    tr_inv s' (empty_ring sample_times) /\ keeps_nodes sample_tr s')) as Hw
    by (apply wp_tr_rqinit; [apply sample_storage|done]).
  unfold ready_tr. revert Hw. unfold wp. by destruct (tr_rqinit sample_tr) as [[? ?]| |].
Qed.

Lemma tr_dequeue_loses_task_witness : exists s',
  (tr_rqinit;; tr_run (losing_calls 8)) sample_tr = Ok ([8; 0], s') /\
  ring (tr_links s') (slot_head s' 4) [8].
Proof.
  apply (tr_dequeue_loses_task sample_tr 8); [apply sample_storage|apply sample_node; auto|done].
Defined.

(** Legality as a computation over the 256 slots. *)
Definition absent (r : ring_state) (x : Z) : bool :=
  forallb (fun i => bool_decide (x ∉ r_slots r (Z.of_nat i))) (seq 0 256).

Lemma absent_ok r x : absent r x = true -> forall j, 0 <= j < 256 -> x ∉ r_slots r j.
Proof.
  intros Ha j Hj. unfold absent in Ha. rewrite forallb_forall in Ha.
  specialize (Ha (Z.to_nat j)). rewrite Z2Nat.id in Ha by lia.
  eapply bool_decide_eq_true_1, Ha, in_seq. lia.
Qed.

Definition sample_calls : list tr_op :=
  [TrQueue 8 20000000; TrQueue 16 10000000; TrQueue 24 10000001; TrDequeue; TrDequeue; TrDequeue; TrDequeue].

Lemma sample_alloc x : x = 8 \/ x = 16 \/ x = 24 -> tr_node ready_tr x.
Proof.
  intros Hx. destruct ready_inv as [_ (H1 & H2 & H3)].
  destruct (sample_node x Hx) as (? & ? & ? & ?). split_and!; auto.
Qed.

Lemma tr_refines_ring_witness : exists s',
  tr_run sample_calls ready_tr = Ok ([16; 24; 8; 0], s') /\
  tr_inv s' (r_run sample_calls (empty_ring sample_times)).2.
Proof.
  apply (tr_refines_ring sample_calls ready_tr (empty_ring sample_times)
    (fun x => x = 8 \/ x = 16 \/ x = 24)); [apply ready_inv|apply sample_alloc|].
  unfold sample_calls; cbn [r_legal]. split_and!; try apply absent_ok; auto; by vm_compute.
Defined.

(** A ring in use: base slot 2, task 8 in slot 4. *)
Definition mid_calls : list tr_op := [TrQueue 8 20000000; TrQueue 16 10000000; TrDequeue].
Definition mid_tr : tr_rq :=
  match tr_run mid_calls ready_tr with Ok (_, s) => s | _ => ready_tr end.
Definition mid_ring : ring_state := (r_run mid_calls (empty_ring sample_times)).2.

Lemma mid_inv : tr_inv mid_tr mid_ring.
Proof.
  assert (wp (tr_run mid_calls) ready_tr (fun _ s' => tr_inv s' mid_ring)) as Hw.
  { eapply wp_mono; [apply (tr_run_ok (fun x => x = 8 \/ x = 16 \/ x = 24));
      [apply ready_inv|apply sample_alloc|]|].
    - unfold mid_calls; cbn [r_legal]. split_and!; try apply absent_ok; auto; by vm_compute.
    - by intros xs s' [_ Hi]. }
  unfold mid_tr. revert Hw. unfold wp. by destruct (tr_run mid_calls ready_tr) as [[? ?]| |].
Qed.

Lemma mid_eq : mid_ring = mk_ring 2 10000000
  (set_slot (set_slot (set_slot (fun _ => []) 4 [8]) 2 [16]) 2 [])
  (<[16 := 10000000]> (<[8 := 20000000]> sample_times)).
Proof. reflexivity. Qed.

Lemma mid_timed : r_timed mid_ring.
Proof.
  rewrite mid_eq. split; [done|]. intros i x t Hi. cbn [r_slots r_t r_tbase r_ibase]. unfold set_slot.
  destruct (Z.eqb_spec i 2) as [->|]; [by intros ?%elem_of_nil|].
  destruct (Z.eqb_spec i 4) as [->|]; [|by intros ?%elem_of_nil].
  intros ->%list_elem_of_singleton. rewrite lookup_insert_ne, lookup_insert_eq by done.
  by intros [= <-].
Qed.

Lemma mid_visible : r_visible mid_ring.
Proof. exists 4. done. Qed.

Lemma tr_dequeue_earliest_witness : exists x s' r' i, tr_dequeue mid_tr = Ok (x, s') /\
  tr_inv s' r' /\ r_timed r' /\ 0 <= i < 256 /\ head (r_slots mid_ring i) = Some x /\
  r_slots r' i = tail (r_slots mid_ring i) /\
  forall j y tx ty, 0 <= j < 256 -> y ∈ r_slots mid_ring j ->
    r_t mid_ring !! x = Some tx -> r_t mid_ring !! y = Some ty ->
    (tx - r_tbase mid_ring) / NS_SLOT <= (ty - r_tbase mid_ring) / NS_SLOT.
Proof.
  apply (tr_dequeue_earliest mid_tr mid_ring); [apply mid_inv|apply mid_timed|apply mid_visible].
Defined.

Lemma mid_idle : tr_idle mid_tr mid_ring 16.
Proof.
  assert (tr_tsks mid_tr = 4096) as Ht by by vm_compute.
  split_and!; [done|eapply bool_decide_eq_true_1; by vm_compute..|].
  intros j Hj. unfold slot_head. rewrite Ht. split; [lia|].
  revert j Hj. apply absent_ok. by vm_compute.
Qed.

Lemma tr_queue_timed_witness : exists s' r', tr_queue 16 30000000 mid_tr = Ok (tt, s') /\
  tr_inv s' r' /\ r_timed r' /\
  16 ∈ r_slots r' ((r_ibase mid_ring + (30000000 - r_tbase mid_ring) / NS_SLOT) mod 256).
Proof.
  apply (tr_queue_timed mid_tr mid_ring 16 30000000);
    [apply mid_inv|apply mid_timed|apply mid_idle|done|done|done].
Defined.
