(* ===== verification/Libc.v ===== *)
(** * The parts of the C library that the programs use

    Bytes are integers from 0 to 255, a C string is the list of its bytes
    without the final NUL.  The locale is "C". *)
From Stdlib Require Import ZArith Lia Bool Ascii String.
From stdpp Require Import base tactics list.
From S2P Require Import Prelude.

(** ** Characters and literals *)
Definition is_byte (b : Z) : Prop := 0 <= b < 256.

Definition chr (a : ascii) : Z := Z.of_N (N_of_ascii a).

(** The bytes of a string literal. *)
Fixpoint str (s : string) : list Z :=
  match s with
  | EmptyString => []
  | String a s => chr a :: str s
  end.
Arguments str s%_string_scope.

Definition CR : Z := 13.
Definition LF : Z := 10.

(** ** ctype.h *)
Definition isdigit (c : Z) : bool := (48 <=? c) && (c <=? 57).
Definition isupper (c : Z) : bool := (65 <=? c) && (c <=? 90).
Definition islower (c : Z) : bool := (97 <=? c) && (c <=? 122).
Definition isalpha (c : Z) : bool := isupper c || islower c.
Definition isalnum (c : Z) : bool := isalpha c || isdigit c.
Definition isspace (c : Z) : bool := (c =? 32) || ((9 <=? c) && (c <=? 13)).
Definition isprint (c : Z) : bool := (32 <=? c) && (c <=? 126).
Definition isxdigit (c : Z) : bool :=
  isdigit c || ((65 <=? c) && (c <=? 70)) || ((97 <=? c) && (c <=? 102)).
Definition toupper (c : Z) : Z := if islower c then c - 32 else c.
Definition tolower (c : Z) : Z := if isupper c then c + 32 else c.

(** ** string.h *)
Definition strlen (s : list Z) : Z := Z.of_nat (length s).

(** The byte at index [i]; the one after the last is the NUL. *)
Definition at_ (s : list Z) (i : nat) : Z := nth i s 0.

(** htons on a little-endian machine. *)
Definition htons (x : Z) : Z := Z.lor (Z.shiftl (Z.land x 255) 8) (Z.land (Z.shiftr x 8) 255).

(** [strcmp(a, b) == 0] *)
Definition streq (a b : list Z) : bool := bool_decide (a = b).

(** [strncmp(a, b, n) == 0] *)
Fixpoint strneq (n : nat) (a b : list Z) : bool :=
  match n with
  | O => true
  | S n =>
    match a, b with
    | [], [] => true
    | x :: a, y :: b => (x =? y) && strneq n a b
    | _, _ => false
    end
  end.

(** [strncasecmp(a, b, n) == 0] *)
Fixpoint strncaseeq (n : nat) (a b : list Z) : bool :=
  match n with
  | O => true
  | S n =>
    match a, b with
    | [], [] => true
    | x :: a, y :: b => (tolower x =? tolower y) && strncaseeq n a b
    | _, _ => false
    end
  end.

(** The index of the first byte [c]: [strchr] and [memchr]. *)
Fixpoint index_of (c : Z) (s : list Z) : option nat :=
  match s with
  | [] => None
  | x :: s => if x =? c then Some O else S <$> index_of c s
  end.

(** The index of the first place where [pat] occurs: [strstr] and [memmem]. *)
Fixpoint starts_with (pat s : list Z) : bool :=
  match pat, s with
  | [], _ => true
  | p :: pat, x :: s => (p =? x) && starts_with pat s
  | _, _ => false
  end.

Fixpoint find_sub (pat s : list Z) : option nat :=
  if starts_with pat s then Some O
  else match s with [] => None | _ :: s => S <$> find_sub pat s end.

(** [strcasecmp(a, b) == 0] *)
Definition strcaseeq (a b : list Z) : bool :=
  (length a =? length b)%nat && strncaseeq (length a) a b.

(** The C string at the front of a block of bytes. *)
Fixpoint cstr (s : list Z) : list Z :=
  match s with [] => [] | c :: s => if c =? 0 then [] else c :: cstr s end.

(** [strtok_r(s, delims, &rest)]: the token and what follows its delimiter. *)
Definition mem (c : Z) (l : list Z) : bool := existsb (Z.eqb c) l.
Fixpoint skip_delims (delims s : list Z) : list Z :=
  match s with [] => [] | c :: s' => if mem c delims then skip_delims delims s' else s end.
Fixpoint token (delims s : list Z) : list Z * list Z :=
  match s with
  | [] => ([], [])
  | c :: s =>
    if mem c delims then ([], s) else let (t, r) := token delims s in (c :: t, r)
  end.
Definition strtok_r (delims s : list Z) : option (list Z * list Z) :=
  match skip_delims delims s with [] => None | s => Some (token delims s) end.

(** ** stdio.h *)

(** [fgets(buf, n, f)] on what is left of a file: the line, what follows it and
    whether the end of the file was met; no line at the end of the file. *)
Fixpoint fgets_loop (room : nat) (data : list Z) : list Z * list Z * bool :=
  match room with
  | O => ([], data, false)
  | S room =>
    match data with
    | [] => ([], [], true)
    | c :: d =>
      if c =? LF then ([c], d, false)
      else let '(l, r, e) := fgets_loop room d in (c :: l, r, e)
    end
  end.
Definition fgets (n : nat) (data : list Z) : option (list Z) * list Z * bool :=
  match fgets_loop (n - 1) data with
  | ([], r, e) => (None, r, e)
  | (l, r, e) => (Some l, r, e)
  end.

(** ** Numbers *)
Definition digit_val (c : Z) : Z :=
  if isdigit c then c - 48
  else if isupper c then c - 55
  else if islower c then c - 87
  else 255.

Fixpoint skip_spaces (s : list Z) : list Z :=
  match s with
  | [] => []
  | c :: s' => if isspace c then skip_spaces s' else s
  end.

(** The value of the digits at the front of [s] and what follows them. *)
Fixpoint digits (base : Z) (s : list Z) (acc : Z) : Z * list Z :=
  match s with
  | [] => (acc, [])
  | c :: s' => if digit_val c <? base then digits base s' (acc * base + digit_val c) else (acc, s)
  end.

(** An optional sign. *)
Definition sign (s : list Z) : bool * list Z :=
  match s with
  | 45 :: s' => (true, s')
  | 43 :: s' => (false, s')
  | _ => (false, s)
  end.

(** The base and the digits of a number whose [base] argument is [b]: an [0x]
    before a hexadecimal digit selects base 16, a leading 0 base 8. *)
Definition base_prefix (b : Z) (s : list Z) : Z * list Z :=
  match s with
  | 48 :: x :: c :: s' =>
    if ((b =? 0) || (b =? 16)) && ((x =? 120) || (x =? 88)) && isxdigit c then (16, c :: s')
    else if b =? 0 then (8, s) else (b, s)
  | 48 :: _ => if b =? 0 then (8, s) else (b, s)
  | _ => if b =? 0 then (10, s) else (b, s)
  end.

(** [strtoull(s, &end, b)]: the value and the end; without digits the end is the
    whole string. *)
Definition strtoull (b : Z) (s : list Z) : Z * list Z :=
  let (neg, s1) := sign (skip_spaces s) in
  let (base, s2) := base_prefix b s1 in
  match s2 with
  | c :: _ =>
    if digit_val c <? base then
      let (v, e) := digits base s2 0 in
      ((if 2 ^ 64 <=? v then 2 ^ 64 - 1 else if (neg : bool) then u64 (- v) else v), e)
    else (0, s)
  | [] => (0, s)
  end.

(** [strtol(s, &end, b)], 64 bits. *)
Definition strtol (b : Z) (s : list Z) : Z * list Z :=
  let (neg, s1) := sign (skip_spaces s) in
  let (base, s2) := base_prefix b s1 in
  match s2 with
  | c :: _ =>
    if digit_val c <? base then
      let (v, e) := digits base s2 0 in
      (Z.max (- 2 ^ 63) (Z.min (2 ^ 63 - 1) (if (neg : bool) then - v else v)), e)
    else (0, s)
  | [] => (0, s)
  end.

Definition atoi (s : list Z) : Z := s32 (strtol 10 s).1.
Definition atol (s : list Z) : Z := (strtol 10 s).1.

(** Decimal digits, as [%d] and [%u] print them. *)
Fixpoint dec_digits (fuel : nat) (n : Z) (acc : list Z) : list Z :=
  match fuel with
  | O => acc
  | S fuel =>
    let acc := 48 + n mod 10 :: acc in
    if n / 10 =? 0 then acc else dec_digits fuel (n / 10) acc
  end.
Definition dec (n : Z) : list Z :=
  if n <? 0 then 45 :: dec_digits 25 (- n) [] else dec_digits 25 n [].

(** One hexadecimal digit and [%02x] of a byte. *)
Definition hex_digit (v : Z) : Z := if v <? 10 then 48 + v else 87 + v.
Definition hex02 (b : Z) : list Z := [hex_digit (b / 16); hex_digit (b mod 16)].

(** ** Lemmas *)
Lemma strlen_app a b : strlen (a ++ b) = strlen a + strlen b.
Proof. unfold strlen. rewrite length_app. lia. Qed.
Lemma strlen_cons x a : strlen (x :: a) = 1 + strlen a.
Proof. unfold strlen. cbn [length]. lia. Qed.
Lemma strlen_nil : strlen [] = 0.
Proof. done. Qed.
Lemma strlen_nonneg a : 0 <= strlen a.
Proof. unfold strlen. lia. Qed.
Lemma str_bytes s : Forall is_byte (str s).
Proof.
  induction s as [|a s IH]; [constructor|]. cbn [str]. constructor; [|done].
  unfold is_byte, chr. pose proof (N_ascii_bounded a). lia.
Qed.

Create Rewrite HintDb strlen.
#[export] Hint Rewrite strlen_app strlen_cons strlen_nil : strlen.

Lemma starts_with_spec pat s : starts_with pat s = true <-> exists t, s = (pat ++ t)%list.
Proof.
  revert s. induction pat as [|p pat IH]; intros s; cbn.
  - split; [by exists s|done].
  - destruct s as [|x s]; [split; [done|by intros [t ?]]|].
    rewrite andb_true_iff, IH, Z.eqb_eq. split.
    + intros [-> [t ->]]. by exists t.
    + intros [t [= -> ->]]. split; [done|by exists t].
Qed.

Lemma index_of_some c s n : index_of c s = Some n ->
  s = (take n s ++ c :: drop (S n) s)%list /\ c ∉ take n s.
Proof.
  revert n. induction s as [|x s IH]; intros n; cbn; [done|].
  destruct (Z.eqb_spec x c) as [->|Hne].
  - intros [= <-]. cbn. split; [done|]. apply not_elem_of_nil.
  - destruct (index_of c s) as [m|]; cbn; [|done]. intros [= <-].
    destruct (IH m eq_refl) as [Hs Hni]. cbn. split; [by rewrite <- Hs|].
    rewrite elem_of_cons. intros [?|?]; [congruence|done].
Qed.

Lemma index_of_none c s : index_of c s = None <-> c ∉ s.
Proof.
  induction s as [|x s IH]; cbn; [split; [intros _; apply not_elem_of_nil|done]|].
  rewrite elem_of_cons. destruct (Z.eqb_spec x c) as [->|Hne]; [split; [done|tauto]|].
  destruct (index_of c s) as [m|]; cbn.
  - split; [done|]. intros Hni. exfalso.
    assert (Some m = None :> option nat) as Hx; [|done]. apply IH. tauto.
  - split; [|done]. intros _ [?|?]; [congruence|]. by apply IH.
Qed.

Lemma hex_digit_val v : 0 <= v < 16 -> digit_val (hex_digit v) = v.
Proof.
  intros Hv. unfold digit_val, hex_digit, isdigit, isupper, islower.
  destruct (Z.ltb_spec v 10).
  - replace ((48 <=? 48 + v) && (48 + v <=? 57)) with true by lia. lia.
  - replace ((48 <=? 87 + v) && (87 + v <=? 57)) with false by lia.
    replace ((65 <=? 87 + v) && (87 + v <=? 90)) with false by lia.
    replace ((97 <=? 87 + v) && (87 + v <=? 122)) with true by lia. lia.
Qed.

Lemma fgets_loop_app room data l r e : fgets_loop room data = (l, r, e) -> data = (l ++ r)%list.
Proof.
  revert data l r e. induction room as [|room IH]; intros data l r e; cbn [fgets_loop]; [by intros [= <- <- _]|].
  destruct data as [|c d]; [by intros [= <- <- _]|]. destruct (c =? LF); [by intros [= <- <- _]|].
  destruct (fgets_loop room d) as [[l' r'] e'] eqn:E. intros [= <- <- _]. cbn. by rewrite (IH _ _ _ _ E).
Qed.

(** A line takes at least one byte. *)
(** A line that fits is given whole. *)
Lemma fgets_loop_line l r : forall room, LF ∉ l -> (length l < room)%nat -> fgets_loop room (l ++ LF :: r) = (l ++ [LF], r, false)%list.
Proof.
  induction l as [|c l IH]; intros [|room] Hl Hr; cbn [length] in Hr; try lia; cbn [fgets_loop app]; [done|].
  rewrite elem_of_cons in Hl. destruct (Z.eqb_spec c LF) as [->|]; [tauto|]. rewrite IH by (tauto || lia). done.
Qed.
Lemma fgets_line n l r : LF ∉ l -> (length l + 1 < n)%nat -> fgets n (l ++ LF :: r) = (Some (l ++ [LF])%list, r, false).
Proof. intros Hl Hn. unfold fgets. rewrite fgets_loop_line by (done || lia). by destruct l. Qed.

(** The last line, without a line feed. *)
Lemma fgets_loop_last l : forall room, LF ∉ l -> (length l < room)%nat -> fgets_loop room l = (l, [], true).
Proof.
  induction l as [|c l IH]; intros [|room] Hl Hr; cbn [length] in Hr; try lia; cbn [fgets_loop]; [done|].
  rewrite elem_of_cons in Hl. destruct (Z.eqb_spec c LF) as [->|]; [tauto|]. rewrite IH by (tauto || lia). done.
Qed.
Lemma fgets_last n l : LF ∉ l -> (length l + 1 < n)%nat ->
  fgets n l = (match l with [] => None | _ => Some l end, [], true).
Proof. intros Hl Hn. unfold fgets. rewrite fgets_loop_last by (done || lia). by destruct l. Qed.

Lemma fgets_shorter n data l r e : fgets n data = (Some l, r, e) -> (length r < length data)%nat.
Proof.
  unfold fgets. destruct (fgets_loop (n - 1) data) as [[l' r'] e'] eqn:E. pose proof (fgets_loop_app _ _ _ _ _ E) as ->.
  destruct l' as [|c l']; [done|]. intros [= <- <- _]. rewrite length_app. cbn [length]. lia.
Qed.
