(* ===== verification/RingTest.v ===== *)
(** * smart-queue.c: the benchmark of the timed ring, and main

    [tr_test] queues the tasks of an array at random times and then takes one out and
    queues it again, over and over.  [tr_dequeue] may miss tasks, and its result is
    used without a test: here it is shown that in the benchmark it never does. *)
From Stdlib Require Import ZArith Lia Bool.
From stdpp Require Import base tactics list gmap sets strings.
From S2P Require Import Prelude Libc DList Cfs TimedRing.

(** [tasks[i]] of the array that [malloc] returned at [base]: a [struct tr_task] has 24
    bytes. *)
Definition tr_task_at (base : Z) (i : nat) : Z := base + 24 * Z.of_nat i.

(** [rnd i] is the value of the [i]-th call to [rand]. *)
Definition tr_test (base : Z) (ntasks : nat) (times : Z) (loops : nat) (rnd : nat -> Z) : TR unit :=
  tr_rqinit;;
  for_each (seq 0 ntasks) (fun i =>
    tr_set_t (tr_task_at base i) 0;;
    (if times =? 0 then fault else mret tt);;
    tr_queue (tr_task_at base i) (u64 (u64 (Z.rem (rnd i) times) * TimedRing.NS_SLOT)));;
  for_each (seq 0 loops) (fun _ =>
    tsk ← tr_dequeue;
    t ← tr_get_t tsk;
    tr_queue tsk (u64 (t + u64 (u64 (Z.quot times 7) * TimedRing.NS_SLOT)))).

Definition on_fst {A B C} (m : M A C) : M (A * B) C := fun s =>
  match m s.1 with Ok (c, a) => Ok (c, (a, s.2)) | Fault => Fault | NoFuel => NoFuel end.
Definition on_snd {A B C} (m : M B C) : M (A * B) C := fun s =>
  match m s.2 with Ok (c, b) => Ok (c, (s.1, b)) | Fault => Fault | NoFuel => NoFuel end.

(** The arguments behind the program name: the numbers of tasks and of loops. *)
Fixpoint main_options (av : list (list Z)) (ntasks loops : Z) : Z * Z :=
  match av with
  | [] => (ntasks, loops)
  | a :: av =>
    if streq a (str "-n"%string) then
      match av with v :: av => main_options av (atoi v) loops | [] => (ntasks, loops) end
    else if streq a (str "-l"%string) then
      match av with v :: av => main_options av ntasks (atoi v) | [] => (ntasks, loops) end
    else main_options av ntasks loops
  end.

(** The two benchmarks have an array and a run queue each; the calls of [rand] of the
    second follow those of the first. *)
Definition main (fuel : nat) (base1 base2 : Z) (rnd : nat -> Z) (av : list (list Z)) : M (cfs_rq * tr_rq) Z :=
  let '(ntasks, loops) := main_options av 128 200000 in
  on_fst (cfs_test fuel base1 (Z.to_nat ntasks) MAX_RQ (Z.to_nat loops) rnd);;
  on_snd (tr_test base2 (Z.to_nat ntasks) MAX_RQ (Z.to_nat loops) (fun i => rnd (Z.to_nat ntasks + i)%nat));;
  mret 0.

(** ** The ring of a benchmark: [tasks] are in it, each in the slot of its time; all
    times are those of slots, and at most [hi]. *)
Record busy_ring (tasks : gset Z) (hi : Z) (r : ring_state) : Prop := {
  br_ibase : 0 <= r_ibase r < 256;
  br_timed : r_timed r;
  br_base : (TimedRing.NS_SLOT | r_tbase r);
  br_times : forall i x, 0 <= i < 256 -> x ∈ r_slots r i -> x ∈ tasks /\
    exists t, r_t r !! x = Some t /\ (TimedRing.NS_SLOT | t) /\ t <= hi;
  br_tasks : forall x, x ∈ tasks -> exists i, 0 <= i < 256 /\ x ∈ r_slots r i
}.

Lemma r_queue_slot r x t q : 0 <= r_ibase r < 256 -> (r_tbase r = 0 -> r_t r !! x = Some 0) -> 0 <= r_tbase r ->
  0 <= q < 256 -> t = r_tbase r + q * TimedRing.NS_SLOT -> t < 2 ^ 64 ->
  let i := (r_ibase r + q) mod 256 in
  r_queue x t r = mk_ring (r_ibase r) (r_tbase r) (set_slot (r_slots r) i (r_slots r i ++ [x])) (<[x := t]> (r_t r)).
Proof.
  intros Hib Hx H0 Hq -> Ht i. unfold r_queue. rewrite r_queue_base by done.
  replace (r_tbase r + q * TimedRing.NS_SLOT - r_tbase r) with (q * TimedRing.NS_SLOT) by lia.
  rewrite u64_small by (unfold TimedRing.NS_SLOT in *; lia). rewrite Z.div_mul by done. rewrite u32_small by lia. rewrite Z.min_r by lia. done.
Qed.

Lemma busy_ring_put tasks hi r x q : busy_ring tasks hi r -> x ∉ tasks -> (r_tbase r = 0 -> r_t r !! x = Some 0) ->
  0 <= q < 256 -> let t := r_tbase r + q * TimedRing.NS_SLOT in t <= hi -> hi < 2 ^ 64 ->
  let r' := r_queue x t r in
  busy_ring ({[x]} ∪ tasks) hi r' /\ r_ibase r' = r_ibase r /\ r_tbase r' = r_tbase r /\ x ∈ r_slots r' ((r_ibase r + q) mod 256).
Proof.
  intros [Hib Htm Hb Hti Hta] Hx H0 Hq t Ht Hhi r'. pose proof Htm as [[Hb0 _] _].
  assert (Hni : forall j, 0 <= j < 256 -> x ∉ r_slots r j) by (intros j Hj Hin; by destruct (Hti j x Hj Hin)).
  assert (Htm' : r_timed r') by (apply r_timed_queue; try done; unfold t, TimedRing.NS_SLOT in *; lia).
  pose proof (r_queue_slot r x t q Hib H0 Hb0 Hq eq_refl ltac:(lia)) as Heq. fold r' in Heq. cbn zeta in Heq.
  set (i := (r_ibase r + q) mod 256) in *. assert (Hi : 0 <= i < 256) by (apply Z.mod_pos_bound; lia).
  rewrite Heq in *. cbn [r_ibase r_tbase r_slots r_t]. split; [|rewrite set_slot_eq; split_and!; [done|done|set_solver +]].
  split; cbn [r_ibase r_tbase r_slots r_t]; [done|done|done| |].
  - intros j y Hj Hy. destruct (decide (y = x)) as [->|Hne].
    + split; [set_solver +|]. exists t. rewrite lookup_insert_eq. split; [done|]. split; [|done].
      apply Z.divide_add_r; [done|]. by exists q.
    + destruct (Hti j y Hj) as (Hy1 & ty & Hy2 & Hy3); [|split; [set_solver +Hy1|exists ty; by rewrite lookup_insert_ne]].
      destruct (decide (j = i)) as [->|]; [|by rewrite set_slot_ne in Hy]. rewrite set_slot_eq in Hy. set_solver +Hy Hne.
  - intros y Hy. destruct (decide (y = x)) as [->|Hne]; [exists i; rewrite set_slot_eq; split; [done|set_solver +]|].
    destruct (Hta y) as (j & Hj & Hyj); [set_solver +Hy Hne|]. exists j. split; [done|].
    destruct (decide (j = i)) as [->|]; [rewrite set_slot_eq; set_solver +Hyj|by rewrite set_slot_ne].
Qed.

Lemma busy_ring_take tasks hi r : busy_ring tasks hi r -> r_visible r -> (forall i, 0 <= i < 256 -> NoDup (r_slots r i)) ->
  (forall i j x, 0 <= i < 256 -> 0 <= j < 256 -> x ∈ r_slots r i -> x ∈ r_slots r j -> j = i) ->
  let x := (r_dequeue r).1 in let r' := (r_dequeue r).2 in
  x ∈ tasks /\ busy_ring (tasks ∖ {[x]}) hi r' /\ r_t r' !! x = Some (r_tbase r') /\ r_tbase r' <= hi.
Proof.
  intros [Hib Htm Hb Hti Hta] Hv Hnd Hun.
  destruct (scan_visible r Hib Hv) as (d & Hs & Hd & Hmin). pose proof Hs as Hs'. apply first_in_some in Hs' as (_ & Hbi & _).
  pose proof (r_timed_dequeue r d Hib Htm Hs Hd Hmin) as Htm'. unfold r_dequeue in *. rewrite Hs in *. cbn [fst snd] in *.
  set (i := (r_ibase r + d) mod 256) in *. assert (Hi : 0 <= i < 256) by (apply Z.mod_pos_bound; lia).
  apply busy_true in Hbi. specialize (Hnd i Hi). destruct (r_slots r i) as [|x l] eqn:Hsl; [done|]. cbn [hd tail].
  assert (Hx : x ∈ r_slots r i) by (rewrite Hsl; set_solver +).
  destruct (Hti i x Hi Hx) as (Hxt & t & Hrt & Hdv & Hhi). destruct Htm as [Hb0 Htm].
  destruct (Htm i x t Hi Hx Hrt) as [Ht Hdist].
  assert (Hdi : (i - r_ibase r) mod 256 = d) by (unfold i; clear -Hd Hib; Z.div_mod_to_equations; lia).
  assert (Et : t = r_tbase r + TimedRing.NS_SLOT * d).
  { rewrite Hdi in Hdist. destruct Hb as [u Hu], Hdv as [v Hv']. rewrite Hu, Hv' in *.
    replace (v * TimedRing.NS_SLOT - u * TimedRing.NS_SLOT) with ((v - u) * TimedRing.NS_SLOT) in Hdist by lia.
    rewrite Z.div_mul in Hdist by done. lia. }
  rewrite u64_small in * by lia. cbn [r_ibase r_tbase r_slots r_t] in *. split; [done|].
  split; [|by split; [rewrite <- Et|lia]]. apply NoDup_cons in Hnd as [Hxl Hnd].
  assert (Hkeep : forall j y, 0 <= j < 256 -> y ∈ set_slot (r_slots r) i l j <-> y ∈ r_slots r j /\ y <> x).
  { intros j y Hj. destruct (decide (j = i)) as [->|Hne].
    - rewrite set_slot_eq, Hsl. set_solver +Hxl.
    - rewrite set_slot_ne by done. split; [|tauto]. intros Hy. split; [done|]. intros ->. by rewrite (Hun i j x) in Hne. }
  split; cbn [r_ibase r_tbase r_slots r_t]; [done|done| | |].
  - apply Z.divide_add_r; [done|]. apply Z.divide_factor_l.
  - intros j y Hj [Hy Hne]%Hkeep; [|done]. destruct (Hti j y Hj Hy) as [Hyt H]. split; [set_solver +Hyt Hne|done].
  - intros y Hy. destruct (Hta y) as (j & Hj & Hyj); [set_solver +Hy|]. exists j. split; [done|]. apply Hkeep; [done|].
    split; [done|set_solver +Hy].
Qed.

(** ** The code *)

(** The state of the benchmark when [n] tasks of its array are in the ring. *)
Definition in_ring (base : Z) (ntasks : nat) (tasks : gset Z) (hi : Z) (s : tr_rq) (r : ring_state) : Prop :=
  tr_inv s r /\ busy_ring tasks hi r /\ forall i, (i < ntasks)%nat -> tr_node s (tr_task_at base i).

Lemma tr_node_keeps s s' x : keeps_nodes s s' -> tr_node s x -> tr_node s' x.
Proof.
  intros (H1 & H2 & H3) (Hx & Hl & Ht & Hj). split_and!; [done|auto|auto|]. unfold slot_head in *. by rewrite H1.
Qed.

Lemma in_ring_slots base ntasks tasks hi s r : in_ring base ntasks tasks hi s r ->
  (forall i, 0 <= i < 256 -> NoDup (r_slots r i)) /\
  (forall i j x, 0 <= i < 256 -> 0 <= j < 256 -> x ∈ r_slots r i -> x ∈ r_slots r j -> j = i).
Proof.
  intros (Hinv & _ & _). split.
  - intros i Hi. destruct (ti_rings _ _ Hinv i Hi) as (_ & _ & Hnd & _). by apply NoDup_cons in Hnd as [_ Hnd].
  - intros i j x Hi Hj Hx Hxj. by apply (ti_tasks _ _ Hinv i x Hi Hx).
Qed.

Lemma idle_task base ntasks tasks hi s r i : in_ring base ntasks tasks hi s r -> (i < ntasks)%nat ->
  tr_task_at base i ∉ tasks -> tr_idle s r (tr_task_at base i).
Proof.
  intros (Hinv & Hb & Hn) Hi Hx. destruct (Hn i Hi) as (H1 & H2 & H3 & H4). split_and!; [done..|].
  intros j Hj. split; [by apply H4|]. intros Hin. by destruct (br_times _ _ _ Hb j _ Hj Hin).
Qed.

(** Queueing a task [q] slots behind the base time. *)
Lemma wp_queue_at base ntasks tasks hi s r i q t : in_ring base ntasks tasks hi s r -> (i < ntasks)%nat ->
  tr_task_at base i ∉ tasks -> (r_tbase r = 0 -> r_t r !! tr_task_at base i = Some 0) -> 0 <= q < 256 ->
  t = r_tbase r + q * TimedRing.NS_SLOT -> t <= hi -> hi < 2 ^ 64 ->
  wp (tr_queue (tr_task_at base i) t) s (fun _ s' => exists r', in_ring base ntasks ({[tr_task_at base i]} ∪ tasks) hi s' r' /\
    r_ibase r' = r_ibase r /\ r_tbase r' = r_tbase r /\ tr_task_at base i ∈ r_slots r' ((r_ibase r + q) mod 256)).
Proof.
  intros Hin Hi Hx H0 Hq -> Ht Hhi. pose proof Hin as (Hinv & Hb & Hn).
  eapply wp_tr_queue; [exact Hinv|by eapply idle_task|]. intros s' Hinv' Hk.
  destruct (busy_ring_put tasks hi r _ q Hb Hx H0 Hq Ht Hhi) as (Hb' & Hr').
  eexists. split; [|exact Hr']. split; [done|]. split; [done|]. intros j Hj. eapply tr_node_keeps; [exact Hk|by apply Hn].
Qed.

(** The task just queued is seen when it is not far. *)
Lemma visible_near r x q : 0 <= r_ibase r < 256 -> 0 <= q <= 192 -> x ∈ r_slots r ((r_ibase r + q) mod 256) -> r_visible r.
Proof.
  intros Hib Hq Hx. exists ((r_ibase r + q) mod 256). split_and!; [apply Z.mod_pos_bound; lia|apply Z.mod_pos_bound; lia| |].
  - apply busy_true. intros He. rewrite He in Hx. set_solver +Hx.
  - rewrite Zminus_mod_idemp_l. replace (r_ibase r + q - r_ibase r) with q by lia. rewrite Z.mod_small by lia.
    pose proof (Z.mod_pos_bound (r_ibase r) 64). lia.
Qed.

Lemma visible_start tasks hi r : busy_ring tasks hi r -> tasks <> ∅ -> r_ibase r = 0 -> r_visible r.
Proof.
  intros Hb [x Hx]%set_choose_L Hib. destruct (br_tasks _ _ _ Hb x Hx) as (i & Hi & Hxi).
  exists i. rewrite Hib. change (0 mod 64) with 0. split_and!; [lia|lia| |rewrite Z.sub_0_r, Z.mod_small by lia; lia].
  apply busy_true. intros He. rewrite He in Hxi. set_solver +Hxi.
Qed.

(** [tsk->t = 0] of a task that is in no slot. *)
Lemma wp_reset base ntasks tasks hi s r i : in_ring base ntasks tasks hi s r -> (i < ntasks)%nat -> tr_task_at base i ∉ tasks ->
  wp (tr_set_t (tr_task_at base i) 0) s (fun _ s' => in_ring base ntasks tasks hi s'
    (mk_ring (r_ibase r) (r_tbase r) (r_slots r) (<[tr_task_at base i := 0]> (r_t r)))).
Proof.
  intros (Hinv & Hb & Hn) Hi Hx. destruct (Hn i Hi) as (H1 & H2 & [v Hv] & H4). set (x := tr_task_at base i) in *.
  apply wp_bind. eapply wp_tr_get_t; [exact Hv|done|]. apply wp_puts.
  assert (Hne : forall j y, 0 <= j < 256 -> y ∈ r_slots r j -> x <> y) by (intros j y Hj Hy ->; by destruct (br_times _ _ _ Hb j y Hj Hy)).
  split; [|split].
  - destruct Hinv as [A1 A2 A3 A4 A5 A6 A7 A8 A9 A10]. split; cbn [tr_ibase tr_tbase tr_tsks tr_map tr_links tr_t r_ibase r_tbase r_slots r_t]; try done.
    + by rewrite A3.
    + intros j y Hj Hy. destruct (A10 j y Hj Hy) as (B1 & B2 & B3). split; [|done]. by rewrite (lookup_insert_ne _ x y) by (apply (Hne j y); done).
  - destruct Hb as [B1 [B2 B2'] B3 B4 B5]. split; cbn [r_ibase r_tbase r_slots r_t]; try done.
    + split; cbn [r_ibase r_tbase r_slots r_t]; [done|]. intros j y ty Hj Hy. rewrite (lookup_insert_ne _ x y) by (apply (Hne j y); done). by apply B2'.
    + intros j y Hj Hy. rewrite (lookup_insert_ne _ x y) by (apply (Hne j y); done). exact (B4 j y Hj Hy).
  - intros j Hj. destruct (Hn j Hj) as (C1 & C2 & C3 & C4). split_and!; [done|done| |done]. cbn [tr_t].
    destruct (decide (tr_task_at base j = x)) as [->|]; [by rewrite lookup_insert_eq|by rewrite lookup_insert_ne].
Qed.

Section test.
Context (base : Z) (ntasks : nat) (times : Z) (loops : nat) (rnd : nat -> Z).
Context (Hn : (0 < ntasks)%nat) (Ht : 0 < times <= 256) (Hl : Z.of_nat loops < 2 ^ 31) (Hrnd : forall i, 0 <= rnd i).
Abbreviation slots := TimedRing.NS_SLOT.
Abbreviation tasks n := (list_to_set (C := gset Z) (tr_task_at base <$> seq 0 n)).

(** The memory of the run queue and of the array of tasks. *)
Definition tr_array (s : tr_rq) : Prop := tr_storage s /\ forall i, (i < ntasks)%nat -> tr_node s (tr_task_at base i).

Lemma task_at_inj i j : tr_task_at base i = tr_task_at base j -> i = j.
Proof. unfold tr_task_at. lia. Qed.

Lemma not_task i n : (n <= i)%nat -> tr_task_at base i ∉ tasks n.
Proof.
  intros Hi Hin. apply elem_of_list_to_set, list_elem_of_fmap in Hin as (j & Hj%task_at_inj & Hin%elem_of_seq). lia.
Qed.

Lemma times_slots : 0 <= Z.quot times 7 <= 36.
Proof. rewrite Z.quot_div_nonneg by lia. split; [apply Z.div_pos; lia|]. apply Z.lt_succ_r, Z.div_lt_upper_bound; lia. Qed.

(** The first loop. *)
Lemma wp_fill s s0 Q : in_ring base ntasks ∅ (255 * slots) s0 (empty_ring (tr_t s)) ->
  (forall s' r, in_ring base ntasks (tasks ntasks) (255 * slots) s' r -> r_ibase r = 0 -> Q tt s') ->
  wp (for_each (seq 0 ntasks) (fun i =>
    tr_set_t (tr_task_at base i) 0;; (if times =? 0 then fault else mret tt);;
    tr_queue (tr_task_at base i) (u64 (u64 (Z.rem (rnd i) times) * slots)))) s0 Q.
Proof.
  intros H0 HQ. apply (wp_for_each (fun l s' => exists r, in_ring base ntasks (tasks (length l)) (255 * slots) s' r /\ r_ibase r = 0 /\ r_tbase r = 0)).
  - intros l1 i l2 s' Hl' (r & Hr & Hib & Htb).
    assert (i = length l1 /\ (i < ntasks)%nat) as [-> Hi].
    { assert (Hlk : seq 0 ntasks !! length l1 = Some i) by (by rewrite Hl', list_lookup_middle). by apply lookup_seq in Hlk as [-> ?]. }
    pose proof (not_task (length l1) (length l1) ltac:(lia)) as Hx.
    apply wp_bind. eapply wp_mono; [by eapply wp_reset|]. intros [] s1 Hr1.
    rewrite (proj2 (Z.eqb_neq times 0)) by lia. apply wp_bind, wp_ret.
    pose proof (Z.rem_bound_pos (rnd (length l1)) times ltac:(apply Hrnd) ltac:(lia)) as Hb.
    rewrite (u64_small (Z.rem _ _)), u64_small by (unfold TimedRing.NS_SLOT; lia).
    eapply wp_mono; [eapply wp_queue_at with (q := Z.rem (rnd (length l1)) times); [exact Hr1|done|done| |lia| | |]|].
    + intros _. cbn [r_t]. by rewrite lookup_insert_eq.
    + cbn [r_tbase]. rewrite Htb. lia.
    + unfold TimedRing.NS_SLOT. lia.
    + unfold TimedRing.NS_SLOT. lia.
    + intros [] s2 (r2 & Hr2 & Hib2 & Htb2 & _). exists r2. cbn [r_ibase r_tbase] in *. split_and!; [|by rewrite Hib2|by rewrite Htb2].
      replace (tasks (length (l1 ++ [length l1]))) with ({[tr_task_at base (length l1)]} ∪ tasks (length l1)); [done|].
      rewrite length_app. cbn [length]. rewrite Nat.add_1_r, seq_S, fmap_app, list_to_set_app_L. cbn [fmap list_fmap list_to_set Nat.add]. set_solver +.
  - exists (empty_ring (tr_t s)). by split.
  - intros s' (r & Hr & Hib & _). rewrite length_seq in Hr. by eapply HQ.
Qed.

(** The times after [k] turns. *)
Definition horizon (k : nat) : Z := (255 + 36 * Z.of_nat k) * slots.

Lemma busy_ring_mono ts hi hi' r : hi <= hi' -> busy_ring ts hi r -> busy_ring ts hi' r.
Proof.
  intros Hh [B1 B2 B3 B4 B5]. split; try done. intros i x Hi Hx. destruct (B4 i x Hi Hx) as (H1 & t & H2 & H3 & H4).
  split; [done|]. exists t. split_and!; [done|done|lia].
Qed.

(** One turn of the second loop. *)
Lemma wp_turn k s r : (k < loops)%nat -> in_ring base ntasks (tasks ntasks) (horizon k) s r -> r_visible r ->
  wp (tsk ← tr_dequeue; t ← tr_get_t tsk; tr_queue tsk (u64 (t + u64 (u64 (Z.quot times 7) * slots)))) s
    (fun _ s' => exists r', in_ring base ntasks (tasks ntasks) (horizon (S k)) s' r' /\ r_visible r').
Proof.
  intros Hk Hin Hv. pose proof Hin as (Hinv & Hb & Hnode). destruct (in_ring_slots _ _ _ _ _ _ Hin) as [Hnd Hun].
  destruct (busy_ring_take _ _ _ Hb Hv Hnd Hun) as (Hx & Hb' & Htx & Hhi).
  apply wp_bind. eapply wp_tr_dequeue; [exact Hinv|]. intros s1 Hinv1 Hkeep.
  set (x := (r_dequeue r).1) in *. set (r1 := (r_dequeue r).2) in *.
  pose proof Hx as (i & Hxi & Hi%elem_of_seq)%elem_of_list_to_set%list_elem_of_fmap.
  pose proof (br_timed _ _ _ Hb') as [[Htb0 _] _]. pose proof times_slots as Hq.
  destruct (Hnode i ltac:(lia)) as (Hx0 & _ & _ & _).
  apply wp_bind. eapply wp_tr_get_t; [by rewrite (ti_t _ _ Hinv1)|by rewrite Hxi|].
  assert (Hh : horizon (S k) = horizon k + 36 * slots) by (unfold horizon; lia).
  assert (Hmax : horizon (S k) < 2 ^ 63) by (unfold horizon, TimedRing.NS_SLOT; lia).
  assert (Hin1 : in_ring base ntasks (tasks ntasks ∖ {[x]}) (horizon (S k)) s1 r1).
  { split; [done|]. split; [eapply busy_ring_mono; [|exact Hb']; unfold TimedRing.NS_SLOT in *; lia|].
    intros j Hj. eapply tr_node_keeps; [exact Hkeep|by apply Hnode]. }
  rewrite (u64_small (Z.quot times 7)), (u64_small (Z.quot times 7 * slots)) by (unfold TimedRing.NS_SLOT; lia).
  rewrite u64_small by (unfold TimedRing.NS_SLOT in *; lia). rewrite Hxi in *.
  eapply wp_mono; [eapply wp_queue_at with (q := Z.quot times 7); [exact Hin1|lia|set_solver +| |lia|done| |lia]|].
  - intros E. by rewrite Htx, E.
  - unfold TimedRing.NS_SLOT in *. lia.
  - intros [] s2 (r2 & Hr2 & Hib2 & _ & Hseen). exists r2. split.
    + replace (tasks ntasks) with ({[tr_task_at base i]} ∪ tasks ntasks ∖ {[tr_task_at base i]}); [done|].
      apply set_eq. intros y. rewrite elem_of_union, elem_of_difference, elem_of_singleton.
      destruct (decide (y = tr_task_at base i)) as [->|]; tauto.
    + eapply visible_near; [apply (br_ibase _ _ _ (proj1 (proj2 Hr2)))| |by rewrite Hib2]. lia.
Qed.

Lemma wp_tr_test s : tr_array s ->
  wp (tr_test base ntasks times loops rnd) s (fun _ s' => exists r, in_ring base ntasks (tasks ntasks) (horizon loops) s' r /\ r_visible r).
Proof.
  intros [Hst Hnode]. unfold tr_test. apply wp_bind. eapply wp_tr_rqinit; [done|]. intros s0 Hinv0 Hk0.
  apply wp_bind. apply (wp_fill s).
  { split; [done|]. split; [|intros i Hi; eapply tr_node_keeps; [exact Hk0|by apply Hnode]].
    split; cbn [empty_ring r_ibase r_tbase r_slots r_t]; [done| |apply Z.divide_0_r| |].
    - split; [done|]. cbn [empty_ring r_slots]. intros i x t _ Hx. set_solver +Hx.
    - intros i x _ Hx. set_solver +Hx.
    - intros x Hx. set_solver +Hx. }
  intros s1 r1 Hr1 Hib.
  assert (Hv : r_visible r1).
  { eapply visible_start; [apply Hr1| |done]. assert (Ht0 : tr_task_at base 0 ∈ tasks ntasks); [|set_solver +Ht0].
    apply elem_of_list_to_set, list_elem_of_fmap. exists 0%nat. split; [done|]. apply elem_of_seq. lia. }
  apply (wp_for_each (fun l s' => exists r, in_ring base ntasks (tasks ntasks) (horizon (length l)) s' r /\ r_visible r)).
  - intros l1 i l2 s' Hl' (r & Hr & Hvr). rewrite length_app. cbn [length]. rewrite Nat.add_1_r. apply (wp_turn _ _ r); try done.
    apply (f_equal length) in Hl'. rewrite length_seq, length_app in Hl'. cbn [length] in Hl'. lia.
  - exists r1. split; [|done]. by rewrite Z.mul_1_l || exact Hr1.
  - intros s' Hs'. by rewrite length_seq in Hs'.
Qed.
End test.

(** the benchmark of the timed ring never takes the null pointer for a task: on an
    array of [ntasks > 0] tasks it returns, with every task in the ring in the slot of
    its time and one of them where the next [tr_dequeue] sees it, which is then the
    earliest (see [tr_dequeue_earliest]). *)
Theorem tr_test_safe base ntasks times loops rnd s : (0 < ntasks)%nat -> 0 < times <= 256 -> Z.of_nat loops < 2 ^ 31 ->
  (forall i, 0 <= rnd i) -> tr_array base ntasks s ->
  exists s' r, tr_test base ntasks times loops rnd s = Ok (tt, s') /\ tr_inv s' r /\ r_timed r /\ r_visible r /\
    (forall i, (i < ntasks)%nat -> exists j, 0 <= j < 256 /\ tr_task_at base i ∈ r_slots r j) /\
    (forall j x, 0 <= j < 256 -> x ∈ r_slots r j -> exists i, (i < ntasks)%nat /\ x = tr_task_at base i).
Proof.
  intros Hn Ht Hl Hr Ha. pose proof (wp_tr_test base ntasks times loops rnd Hn Ht Hl Hr s Ha) as Hw.
  apply wp_run in Hw as ([] & s' & He & r & (Hinv & Hb & _) & Hv). exists s', r.
  split_and!; [done|done|apply Hb|done| |].
  - intros i Hi. apply (br_tasks _ _ _ Hb). apply elem_of_list_to_set, list_elem_of_fmap. exists i. split; [done|]. apply elem_of_seq. lia.
  - intros j x Hj Hx. destruct (br_times _ _ _ Hb j x Hj Hx) as [(i & -> & Hi%elem_of_seq)%elem_of_list_to_set%list_elem_of_fmap _].
    exists i. split; [lia|done].
Qed.

(** main of smart-queue: both benchmarks return, whatever the two numbers are, unless
    there is no task. *)
Lemma smart_queue_main fuel base1 base2 rnd av ntasks loops s1 s2 : main_options av 128 200000 = (ntasks, loops) ->
  0 < ntasks -> loops < 2 ^ 31 -> enough fuel (Z.to_nat ntasks) -> (forall i, 0 <= rnd i) ->
  cfs_array base1 (Z.to_nat ntasks) s1 -> tr_array base2 (Z.to_nat ntasks) s2 ->
  exists s', main fuel base1 base2 rnd av (s1, s2) = Ok (0, s').
Proof.
  intros Ho Hn Hl Hf Hr Ha1 Ha2. unfold main. rewrite Ho.
  pose proof (cfs_test_ok fuel base1 (Z.to_nat ntasks) MAX_RQ (Z.to_nat loops) rnd ltac:(lia) ltac:(done) Hf s1 Ha1) as H1.
  apply wp_run in H1 as ([] & s1' & E1 & _).
  assert (Hr' : forall i, 0 <= rnd (Z.to_nat ntasks + i)%nat) by (intros; apply Hr).
  pose proof (wp_tr_test base2 (Z.to_nat ntasks) MAX_RQ (Z.to_nat loops) (fun i => rnd (Z.to_nat ntasks + i)%nat)
    ltac:(lia) ltac:(unfold MAX_RQ; lia) ltac:(lia) Hr' s2 Ha2) as H2.
  apply wp_run in H2 as ([] & s2' & E2 & _).
  exists (s1', s2'). rewrite (run_bind _ _ _ tt (s1', s2)) by (unfold on_fst; cbn [fst snd]; by rewrite E1).
  rewrite (run_bind _ _ _ tt (s1', s2')) by (unfold on_snd; cbn [fst snd]; by rewrite E2). done.
Qed.

(** A ring and three tasks. *)
Definition demo_links : links :=
  list_to_map ((fun i => (4096 + 16 * Z.of_nat i, mk_lh 0 0)) <$> seq 0 256) ∪ {[ 8 := mk_lh 0 0; 32 := mk_lh 0 0; 56 := mk_lh 0 0 ]}.
Definition demo_tr : tr_rq := mk_tr 0 0 4096 (repeat 0 4) demo_links {[ 8 := 7; 32 := 7; 56 := 7 ]}.

Lemma demo_array : tr_array 8 3 demo_tr.
Proof.
  split; [split; [done|]|].
  - intros i Hi. unfold demo_tr, slot_head. cbn [tr_links tr_tsks].
    assert (forallb (fun i => bool_decide (is_Some (demo_links !! (4096 + 16 * Z.of_nat i)))) (seq 0 256) = true)
      as Hall by by vm_compute.
    rewrite forallb_forall in Hall. specialize (Hall (Z.to_nat i)).
    rewrite Z2Nat.id in Hall by lia. eapply bool_decide_eq_true_1. apply Hall. apply in_seq. lia.
  - intros i Hi. assert (i = 0 \/ i = 1 \/ i = 2)%nat as [-> |[-> | ->]] by lia; (split_and!; [done|by eexists|by eexists|]);
      intros j Hj; unfold slot_head, tr_task_at; cbn; lia.
Qed.

Lemma tr_test_safe_witness : exists s' r, tr_test 8 3 256 1000 (fun i => 100 * Z.of_nat i) demo_tr = Ok (tt, s') /\
  tr_inv s' r /\ r_timed r /\ r_visible r /\
  (forall i, (i < 3)%nat -> exists j, 0 <= j < 256 /\ tr_task_at 8 i ∈ r_slots r j) /\
  (forall j x, 0 <= j < 256 -> x ∈ r_slots r j -> exists i, (i < 3)%nat /\ x = tr_task_at 8 i).
Proof. apply (tr_test_safe 8 3 256 1000 _ demo_tr); [lia|lia|done|intros i; lia|apply demo_array]. Defined.

(** Without a task the null pointer is read. *)
Lemma no_task_faults : tr_test 8 0 256 1 (fun _ => 0) demo_tr = Fault.
Proof. by vm_compute. Qed.
