(* ===== verification/XgsmPdu.v ===== *)
(** * xgsm.c: encoding of a short message

    The functions that build the PDU of a message: semi-octet telephone
    numbers, the 7-bit packing of the text, the validity period, the layout of
    the SMS-SUBMIT unit and its hexadecimal form.  [alloc n] says whether
    [malloc(n)] succeeds; a write behind the end of an allocated buffer and a
    copy from a null pointer are faults. *)
From Stdlib Require Import ZArith Lia Bool String.
From stdpp Require Import base tactics list.
From S2P Require Import Prelude Libc.

(** Appending to a buffer of [cap] bytes. *)
Definition put (cap : Z) (resp bs : list Z) : res (list Z) :=
  if strlen (resp ++ bs) <=? cap then Ok (resp ++ bs) else Fault.

(** ** The functions *)
Definition xgsm_swap_nibble (v : Z) : Z := Z.lor (Z.shiftl (Z.rem v 10) 4) (Z.quot v 10).

Section pdu.
Context (alloc : Z -> bool).

Fixpoint code_number_loop (cap : Z) (nbr resp : list Z) : res (option (list Z)) :=
  match nbr with
  | [] => Ok (Some resp)
  | c :: nbr =>
    if negb (isdigit c) then Ok None else
    let v := c - 48 in
    match nbr with
    | [] => r ← put cap resp [u8 (Z.lor v 240)]; Ok (Some r)
    | d :: nbr =>
      if negb (isdigit d) then Ok None else
      r ← put cap resp [u8 (Z.lor v (Z.shiftl (d - 48) 4))];
      code_number_loop cap nbr r
    end
  end.

Definition xgsm_code_number (nbr : list Z) : res (option (list Z)) :=
  let cap := strlen nbr / 2 + 2 in
  if negb (alloc cap) then Ok None else code_number_loop cap nbr [].

(** [tm]: year since 1900, month from 0, day, hour, minute, second and offset
    from UTC in seconds, as [localtime_r] fills them in. *)
Record tm := mk_tm {
  tm_year : Z; tm_mon : Z; tm_mday : Z; tm_hour : Z; tm_min : Z; tm_sec : Z; tm_gmtoff : Z
}.

(** [localtime_r] fails with [None]; the result is what is stored in [tsbuf]. *)
Definition xgsm_get_timestamp (localtime : option tm) (n : Z) : Z * list Z :=
  if n <? 7 then (-1, []) else
  match localtime with
  | None => (-1, [])
  | Some t =>
    let gmtoff := Z.quot (s32 (tm_gmtoff t)) (15 * 60) in
    (7, [u8 (xgsm_swap_nibble (tm_year t)); u8 (xgsm_swap_nibble (tm_mon t));
         u8 (xgsm_swap_nibble (tm_mday t)); u8 (xgsm_swap_nibble (tm_hour t));
         u8 (xgsm_swap_nibble (tm_min t)); u8 (xgsm_swap_nibble (tm_sec t));
         if gmtoff <? 0 then Z.lor (u8 (xgsm_swap_nibble (- gmtoff))) 128
         else u8 (xgsm_swap_nibble gmtoff)])
  end.

(** [data] is the rest of the message from index [i] on. *)
Fixpoint pack7_loop (cap : Z) (data : list Z) (i : Z) (resp : list Z) : res (option (list Z)) :=
  match data with
  | [] => Ok (Some resp)
  | c :: data =>
    if negb (Z.land c 128 =? 0) then Ok None else
    let s := i mod 8 in
    if s <? 7 then
      let m := Z.shiftl 1 (s + 1) - 1 in
      r ← put cap resp [u8 (Z.lor (Z.shiftr c s) (Z.shiftl (Z.land (at_ data 0) m) (7 - s)))];
      pack7_loop cap data (i + 1) r
    else pack7_loop cap data (i + 1) resp
  end.

Definition xgsm_pack7 (data : list Z) : res (option (list Z)) :=
  let cap := strlen data + 1 in
  if negb (alloc cap) then Ok None else pack7_loop cap data 0 [].

Definition xgsm_get_vt (mins : Z) : Z :=
  let v := Z.quot mins (60 * 24 * 7) in
  if 5 <=? v then 192 + v else
  let v := Z.quot mins (60 * 24) in
  if 2 <=? v then 166 + v else
  let v := Z.quot mins 30 in
  if 12 * 60 / 30 <=? v then 143 + v - 12 * 60 / 30 else
  Z.quot mins 5.

(** A leading [+] marks an international number. *)
Definition number_type (nbr : list Z) : list Z * Z :=
  match nbr with 43 :: nbr' => (nbr', 145) | _ => (nbr, 129) end.

Definition xgsm_create_PDU (nbr : list Z) (scnbr : option (list Z)) (msg : list Z) :
    res (option (list Z)) :=
  let size := 256 + strlen nbr + 2 * strlen msg in
  let size := match scnbr with Some s => size + (2 + strlen s) | None => size end in
  let cap := size in
  if negb (alloc size) then Ok None else
  sca ← match scnbr with
        | Some s =>
          let (s, tosca) := number_type s in
          encd ← xgsm_code_number s;
          match encd with
          | None => Ok None
          | Some encd =>
            r ← put cap [] [u8 (1 + s8 (strlen encd))];
            r ← put cap r [tosca];
            r ← put cap r encd;
            Ok (Some r)
          end
        | None => r ← put cap [] [0]; Ok (Some r)
        end;
  match sca with
  | None => Ok None
  | Some r =>
    let (nbr, toda) := number_type nbr in
    encd ← xgsm_code_number nbr;
    match encd with
    | None => Ok None
    | Some encd =>
      r ← put cap r [17; 0; u8 (strlen nbr); toda];
      r ← put cap r encd;
      r ← put cap r [0; 0; u8 (xgsm_get_vt (1 * 60 * 24)); u8 (strlen msg)];
      encd ← xgsm_pack7 msg;
      match encd with
      | None => Fault                   (* memcpy from the null pointer *)
      | Some encd => r ← put cap r encd; Ok (Some r)
      end
    end
  end.

Fixpoint hexdata_loop (cap : Z) (udata p : list Z) : res (list Z) :=
  match udata with
  | [] => _ ← put cap p [0]; Ok p
  | b :: udata =>
    _ ← put cap p (hex02 b ++ [0]);
    hexdata_loop cap udata (p ++ hex02 b)
  end.

(** The string without its NUL. *)
Definition xgsm_hexdata (data : list Z) : res (option (list Z)) :=
  let cap := 2 * strlen data + 1 in
  if negb (alloc cap) then Ok None else
  r ← hexdata_loop cap data []; Ok (Some r).

Definition xgsm_create_hexPDU (nbr : list Z) (scnbr : option (list Z)) (msg : list Z) :
    res (option (list Z)) :=
  pdu ← xgsm_create_PDU nbr scnbr msg;
  match pdu with
  | None => Ok None
  | Some pdu => xgsm_hexdata pdu
  end.

(** [sscanf(hpdu, "%2x", &l)] *)
Definition scan_2x (s : list Z) : option Z :=
  let s := take 2 (skip_spaces s) in
  let (v, e) := strtoull 16 s in
  if bool_decide (e = s) then None else Some (u32 v).

Definition xgsm_CMGS_PDU_length (hpdu : list Z) : Z :=
  match scan_2x hpdu with
  | None => -1
  | Some l => s32 (u64 (strlen hpdu / 2 - l - 1))
  end.
End pdu.

(** ** Semi-octets *)

(** The digits of a semi-octet string; a high nibble 15 is filler. *)
Fixpoint decode_number (bs : list Z) : list Z :=
  match bs with
  | [] => []
  | b :: bs =>
    48 + b mod 16 :: (if b / 16 =? 15 then [] else 48 + b / 16 :: decode_number bs)
  end.

Lemma put_ok cap resp bs : strlen (resp ++ bs) <= cap -> put cap resp bs = Ok (resp ++ bs).
Proof. intros H. unfold put. by rewrite (proj2 (Z.leb_le _ _)). Qed.

Lemma lor_nibbles a b : 0 <= a < 16 -> 0 <= b -> Z.lor a (Z.shiftl b 4) = a + 16 * b.
Proof. intros Ha Hb. rewrite lor_shiftl by lia. lia. Qed.

Lemma isdigit_range c : isdigit c = true <-> 48 <= c <= 57.
Proof. unfold isdigit. lia. Qed.

(** Induction two digits at a time. *)
Lemma pairs_ind {A} (P : list A -> Prop) :
  P [] -> (forall x, P [x]) -> (forall x y l, P l -> P (x :: y :: l)) -> forall l, P l.
Proof.
  intros H0 H1 H2. enough (forall n l, (length l <= n)%nat -> P l) as H by eauto.
  induction n as [|n IH]; intros [|x [|y l]] Hl; cbn in Hl; auto; try lia. apply H2, IH. lia.
Qed.

Definition all_digits (s : list Z) : bool := forallb isdigit s.

Lemma code_number_loop_ok cap nbr : forall resp,
  strlen resp + (strlen nbr + 1) / 2 <= cap ->
  exists bs, code_number_loop cap nbr resp =
      (if all_digits nbr then Ok (Some (resp ++ bs)) else Ok None) /\
    (all_digits nbr = true -> decode_number bs = nbr /\ strlen bs = (strlen nbr + 1) / 2 /\
      Forall is_byte bs).
Proof.
  induction nbr as [|c|c d nbr IH] using pairs_ind; intros resp Hcap.
  - exists []. cbn. by rewrite app_nil_r.
  - cbn. destruct (isdigit c) eqn:Hc; cbn; [|by exists []].
    apply isdigit_range in Hc. exists [u8 (Z.lor (c - 48) 240)]. split.
    + rewrite put_ok; [done|]. change ((strlen [c] + 1) / 2) with 1 in Hcap.
      unfold strlen in *. rewrite length_app. cbn [length]. lia.
    + intros _. change 240 with (Z.shiftl 15 4). rewrite lor_nibbles by lia.
      assert (u8 (c - 48 + 16 * 15) = c - 48 + 16 * 15) as -> by (unfold u8; apply Z.mod_small; lia).
      split_and!.
      * cbn. replace ((c - 48 + 16 * 15) / 16) with 15 by (Z.div_mod_to_equations; lia).
        cbn. f_equal. Z.div_mod_to_equations; lia.
      * done.
      * apply Forall_singleton. unfold is_byte. lia.
  - cbn [code_number_loop all_digits forallb].
    destruct (isdigit c) eqn:Hc; cbn [negb andb]; [|by exists []].
    destruct (isdigit d) eqn:Hd; cbn [negb andb]; [|by exists []].
    apply isdigit_range in Hc. apply isdigit_range in Hd.
    rewrite lor_nibbles by lia.
    assert (u8 (c - 48 + 16 * (d - 48)) = c - 48 + 16 * (d - 48)) as ->
      by (unfold u8; apply Z.mod_small; lia).
    assert (Hlen : (strlen (c :: d :: nbr) + 1) / 2 = 1 + (strlen nbr + 1) / 2).
    { unfold strlen. cbn [length]. Z.div_mod_to_equations. lia. }
    rewrite Hlen in *.
    assert (0 <= (strlen nbr + 1) / 2) by (unfold strlen; Z.div_mod_to_equations; lia).
    rewrite put_ok by (unfold strlen in *; rewrite length_app; cbn [length]; lia).
    unfold mbind at 1, res_bind.
    destruct (IH (resp ++ [c - 48 + 16 * (d - 48)])) as (bs & Hbs & Hdec).
    { unfold strlen in *. rewrite length_app. cbn [length]. lia. }
    exists (c - 48 + 16 * (d - 48) :: bs). rewrite Hbs. split.
    + fold (all_digits nbr). by rewrite <- app_assoc.
    + intros Hall. destruct (Hdec Hall) as (Hdec' & Hl & Hb). split_and!.
      * cbn [decode_number].
        replace ((c - 48 + 16 * (d - 48)) / 16) with (d - 48) by (Z.div_mod_to_equations; lia).
        rewrite (proj2 (Z.eqb_neq (d - 48) 15)) by lia. rewrite Hdec'.
        f_equal; [Z.div_mod_to_equations; lia|f_equal; lia].
      * unfold strlen in *. cbn [length]. lia.
      * apply Forall_cons. split; [unfold is_byte; lia|done].
Qed.

(** ** 7-bit packing *)

(** The number whose base-[b] digits are [l], least significant first. *)
Fixpoint number (b : Z) (l : list Z) : Z :=
  match l with [] => 0 | x :: l => x + b * number b l end.

(** The first [n] septets of a number. *)
Fixpoint septets (n : nat) (v : Z) : list Z :=
  match n with O => [] | S n => v mod 128 :: septets n (v / 128) end.

Definition all_7bit (msg : list Z) : bool := forallb (fun c => Z.land c 128 =? 0) msg.

Lemma is_7bit c : is_byte c -> (Z.land c 128 =? 0) = true <-> c < 128.
Proof.
  unfold is_byte. intros Hc. rewrite Z.eqb_eq.
  split; intros H.
  - destruct (Z.lt_ge_cases c 128) as [|Hge]; [done|exfalso].
    assert (Z.testbit (Z.land c 128) 7 = true) as Hb; [|by rewrite H in Hb].
    rewrite Z.land_spec. change (Z.testbit 128 7) with true. rewrite andb_true_r.
    apply Z.testbit_true; [lia|]. change (2 ^ 7) with 128. Z.div_mod_to_equations. lia.
  - apply Z.bits_inj_0. intros k. rewrite Z.land_spec. change 128 with (2 ^ 7).
    rewrite Z.pow2_bits_eqb by lia. destruct (Z.eqb_spec 7 k) as [<-|]; [|apply andb_false_r].
    rewrite <- (Z.mod_small c (2 ^ 7)) by lia. rewrite Z.mod_pow2_bits_high by lia. done.
Qed.

Lemma septets_number msg : Forall (fun c => 0 <= c < 128) msg ->
  septets (length msg) (number 128 msg) = msg.
Proof.
  induction 1 as [|c msg Hc _ IH]; [done|]. cbv beta in Hc. cbn [length septets number].
  by rewrite digit_mod, digit_div, IH by done.
Qed.

Lemma number_nonneg b l : 0 <= b -> Forall (fun c => 0 <= c) l -> 0 <= number b l.
Proof. intros Hb. induction 1; cbn; nia. Qed.

(** One byte of the packing. *)
Lemma pack_byte c n s R : 0 <= c < 128 -> 0 <= n < 128 -> 0 <= s < 7 -> 0 <= R ->
  u8 (Z.lor (Z.shiftr c s) (Z.shiftl (Z.land n (Z.shiftl 1 (s + 1) - 1)) (7 - s))) =
  (c + 128 * (n + 128 * R)) / 2 ^ s mod 256.
Proof.
  intros Hc Hn Hs HR. rewrite Z.shiftl_1_l, land_low_mask, Z.shiftr_div_pow2 by lia.
  assert (H128 : 2 ^ s * 2 ^ (7 - s) = 128) by (rewrite <- Z.pow_add_r by lia; by replace (s + (7 - s)) with 7 by lia).
  assert (H256 : 2 ^ (7 - s) * 2 ^ (s + 1) = 256) by (rewrite <- Z.pow_add_r by lia; by replace (7 - s + (s + 1)) with 8 by lia).
  assert (Hp : 0 < 2 ^ s) by lia. assert (Hq : 0 < 2 ^ (7 - s)) by lia.
  rewrite lor_shiftl; [| lia | |apply Z.mod_pos_bound; lia].
  2:{ split; [apply Z.div_pos; lia|apply Z.div_lt_upper_bound; lia]. }
  replace ((c + 128 * (n + 128 * R)) / 2 ^ s) with (c / 2 ^ s + 2 ^ (7 - s) * (n + 128 * R)).
  2:{ rewrite <- H128. rewrite <- Z.div_add by lia. f_equal. lia. }
  unfold u8. change (2 ^ 8) with 256. rewrite <- H256.
  set (q := n mod 2 ^ (s + 1)).
  assert (Hnq : exists t, n + 128 * R = q + 2 ^ (s + 1) * t).
  { exists (n / 2 ^ (s + 1) + 2 ^ (6 - s) * R). unfold q.
    assert (2 ^ (s + 1) * 2 ^ (6 - s) = 128) by (rewrite <- Z.pow_add_r by lia; by replace (s + 1 + (6 - s)) with 7 by lia).
    pose proof (Z.div_mod n (2 ^ (s + 1)) ltac:(lia)). nia. }
  destruct Hnq as [t ->].
  replace (c / 2 ^ s + 2 ^ (7 - s) * (q + 2 ^ (s + 1) * t))
    with (c / 2 ^ s + q * 2 ^ (7 - s) + t * (2 ^ (7 - s) * 2 ^ (s + 1))) by lia.
  by rewrite Z.mod_add by lia.
Qed.

Lemma all_7bit_range msg : Forall is_byte msg -> all_7bit msg = true ->
  Forall (fun c => 0 <= c < 128) msg.
Proof.
  intros Hb Hall. unfold all_7bit in Hall. rewrite forallb_forall in Hall.
  rewrite Forall_forall in Hb |- *. intros x Hx. pose proof (Hb x Hx) as Hxb.
  specialize (Hall x ltac:(by apply list_elem_of_In)). apply is_7bit in Hall; [|done].
  unfold is_byte in Hxb. lia.
Qed.

(** An octet has the bits of its septet that are left and the first ones of the next. *)
Lemma packed_octet c data s : 0 <= c < 128 -> Forall (fun x => 0 <= x < 128) data -> 0 <= s < 7 ->
  u8 (Z.lor (Z.shiftr c s) (Z.shiftl (Z.land (at_ data 0) (Z.shiftl 1 (s + 1) - 1)) (7 - s))) =
  number 128 (c :: data) / 2 ^ s mod 256.
Proof.
  intros Hc Hd Hs. destruct data as [|n data]; cbn [at_ nth number].
  - rewrite (pack_byte c 0 s 0) by lia. f_equal.
  - apply Forall_cons in Hd as [Hn Hd]. apply (pack_byte c n s (number 128 data)); try lia.
    apply number_nonneg; [lia|]. eapply Forall_impl; [exact Hd|]. cbn. lia.
Qed.

Lemma packed_rest c N s : 0 <= c < 128 -> 0 <= s -> N / 2 ^ (s + 1) = (c + 128 * N) / 2 ^ s / 256.
Proof.
  intros Hc Hs. rewrite <- (digit_div 128 c N) at 1 by lia. rewrite !Z.div_div by lia. f_equal.
  rewrite Z.pow_add_r by lia. lia.
Qed.

Lemma pack7_loop_ok cap data : forall i resp, 0 <= i -> Forall is_byte data ->
  strlen resp + (7 * strlen data - i mod 8 + 7) / 8 <= cap ->
  exists bs, pack7_loop cap data i resp =
      (if all_7bit data then Ok (Some (resp ++ bs)) else Ok None) /\
    (all_7bit data = true -> number 256 bs = number 128 data / 2 ^ (i mod 8) /\
      strlen bs = (7 * strlen data - i mod 8 + 7) / 8 /\ Forall is_byte bs).
Proof.
  induction data as [|c data IH]; intros i resp Hi Hb Hcap; cbn [pack7_loop all_7bit forallb].
  { exists []. rewrite app_nil_r. split; [done|]. intros _. split_and!; [| |constructor].
    - pose proof (Z.mod_pos_bound i 8 ltac:(lia)). cbn [number]. by rewrite Z.div_0_l by lia.
    - change (strlen []) with 0. pose proof (Z.mod_pos_bound i 8 ltac:(lia)).
      rewrite Z.div_small by lia. done. }
  apply Forall_cons in Hb as [Hc Hb]. destruct (Z.land c 128 =? 0) eqn:H7; cbn [negb andb];
    [|by exists []].
  apply is_7bit in H7; [|done]. unfold is_byte in Hc.
  assert (Hs : 0 <= i mod 8 < 8) by (apply Z.mod_pos_bound; lia).
  assert (Hl : strlen (c :: data) = strlen data + 1) by (unfold strlen; cbn [length]; lia).
  assert (0 <= strlen data) by (unfold strlen; lia). rewrite Hl in *.
  destruct (Z.ltb_spec (i mod 8) 7) as [Hlt|Hge].
  - assert (Hi1 : (i + 1) mod 8 = i mod 8 + 1) by (Z.div_mod_to_equations; lia).
    rewrite put_ok.
    2:{ unfold strlen at 1. rewrite length_app. cbn [length]. fold (strlen resp).
        unfold strlen in *. Z.div_mod_to_equations. lia. }
    unfold mbind at 1, res_bind.
    match goal with |- context [resp ++ [?v]] => set (b := v) end.
    destruct (IH (i + 1) (resp ++ [b])) as (bs & Hbs & Hok); [lia|done| |].
    { rewrite Hi1. unfold strlen in *. rewrite length_app. cbn [length].
      Z.div_mod_to_equations. lia. }
    exists (b :: bs). rewrite Hbs, <- app_assoc. split; [done|]. intros Hall.
    destruct (Hok Hall) as (Hn & Hlen & Hbytes). rewrite Hi1 in Hn, Hlen.
    pose proof (all_7bit_range data Hb Hall) as Hall7.
    assert (Hbv : b = number 128 (c :: data) / 2 ^ (i mod 8) mod 256) by (apply packed_octet; (done || lia)).
    split_and!.
    + cbn [number]. rewrite Hn, Hbv. cbn [number]. rewrite (packed_rest c) by lia.
      pose proof (Z.div_mod ((c + 128 * number 128 data) / 2 ^ (i mod 8)) 256 ltac:(lia)). lia.
    + unfold strlen in *. cbn [length]. Z.div_mod_to_equations. lia.
    + apply Forall_cons. split; [|done]. rewrite Hbv. unfold is_byte. apply Z.mod_pos_bound. lia.
  - assert (i mod 8 = 7) as Hi7 by lia.
    assert (Hi1 : (i + 1) mod 8 = 0) by (Z.div_mod_to_equations; lia).
    destruct (IH (i + 1) resp) as (bs & Hbs & Hok); [lia|done| |].
    { rewrite Hi1. revert Hcap. rewrite Hi7. Z.div_mod_to_equations. lia. }
    exists bs. rewrite Hbs. split; [done|]. intros Hall.
    destruct (Hok Hall) as (Hn & Hlen & Hbytes). rewrite Hi1 in Hn, Hlen. split_and!; [| |done].
    + rewrite Hn, Hi7. cbn [number]. change (2 ^ 0) with 1. change (2 ^ 7) with 128.
      rewrite Z.div_1_r. by rewrite digit_div by lia.
    + rewrite Hlen, Hi7. Z.div_mod_to_equations. lia.
Qed.

(** ** Hexadecimal form *)
Definition hex (bs : list Z) : list Z := flat_map hex02 bs.

Lemma hex_length bs : strlen (hex bs) = 2 * strlen bs.
Proof.
  unfold strlen. induction bs as [|b bs IH]; [done|]. change (hex (b :: bs)) with (hex02 b ++ hex bs).
  rewrite length_app. cbn [length hex02]. lia.
Qed.

Lemma hexdata_loop_ok cap bs : forall p, strlen p + 2 * strlen bs + 1 <= cap ->
  hexdata_loop cap bs p = Ok (p ++ hex bs).
Proof.
  induction bs as [|b bs IH]; intros p Hcap; cbn [hexdata_loop].
  - rewrite put_ok; [by rewrite app_nil_r|]. unfold strlen in *. rewrite length_app.
    cbn [length] in *. lia.
  - rewrite put_ok.
    2:{ unfold strlen in *. rewrite length_app. cbn [hex02 app length] in *. lia. }
    unfold mbind, res_bind. rewrite IH.
    + by rewrite <- app_assoc.
    + unfold strlen in *. rewrite length_app. cbn [hex02 length] in *. lia.
Qed.

(** The first octet of a hexadecimal string. *)
Lemma scan_2x_hex b rest : is_byte b -> scan_2x (hex02 b ++ rest) = Some b.
Proof.
  unfold is_byte. intros Hb.
  assert (Hdig : forall v, 0 <= v < 16 -> isspace (hex_digit v) = false /\
    hex_digit v <> 45 /\ hex_digit v <> 43 /\ hex_digit v <> 120 /\ hex_digit v <> 88).
  { intros v Hv. unfold hex_digit, isspace. destruct (Z.ltb_spec v 10); lia. }
  assert (0 <= b / 16 < 16 /\ 0 <= b mod 16 < 16) as [H1 H2] by (Z.div_mod_to_equations; lia).
  destruct (Hdig _ H1) as (Hs1 & Hm1 & Hp1 & _). destruct (Hdig _ H2) as (_ & _ & _ & Hx & HX).
  unfold scan_2x. cbn [hex02 app skip_spaces]. rewrite Hs1.
  change (take 2 (hex_digit (b / 16) :: hex_digit (b mod 16) :: rest))
    with [hex_digit (b / 16); hex_digit (b mod 16)].
  assert (Hsk : skip_spaces [hex_digit (b / 16); hex_digit (b mod 16)] =
    [hex_digit (b / 16); hex_digit (b mod 16)]) by (cbn [skip_spaces]; by rewrite Hs1).
  unfold strtoull. rewrite Hsk.
  assert (Hsg : sign [hex_digit (b / 16); hex_digit (b mod 16)] =
    (false, [hex_digit (b / 16); hex_digit (b mod 16)])).
  { unfold sign. repeat case_match; try done; congruence. }
  rewrite Hsg.
  assert (Hbp : base_prefix 16 [hex_digit (b / 16); hex_digit (b mod 16)] =
    (16, [hex_digit (b / 16); hex_digit (b mod 16)])).
  { unfold base_prefix. cbn. by repeat case_match. }
  rewrite Hbp, hex_digit_val by done. rewrite (proj2 (Z.ltb_lt _ _)) by lia.
  cbn [digits]. rewrite !hex_digit_val by done. rewrite !(proj2 (Z.ltb_lt _ 16)) by lia.
  rewrite bool_decide_eq_false_2 by done.
  replace ((0 * 16 + b / 16) * 16 + b mod 16) with b by (Z.div_mod_to_equations; lia).
  rewrite (proj2 (Z.leb_gt _ _)) by lia. rewrite u32_small by lia. done.
Qed.

(** ** What the encoder produces *)
Section encoder.
Context (alloc : Z -> bool) (Halloc : forall n, alloc n = true).

Lemma code_number_ok nbr :
  exists bs, xgsm_code_number alloc nbr = (if all_digits nbr then Ok (Some bs) else Ok None) /\
    (all_digits nbr = true -> decode_number bs = nbr /\ strlen bs = (strlen nbr + 1) / 2 /\
      Forall is_byte bs).
Proof.
  unfold xgsm_code_number. rewrite Halloc. cbn [negb].
  apply (code_number_loop_ok (strlen nbr / 2 + 2) nbr []).
  change (strlen []) with 0. Z.div_mod_to_equations. lia.
Qed.

Lemma pack7_ok msg : Forall is_byte msg ->
  exists bs, xgsm_pack7 alloc msg = (if all_7bit msg then Ok (Some bs) else Ok None) /\
    (all_7bit msg = true -> number 256 bs = number 128 msg /\
      strlen bs = (7 * strlen msg + 7) / 8 /\ Forall is_byte bs).
Proof.
  intros Hb. unfold xgsm_pack7. rewrite Halloc. cbn [negb].
  destruct (pack7_loop_ok (strlen msg + 1) msg 0 []) as (bs & Hbs & Hok); [lia|done| |].
  { change (strlen []) with 0. change (0 mod 8) with 0.
    assert (0 <= strlen msg) by (unfold strlen; lia). Z.div_mod_to_equations. lia. }
  exists bs. split; [exact Hbs|]. intros Hall. destruct (Hok Hall) as (Hn & Hl & Hbb).
  split_and!; [by rewrite Hn, Z.div_1_r| |done]. rewrite Hl. f_equal. change (0 mod 8) with 0. lia.
Qed.

(** The service centre part of the unit. *)
Definition sca_part (scnbr : option (list Z)) (code : list Z) : list Z :=
  match scnbr with
  | None => [0]
  | Some s => u8 (1 + s8 (strlen code)) :: (number_type s).2 :: code
  end.

Definition sca_digits (scnbr : option (list Z)) : list Z :=
  match scnbr with None => [] | Some s => (number_type s).1 end.

Lemma number_type_len nbr : strlen (number_type nbr).1 <= strlen nbr.
Proof. unfold number_type, strlen. repeat case_match; cbn [fst length]; lia. Qed.

(** The unit before the text. *)
Definition pdu_head (nbr : list Z) (scnbr : option (list Z)) (msg sc da : list Z) : list Z :=
  sca_part scnbr sc ++ [17; 0; u8 (strlen (number_type nbr).1); (number_type nbr).2] ++
  da ++ [0; 0; 167; u8 (strlen msg)].

(** A [put] in the code that follows fits. *)
Ltac put_fits :=
  rewrite put_ok by (autorewrite with strlen in *; Z.div_mod_to_equations; lia);
  rewrite res_bind_ok; cbn [app]; cbv beta iota.

(** The part of the unit behind the service centre. *)
Lemma rest_ok cap r n toda da msg (k : list Z -> res (option (list Z))) :
  strlen r + 8 + strlen da <= cap ->
  (r ← put cap r [17; 0; u8 (strlen n); toda];
   r ← put cap r da;
   r ← put cap r [0; 0; u8 (xgsm_get_vt (1 * 60 * 24)); u8 (strlen msg)]; k r) =
  k (r ++ [17; 0; u8 (strlen n); toda] ++ da ++ [0; 0; 167; u8 (strlen msg)]).
Proof.
  intros Hcap. pose proof (strlen_nonneg da). do 3 put_fits. f_equal. by rewrite <- !app_assoc.
Qed.

Lemma create_PDU_ok nbr scnbr msg : Forall is_byte msg ->
  all_digits (number_type nbr).1 = true -> all_digits (sca_digits scnbr) = true ->
  exists sc da, decode_number sc = sca_digits scnbr /\ strlen sc = (strlen (sca_digits scnbr) + 1) / 2 /\
    decode_number da = (number_type nbr).1 /\ strlen da = (strlen (number_type nbr).1 + 1) / 2 /\
    Forall is_byte sc /\ Forall is_byte da /\
    xgsm_create_PDU alloc nbr scnbr msg =
      match xgsm_pack7 alloc msg with
      | Ok (Some ud) => Ok (Some (pdu_head nbr scnbr msg sc da ++ ud))
      | _ => Fault
      end.
Proof.
  intros Hb Hn Hsc. pose proof (number_type_len nbr) as Hnl.
  destruct (code_number_ok (number_type nbr).1) as (da & Hda & Hdo). rewrite Hn in Hda.
  destruct (Hdo Hn) as (Hdd & Hdl & Hdb).
  destruct (pack7_ok msg Hb) as (ud & Hud & Huo).
  unfold xgsm_create_PDU, pdu_head. rewrite Halloc. cbn [negb].
  destruct (number_type nbr) as [n toda] eqn:Hnt. cbn [fst snd] in *.
  pose proof (strlen_nonneg msg). pose proof (strlen_nonneg n).
  destruct scnbr as [s|]; cbn [sca_digits sca_part] in *.
  - pose proof (number_type_len s) as Hsl.
    destruct (code_number_ok (number_type s).1) as (sc & Hsce & Hso). rewrite Hsc in Hsce.
    destruct (Hso Hsc) as (Hsd & Hscl & Hscb). exists sc, da. split_and!; try done.
    destruct (number_type s) as [sn tosca] eqn:Hst. cbn [fst snd] in *.
    pose proof (strlen_nonneg sn).
    rewrite Hsce, res_bind_ok. do 3 put_fits. rewrite Hda, !res_bind_ok.
    rewrite rest_ok by (autorewrite with strlen; Z.div_mod_to_equations; lia).
    rewrite Hud. destruct (all_7bit msg); [|done]. rewrite res_bind_ok.
    destruct (Huo eq_refl) as (_ & Hul & _). put_fits.
    do 2 f_equal; by rewrite <- !app_assoc.
  - exists [], da. split_and!; try done. put_fits. rewrite Hda, !res_bind_ok.
    rewrite rest_ok by (autorewrite with strlen; Z.div_mod_to_equations; lia).
    rewrite Hud. destruct (all_7bit msg); [|done]. rewrite res_bind_ok.
    destruct (Huo eq_refl) as (_ & Hul & _). put_fits.
    do 2 f_equal; by rewrite <- !app_assoc.
Qed.

End encoder.

(** ** Properties *)

(** [xgsm_code_number] accepts exactly the strings of digits; its result
    holds the digits two to an octet, low nibble first, and fits the buffer. *)
Theorem xgsm_code_number_roundtrip alloc nbr : (forall n, alloc n = true) ->
  (all_digits nbr = false -> xgsm_code_number alloc nbr = Ok None) /\
  (all_digits nbr = true -> exists bs, xgsm_code_number alloc nbr = Ok (Some bs) /\
     decode_number bs = nbr /\ strlen bs = (strlen nbr + 1) / 2 /\ Forall is_byte bs).
Proof.
  intros Ha. destruct (code_number_ok alloc Ha nbr) as (bs & Hbs & Hok).
  split; intros Hd; rewrite Hd in *; [done|]. exists bs. split; [done|auto].
Qed.

(** C31: [xgsm_pack7] accepts exactly the 7-bit messages; the packed octets
    unpack to the message, there are ceil(7 * length / 8) of them, and they fit
    the buffer. *)
Theorem xgsm_pack7_roundtrip alloc msg : (forall n, alloc n = true) -> Forall is_byte msg ->
  (all_7bit msg = false -> xgsm_pack7 alloc msg = Ok None) /\
  (all_7bit msg = true -> exists bs, xgsm_pack7 alloc msg = Ok (Some bs) /\
     septets (length msg) (number 256 bs) = msg /\
     strlen bs = (7 * strlen msg + 7) / 8 /\ Forall is_byte bs).
Proof.
  intros Ha Hb. destruct (pack7_ok alloc Ha msg Hb) as (bs & Hbs & Hok).
  split; intros Hd; rewrite Hd in *; [done|]. exists bs. destruct (Hok eq_refl) as (Hn & Hl & Hbb).
  split_and!; [done| |done|done]. rewrite Hn. by apply septets_number, all_7bit_range.
Qed.

(** C25: for digits and a 7-bit text [xgsm_create_hexPDU] returns the hexadecimal
    form of service centre, SMS-SUBMIT header, coded recipient and packed text,
    without leaving its buffers, and [xgsm_CMGS_PDU_length] of it is the number
    of octets behind the service centre part. *)
Theorem xgsm_hexPDU_layout alloc nbr scnbr msg : (forall n, alloc n = true) ->
  Forall is_byte msg -> all_7bit msg = true ->
  all_digits (number_type nbr).1 = true -> all_digits (sca_digits scnbr) = true ->
  strlen (sca_digits scnbr) < 250 -> strlen nbr + strlen msg < 2 ^ 30 ->
  exists sc da ud,
    xgsm_create_hexPDU alloc nbr scnbr msg = Ok (Some (hex (pdu_head nbr scnbr msg sc da ++ ud))) /\
    decode_number sc = sca_digits scnbr /\ decode_number da = (number_type nbr).1 /\
    septets (length msg) (number 256 ud) = msg /\
    xgsm_CMGS_PDU_length (hex (pdu_head nbr scnbr msg sc da ++ ud)) =
      strlen (pdu_head nbr scnbr msg sc da ++ ud) - strlen (sca_part scnbr sc).
Proof.
  intros Ha Hb H7 Hn Hsc Hsl Hlen.
  destruct (create_PDU_ok alloc Ha nbr scnbr msg Hb Hn Hsc)
    as (sc & da & Hsd & Hscl & Hdd & Hdl & Hscb & Hdb & Hpdu).
  destruct (pack7_ok alloc Ha msg Hb) as (ud & Hud & Huo). rewrite H7 in Hud.
  destruct (Huo H7) as (Hun & Hul & Hub). rewrite Hud in Hpdu.
  exists sc, da, ud. set (pdu := pdu_head nbr scnbr msg sc da ++ ud) in *. split_and!.
  - unfold xgsm_create_hexPDU. rewrite Hpdu, res_bind_ok. unfold xgsm_hexdata. rewrite Ha.
    cbn [negb]. rewrite hexdata_loop_ok; [done|]. change (strlen []) with 0. lia.
  - done.
  - done.
  - rewrite Hun. by apply septets_number, all_7bit_range.
  - pose proof (number_type_len nbr) as Hnl. pose proof (strlen_nonneg msg).
    pose proof (strlen_nonneg (sca_digits scnbr)). pose proof (strlen_nonneg (number_type nbr).1).
    assert (Hpl : strlen pdu = strlen (sca_part scnbr sc) + 8 + strlen da + strlen ud)
      by (unfold pdu, pdu_head; autorewrite with strlen; lia).
    assert (Hfirst : exists l rest, is_byte l /\ pdu = l :: rest /\ l = strlen (sca_part scnbr sc) - 1).
    { unfold pdu, pdu_head. destruct scnbr as [s|]; cbn [sca_part app] in *; do 2 eexists.
      - split_and!; [|done|].
        + unfold is_byte, u8. apply Z.mod_pos_bound. lia.
        + autorewrite with strlen. unfold s8, u8. rewrite Z.mod_small by (Z.div_mod_to_equations; lia).
          rewrite Z.mod_small by (Z.div_mod_to_equations; lia). lia.
      - split_and!; [|done|done]. done. }
    destruct Hfirst as (l & rest & Hl & Hp & Hls).
    unfold xgsm_CMGS_PDU_length. rewrite hex_length, Hp. change (hex (l :: rest)) with (hex02 l ++ hex rest).
    rewrite scan_2x_hex by done. rewrite <- Hp. rewrite (Z.mul_comm 2), Z.div_mul by lia.
    rewrite Hpl, Hls. pose proof (strlen_nonneg da). pose proof (strlen_nonneg ud).
    rewrite u64_small, s32_small by (Z.div_mod_to_equations; lia). lia.
Qed.

(** A text with a byte above 127 makes [xgsm_create_PDU] copy from the null
    pointer that [xgsm_pack7] returned. *)
Theorem xgsm_create_PDU_8bit alloc nbr scnbr msg : (forall n, alloc n = true) ->
  Forall is_byte msg -> all_7bit msg = false ->
  all_digits (number_type nbr).1 = true -> all_digits (sca_digits scnbr) = true ->
  xgsm_create_PDU alloc nbr scnbr msg = Fault.
Proof.
  intros Ha Hb H7 Hn Hsc.
  destruct (create_PDU_ok alloc Ha nbr scnbr msg Hb Hn Hsc) as (sc & da & _ & _ & _ & _ & _ & _ & Hpdu).
  destruct (pack7_ok alloc Ha msg Hb) as (ud & Hud & _). by rewrite H7 in Hud; rewrite Hud in Hpdu.
Qed.

(** The two digits of a swapped octet. *)
Definition digits_of (b : Z) : Z := 10 * (b mod 16) + b / 16.

Lemma swap_nibble_digits v : 0 <= v < 160 -> u8 (xgsm_swap_nibble v) = 16 * (v mod 10) + v / 10.
Proof.
  intros Hv. unfold xgsm_swap_nibble. rewrite Z.rem_mod_nonneg, Z.quot_div_nonneg by lia.
  pose proof (Z.mod_pos_bound v 10 ltac:(lia)). assert (0 <= v / 10 < 16) by (split; [apply Z.div_pos; lia|apply Z.div_lt_upper_bound; lia]).
  rewrite Z.lor_comm, lor_shiftl by lia. unfold u8. rewrite Z.mod_small by lia. lia.
Qed.

Lemma swap_nibble_back v : 0 <= v < 160 -> digits_of (u8 (xgsm_swap_nibble v)) = v.
Proof. intros Hv. rewrite swap_nibble_digits by done. unfold digits_of. Z.div_mod_to_equations. lia. Qed.

(** The octet of a negative offset of [q] quarters of an hour. *)
Lemma negative_zone q : 0 < q <= 56 -> let z := Z.lor (u8 (xgsm_swap_nibble q)) 128 in
  if q mod 10 <? 8 then digits_of (z - 128) = q else digits_of z = q.
Proof.
  assert (forallb (fun q => let z := Z.lor (u8 (xgsm_swap_nibble q)) 128 in
    if q mod 10 <? 8 then digits_of (z - 128) =? q else digits_of z =? q) (seqZ 1 56) = true) as H by by vm_compute.
  rewrite forallb_forall in H. intros Hq. specialize (H q). cbv zeta in *.
  destruct (q mod 10 <? 8); apply Z.eqb_eq, H, list_elem_of_In, elem_of_seqZ; lia.
Qed.

(** [xgsm_get_timestamp] writes seven octets whose digits are the fields of [tm] as they
    are: the year counted from 1900 and the month from 0.  The seventh has the quarters of an
    hour from UTC; for a negative offset bit 7 is set, which the low digit of the quarters
    has already when it is 8 or 9: UTC-2 then looks like UTC+2.  With less room
    or without a time nothing is written. *)
Theorem xgsm_get_timestamp_fields t n :
  0 <= tm_year t < 160 -> 0 <= tm_mon t < 12 -> 1 <= tm_mday t <= 31 -> 0 <= tm_hour t < 24 -> 0 <= tm_min t < 60 ->
  0 <= tm_sec t <= 60 -> Z.abs (tm_gmtoff t) <= 14 * 3600 ->
  (n < 7 -> xgsm_get_timestamp (Some t) n = (-1, [])) /\ xgsm_get_timestamp None n = (-1, []) /\
  (7 <= n -> exists l z, xgsm_get_timestamp (Some t) n = (7, l ++ [z]) /\
    map digits_of l = [tm_year t; tm_mon t; tm_mday t; tm_hour t; tm_min t; tm_sec t] /\
    let q := Z.abs (tm_gmtoff t) / 900 in
    if (tm_gmtoff t <=? -900) && (q mod 10 <? 8) then digits_of (z - 128) = q else digits_of z = q).
Proof.
  intros Hy Hmo Hd Hh Hmi Hs Hz. unfold xgsm_get_timestamp. split; [by intros ->%Z.ltb_lt|].
  split; [by destruct (n <? 7)|]. intros Hn. rewrite (proj2 (Z.ltb_ge n 7)) by lia.
  rewrite s32_small by lia. change (15 * 60) with 900. set (zone := if _ <? 0 then _ else _).
  exists [u8 (xgsm_swap_nibble (tm_year t)); u8 (xgsm_swap_nibble (tm_mon t)); u8 (xgsm_swap_nibble (tm_mday t));
    u8 (xgsm_swap_nibble (tm_hour t)); u8 (xgsm_swap_nibble (tm_min t)); u8 (xgsm_swap_nibble (tm_sec t))], zone.
  split; [done|]. cbn [map]. rewrite !swap_nibble_back by lia. split; [done|]. cbv zeta. unfold zone. clear zone.
  destruct (Z.leb_spec (tm_gmtoff t) (-900)) as [Hneg|Hpos].
  - replace (Z.quot (tm_gmtoff t) 900) with (- (Z.abs (tm_gmtoff t) / 900)) by
      (rewrite <-Z.quot_div_nonneg, Z.abs_neq, Z.quot_opp_l by lia; lia).
    assert (1 <= Z.abs (tm_gmtoff t) / 900 <= 56) by (split; [apply Z.div_le_lower_bound|apply Z.div_le_upper_bound]; lia).
    rewrite (proj2 (Z.ltb_lt _ 0)) by lia. rewrite Z.opp_involutive. cbn [andb]. by apply negative_zone; lia.
  - assert (Z.quot (tm_gmtoff t) 900 = Z.abs (tm_gmtoff t) / 900) as ->.
    { destruct (Z.leb_spec 0 (tm_gmtoff t)).
      - by rewrite Z.abs_eq, Z.quot_div_nonneg by lia.
      - rewrite Z.div_small by lia. rewrite <-(Z.opp_involutive (tm_gmtoff t)), Z.quot_opp_l, Z.quot_small by lia. done. }
    assert (0 <= Z.abs (tm_gmtoff t) / 900 <= 56) by (split; [apply Z.div_pos|apply Z.div_le_upper_bound]; lia).
    rewrite (proj2 (Z.ltb_ge _ 0)) by lia. cbn [andb]. apply swap_nibble_back. lia.
Qed.

(** The minutes a relative validity period stands for, from the layout of the
    TP-VP octet. *)
Definition vt_minutes (v : Z) : Z :=
  if v <=? 143 then (v + 1) * 5
  else if v <=? 167 then 12 * 60 + (v - 143) * 30
  else if v <=? 196 then (v - 166) * (24 * 60)
  else (v - 192) * (7 * 24 * 60).

(** [xgsm_get_vt] fits an octet for periods below 64 weeks; below 12 hours the
    octet stands for the next multiple of 5 minutes, above for the period
    rounded down to its unit, except where the value runs into the range of the
    next unit: between one and two days it stands for at least two days, from 31
    to 34 days for weeks. *)
Theorem xgsm_get_vt_period mins : 0 <= mins < 64 * 7 * 24 * 60 ->
  0 <= xgsm_get_vt mins <= 255 /\
  (mins < 12 * 60 -> mins < vt_minutes (xgsm_get_vt mins) <= mins + 5) /\
  (12 * 60 <= mins < 24 * 60 + 30 ->
     vt_minutes (xgsm_get_vt mins) <= mins < vt_minutes (xgsm_get_vt mins) + 30) /\
  (24 * 60 + 30 <= mins < 2 * 24 * 60 -> 2 * 24 * 60 <= vt_minutes (xgsm_get_vt mins)) /\
  (2 * 24 * 60 <= mins < 31 * 24 * 60 ->
     vt_minutes (xgsm_get_vt mins) <= mins < vt_minutes (xgsm_get_vt mins) + 24 * 60) /\
  (31 * 24 * 60 <= mins < 35 * 24 * 60 ->
     vt_minutes (xgsm_get_vt mins) = (mins / (24 * 60) - 26) * (7 * 24 * 60)) /\
  (35 * 24 * 60 <= mins ->
     vt_minutes (xgsm_get_vt mins) <= mins < vt_minutes (xgsm_get_vt mins) + 7 * 24 * 60).
Proof.
  intros Hm. unfold xgsm_get_vt. rewrite !Z.quot_div_nonneg by lia.
  change (60 * 24 * 7) with 10080. change (60 * 24) with 1440. change (24 * 60) with 1440.
  change (12 * 60 / 30) with 24.
  pose proof (Z.div_mod mins 10080 ltac:(lia)) as Hw. pose proof (Z.mod_pos_bound mins 10080 ltac:(lia)).
  pose proof (Z.div_mod mins 1440 ltac:(lia)) as Hd. pose proof (Z.mod_pos_bound mins 1440 ltac:(lia)).
  pose proof (Z.div_mod mins 30 ltac:(lia)) as Hh. pose proof (Z.mod_pos_bound mins 30 ltac:(lia)).
  pose proof (Z.div_mod mins 5 ltac:(lia)) as Hf. pose proof (Z.mod_pos_bound mins 5 ltac:(lia)).
  set (w := mins / 10080) in *. set (d := mins / 1440) in *. set (h := mins / 30) in *.
  set (f := mins / 5) in *. cbv zeta.
  destruct (Z.leb_spec 5 w); [|destruct (Z.leb_spec 2 d); [|destruct (Z.leb_spec 24 h)]];
    unfold vt_minutes; split_and!; intros; repeat (case_match; try lia); lia.
Qed.

(** ** A concrete message *)
Definition sample_nbr : list Z := str "+393331234567".
Definition sample_sc : option (list Z) := Some (str "+39349200000").
Definition sample_msg : list Z := str "Hello, world!".

Lemma sample_msg_bytes : Forall is_byte sample_msg.
Proof. apply str_bytes. Qed.

Lemma xgsm_code_number_witness :
  (all_digits (str "12345") = false -> xgsm_code_number (fun _ => true) (str "12345") = Ok None) /\
  (all_digits (str "12345") = true -> exists bs, xgsm_code_number (fun _ => true) (str "12345") = Ok (Some bs) /\
     decode_number bs = str "12345" /\ strlen bs = 3 /\ Forall is_byte bs).
Proof. apply (xgsm_code_number_roundtrip (fun _ => true) (str "12345")). done. Defined.

Lemma xgsm_pack7_witness :
  (all_7bit sample_msg = false -> xgsm_pack7 (fun _ => true) sample_msg = Ok None) /\
  (all_7bit sample_msg = true -> exists bs, xgsm_pack7 (fun _ => true) sample_msg = Ok (Some bs) /\
     septets (length sample_msg) (number 256 bs) = sample_msg /\
     strlen bs = 12 /\ Forall is_byte bs).
Proof. apply (xgsm_pack7_roundtrip (fun _ => true) sample_msg); [done|apply sample_msg_bytes]. Defined.

Lemma xgsm_hexPDU_witness : exists sc da ud,
    xgsm_create_hexPDU (fun _ => true) sample_nbr sample_sc sample_msg =
      Ok (Some (hex (pdu_head sample_nbr sample_sc sample_msg sc da ++ ud))) /\
    decode_number sc = sca_digits sample_sc /\ decode_number da = (number_type sample_nbr).1 /\
    septets (length sample_msg) (number 256 ud) = sample_msg /\
    xgsm_CMGS_PDU_length (hex (pdu_head sample_nbr sample_sc sample_msg sc da ++ ud)) =
      strlen (pdu_head sample_nbr sample_sc sample_msg sc da ++ ud) - strlen (sca_part sample_sc sc).
Proof.
  apply (xgsm_hexPDU_layout (fun _ => true) sample_nbr sample_sc sample_msg);
    [done|apply sample_msg_bytes|done|done|done|done|done].
Defined.

Lemma xgsm_create_PDU_8bit_witness :
  xgsm_create_PDU (fun _ => true) sample_nbr sample_sc [200] = Fault.
Proof.
  apply (xgsm_create_PDU_8bit (fun _ => true) sample_nbr sample_sc [200]); [done| |done|done|done].
  apply Forall_singleton. unfold is_byte. lia.
Defined.

Lemma xgsm_get_vt_witness : 0 <= 1440 < 64 * 7 * 24 * 60 /\ 0 <= xgsm_get_vt 1440 <= 255.
Proof. split; [lia|apply (xgsm_get_vt_period 1440); lia]. Defined.
