(* ===== verification/XgsmModem.v ===== *)
(** * xgsm.c: talking to the modem

    The serial device is an interface: polling, reading and writing it are
    operations of the class [Serial], and so are the terminal attributes.  The
    state has the device and the text written to stderr. *)
From Stdlib Require Import ZArith Lia Bool String.
From stdpp Require Import base tactics list sets.
From S2P Require Import Prelude Libc XgsmPdu.

Record termios := mk_termios { c_lflag : Z; c_vtime : Z; c_vmin : Z }.

(** ** The device *)
Class Serial (W : Type) := {
  dev_poll : Z -> Z -> W -> (Z * Z) * W;      (* events, timeout; result, revents *)
  dev_read : Z -> W -> (Z * list Z) * W;      (* room; result, the bytes *)
  dev_write : list Z -> W -> Z * W;
  dev_tcgetattr : Z -> W -> (Z * termios) * W;
  dev_tcsetattr : Z -> termios -> W -> Z * W;
  dev_open : list Z -> W -> Z * W;
  dev_errtext : W -> list Z                   (* the text for errno *)
}.

Definition POLLIN : Z := 1.
Definition POLLOUT : Z := 4.
Definition POLLERR : Z := 8.
Definition POLLHUP : Z := 16.
Definition ICANON : Z := 2.

Section modem.
Context {W : Type} `{!Serial W} (alloc : Z -> bool).

(** The device, the text on stderr and the static [debug]. *)
Record modem := mk_modem { md_dev : W; md_err : list Z; md_debug : Z }.
Abbreviation MD := (M modem).

Definition on_dev {A} (f : W -> A * W) : MD A := fun s =>
  let (a, w) := f (md_dev s) in Ok (a, mk_modem w (md_err s) (md_debug s)).

Definition fputs (s : list Z) : MD unit := puts (fun m => mk_modem (md_dev m) (md_err m ++ s) (md_debug m)).

Definition perror (s : list Z) : MD unit :=
  m ← gets id; fputs (s ++ str ": " ++ dev_errtext (md_dev m) ++ [LF]).

(** ** Hexadecimal dump *)

(** One line of at most 16 bytes. *)
Definition hexdump_line (data : list Z) : list Z :=
  let cnt := length data in
  concat (imap (fun j b => (if (j =? 8)%nat then str " " else []) ++ str " " ++ hex02 b) data) ++
  concat ((fun j => (if (j =? 8)%nat then str " " else []) ++ str "   ") <$> seq cnt (16 - cnt)) ++
  str " |" ++
  ((fun b => if isprint b then b else 46) <$> data) ++
  repeat 32 (16 - cnt) ++
  str "|" ++ [LF].

Fixpoint hexdump_text (fuel : nat) (data : list Z) : list Z :=
  match fuel, data with
  | O, _ | _, [] => []
  | S fuel, _ => hexdump_line (take 16 data) ++ hexdump_text fuel (drop 16 data)
  end.

Definition xgsm_hexdump (data : list Z) : MD unit := fputs (hexdump_text (length data) data).

(** ** Reading and writing *)
Definition xgsm_read (n timeo : Z) : MD (Z * list Z) :=
  p ← on_dev (dev_poll POLLIN timeo);
  if p.1 <=? 0 then mret (-1, [])
  else if negb (Z.land p.2 POLLIN =? 0) then on_dev (dev_read n) else mret (0, []).

Fixpoint flushin_loop (fuel : nat) (timeo : Z) : MD unit :=
  match fuel with
  | O => nofuel
  | S fuel =>
    r ← xgsm_read 64 timeo;
    if 0 <? r.1 then xgsm_hexdump r.2;; flushin_loop fuel timeo else mret tt
  end.

Definition xgsm_flushin (fuel : nat) (timeo : Z) : MD unit :=
  fputs (str "`` FLUSH" ++ [LF]);;
  flushin_loop fuel timeo;;
  fputs (str "``" ++ [LF]).

Definition xgsm_write (data : list Z) (timeo : Z) : MD Z :=
  p ← on_dev (dev_poll POLLOUT timeo);
  if (p.1 <=? 0) || negb (Z.land p.2 (Z.lor POLLHUP POLLERR) =? 0) then mret (-1)
  else if negb (Z.land p.2 POLLOUT =? 0) then on_dev (dev_write data) else mret 0.

Definition xgsm_setnobuf (fd : Z) : MD Z :=
  g ← on_dev (dev_tcgetattr fd);
  if negb (g.1 =? 0) then perror (str "tcgetattr");; mret (-1) else
  r ← on_dev (dev_tcsetattr fd (mk_termios (Z.land (c_lflag g.2) (Z.lnot ICANON)) 0 1));
  if negb (r =? 0) then perror (str "tcgetattr");; mret (-1) else mret 0.

(** ** Responses *)

(** The last index not above [i] that holds a line feed. *)
Fixpoint sol_at (resp : list Z) (i : nat) : option nat :=
  if at_ resp i =? LF then Some i
  else match i with O => None | S i => sol_at resp i end.

Definition xgsm_eoc (resp : list Z) : bool :=
  let n := length resp in
  if (n <=? 2)%nat || negb (bool_decide (drop (n - 2) resp = [CR; LF])) then false else
  match sol_at resp (n - 3) with
  | None => false
  | Some i =>
    let sol := drop i resp in
    strncaseeq 5 sol (LF :: str "OK" ++ [CR; LF]) ||
    strncaseeq 8 sol (LF :: str "ERROR" ++ [CR; LF]) ||
    strncaseeq 13 sol (LF :: str "NO CARRIER" ++ [CR; LF]) ||
    strncaseeq 12 sol (LF :: str "+CMS ERROR:") ||
    strncaseeq 12 sol (LF :: str "+CME ERROR:")
  end.

(** [resp] holds the [rdbytes] bytes read so far, [size] is the room. *)
Fixpoint readresp_loop (fuel : nat) (size : Z) (resp : list Z) : MD (option (list Z)) :=
  match fuel with
  | O => nofuel
  | S fuel =>
    let grow := size <=? strlen resp + 1 in
    let size := if grow then size * 2 else size in
    if grow && negb (alloc size) then perror (str "allocating response buffer");; mret None else
    r ← on_dev (dev_read (size - strlen resp - 1));
    if r.1 <? 0 then perror (str "reading serial device");; mret None else
    debug ← gets md_debug;
    (if 10 <? debug then xgsm_hexdump r.2 else mret tt);;
    let resp := resp ++ r.2 in
    if xgsm_eoc resp then mret (Some resp) else readresp_loop fuel size resp
  end.

Definition xgsm_readresp (fuel : nat) : MD (option (list Z)) :=
  if negb (alloc 128) then perror (str "allocating response buffer");; mret None else
  r ← readresp_loop fuel 128 [];
  match r with
  | None => mret None
  | Some resp =>
    fputs (str "<< RECV" ++ [LF]);; xgsm_hexdump resp;; fputs (str "<<" ++ [LF]);;
    xgsm_flushin fuel 500;;
    mret (Some resp)
  end.

(** Writing [data] under a heading on stderr; [true] when all of it was written. *)
Definition send (what data : list Z) : MD bool :=
  fputs (str ">> " ++ what ++ [LF]);; xgsm_hexdump data;; fputs (str ">>" ++ [LF]);;
  n ← xgsm_write data (-1);
  if negb (n =? strlen data) then perror (str "writing serial device");; mret false
  else mret true.

Definition xgsm_sendcmd (fuel : nat) (cmd : list Z) (len : Z) : MD (option (list Z)) :=
  let len := if len <? 0 then strlen cmd else len in
  ok ← send (str "SEND") (take (Z.to_nat len) cmd);
  if (ok : bool) then xgsm_readresp fuel else mret None.

(** [cmd] is the command after formatting. *)
Definition xgsm_vsendcmd (fuel : nat) (cmd : list Z) : MD (option (list Z)) :=
  xgsm_sendcmd fuel cmd (strlen cmd).

(** The bytes of [buf] against the front of [reply]: the rest of [reply], or the
    two bytes that differ. *)
Fixpoint match_reply (reply buf : list Z) : list Z + Z * Z :=
  match buf with
  | [] => inl reply
  | b :: buf =>
    if negb (toupper (at_ reply 0) =? toupper b) then inr (at_ reply 0, b)
    else match_reply (tail reply) buf
  end.

Fixpoint want_reply_loop (fuel : nat) (reply : list Z) (len timeo : Z) : MD Z :=
  match fuel with
  | O => nofuel
  | S fuel =>
    if len <=? 0 then mret 1 else
    let cnt := if 32 <? len then 32 else len in
    r ← xgsm_read cnt timeo;
    if r.1 <=? 0 then
      fputs (str "end of data while reading requested reply ('" ++ reply ++ str "')");; mret (-1)
    else
      debug ← gets md_debug;
      (if 10 <? debug then xgsm_hexdump r.2 else mret tt);;
      match match_reply reply r.2 with
      | inr (a, b) =>
        fputs (str "mismatch in wanted reply: '" ++ [toupper a] ++ str "' != '" ++ [toupper b] ++
               str "'");;
        mret 0
      | inl reply => want_reply_loop fuel reply (len - r.1) timeo
      end
  end.

Definition xgsm_want_reply (fuel : nat) (reply : list Z) (timeo : Z) : MD Z :=
  want_reply_loop fuel reply (strlen reply) timeo.

(** ** Sending a message *)

(** The dialogue of [AT+CMGS]: command, prompt, data, response. *)
Definition cmgs_dialogue (fuel : nat) (cmd data : list Z) : MD (option (list Z)) :=
  ok ← send (str "SEND SMS CMD") cmd;
  if negb ok then mret None else
  fputs (str ">> MODEM WAIT REPLY" ++ [LF]);;
  w ← xgsm_want_reply fuel ([CR; LF] ++ str "> ") 2000;
  if w <=? 0 then mret None else
  ok ← send (str "SEND SMS DATA") (data ++ [26]);
  if negb ok then mret None else xgsm_readresp fuel.

Definition xgsm_send_txt_sms (fuel : nat) (nbr msg : list Z) : MD (option (list Z)) :=
  cmgs_dialogue fuel (str "AT+CMGS=" ++ [34] ++ nbr ++ [34] ++ str ",145" ++ [CR]) msg.

Definition xgsm_send_sms (fuel : nat) (nbr : list Z) (scnbr : option (list Z)) (msg : list Z) :
    MD (option (list Z)) :=
  hpdu ← lift_res (xgsm_create_hexPDU alloc nbr scnbr msg);
  match hpdu with
  | None => mret None
  | Some hpdu =>
    fputs (str "!! PDU DATA: " ++ hpdu ++ [LF]);;
    cmgs_dialogue fuel (str "AT+CMGS=" ++ dec (xgsm_CMGS_PDU_length hpdu) ++ [CR]) hpdu
  end.

(** ** main *)
Record options := mk_options {
  o_dev : option (list Z); o_scnbr : option (list Z); o_msg : option (list Z);
  o_nbr : option (list Z); o_canon : bool; o_verbose : bool; o_mlist : bool; o_mdel : Z; o_txt : bool
}.

Definition xgsm_usage (prg : list Z) : MD unit :=
  fputs (str "use: " ++ prg ++ str " -d DEV -m MSG -n NBR [-u] [-h]" ++ [LF]).

(** One option that [getopt] returned, with its argument. *)
Definition main_option (prg : list Z) (o : options) (opt : Z * list Z) : MD options :=
  let arg := opt.2 in
  let '(mk_options dev scnbr msg nbr canon verbose mlist mdel txt) := o in
  if opt.1 =? 100 then mret (mk_options (Some arg) scnbr msg nbr canon verbose mlist mdel txt)
  else if opt.1 =? 117 then xgsm_setnobuf 0;; mret o
  else if opt.1 =? 85 then mret (mk_options dev scnbr msg nbr false verbose mlist mdel txt)
  else if opt.1 =? 118 then mret (mk_options dev scnbr msg nbr canon true mlist mdel txt)
  else if opt.1 =? 108 then mret (mk_options dev scnbr msg nbr canon verbose true mdel txt)
  else if opt.1 =? 116 then mret (mk_options dev scnbr msg nbr canon verbose mlist mdel true)
  else if opt.1 =? 82 then mret (mk_options dev scnbr msg nbr canon verbose mlist (atoi arg) txt)
  else if opt.1 =? 68 then
    puts (fun m => mk_modem (md_dev m) (md_err m) (atoi arg));; mret o
  else if opt.1 =? 67 then mret (mk_options dev (Some arg) msg nbr canon verbose mlist mdel txt)
  else if opt.1 =? 109 then mret (mk_options dev scnbr (Some arg) nbr canon verbose mlist mdel txt)
  else if opt.1 =? 110 then mret (mk_options dev scnbr msg (Some arg) canon verbose mlist mdel txt)
  else xgsm_usage prg;; mret o.

Fixpoint main_options (prg : list Z) (o : options) (opts : list (Z * list Z)) : MD options :=
  match opts with
  | [] => mret o
  | opt :: opts => o ← main_option prg o opt; main_options prg o opts
  end.

Definition options0 : options := mk_options None None None None true false false (-1) false.

Fixpoint send_all (fuel : nat) (cmds : list (list Z)) : MD unit :=
  match cmds with
  | [] => mret tt
  | c :: cmds => xgsm_sendcmd fuel (c ++ [CR]) (-1);; send_all fuel cmds
  end.

Definition init_cmds : list (list Z) := [str "AT&F"; str "ATE0"; str "AT+CMEE=1"].

Definition verbose_cmds : list (list Z) :=
  [str "AT+CFUN=1"; str "AT+CPIN?"; str "AT+CSQ"; str "AT+COPS?"; str "AT+COPS=0"; str "AT+COPN";
   str "AT^SMONC"; str "AT^MONP"; str "AT+CREG?"; str "AT+CREG=1"; str "AT+CGMI"; str "AT+CGMM";
   str "AT+CGMR"; str "AT+CGSN"; str "AT+CSCS=?"; str "AT+CIMI"; str "AT+CCID"; str "AT+CNUM";
   str "AT+CSCA?"; str "AT+CPMS?"; str "AT+CSMS=1"; str "AT+CSMP?"; str "AT+CLIP=1";
   str "AT+CNMI=0,0,0,0,1"; str "AT+CGSMS=1"].

Definition main (fuel : nat) (prg : list Z) (opts : list (Z * list Z)) : MD Z :=
  o ← main_options prg options0 opts;
  match o_dev o, o_msg o, o_nbr o with
  | Some dev, Some msg, Some nbr =>
    fd ← on_dev (dev_open dev);
    if fd =? -1 then perror dev;; mret 2 else
    (if negb (o_canon o) then xgsm_setnobuf fd;; mret tt else mret tt);;
    xgsm_flushin fuel 500;;
    send_all fuel init_cmds;;
    (if o_verbose o then send_all fuel verbose_cmds;; xgsm_vsendcmd fuel (str "AT&V" ++ [CR]);; mret tt
     else mret tt);;
    send_all fuel [str "AT^SM20=0,0"];;
    xgsm_vsendcmd fuel (str "AT+CMGF=" ++ dec (if o_txt o then 1 else 0) ++ [CR]);;
    (if o_txt o then
       send_all fuel [str "AT+CSMP=17,169,0,0"];; xgsm_send_txt_sms fuel nbr msg
     else xgsm_send_sms fuel nbr (o_scnbr o) msg);;
    send_all fuel [str "AT+CEER"];;
    (if o_mlist o then send_all fuel [str "AT+CMGL=" ++ [34] ++ str "ALL" ++ [34]] else mret tt);;
    (if 0 <? o_mdel o then xgsm_vsendcmd fuel (str "AT+CMGD=" ++ dec (o_mdel o) ++ [CR]);; mret tt
     else mret tt);;
    mret 0
  | _, _, _ => xgsm_usage prg;; mret 1
  end.
End modem.
Arguments modem : clear implicits.

(** ** Final result codes *)

(** Equality up to the case of letters. *)
Definition same_nocase (a b : list Z) : bool :=
  (length a =? length b)%nat && strncaseeq (length a) a b.

Definition final_line (line : list Z) : bool :=
  same_nocase line (str "OK") || same_nocase line (str "ERROR") ||
  same_nocase line (str "NO CARRIER") ||
  strncaseeq 11 line (str "+CMS ERROR:") || strncaseeq 11 line (str "+CME ERROR:").

Lemma sol_at_some resp i k : sol_at resp i = Some k ->
  (k <= i)%nat /\ at_ resp k = LF /\ forall j, (k < j <= i)%nat -> at_ resp j <> LF.
Proof.
  revert k. induction i as [|i IH]; intros k; cbn [sol_at]; 
    match goal with |- context [at_ ?r ?i =? LF] => destruct (Z.eqb_spec (at_ r i) LF) as [He|He] end.
  - intros [= <-]. split_and!; [lia|done|lia].
  - done.
  - intros [= <-]. split_and!; [lia|done|lia].
  - intros Hk. destruct (IH k Hk) as (? & ? & Hj). split_and!; [lia|done|].
    intros j Hj'. destruct (decide (j = S i)) as [->|]; [done|]. apply Hj. lia.
Qed.

Lemma sol_at_none resp i : sol_at resp i = None <-> forall j, (j <= i)%nat -> at_ resp j <> LF.
Proof.
  induction i as [|i IH]; cbn [sol_at]; 
    match goal with |- context [at_ ?r ?i =? LF] => destruct (Z.eqb_spec (at_ r i) LF) as [He|He] end.
  - split; [done|]. intros H. by destruct (H 0%nat).
  - split; [|done]. intros _ j Hj. by assert (j = 0)%nat as -> by lia.
  - split; [done|]. intros H. by destruct (H (S i)).
  - rewrite IH. split; intros H j Hj; [|apply H; lia].
    destruct (decide (j = S i)) as [->|]; [done|]. apply H. lia.
Qed.

Lemma at_app_r a b i : at_ (a ++ b) (length a + i) = at_ b i.
Proof. unfold at_. by rewrite app_nth2_plus. Qed.

(** The last line of a buffer that ends with CR LF. *)
Lemma sol_at_last pre line :
  LF ∉ line -> sol_at (pre ++ LF :: line ++ [CR; LF]) (length (pre ++ LF :: line ++ [CR; LF]) - 3) =
    Some (length pre).
Proof.
  intros Hni. set (resp := pre ++ LF :: line ++ [CR; LF]).
  assert (Hlen : length resp = (length pre + 1 + length line + 2)%nat)
    by (unfold resp; rewrite !length_app; cbn [length]; rewrite length_app; cbn [length]; lia).
  assert (Hat : at_ resp (length pre) = LF).
  { unfold resp. rewrite <- (Nat.add_0_r (length pre)). by rewrite at_app_r. }
  assert (Hno : forall j, (length pre < j <= length resp - 3)%nat -> at_ resp j <> LF).
  { intros j Hj Heq. apply Hni. unfold resp in Heq. replace j with (length pre + S (j - length pre - 1))%nat in Heq by lia.
    rewrite at_app_r in Heq. unfold at_ in Heq. cbn [nth] in Heq. rewrite app_nth1 in Heq by lia.
    rewrite <- Heq. apply list_elem_of_In, nth_In. lia. }
  destruct (sol_at resp (length resp - 3)) as [k|] eqn:Hs.
  - apply sol_at_some in Hs as (Hk & Hkl & Hkj). f_equal.
    destruct (Nat.lt_total k (length pre)) as [Hlt|[?|Hgt]]; [|done|].
    + exfalso. apply (Hkj (length pre)); [lia|done].
    + exfalso. by apply (Hno k); [lia|].
  - exfalso. rewrite sol_at_none in Hs. by apply (Hs (length pre)); [lia|].
Qed.

Definition plain (p : list Z) : Prop := Forall (fun c => tolower c <> CR /\ tolower c <> LF) p.

Lemma tolower_lf x : x <> LF -> tolower x <> LF.
Proof. unfold tolower, isupper, LF. intros. destruct ((65 <=? x) && (x <=? 90)) eqn:E; lia. Qed.

Lemma strncase_crlf p : forall line, plain p -> LF ∉ line ->
  strncaseeq (length p + 2) (line ++ [CR; LF]) (p ++ [CR; LF]) = same_nocase line p.
Proof.
  induction p as [|c p IH]; intros line Hp Hl.
  - destruct line as [|x [|y line]]; [done|..]; cbn [length Nat.add app strncaseeq].
    + by rewrite andb_false_r.
    + assert (tolower y <> LF) as Hy by (apply tolower_lf; set_solver +Hl).
      change (tolower LF) with LF. rewrite (proj2 (Z.eqb_neq _ LF)) by done. by rewrite andb_false_r.
  - apply Forall_cons in Hp as [[Hc1 Hc2] Hp]. destruct line as [|x line]; cbn [length Nat.add app strncaseeq].
    + change (tolower CR) with CR. rewrite (proj2 (Z.eqb_neq CR _)) by congruence. done.
    + rewrite IH; [|done|set_solver +Hl]. unfold same_nocase. cbn [length strncaseeq Nat.eqb].
      destruct (tolower x =? tolower c); cbn [andb]; [done|by rewrite andb_false_r].
Qed.

Lemma strncase_prefix p : forall line tl, plain p -> plain [CR] \/ (hd CR tl = CR) ->
  strncaseeq (length p) (line ++ tl) p = strncaseeq (length p) line p.
Proof.
  induction p as [|c p IH]; intros line tl Hp Ht; [done|].
  apply Forall_cons in Hp as [[Hc1 Hc2] Hp]. destruct line as [|x line]; cbn [app length strncaseeq].
  - destruct tl as [|y tl]; [done|]. cbn [hd] in Ht. destruct Ht as [Ht| ->].
    + apply Forall_singleton in Ht as [Ht _]. done.
    + change (tolower CR) with CR. by rewrite (proj2 (Z.eqb_neq CR _)).
  - by rewrite IH.
Qed.

Ltac plain := repeat (apply Forall_cons; split; [done|]); apply Forall_nil_2.

(** The comparisons of [xgsm_eoc] at the start of the last line. *)
Lemma final_tests line : LF ∉ line ->
  let sol := LF :: line ++ [CR; LF] in
  strncaseeq 5 sol (LF :: str "OK" ++ [CR; LF]) ||
  strncaseeq 8 sol (LF :: str "ERROR" ++ [CR; LF]) ||
  strncaseeq 13 sol (LF :: str "NO CARRIER" ++ [CR; LF]) ||
  strncaseeq 12 sol (LF :: str "+CMS ERROR:") ||
  strncaseeq 12 sol (LF :: str "+CME ERROR:") = final_line line.
Proof.
  intros Hl sol. unfold final_line, sol.
  assert (Hcrlf : forall p, plain p -> strncaseeq (S (length p + 2)) (LF :: line ++ [CR; LF])
    (LF :: p ++ [CR; LF]) = same_nocase line p).
  { intros p Hp. cbn [strncaseeq]. by rewrite strncase_crlf. }
  assert (Hpre : forall p, plain p -> strncaseeq (S (length p)) (LF :: line ++ [CR; LF]) (LF :: p) =
    strncaseeq (length p) line p).
  { intros p Hp. cbn [strncaseeq]. rewrite strncase_prefix by (done || by right). done. }
  pose proof (Hcrlf (str "OK") ltac:(plain)) as H1. pose proof (Hcrlf (str "ERROR") ltac:(plain)) as H2.
  pose proof (Hcrlf (str "NO CARRIER") ltac:(plain)) as H3.
  pose proof (Hpre (str "+CMS ERROR:") ltac:(plain)) as H4.
  pose proof (Hpre (str "+CME ERROR:") ltac:(plain)) as H5.
  change (S (length (str "OK") + 2)) with 5%nat in H1.
  change (S (length (str "ERROR") + 2)) with 8%nat in H2.
  change (S (length (str "NO CARRIER") + 2)) with 13%nat in H3.
  change (S (length (str "+CMS ERROR:"))) with 12%nat in H4.
  change (S (length (str "+CME ERROR:"))) with 12%nat in H5.
  by rewrite H1, H2, H3, H4, H5.
Qed.

Lemma at_lookup s i x : at_ s i = x -> (i < length s)%nat -> s !! i = Some x.
Proof. unfold at_. intros <- Hi. destruct (nth_lookup_or_length s i 0); [done|lia]. Qed.

(** [xgsm_eoc] recognises exactly the buffers whose last line, between a line
    feed and the final CR LF, is a final result code of the modem. *)
Theorem xgsm_eoc_correct resp :
  xgsm_eoc resp = true <->
  exists pre line, resp = pre ++ LF :: line ++ [CR; LF] /\ (LF ∉ line) /\ final_line line = true.
Proof.
  split.
  - unfold xgsm_eoc. destruct (Nat.leb_spec (length resp) 2) as [|Hlen]; [done|].
    destruct (bool_decide_reflect (drop (length resp - 2) resp = [CR; LF])) as [Hd|]; [|done].
    cbn [orb negb]. destruct (sol_at resp (length resp - 3)) as [i|] eqn:Hs; [|done].
    apply sol_at_some in Hs as (Hi & Hil & Hno).
    set (body := take (length resp - 2) resp).
    assert (Hb : resp = body ++ [CR; LF]) by (unfold body; by rewrite <- Hd, take_drop).
    assert (Hbl : length body = (length resp - 2)%nat) by (unfold body; rewrite length_take; lia).
    assert (Hat : forall j, (j < length body)%nat -> at_ resp j = at_ body j).
    { intros j Hj. rewrite Hb at 1. unfold at_. by rewrite app_nth1. }
    assert (Hbi : body !! i = Some LF) by (apply at_lookup; [rewrite <- Hat by lia; done|lia]).
    set (line := drop (S i) body).
    assert (Hbody : body = take i body ++ LF :: line) by (unfold line; by rewrite take_drop_middle).
    assert (Hline : LF ∉ line).
    { intros [j Hj]%list_elem_of_lookup. unfold line in Hj. rewrite lookup_drop in Hj.
      pose proof (lookup_lt_Some _ _ _ Hj) as Hlt. apply (Hno (S i + j)%nat); [lia|].
      rewrite Hat by lia. unfold at_. rewrite nth_lookup. by rewrite Hj. }
    assert (Hsol : drop i resp = LF :: line ++ [CR; LF]).
    { rewrite Hb, Hbody, <- app_assoc. rewrite drop_app_length'; [done|]. rewrite length_take. lia. }
    rewrite Hsol, final_tests by done. intros Hf. exists (take i body), line. split_and!; [|done|done].
    by rewrite Hb, Hbody at 1; rewrite <- app_assoc.
  - intros (pre & line & -> & Hl & Hf). unfold xgsm_eoc. set (resp := pre ++ LF :: line ++ [CR; LF]).
    assert (Hlen : length resp = (length pre + 1 + length line + 2)%nat)
      by (unfold resp; rewrite !length_app; cbn [length]; rewrite length_app; cbn [length]; lia).
    destruct (Nat.leb_spec (length resp) 2); [lia|].
    assert (Hd : drop (length resp - 2) resp = [CR; LF]).
    { unfold resp at 2. change (LF :: line ++ [CR; LF]) with ((LF :: line) ++ [CR; LF]).
      rewrite app_assoc. apply drop_app_length'. rewrite length_app. cbn [length]. lia. }
    rewrite bool_decide_eq_true_2 by done. cbn [orb negb].
    pose proof (sol_at_last pre line Hl) as Hs. fold resp in Hs. rewrite Hs. unfold resp.
    rewrite drop_app_length. by rewrite final_tests.
Qed.

(** ** A scripted device *)

(** The device delivers the chunks of [sc_in] one read at a time; an empty chunk
    is a silence that one poll sees.  Without chunks it is at end of file. *)
Record script := mk_script { sc_in : list (list Z); sc_out : list (list Z) }.

#[export] Instance script_serial : Serial script := {
  dev_poll ev _ w :=
    if ev =? POLLIN then
      match sc_in w with
      | [] => ((1, POLLIN), w)
      | [] :: l => ((0, 0), mk_script l (sc_out w))
      | _ :: _ => ((1, POLLIN), w)
      end
    else ((1, POLLOUT), w);
  dev_read n w :=
    match sc_in w with
    | [] => ((0, []), w)
    | c :: l =>
      let a := take (Z.to_nat n) c in let b := drop (Z.to_nat n) c in
      ((strlen a, a), mk_script (match b with [] => l | _ => b :: l end) (sc_out w))
    end;
  dev_write d w := (strlen d, mk_script (sc_in w) (sc_out w ++ [d]));
  dev_tcgetattr _ w := ((0, mk_termios 0 0 0), w);
  dev_tcsetattr _ _ w := (0, w);
  dev_open _ w := (3, w);
  dev_errtext _ := str "Error"
}.

(** ** Proofs about the scripted device *)
Section scripted.
Context (alloc : Z -> bool) (Halloc : forall n, alloc n = true).

Lemma wp_on_dev {A} (f : script -> A * script) s (Q : A -> modem script -> Prop) :
  Q (f (md_dev s)).1 (mk_modem (f (md_dev s)).2 (md_err s) (md_debug s)) -> wp (on_dev f) s Q.
Proof. unfold wp, on_dev. by destruct (f (md_dev s)). Qed.

(** Writing to stderr changes nothing else. *)
Lemma wp_fputs t s (Q : unit -> modem script -> Prop) :
  (forall e, Q tt (mk_modem (md_dev s) e (md_debug s))) -> wp (fputs t) s Q.
Proof. intros HQ. apply HQ. Qed.

Lemma wp_debug_dump d (data : list Z) s (Q : unit -> modem script -> Prop) :
  (forall e, Q tt (mk_modem (md_dev s) e (md_debug s))) ->
  wp (if 10 <? d then xgsm_hexdump data else mret tt) s Q.
Proof.
  intros HQ. destruct (10 <? d); [by apply wp_fputs|]. apply wp_ret. destruct s. apply HQ.
Qed.

Definition nonempty (cs : list (list Z)) : Prop := Forall (fun c => c <> []) cs.

(** What is left of the script after a read of at most [n] bytes. *)
Definition rest_of (n : nat) (c : list Z) (l : list (list Z)) : list (list Z) :=
  match drop n c with [] => l | b => b :: l end.

Lemma rest_of_app n c l l' : rest_of n c (l ++ l') = rest_of n c l ++ l'.
Proof. unfold rest_of. by destruct (drop n c). Qed.

Lemma rest_of_concat n c l : take n c ++ concat (rest_of n c l) = concat (c :: l).
Proof.
  unfold rest_of. cbn [concat]. destruct (drop n c) eqn:Hd.
  - pose proof (take_drop n c) as Ht. rewrite Hd, app_nil_r in Ht. by rewrite Ht.
  - cbn [concat]. rewrite <- Hd, app_assoc, take_drop. done.
Qed.

Lemma rest_of_nonempty n c l : nonempty l -> nonempty (rest_of n c l).
Proof. unfold rest_of. intros Hl. destruct (drop n c); [done|by constructor]. Qed.

Lemma concat_nil cs : nonempty cs -> concat cs = [] -> cs = [].
Proof. intros Hn Hc. destruct Hn as [|c cs Hc' _]; [done|]. cbn in Hc. by destruct c. Qed.

(** One read of the device. *)
Lemma dev_read_chunk n c l o : n <> 0 -> 0 <= n ->
  dev_read n (mk_script (c :: l) o) =
    ((strlen (take (Z.to_nat n) c), take (Z.to_nat n) c), mk_script (rest_of (Z.to_nat n) c l) o).
Proof. intros _ _. cbn. unfold rest_of. by destruct (drop (Z.to_nat n) c). Qed.

Lemma readresp_loop_ok fuel : forall size resp cs rest o e d Q,
  nonempty cs -> (length (concat cs) < fuel)%nat -> cs <> [] ->
  2 <= size -> strlen resp + 1 <= size ->
  xgsm_eoc (resp ++ concat cs) = true ->
  (forall k, (k < length (resp ++ concat cs))%nat -> xgsm_eoc (take k (resp ++ concat cs)) = false) ->
  (forall e', Q (Some (resp ++ concat cs)) (mk_modem (mk_script rest o) e' d)) ->
  wp (readresp_loop alloc fuel size resp) (mk_modem (mk_script (cs ++ rest) o) e d) Q.
Proof.
  induction fuel as [|fuel IH]; intros size resp cs rest o e d Q Hn Hf Hne H2 Hsz Heoc Hpre HQ; [lia|].
  cbn [readresp_loop]. rewrite Halloc, andb_false_r.
  set (size' := if size <=? strlen resp + 1 then size * 2 else size).
  pose proof (strlen_nonneg resp).
  assert (Hroom : 1 <= size' - strlen resp - 1).
  { unfold size'. destruct (Z.leb_spec size (strlen resp + 1)); lia. }
  remember (size' - strlen resp - 1) as room eqn:Hr.
  destruct cs as [|c cs]; [done|]. apply Forall_cons in Hn as [Hc Hn].
  apply wp_bind, wp_on_dev. cbn [md_dev md_err md_debug app].
  rewrite dev_read_chunk by lia. cbn [fst snd].
  set (a := take (Z.to_nat room) c).
  assert (Ha : (0 < length a)%nat /\ strlen a <= room).
  { unfold a, strlen. rewrite length_take. destruct c; [done|]. cbn [length]. lia. }
  rewrite (proj2 (Z.ltb_ge (strlen a) 0)) by apply strlen_nonneg.
  apply wp_bind, wp_gets, wp_bind, wp_debug_dump. intros e1. cbn [md_dev md_err md_debug].
  pose proof (rest_of_concat (Z.to_nat room) c cs) as Hrc. fold a in Hrc.
  set (cs' := rest_of (Z.to_nat room) c cs) in *. rewrite rest_of_app. fold cs'.
  rewrite <- Hrc, app_assoc in Heoc, Hpre, HQ.
  assert (Hlen : (length (concat cs') < length (concat (c :: cs)))%nat).
  { rewrite <- Hrc, length_app. lia. }
  assert (Hn' : nonempty cs') by by apply rest_of_nonempty.
  destruct (xgsm_eoc (resp ++ a)) eqn:He.
  - destruct (decide (concat cs' = [])) as [Hnil|Hnn].
    + apply concat_nil in Hnil; [|done]. rewrite Hnil, app_nil_r in *. apply wp_ret. apply HQ.
    + specialize (Hpre (length (resp ++ a))). rewrite take_app_length in Hpre.
      rewrite He in Hpre. discriminate Hpre. rewrite !length_app.
      destruct (concat cs'); [done|cbn; lia].
  - assert (cs' <> []) by (intros Hnil; rewrite Hnil in Heoc; cbn in Heoc; rewrite app_nil_r in Heoc; congruence).
    apply (IH size' (resp ++ a) cs'); try done; rewrite ?strlen_app; lia.
Qed.

(** A silence ends [xgsm_flushin]. *)
Lemma wp_flushin fuel t rest o e d Q : (0 < fuel)%nat ->
  (forall e', Q tt (mk_modem (mk_script rest o) e' d)) ->
  wp (xgsm_flushin fuel t) (mk_modem (mk_script ([] :: rest) o) e d) Q.
Proof.
  intros Hf HQ. destruct fuel as [|fuel]; [lia|]. apply wp_bind, wp_fputs. intros e1.
  cbn [md_dev md_err md_debug flushin_loop]. apply wp_bind, wp_bind, wp_bind, wp_on_dev. cbn.
  apply wp_ret. cbn. apply HQ.
Qed.

Lemma readresp_ok fuel cs rest o e d Q :
  nonempty cs -> (length (concat cs) < fuel)%nat -> cs <> [] ->
  xgsm_eoc (concat cs) = true ->
  (forall k, (k < length (concat cs))%nat -> xgsm_eoc (take k (concat cs)) = false) ->
  (forall e', Q (Some (concat cs)) (mk_modem (mk_script rest o) e' d)) ->
  wp (xgsm_readresp alloc fuel) (mk_modem (mk_script (cs ++ [] :: rest) o) e d) Q.
Proof.
  intros Hn Hf Hne Heoc Hpre HQ. unfold xgsm_readresp. rewrite Halloc. cbn [negb].
  apply wp_bind. eapply (readresp_loop_ok fuel 128 []); try done. intros e1. cbn [app].
  apply wp_bind, wp_fputs. intros e2. apply wp_bind, wp_fputs. intros e3.
  apply wp_bind, wp_fputs. intros e4. apply wp_bind. cbn [md_dev md_err md_debug].
  apply wp_flushin; [lia|]. intros e5. by apply wp_ret.
Qed.

(** At end of file the loop goes on for ever. *)
Lemma readresp_loop_eof fuel : forall size resp s, sc_in (md_dev s) = [] -> xgsm_eoc resp = false ->
  readresp_loop alloc fuel size resp s = NoFuel.
Proof.
  induction fuel as [|fuel IH]; intros size resp s Hs He; [done|].
  destruct s as [[i o] e d]. cbn in Hs. subst i. cbn [readresp_loop].
  rewrite Halloc, andb_false_r. unfold mbind, M_bind, on_dev, gets. cbn [md_dev dev_read script_serial sc_in].
  cbn [fst snd md_debug]. change (0 <? 0) with false. cbv iota. rewrite app_nil_r, He.
  cbn [md_debug md_err]. destruct (10 <? d); apply IH; done.
Qed.

(** ** The prompt *)
Definition same_upper (a b : list Z) : Prop := (toupper <$> a) = (toupper <$> b).

Lemma match_reply_ok buf : forall reply, (length buf <= length reply)%nat ->
  (same_upper buf (take (length buf) reply) /\
     match_reply reply buf = inl (drop (length buf) reply)) \/
  (~ same_upper buf (take (length buf) reply) /\ exists x, match_reply reply buf = inr x).
Proof.
  unfold same_upper. induction buf as [|b buf IH]; intros [|r reply] Hl; cbn in Hl; try lia;
    [by left|by left|].
  cbn [match_reply at_ nth length take drop fmap list_fmap tail].
  destruct (Z.eqb_spec (toupper r) (toupper b)) as [Heq|Hne]; cbn [negb].
  - destruct (IH reply ltac:(lia)) as [[Hs Hm]|[Hs Hm]]; [left|right].
    + split; [|done]. cbn. f_equal; [done|exact Hs].
    + split; [|done]. cbn. intros [= _ Hx]. by apply Hs.
  - right. split; [|by eexists]. cbn. intros [= Hx _]. congruence.
Qed.

Lemma want_reply_loop_ok fuel : forall reply cs rest o e d t Q,
  nonempty cs -> (length reply < fuel)%nat -> (length reply <= length (concat cs))%nat ->
  (forall e' cs', nonempty cs' -> concat cs' = drop (length reply) (concat cs) ->
     same_upper (take (length reply) (concat cs)) reply ->
     Q 1 (mk_modem (mk_script (cs' ++ rest) o) e' d)) ->
  (forall s', ~ same_upper (take (length reply) (concat cs)) reply -> Q 0 s') ->
  wp (want_reply_loop fuel reply (strlen reply) t) (mk_modem (mk_script (cs ++ rest) o) e d) Q.
Proof.
  induction fuel as [|fuel IH]; intros reply cs rest o e d t Q Hn Hf Hl H1 H0; [lia|].
  cbn [want_reply_loop]. destruct (Z.leb_spec (strlen reply) 0) as [Hz|Hz].
  { apply wp_ret. destruct reply; [|unfold strlen in Hz; cbn in Hz; lia]. by apply (H1 e cs). }
  set (cnt := if 32 <? strlen reply then 32 else strlen reply).
  assert (Hcnt : 1 <= cnt <= strlen reply) by (unfold cnt; destruct (Z.ltb_spec 32 (strlen reply)); lia).
  destruct cs as [|c cs]; [unfold strlen in Hz; cbn in Hl; lia|]. apply Forall_cons in Hn as [Hc Hn].
  apply wp_bind, wp_bind, wp_on_dev. cbn [md_dev md_err md_debug app].
  assert (Hpoll : dev_poll POLLIN t (mk_script (c :: cs ++ rest) o) =
    ((1, POLLIN), mk_script (c :: cs ++ rest) o)) by by destruct c.
  rewrite Hpoll. cbn [fst snd]. change (1 <=? 0) with false. cbv iota.
  change (negb (Z.land POLLIN POLLIN =? 0)) with true. cbv iota.
  apply wp_on_dev. cbn [md_dev md_err md_debug]. rewrite dev_read_chunk by lia. cbn [fst snd].
  set (a := take (Z.to_nat cnt) c).
  assert (Ha : (0 < length a)%nat /\ strlen a <= cnt).
  { unfold a, strlen. rewrite length_take. destruct c; [done|]. cbn [length]. lia. }
  rewrite (proj2 (Z.leb_gt (strlen a) 0)) by (unfold strlen in *; lia).
  apply wp_bind, wp_gets, wp_bind, wp_debug_dump. intros e1. cbn [md_dev md_err md_debug].
  pose proof (rest_of_concat (Z.to_nat cnt) c cs) as Hrc. fold a in Hrc.
  set (cs' := rest_of (Z.to_nat cnt) c cs) in *. rewrite rest_of_app. fold cs'.
  assert (Hn' : nonempty cs') by by apply rest_of_nonempty.
  assert (Hal : (length a <= length reply)%nat) by (unfold strlen in *; lia).
  rewrite <- Hrc in *.
  assert (Hsplit : forall b, same_upper (take (length reply) (a ++ b)) reply <->
    same_upper a (take (length a) reply) /\
    same_upper (take (length (drop (length a) reply)) b) (drop (length a) reply)).
  { intros b. rewrite take_app_ge by done. rewrite length_drop.
    unfold same_upper. rewrite <- (take_drop (length a) reply) at 2. rewrite !fmap_app.
    split; [|intros [-> ->]; done]. apply app_inj_1. rewrite !length_fmap, length_take. lia. }
  destruct (match_reply_ok a reply Hal) as [[Hs Hm]|[Hs [x Hm]]]; rewrite Hm.
  - assert (Hsr : strlen reply - strlen a = strlen (drop (length a) reply)).
    { unfold strlen. rewrite length_drop. lia. }
    rewrite Hsr. apply IH; [done|rewrite length_drop; lia| | |].
    + rewrite length_app in Hl. rewrite length_drop. lia.
    + intros e' cs2 Hn2 Hc2 Hs2. apply H1; [done| |by apply Hsplit].
      rewrite Hc2, length_drop, drop_app_ge by done. done.
    + intros s' Hns. apply H0. rewrite Hsplit. tauto.
  - destruct x as [x y]. apply wp_bind, wp_fputs. intros e2. apply wp_ret, H0. rewrite Hsplit. tauto.
Qed.
End scripted.

(** ** Properties of the dialogue *)

(** however the device cuts its answer into reads, [xgsm_readresp] returns the
    bytes up to and including the first final result code, and consumes no more. *)
Theorem xgsm_readresp_correct alloc fuel cs rest o e d : (forall n, alloc n = true) ->
  nonempty cs -> cs <> [] -> (length (concat cs) < fuel)%nat ->
  xgsm_eoc (concat cs) = true ->
  (forall k, (k < length (concat cs))%nat -> xgsm_eoc (take k (concat cs)) = false) ->
  exists e', xgsm_readresp alloc fuel (mk_modem (mk_script (cs ++ [] :: rest) o) e d) =
    Ok (Some (concat cs), mk_modem (mk_script rest o) e' d).
Proof.
  intros Ha Hn Hne Hf He Hk.
  assert (wp (xgsm_readresp alloc fuel) (mk_modem (mk_script (cs ++ [] :: rest) o) e d)
    (fun r s' => r = Some (concat cs) /\ exists e', s' = mk_modem (mk_script rest o) e' d)) as Hw.
  { eapply readresp_ok; eauto. }
  apply wp_run in Hw as (r & s' & Hr & -> & e' & ->). eauto.
Qed.

(** At end of file (a hung-up line reads 0 bytes) [xgsm_readresp] never
    returns: whatever was read before, no number of turns is enough. *)
Theorem xgsm_readresp_eof alloc fuel size resp (s : modem script) : (forall n, alloc n = true) ->
  sc_in (md_dev s) = [] -> xgsm_eoc resp = false ->
  readresp_loop alloc fuel size resp s = NoFuel.
Proof. intros Ha. by apply readresp_loop_eof. Qed.

(** When the device delivers at least as many bytes as wanted,
    [xgsm_want_reply] answers 1 exactly when they are the wanted ones up to
    case, and leaves the bytes behind them for the next read. *)
Theorem xgsm_want_reply_correct fuel reply cs rest o e d t :
  nonempty cs -> (length reply < fuel)%nat -> (length reply <= length (concat cs))%nat ->
  exists r s', xgsm_want_reply fuel reply t (mk_modem (mk_script (cs ++ rest) o) e d) = Ok (r, s') /\
    (r = 1 <-> same_upper (take (length reply) (concat cs)) reply) /\ (r = 0 \/ r = 1) /\
    (r = 1 -> exists cs', sc_in (md_dev s') = cs' ++ rest /\
       concat cs' = drop (length reply) (concat cs)).
Proof.
  intros Hn Hf Hl.
  assert (wp (xgsm_want_reply fuel reply t) (mk_modem (mk_script (cs ++ rest) o) e d)
    (fun r s' => (r = 1 <-> same_upper (take (length reply) (concat cs)) reply) /\ (r = 0 \/ r = 1) /\
    (r = 1 -> exists cs', sc_in (md_dev s') = cs' ++ rest /\
       concat cs' = drop (length reply) (concat cs)))) as Hw.
  { apply want_reply_loop_ok; [done|done|done|..].
    - intros e' cs' Hn' Hc Hs. split_and!; [done|by right|]. intros _. by exists cs'.
    - intros s' Hs. split_and!; [split; [done|tauto]|by left|done]. }
  apply wp_run in Hw as (r & s' & Hr & ?). eauto.
Qed.

(** ** Concrete dialogues *)
Definition sample_chunks : list (list Z) := [str "+CSQ"; str ": 12" ++ [CR; LF]; LF :: str "ok"; [CR]; [LF]].

Lemma xgsm_readresp_witness : exists e',
  xgsm_readresp (fun _ => true) 50 (mk_modem (mk_script (sample_chunks ++ [] :: []) []) [] 0) =
    Ok (Some (concat sample_chunks), mk_modem (mk_script [] []) e' 0).
Proof.
  apply (xgsm_readresp_correct (fun _ => true) 50 sample_chunks [] [] [] 0); [done| |done| |done|].
  - repeat (apply Forall_cons; split; [done|]). apply Forall_nil_2.
  - cbn. lia.
  - intros k Hk. assert (forallb (fun k => negb (xgsm_eoc (take k (concat sample_chunks))))
      (seq 0 (length (concat sample_chunks))) = true) as Hall by by vm_compute.
    rewrite forallb_forall in Hall. specialize (Hall k). rewrite in_seq in Hall.
    apply negb_true_iff, Hall. lia.
Defined.

Lemma xgsm_readresp_eof_witness :
  readresp_loop (fun _ => true) 1000 128 (str "AT") (mk_modem (mk_script [] []) [] 0) = NoFuel.
Proof.
  by apply (xgsm_readresp_eof (fun _ => true) 1000 128 (str "AT") (mk_modem (mk_script [] []) [] 0)).
Defined.

Lemma xgsm_want_reply_witness : exists r s',
  xgsm_want_reply 9 ([CR; LF] ++ str "> ") 2000 (mk_modem (mk_script ([[CR]; LF :: str "> x"] ++ []) []) [] 0)
    = Ok (r, s') /\
  (r = 1 <-> same_upper ([CR; LF] ++ str "> ") ([CR; LF] ++ str "> ")) /\ (r = 0 \/ r = 1) /\
  (r = 1 -> exists cs', sc_in (md_dev s') = cs' ++ [] /\ concat cs' = str "x").
Proof.
  apply (xgsm_want_reply_correct 9 ([CR; LF] ++ str "> ") [[CR]; LF :: str "> x"] [] [] [] 0 2000).
  - repeat (apply Forall_cons; split; [done|]). apply Forall_nil_2.
  - cbn. lia.
  - cbn. lia.
Defined.
