(* ===== verification/XgsmMain.v ===== *)
(** * xgsm.c: main against a modem that answers

    The program of XgsmModem run on the scripted device: the options, and the
    order of everything that is written to the modem when every command is
    answered and the prompt for the message comes. *)
From Stdlib Require Import ZArith Lia Bool String.
From stdpp Require Import base tactics list sets.
From S2P Require Import Prelude Libc XgsmPdu XgsmModem.

(** ** The dialogue *)

(** One exchange: a command line, or a message behind its prompt. *)
Inductive exchange :=
  | Say (cmd : list Z)
  | Message (cmd text : list Z).

(** What an exchange writes. *)
Definition written (x : exchange) : list (list Z) :=
  match x with
  | Say c => [c ++ [CR]]
  | Message c t => [c ++ [CR]; t ++ [26]]
  end.

Definition prompt : list Z := [CR; LF] ++ str "> ".

(** [cs] is an answer with its first final result code at the end. *)
Record answer (fuel : nat) (cs : list (list Z)) : Prop := mk_answer {
  an_nonempty : nonempty cs;
  an_some : cs <> [];
  an_fuel : (length (concat cs) < fuel)%nat;
  an_final : xgsm_eoc (concat cs) = true;
  an_first : forall k, (k < length (concat cs))%nat -> xgsm_eoc (take k (concat cs)) = false
}.

(** The chunks with which the modem answers an exchange: an answer and then a
    silence; before the answer to a message the prompt, in any pieces. *)
Inductive replies (fuel : nat) : exchange -> list (list Z) -> Prop :=
  | replies_say c cs : answer fuel cs -> replies fuel (Say c) (cs ++ [[]])
  | replies_message c t ps cs : nonempty ps -> concat ps = prompt -> answer fuel cs ->
      replies fuel (Message c t) (ps ++ cs ++ [[]]).

(** The chunks for the exchanges in order. *)
Definition conversation (fuel : nat) (xs : list exchange) (ins : list (list Z)) : Prop :=
  exists rs, ins = concat rs /\ Forall2 (replies fuel) xs rs.

(** ** The options *)
Definition last_arg (c : Z) (d : option (list Z)) (opts : list (Z * list Z)) : option (list Z) :=
  fold_left (fun d (o : Z * list Z) => if o.1 =? c then Some o.2 else d) opts d.

Definition given (c : Z) (d : bool) (opts : list (Z * list Z)) : bool :=
  fold_left (fun d (o : Z * list Z) => (o.1 =? c) || d) opts d.

Definition last_number (c d : Z) (opts : list (Z * list Z)) : Z :=
  fold_left (fun d (o : Z * list Z) => if o.1 =? c then atoi o.2 else d) opts d.

(** The last [-d -C -m -n -R] count, and whether [-U -v -l -t] were given. *)
Definition options_from (o : options) (opts : list (Z * list Z)) : options :=
  mk_options (last_arg 100 (o_dev o) opts) (last_arg 67 (o_scnbr o) opts)
    (last_arg 109 (o_msg o) opts) (last_arg 110 (o_nbr o) opts)
    (negb (given 85 (negb (o_canon o)) opts)) (given 118 (o_verbose o) opts)
    (given 108 (o_mlist o) opts) (last_number 82 (o_mdel o) opts) (given 116 (o_txt o) opts).

(** What main has to say for its options. *)
Definition main_exchanges (o : options) (send_msg : exchange) : list exchange :=
  (Say <$> init_cmds) ++
  (if o_verbose o then (Say <$> verbose_cmds) ++ [Say (str "AT&V")] else []) ++
  [Say (str "AT^SM20=0,0")] ++ [Say (str "AT+CMGF=" ++ dec (if o_txt o then 1 else 0))] ++
  (if o_txt o then [Say (str "AT+CSMP=17,169,0,0")] else []) ++
  [send_msg] ++ [Say (str "AT+CEER")] ++
  (if o_mlist o then [Say (str "AT+CMGL=" ++ [34] ++ str "ALL" ++ [34])] else []) ++
  (if 0 <? o_mdel o then [Say (str "AT+CMGD=" ++ dec (o_mdel o))] else []).

(** The message itself: as text, or as the PDU that [xgsm_create_hexPDU] made. *)
Definition message_of (o : options) (nbr msg hpdu : list Z) : exchange :=
  if o_txt o then Message (str "AT+CMGS=" ++ [34] ++ nbr ++ [34] ++ str ",145") msg
  else Message (str "AT+CMGS=" ++ dec (xgsm_CMGS_PDU_length hpdu)) hpdu.

(** ** Running the parts *)
Section run.
Context (alloc : Z -> bool) (Halloc : forall n, alloc n = true) (fuel : nat) (Hfuel : (4 < fuel)%nat).

(** Told [ins] by the device, the part [m] writes [o] and nothing else. *)
Definition told {A} (m : M (modem script) A) (ins o : list (list Z)) (P : A -> Prop) : Prop :=
  forall rest old e d, wp m (mk_modem (mk_script (ins ++ rest) old) e d)
    (fun a s => P a /\ md_dev s = mk_script rest (old ++ o)).

Lemma told_bind {A B} (m : M (modem script) A) (k : A -> M (modem script) B) i1 i2 o1 o2 P Q :
  told m i1 o1 P -> (forall a, P a -> told (k a) i2 o2 Q) ->
  told (m ≫= k) (i1 ++ i2) (o1 ++ o2) Q.
Proof.
  intros Hm Hk rest old e d. apply wp_bind. rewrite <- app_assoc.
  eapply wp_mono; [apply Hm|]. cbv beta. intros a [dev e' d'] [Ha Hd]. cbn in Hd. subst dev.
  eapply wp_mono; [by apply Hk|]. cbv beta. intros b s [Hb Hs]. split; [done|]. by rewrite app_assoc.
Qed.

Lemma told_ret {A} (a : A) (P : A -> Prop) : P a -> told (mret a) [] [] P.
Proof. intros Ha rest old e d. apply wp_ret. cbn. by rewrite app_nil_r. Qed.

Lemma told_fputs t : told (fputs t) [] [] (fun _ => True).
Proof. intros rest old e d. apply wp_fputs. intros e'. cbn. by rewrite app_nil_r. Qed.

(** A part that says and hears nothing in front of another. *)
Lemma told_quiet {A B} (m : M (modem script) A) (k : A -> M (modem script) B) i o P Q :
  told m [] [] P -> (forall a, P a -> told (k a) i o Q) -> told (m ≫= k) i o Q.
Proof. intros Hm Hk. by eapply (told_bind m k [] i [] o P Q). Qed.

(** A part whose result is dropped in front of the rest. *)
Lemma told_then {A B} (m : M (modem script) A) (k : M (modem script) B) i1 i2 o1 o2 P Q :
  told m i1 o1 P -> told k i2 o2 Q -> told (m ;; k) (i1 ++ i2) (o1 ++ o2) Q.
Proof. intros Hm Hk. by eapply told_bind. Qed.

Lemma told_flushin t : told (xgsm_flushin fuel t) [[]] [] (fun _ => True).
Proof. intros rest old e d. apply wp_flushin; [lia|]. intros e'. cbn. by rewrite app_nil_r. Qed.

Lemma told_readresp cs : answer fuel cs ->
  told (xgsm_readresp alloc fuel) (cs ++ [[]]) [] (fun r => r = Some (concat cs)).
Proof.
  intros [Hn Hs Hf He Hk] rest old e d. rewrite <- app_assoc. apply readresp_ok; try done.
  intros e'. cbn. by rewrite app_nil_r.
Qed.

(** Everything is written: the scripted device takes any length. *)
Lemma told_send what data : told (send what data) [] [data] (fun b => b = true).
Proof.
  intros rest old e d. unfold send. apply wp_bind, wp_fputs. intros e1. apply wp_bind, wp_fputs. intros e2.
  apply wp_bind, wp_fputs. intros e3. apply wp_bind. unfold xgsm_write. apply wp_bind, wp_on_dev.
  cbn. apply wp_on_dev. cbn. rewrite Z.eqb_refl. apply wp_ret. done.
Qed.

Lemma told_vsendcmd c cs : answer fuel cs ->
  told (xgsm_vsendcmd alloc fuel c) (cs ++ [[]]) [c] (fun r => r = Some (concat cs)).
Proof.
  intros Ha. unfold xgsm_vsendcmd, xgsm_sendcmd.
  rewrite (proj2 (Z.ltb_ge (strlen c) 0)) by apply strlen_nonneg.
  replace (take (Z.to_nat (strlen c)) c) with c by (unfold strlen; by rewrite Nat2Z.id, firstn_all).
  eapply (told_bind _ _ [] _ [c] []); [apply told_send|]. intros b ->. by apply told_readresp.
Qed.

(** A negative length stands for that of the string. *)
Lemma sendcmd_whole c : xgsm_sendcmd (W := script) alloc fuel c (-1) = xgsm_vsendcmd alloc fuel c.
Proof.
  unfold xgsm_vsendcmd, xgsm_sendcmd. by rewrite (proj2 (Z.ltb_ge (strlen c) 0)) by apply strlen_nonneg.
Qed.

Lemma told_prompt ps : nonempty ps -> concat ps = prompt ->
  told (xgsm_want_reply fuel prompt 2000) ps [] (fun w => w = 1).
Proof.
  intros Hn Hc rest old e d. apply want_reply_loop_ok; [done|cbn; lia|by rewrite Hc| |].
  - intros e' cs' Hn' Hcs _. rewrite Hc in Hcs. apply concat_nil in Hcs as ->; [|done].
    cbn. by rewrite app_nil_r.
  - intros s'. by rewrite Hc.
Qed.

Lemma told_cmgs c t ins : replies fuel (Message c t) ins ->
  told (cmgs_dialogue alloc fuel (c ++ [CR]) t) ins (written (Message c t)) (fun _ => True).
Proof.
  intros Hr. inversion Hr as [|? ? ps cs Hn Hc Ha]; subst. unfold cmgs_dialogue.
  eapply (told_bind _ _ [] _ [_] [_]); [apply told_send|]. intros b ->. cbn [negb].
  eapply told_quiet; [apply told_fputs|]. intros _ _.
  eapply (told_bind _ _ ps _ [] _); [by apply told_prompt|]. intros w ->. change (1 <=? 0) with false. cbv iota.
  eapply (told_bind _ _ [] _ [_] []); [apply told_send|]. intros b ->. cbn [negb].
  intros rest old e d. eapply wp_mono; [by apply told_readresp|]. by intros a s [_ ?].
Qed.

(** ** Commands in a row *)
Lemma conversation_app xs ys i1 i2 :
  conversation fuel xs i1 -> conversation fuel ys i2 -> conversation fuel (xs ++ ys) (i1 ++ i2).
Proof.
  intros (r1 & -> & H1) (r2 & -> & H2). exists (r1 ++ r2). split; [by rewrite concat_app|by apply Forall2_app].
Qed.

Lemma conversation_split xs ys ins : conversation fuel (xs ++ ys) ins ->
  exists i1 i2, ins = i1 ++ i2 /\ conversation fuel xs i1 /\ conversation fuel ys i2.
Proof.
  intros (rs & -> & (r1 & r2 & H1 & H2 & ->)%Forall2_app_inv_l). rewrite concat_app.
  exists (concat r1), (concat r2). split_and!; [done|by exists r1|by exists r2].
Qed.

Lemma conversation_one x ins : conversation fuel [x] ins -> replies fuel x ins.
Proof.
  intros (rs & -> & (r & rs' & Hr & Hn & ->)%Forall2_cons_inv_l). apply Forall2_nil_inv_l in Hn as ->.
  cbn. by rewrite app_nil_r.
Qed.

Lemma conversation_none ins : conversation fuel [] ins -> ins = [].
Proof. by intros (rs & -> & ->%Forall2_nil_inv_l). Qed.

(** [m] holds the exchanges [xs] whatever the modem's pieces are, and its
    result satisfies [P]. *)
Definition holds {A} (m : M (modem script) A) (xs : list exchange) (P : A -> Prop) : Prop :=
  forall ins, conversation fuel xs ins -> told m ins (concat (written <$> xs)) P.

Definition any {A} (_ : A) : Prop := True.

Lemma holds_then {A B} (m : M (modem script) A) (k : M (modem script) B) xs ys P Q :
  holds m xs P -> holds k ys Q -> holds (m ;; k) (xs ++ ys) Q.
Proof.
  intros Hm Hk ins (i1 & i2 & -> & H1 & H2)%conversation_split. rewrite fmap_app, concat_app.
  eapply told_then; [by apply Hm|by apply Hk].
Qed.

Lemma holds_ret {A} (a : A) (P : A -> Prop) : P a -> holds (mret a) [] P.
Proof. intros Ha ins ->%conversation_none. by apply told_ret. Qed.

(** The result of [m] is dropped. *)
Lemma holds_ignore {A} (m : M (modem script) A) xs P : holds m xs P -> holds (m ;; mret tt) xs any.
Proof. intros Hm. rewrite <- (app_nil_r xs). by eapply holds_then; [|apply holds_ret]. Qed.

Lemma holds_say c : holds (xgsm_vsendcmd alloc fuel (c ++ [CR])) [Say c] any.
Proof.
  intros ins Hr%conversation_one. inversion Hr as [? cs Ha|]; subst.
  intros rest old e d. eapply wp_mono; [by apply told_vsendcmd|]. by intros a s [_ ?].
Qed.

Lemma holds_send_all cmds : holds (send_all alloc fuel cmds) (Say <$> cmds) any.
Proof.
  induction cmds as [|c cmds IH]; [by apply holds_ret|].
  eapply (holds_then _ _ [Say c]); [|exact IH]. rewrite sendcmd_whole. apply holds_say.
Qed.

(** A part that an option asks for. *)
Lemma holds_if (b : bool) (m : M (modem script) unit) xs :
  holds m xs any -> holds (if b then m else mret tt) (if b then xs else []) any.
Proof. destruct b; [done|]. intros _. by apply holds_ret. Qed.

Lemma holds_cmgs line c t : line = c ++ [CR] -> holds (cmgs_dialogue alloc fuel line t) [Message c t] any.
Proof.
  intros -> ins Hr%conversation_one. cbn [fmap list_fmap concat]. rewrite app_nil_r. by apply told_cmgs.
Qed.

Lemma holds_txt_sms nbr msg :
  holds (xgsm_send_txt_sms alloc fuel nbr msg)
    [Message (str "AT+CMGS=" ++ [34] ++ nbr ++ [34] ++ str ",145") msg] any.
Proof. apply holds_cmgs. by rewrite <- !app_assoc. Qed.

Lemma holds_sms nbr scnbr msg hpdu : xgsm_create_hexPDU alloc nbr scnbr msg = Ok (Some hpdu) ->
  holds (xgsm_send_sms alloc fuel nbr scnbr msg)
    [Message (str "AT+CMGS=" ++ dec (xgsm_CMGS_PDU_length hpdu)) hpdu] any.
Proof.
  intros Hp ins Hr. unfold xgsm_send_sms, lift_res. rewrite Hp.
  eapply (told_quiet _ _ _ _ (fun h => h = Some hpdu)); [by apply told_ret|]. intros _ ->. cbv iota.
  eapply told_quiet; [apply told_fputs|]. intros _ _. apply holds_cmgs; [by rewrite <- !app_assoc|done].
Qed.

(** Everything behind the first flush. *)
Lemma holds_message o nbr msg hpdu :
  (o_txt o = false -> xgsm_create_hexPDU alloc nbr (o_scnbr o) msg = Ok (Some hpdu)) ->
  holds (if o_txt o then
       send_all alloc fuel [str "AT+CSMP=17,169,0,0"];; xgsm_send_txt_sms alloc fuel nbr msg
     else xgsm_send_sms alloc fuel nbr (o_scnbr o) msg)
    ((if o_txt o then [Say (str "AT+CSMP=17,169,0,0")] else []) ++ [message_of o nbr msg hpdu]) any.
Proof.
  unfold message_of. destruct (o_txt o); intros Hp.
  - eapply (holds_then _ _ [_]); [apply (holds_send_all [_])|apply holds_txt_sms].
  - by apply holds_sms, Hp.
Qed.

(** ** Options *)
Lemma told_setnobuf fd : told (xgsm_setnobuf fd) [] [] (fun r => r = 0).
Proof. intros rest old e d. cbn. by rewrite app_nil_r. Qed.

Lemma told_debug n :
  told (puts (fun m : modem script => mk_modem (md_dev m) (md_err m) n)) [] [] (fun _ => True).
Proof. intros rest old e d. apply wp_puts. cbn. by rewrite app_nil_r. Qed.

Lemma told_option prg o opt :
  told (main_option prg o opt) [] [] (fun o' => o' = options_from o [opt]).
Proof.
  destruct o as [dev scnbr msg nbr canon verbose mlist mdel txt], opt as [c arg].
  unfold options_from, last_arg, given, last_number, main_option.
  cbn [fold_left fst snd o_dev o_scnbr o_msg o_nbr o_canon o_verbose o_mlist o_mdel o_txt].
  repeat match goal with |- context [c =? ?n] => destruct (Z.eqb_spec c n) as [->|?] end;
    try lia;
    lazymatch goal with
    | |- told (mret _) _ _ _ => apply told_ret; cbn; by rewrite ?negb_involutive
    | _ => eapply told_quiet;
             [first [apply told_setnobuf|apply told_fputs|apply told_debug]|intros ? _; apply told_ret];
             cbn; by rewrite ?negb_involutive
    end.
Qed.

Lemma told_options prg opts : forall o,
  told (main_options prg o opts) [] [] (fun o' => o' = options_from o opts).
Proof.
  induction opts as [|opt opts IH]; intros o.
  - apply told_ret. unfold options_from. destruct o. cbn. by rewrite negb_involutive.
  - eapply told_quiet; [apply told_option|]. intros o1 ->.
    intros rest old e d. eapply wp_mono; [apply IH|]. cbv beta. intros o' s [-> Hs]. split; [|done].
    unfold options_from. cbn. by rewrite negb_involutive.
Qed.
End run.

(** ** Properties of main *)


(** ** A session *)
Definition sample_opts : list (Z * list Z) :=
  [(100, str "/dev/ttyS0"); (110, sample_nbr); (67, str "+39349200000"); (109, sample_msg); (108, []); (82, str "3")].

Definition sample_hpdu : list Z :=
  match xgsm_create_hexPDU (fun _ => true) sample_nbr sample_sc sample_msg with
  | Ok (Some h) => h
  | _ => []
  end.

Definition ok_answer : list (list Z) := [[CR; LF; 79]; [75; CR; LF]].

Definition sample_said : list exchange :=
  [Say (str "AT&F"); Say (str "ATE0"); Say (str "AT+CMEE=1"); Say (str "AT^SM20=0,0"); Say (str "AT+CMGF=0");
   Message (str "AT+CMGS=" ++ dec (xgsm_CMGS_PDU_length sample_hpdu)) sample_hpdu;
   Say (str "AT+CEER"); Say (str "AT+CMGL=" ++ [34] ++ str "ALL" ++ [34]); Say (str "AT+CMGD=3")].

Definition sample_reply (x : exchange) : list (list Z) :=
  match x with
  | Say _ => ok_answer ++ [[]]
  | Message _ _ => [[CR; LF]; str "> "] ++ ok_answer ++ [[]]
  end.

Lemma ok_answers : answer 50 ok_answer.
Proof.
  split; [by repeat constructor|done|cbn; lia|done|].
  intros k Hk. cbn in Hk. do 6 (destruct k as [|k]; [done|]). lia.
Qed.

Lemma sample_replies xs : Forall2 (replies 50) xs (sample_reply <$> xs).
Proof.
  induction xs as [|x xs IH]; constructor; [|done].
  destruct x; [apply replies_say, ok_answers|].
  apply replies_message; [by repeat constructor|done|apply ok_answers].
Qed.

