(* ===== verification/ThrHttp.v ===== *)
(** * thrhttp.c: the thread-per-connection HTTP server

    One session as its thread runs it: the buffered stream, the sending of
    documents and of memory, the parsing of requests, and the options of main, the
    rest of which is in [HttpMain].  The kernel is the class [Net].  A [size_t] is kept
    modulo 2^64: that is where the error result -1 of [recv] and [send] ends.
    Messages on stderr are left out; allocations succeed. *)
From Stdlib Require Import ZArith Lia Bool String.
From stdpp Require Import base tactics list sets.
From S2P Require Import Prelude Libc.

Definition BSTREAM_BUFSIZE : Z := 1024 * 4.

Inductive tx_modes := TX_SENDFILE | TX_MMAP.

(** ** The kernel *)
Class Net (W : Type) := {
  net_recv : Z -> W -> (Z * list Z) * W;            (* room; result, the bytes *)
  net_send : list Z -> W -> Z * W;
  net_cork : Z -> W -> W;
  net_open : list Z -> Z -> W -> option (list Z) * W;   (* open and fstat: the contents *)
  net_sendfile : list Z -> W -> Z * W;
  net_mmap : Z -> W -> bool * W;                    (* whether a map of that size succeeds *)
  net_close : W -> W;
  net_stopped : W -> Z                              (* the value of [stopsvr] *)
}.

Section server.
Context {W : Type} `{!Net W}.

(** The configuration that main sets. *)
Record config := mk_config {
  port : Z; lbklog : Z; stksize : Z; rootfs : list Z; oflags : Z; txmode : tx_modes
}.
Context (cfg : config).

(** The stream of the session and the counters. *)
Record http := mk_http {
  h_net : W;
  ridx : Z; bcnt : Z; buf : list Z;
  conns : Z; reqs : Z; tbytes : Z
}.
Abbreviation H := (M http).

Definition on_net {A} (f : W -> A * W) : H A := fun s =>
  let (a, w) := f (h_net s) in
  Ok (a, mk_http w (ridx s) (bcnt s) (buf s) (conns s) (reqs s) (tbytes s)).
Definition net_do (f : W -> W) : H unit := on_net (fun w => (tt, f w)).

Definition set_stream (r b : Z) (d : list Z) : H unit :=
  puts (fun s => mk_http (h_net s) r b d (conns s) (reqs s) (tbytes s)).
Definition add_reqs (n : Z) : H unit :=
  puts (fun s => mk_http (h_net s) (ridx s) (bcnt s) (buf s) (conns s) (u64 (reqs s + n)) (tbytes s)).
Definition add_tbytes (n : Z) : H unit :=
  puts (fun s => mk_http (h_net s) (ridx s) (bcnt s) (buf s) (conns s) (reqs s) (u64 (tbytes s + n))).

(** [n] bytes at offset [off] of a block. *)
Definition slice (d : list Z) (off n : Z) : H (list Z) :=
  if (0 <=? off) && (off + n <=? strlen d) then mret (take (Z.to_nat n) (drop (Z.to_nat off) d))
  else fault.

(** [memchr] on a block: bytes are looked at one after the other. *)
Definition memchr (d : list Z) (off c n : Z) : H (option Z) :=
  match index_of c (take (Z.to_nat (Z.min n (strlen d))) (drop (Z.to_nat off) d)) with
  | Some i => mret (Some (off + Z.of_nat i))
  | None => if off + n <=? strlen d then mret None else fault
  end.

(** ** The buffered stream *)
Definition bstream_open : H unit := s ← gets id; set_stream 0 0 (buf s).

Definition bstream_close : H unit := net_do net_close.

(** Received bytes over the front of a block. *)
Definition fill_front (data d : list Z) : list Z := data ++ drop (length data) d.

Definition bstream_refil : H Z :=
  r ← on_net (net_recv BSTREAM_BUFSIZE);
  s ← gets id;
  set_stream 0 (u64 r.1) (fill_front r.2 (buf s));;
  mret (u64 r.1).

Definition bstream_readsome (n : Z) : H (Z * list Z) :=
  s ← gets id;
  if ridx s <? bcnt s then
    let cnt := bcnt s - ridx s in
    let cnt := if n <? cnt then n else cnt in
    d ← slice (buf s) (ridx s) cnt;
    set_stream (ridx s + cnt) (bcnt s) (buf s);;
    mret (cnt, d)
  else
    r ← on_net (net_recv n); mret (u64 r.1, r.2).

(** Bytes written at offset [off] of a block. *)
Definition fill_at (off : Z) (data d : list Z) : list Z :=
  take (Z.to_nat off) d ++ data ++ drop (Z.to_nat off + length data) d.

(** Bytes written into the caller's block at an offset. *)
Definition store (off : Z) (data blk : list Z) : H (list Z) :=
  match data with
  | [] => mret blk
  | _ => if (0 <=? off) && (off + strlen data <=? strlen blk) then mret (fill_at off data blk) else fault
  end.

(** [off] is the caller's pointer, moved by every piece. *)
Fixpoint read_loop (fuel : nat) (off cnt n : Z) (blk : list Z) : H (Z * list Z) :=
  match fuel with
  | O => nofuel
  | S fuel =>
    if cnt <? n then
      r ← bstream_readsome (u64 (n - cnt));
      blk ← store off r.2 blk;
      if r.1 <=? 0 then mret (cnt, blk) else read_loop fuel (s64 (off + r.1)) (u64 (cnt + r.1)) n blk
    else mret (cnt, blk)
  end.
Definition bstream_read (fuel : nat) (n : Z) (blk : list Z) : H (Z * list Z) := read_loop fuel 0 0 n blk.

Fixpoint readln_loop (fuel : nat) (ln : option (list Z)) : H (option (list Z)) :=
  match fuel with
  | O => nofuel
  | S fuel =>
    s ← gets id;
    n ← (if ridx s =? bcnt s then bstream_refil else mret 1);
    if n <=? 0 then mret ln else
    s ← gets id;
    eol ← memchr (buf s) (ridx s) LF (u64 (bcnt s - ridx s));
    let cnt := match eol with
               | Some e => e - ridx s + 1
               | None => u64 (bcnt s - ridx s)
               end in
    d ← bstream_readsome cnt;
    let ln := Some (default [] ln ++ d.2) in
    match eol with Some _ => mret ln | None => readln_loop fuel ln end
  end.

Definition bstream_readln (fuel : nat) : H (option (list Z)) := readln_loop fuel None.

(** [off] is how far the pointer [buf] moved, [cnt] the count; the comparison
    [acnt < 0] is one of unsigned numbers. *)
Fixpoint write_loop (fuel : nat) (d : list Z) (off cnt n : Z) : H Z :=
  match fuel with
  | O => nofuel
  | S fuel =>
    if cnt <? n then
      b ← slice d off (n - cnt);
      r ← on_net (net_send b);
      let acnt := u64 r in
      if acnt <? 0 then mret (u64 (-1)) else
      write_loop fuel d (s64 (off + acnt)) (u64 (cnt + acnt)) n
    else mret cnt
  end.

Definition bstream_write (fuel : nat) (d : list Z) : H Z := write_loop fuel d 0 0 (strlen d).

(** [text] is the formatted string. *)
Definition bstream_printf (fuel : nat) (text : list Z) : H Z := bstream_write fuel text.

(** ** Sending *)
Definition sendfile_tx (contents : list Z) : H Z :=
  n ← on_net (net_sendfile contents);
  mret (if negb (n =? strlen contents) then -1 else 0).

Definition mmap_tx (fuel : nat) (contents : list Z) : H Z :=
  ok ← on_net (net_mmap (strlen contents));
  if negb ok then mret (-1) else
  txcnt ← bstream_write fuel contents;
  mret (if txcnt =? strlen contents then 0 else -1).

Definition set_cork (v : Z) : H unit := net_do (net_cork v).

Definition crlf : list Z := [CR; LF].

(** The head of a response. *)
Definition response_head (ver status cclose len : list Z) : list Z :=
  ver ++ status ++ crlf ++ str "Connection: " ++ cclose ++ crlf ++
  str "Content-Length: " ++ len ++ crlf ++ crlf.

Definition doc_path (doc : list Z) : list Z :=
  rootfs cfg ++ str "/" ++ (if at_ doc 0 =? 47 then tail doc else doc).

Definition O_RDONLY : Z := 0.

Definition send_doc (fuel : nat) (doc ver cclose : list Z) : H Z :=
  f ← on_net (net_open (doc_path doc) (Z.lor (oflags cfg) O_RDONLY));
  match f with
  | None =>
    bstream_printf fuel (response_head ver (str " 404 Not found") cclose (str "0"));; mret (-1)
  | Some contents =>
    set_cork 1;;
    bstream_printf fuel (response_head ver (str " 200 OK") cclose (dec (strlen contents)));;
    error ← (match txmode cfg with
             | TX_SENDFILE => sendfile_tx contents
             | TX_MMAP => mmap_tx fuel contents
             end);
    set_cork 0;;
    if error <? 0 then mret error else
    add_tbytes (strlen contents);;
    mret 0
  end.

Definition mbuf_size : Z := 1024 * 8.

(** The static [mbuf] holds zeros; the result is [msent]. *)
Fixpoint mem_loop (fuel wfuel : nat) (msent size : Z) : H Z :=
  match fuel with
  | O => nofuel
  | S fuel =>
    if msent <? size then
      let csize := if mbuf_size <? u64 (size - msent) then mbuf_size else u64 (size - msent) in
      n ← bstream_write wfuel (repeat 0 (Z.to_nat csize));
      let msent := if 0 <? n then s64 (msent + n) else msent in
      if negb (n =? csize) then mret msent else mem_loop fuel wfuel msent size
    else mret msent
  end.

Definition send_mem (fuel : nat) (size : Z) (ver cclose : list Z) : H Z :=
  set_cork 1;;
  bstream_printf fuel (response_head ver (str " 200 OK") cclose (dec size));;
  msent ← mem_loop fuel fuel 0 size;
  set_cork 0;;
  add_tbytes msent;;
  mret (if msent =? size then 0 else -1).

Definition send_url (fuel : nat) (doc ver cclose : list Z) : H Z :=
  if strneq 5 doc (str "/mem-") then send_mem fuel (atol (drop 5 doc)) ver cclose
  else send_doc fuel doc ver cclose.

(** ** Requests *)
Definition bad_request_text : list Z :=
  response_head (str "HTTP/1.1") (str " 400 Bad request") (str "close") (str "0").

(** Method, document and version of a request line. *)
Definition parse_request (req : list Z) : option (list Z * list Z * list Z) :=
  match strtok_r (str " ") (cstr req) with
  | None => None
  | Some (meth, r) =>
    match strtok_r (str " ") r with
    | None => None
    | Some (doc, r) =>
      match strtok_r (str " " ++ crlf) r with
      | None => None
      | Some (ver, _) => if negb (strcaseeq meth (str "GET")) then None else Some (meth, doc, ver)
      end
    end
  end.

Record headers := mk_headers { clen : Z; chunked : bool; cclose : bool }.

Definition skip_blanks (s : list Z) : list Z := skip_delims (str " ") s.

(** One header line. *)
Definition parse_header (ln : list Z) (h : headers) : headers :=
  if strncaseeq 15 ln (str "Content-Length:") then
    mk_headers (u64 (atoi (skip_blanks (drop 15 ln)))) (chunked h) (cclose h)
  else if strncaseeq 11 ln (str "Connection:") then
    mk_headers (clen h) (chunked h) (strncaseeq 5 (skip_blanks (drop 11 ln)) (str "close"))
  else if strncaseeq 18 ln (str "Transfer-Encoding:") then
    mk_headers (clen h) (strncaseeq 7 (skip_blanks (drop 18 ln)) (str "chunked")) (cclose h)
  else h.

Fixpoint read_headers (fuel : nat) (h : headers) : H headers :=
  match fuel with
  | O => nofuel
  | S fuel' =>
    ln ← bstream_readln fuel;
    match ln with
    | None => mret h
    | Some ln =>
      if streq (cstr ln) crlf then mret h else read_headers fuel' (parse_header (cstr ln) h)
    end
  end.

(** One turn of the loop of [thproc]; [false] when the loop ends. *)
Definition serve_request (fuel : nat) : H bool :=
  req ← bstream_readln fuel;
  match req with
  | None => mret false
  | Some req =>
    match parse_request req with
    | None => bstream_printf fuel bad_request_text;; mret false
    | Some (meth, doc, ver) =>
      add_reqs 1;;
      h ← read_headers fuel (mk_headers 0 false (negb (strcaseeq ver (str "HTTP/1.1"))));
      if negb (clen h =? 0) || chunked h then bstream_printf fuel bad_request_text;; mret false
      else
        send_url fuel doc ver (if cclose h then str "close" else str "keep-alive");;
        s ← gets id;
        mret ((net_stopped (h_net s) =? 0) && negb (cclose h))
    end
  end.

Fixpoint serve_loop (fuel lfuel : nat) : H unit :=
  match fuel with
  | O => nofuel
  | S fuel => more ← serve_request lfuel; if (more : bool) then serve_loop fuel lfuel else mret tt
  end.

Definition thproc (fuel : nat) : H unit :=
  bstream_open;; serve_loop fuel fuel;; bstream_close.
End server.

(** ** Options *)
Definition O_NOATIME : Z := 262144.

Definition config0 : config := mk_config 80 1024 0 (str ".") 0 TX_MMAP.

Definition is_opt (a : list Z) (long short : string) : bool := streq a (str long) || streq a (str short).

(** The arguments behind the program name; [None] asks for the usage text. *)
Fixpoint parse_args (av : list (list Z)) (c : config) : option config :=
  match av with
  | [] => Some c
  | a :: av =>
    if is_opt a "--port" "-p" then
      match av with
      | v :: av => parse_args av (mk_config (atoi v) (lbklog c) (stksize c) (rootfs c) (oflags c) (txmode c))
      | [] => Some c
      end
    else if is_opt a "--listen" "-L" then
      match av with
      | v :: av => parse_args av (mk_config (port c) (atoi v) (stksize c) (rootfs c) (oflags c) (txmode c))
      | [] => Some c
      end
    else if is_opt a "--root" "-r" then
      match av with
      | v :: av => parse_args av (mk_config (port c) (lbklog c) (stksize c) v (oflags c) (txmode c))
      | [] => Some c
      end
    else if is_opt a "-N" "--no-atime" then
      parse_args av (mk_config (port c) (lbklog c) (stksize c) (rootfs c) (Z.lor (oflags c) O_NOATIME) (txmode c))
    else if is_opt a "-S" "--sendfile" then
      parse_args av (mk_config (port c) (lbklog c) (stksize c) (rootfs c) (oflags c) TX_SENDFILE)
    else if is_opt a "--stksize" "-k" then
      match av with
      | v :: av => parse_args av (mk_config (port c) (lbklog c) (atoi v) (rootfs c) (oflags c) (txmode c))
      | [] => Some c
      end
    else if is_opt a "--help" "-h" then None
    else parse_args av c
  end.
Arguments http : clear implicits.

(** ** A scripted connection *)

(** Chunks to receive ([None]: an error), how much each send accepts (negative:
    an error; afterwards everything), and what was sent. *)
Record conn := mk_conn {
  c_in : list (option (list Z));
  c_acc : list Z;
  c_out : list Z;
  c_files : list Z -> option (list Z);
  c_stop : Z
}.

Definition conn_recv (n : Z) (w : conn) : (Z * list Z) * conn :=
  match c_in w with
  | [] => ((0, []), w)
  | None :: l => ((-1, []), mk_conn l (c_acc w) (c_out w) (c_files w) (c_stop w))
  | Some c :: l =>
    let a := take (Z.to_nat n) c in
    ((strlen a, a),
     mk_conn (match drop (Z.to_nat n) c with [] => l | b => Some b :: l end)
             (c_acc w) (c_out w) (c_files w) (c_stop w))
  end.

Definition conn_send (d : list Z) (w : conn) : Z * conn :=
  match c_acc w with
  | [] => (strlen d, mk_conn (c_in w) [] (c_out w ++ d) (c_files w) (c_stop w))
  | k :: l =>
    if k <? 0 then (-1, mk_conn (c_in w) l (c_out w) (c_files w) (c_stop w))
    else let a := take (Z.to_nat k) d in
      (strlen a, mk_conn (c_in w) l (c_out w ++ a) (c_files w) (c_stop w))
  end.

#[export] Instance conn_net : Net conn := {
  net_recv := conn_recv;
  net_send := conn_send;
  net_cork _ w := w;
  net_open p _ w := (c_files w p, w);
  net_sendfile d w := (strlen d, mk_conn (c_in w) (c_acc w) (c_out w ++ d) (c_files w) (c_stop w));
  net_mmap n w := (0 <? n, w);
  net_close w := w;
  net_stopped w := c_stop w
}.

(** ** Proofs: sending *)
Section sending.
Context (cfg : config).

Lemma wp_on_net {A} (f : conn -> A * conn) s (Q : A -> http conn -> Prop) :
  Q (f (h_net s)).1 (mk_http (f (h_net s)).2 (ridx s) (bcnt s) (buf s) (conns s) (reqs s) (tbytes s)) ->
  wp (on_net f) s Q.
Proof. unfold wp, on_net. by destruct (f (h_net s)). Qed.

Lemma wp_slice d off n (s : http conn) Q : 0 <= off -> off + n <= strlen d ->
  Q (take (Z.to_nat n) (drop (Z.to_nat off) d)) s -> wp (slice d off n) s Q.
Proof.
  intros H0 H1 HQ. unfold slice. rewrite (proj2 (Z.leb_le 0 off)), (proj2 (Z.leb_le _ (strlen d))) by done.
  by apply wp_ret.
Qed.

(** The session after a change of the connection. *)
Definition with_conn (s : http conn) (w : conn) : http conn :=
  mk_http w (ridx s) (bcnt s) (buf s) (conns s) (reqs s) (tbytes s).

Definition sent (s : http conn) (acc : list Z) (d : list Z) : http conn :=
  with_conn s (mk_conn (c_in (h_net s)) acc (c_out (h_net s) ++ d) (c_files (h_net s)) (c_stop (h_net s))).

Lemma sent_sent s a1 a2 d1 d2 : sent (sent s a1 d1) a2 d2 = sent s a2 (d1 ++ d2).
Proof. unfold sent, with_conn. cbn. by rewrite app_assoc. Qed.

Definition positive (acc : list Z) : Prop := Forall (fun k => 0 < k) acc.

(** The loop sends what is left, whatever the pieces. *)
Lemma write_loop_ok fuel : forall d s cnt Q,
  positive (c_acc (h_net s)) -> 0 <= cnt <= strlen d -> strlen d < 2 ^ 63 ->
  strlen d - cnt < Z.of_nat fuel ->
  (forall m, Q (strlen d) (sent s (drop m (c_acc (h_net s))) (drop (Z.to_nat cnt) d))) ->
  wp (write_loop fuel d cnt cnt (strlen d)) s Q.
Proof.
  induction fuel as [|fuel IH]; intros d s cnt Q Hp Hc Hd Hf HQ; [lia|]. cbn [write_loop].
  destruct (Z.ltb_spec cnt (strlen d)) as [Hlt|Hge].
  2:{ assert (cnt = strlen d) as -> by lia. apply wp_ret.
      specialize (HQ O). rewrite drop_0 in HQ. unfold sent, with_conn in HQ.
      rewrite drop_ge, app_nil_r in HQ by (unfold strlen; lia). by destruct s as [[] ? ? ? ? ? ?]. }
  apply wp_bind, wp_slice; [lia|lia|]. apply wp_bind, wp_on_net.
  set (b := take _ (drop _ d)).
  assert (Hb : b = drop (Z.to_nat cnt) d).
  { unfold b. apply take_ge. rewrite length_drop. unfold strlen in *. lia. }
  assert (Hbl : strlen b = strlen d - cnt).
  { rewrite Hb. unfold strlen in *. rewrite length_drop. lia. }
  set (k := match c_acc (h_net s) with [] => strlen b | k :: _ => Z.min k (strlen b) end).
  assert (Hk : 1 <= k <= strlen b).
  { unfold k. destruct (c_acc (h_net s)); [lia|]. apply Forall_cons in Hp as [? _]. lia. }
  assert (Hsend : exists m, 
    conn_send b (h_net s) = (k, h_net (sent s (drop m (c_acc (h_net s))) (take (Z.to_nat k) b)))).
  { unfold conn_send, k. destruct (c_acc (h_net s)) as [|k0 acc].
    - exists O. unfold sent, with_conn. cbn. rewrite take_ge; [done|unfold strlen; lia].
    - apply Forall_cons in Hp as [Hk0 Hp]. exists 1%nat. cbn [drop].
      rewrite (proj2 (Z.ltb_ge k0 0)) by lia. unfold sent, with_conn. cbn.
      destruct (Z.le_gt_cases k0 (strlen b)) as [Hle|Hgt].
      + rewrite Z.min_l by lia. f_equal. unfold strlen in *. rewrite length_take. lia.
      + rewrite Z.min_r by lia. rewrite !take_ge by (unfold strlen in *; lia). done. }
  destruct Hsend as (m & Hs). set (acc := drop m (c_acc (h_net s))) in *. change (net_send b (h_net s)) with (conn_send b (h_net s)).
  rewrite Hs. cbn [fst snd]. fold (with_conn s (h_net (sent s acc (take (Z.to_nat k) b)))).
  assert (Hws : with_conn s (h_net (sent s acc (take (Z.to_nat k) b))) = sent s acc (take (Z.to_nat k) b)) by done.
  rewrite Hws. rewrite (u64_small k) by lia. rewrite (proj2 (Z.ltb_ge k 0)) by lia.
  unfold s64. rewrite (Z.mod_small (cnt + k + 2 ^ 63)) by lia. rewrite u64_small by lia.
  replace (cnt + k + 2 ^ 63 - 2 ^ 63) with (cnt + k) by lia.
  apply IH; [by apply Forall_drop|lia|done|lia|]. intros m'. rewrite sent_sent.
  cbn [h_net sent with_conn c_acc]. unfold acc. rewrite drop_drop.
  replace (take (Z.to_nat k) b ++ drop (Z.to_nat (cnt + k)) d) with (drop (Z.to_nat cnt) d); [by apply HQ|].
  rewrite Hb, Z2Nat.inj_add by lia. rewrite <- drop_drop. by rewrite take_drop.
Qed.

Lemma write_ok fuel d s Q :
  positive (c_acc (h_net s)) -> strlen d < 2 ^ 63 -> strlen d < Z.of_nat fuel ->
  (forall acc, positive acc -> Q (strlen d) (sent s acc d)) -> wp (bstream_write fuel d) s Q.
Proof.
  intros Hp Hd Hf HQ. apply write_loop_ok; [done|unfold strlen; lia|done|lia|].
  intros m. apply HQ. by apply Forall_drop.
Qed.
End sending.

(** ** Proofs: reading *)

(** [moved s s']: only the stream and what is left to receive differ. *)
Definition moved (s s' : http conn) : Prop := exists l r b d,
  s' = mk_http (mk_conn l (c_acc (h_net s)) (c_out (h_net s)) (c_files (h_net s)) (c_stop (h_net s)))
         r b d (conns s) (reqs s) (tbytes s).

Lemma moved_refl s : moved s s.
Proof. destruct s as [[] ? ? ? ? ? ?]. do 4 eexists. done. Qed.
Lemma moved_trans s1 s2 s3 : moved s1 s2 -> moved s2 s3 -> moved s1 s3.
Proof. intros (?&?&?&?& ->) (?&?&?&?& ->). do 4 eexists. done. Qed.
Lemma moved_stream s r b d : moved s (mk_http (h_net s) r b d (conns s) (reqs s) (tbytes s)).
Proof. destruct s as [[] ? ? ? ? ? ?]. by do 4 eexists. Qed.
#[export] Hint Resolve moved_refl moved_trans moved_stream : trivia.

(** The bytes that the stream has buffered. *)
Definition buffered (s : http conn) : list Z :=
  take (Z.to_nat (bcnt s - ridx s)) (drop (Z.to_nat (ridx s)) (buf s)).

(** [p] are the bytes that the session has still to read: none of the pieces in
    which they arrive is empty, none is an error. *)
Definition holds (s : http conn) (p : list Z) : Prop := exists chunks,
  c_in (h_net s) = map Some chunks /\ Forall (fun c => c <> []) chunks /\
  0 <= ridx s <= bcnt s /\ bcnt s <= BSTREAM_BUFSIZE /\ strlen (buf s) = BSTREAM_BUFSIZE /\
  p = buffered s ++ concat chunks.

Lemma buffered_nil s : ridx s = bcnt s -> buffered s = [].
Proof. intros H. unfold buffered. by rewrite H, Z.sub_diag. Qed.

Lemma refil_ok s p : holds s p -> ridx s = bcnt s ->
  wp bstream_refil s (fun n s' => holds s' p /\ moved s s' /\
    (p = [] -> n = 0) /\ (p <> [] -> 0 < n /\ ridx s' < bcnt s')).
Proof.
  intros (ch & Hin & Hne & Hr & Hb & Hbuf & Hp) Heq. rewrite (buffered_nil s Heq) in Hp. cbn in Hp.
  unfold bstream_refil. apply wp_bind, wp_on_net. change (net_recv ?n ?w) with (conn_recv n w).
  unfold conn_recv. rewrite Hin. destruct ch as [|c ch]; cbn [map fst snd].
  - apply wp_bind, wp_get, wp_bind, wp_puts, wp_ret. cbn. subst p.
    split; [|split; [apply moved_stream|split; [done|intros []; done]]].
    exists []. unfold buffered. cbn. unfold fill_front. cbn. rewrite drop_0. by repeat split.
  - apply Forall_cons in Hne as [Hc Hne].
    set (a := take (Z.to_nat BSTREAM_BUFSIZE) c).
    assert (Ha : (0 < length a <= 4096)%nat).
    { unfold a. rewrite length_take. destruct c; [done|]. cbn [length]. unfold BSTREAM_BUFSIZE. lia. }
    assert (Hal : u64 (strlen a) = strlen a) by (apply u64_small; unfold strlen; lia).
    apply wp_bind, wp_get, wp_bind, wp_puts, wp_ret.
    cbn [h_net ridx bcnt buf conns reqs tbytes fst snd]. rewrite Hal. split; [|split; [by do 4 eexists|split]].
    + exists (match drop (Z.to_nat BSTREAM_BUFSIZE) c with [] => ch | b => b :: ch end).
      cbn [h_net ridx bcnt buf c_in]. split; [by destruct (drop _ c)|].
      split; [destruct (drop _ c); [done|by constructor]|]. split; [unfold strlen; lia|].
      split; [unfold strlen, BSTREAM_BUFSIZE; lia|]. split.
      * unfold fill_front. rewrite strlen_app. unfold strlen in *. rewrite length_drop.
        change BSTREAM_BUFSIZE with 4096 in *. lia.
      * unfold buffered. cbn [ridx bcnt buf]. rewrite Z.sub_0_r, drop_0. unfold fill_front, strlen.
        rewrite Nat2Z.id, take_app_length, Hp. cbn [concat]. rewrite <- (take_drop (Z.to_nat BSTREAM_BUFSIZE) c) at 1.
        fold a. rewrite <- app_assoc. f_equal. by destruct (drop _ c).
    + subst p. cbn [concat]. destruct c; [done|]. discriminate.
    + cbn. unfold strlen. lia.
Qed.

Lemma strlen_buffered s p : holds s p -> strlen (buffered s) = bcnt s - ridx s.
Proof.
  intros (ch & _ & _ & Hr & Hb & Hbuf & _). unfold buffered, strlen in *.
  rewrite length_take, length_drop. unfold BSTREAM_BUFSIZE in *. lia.
Qed.

Lemma readsome_ok s p n : holds s p -> ridx s < bcnt s -> 0 <= n <= bcnt s - ridx s ->
  wp (bstream_readsome n) s (fun r s' => r.2 = take (Z.to_nat n) p /\ moved s s' /\
    holds s' (drop (Z.to_nat n) p)).
Proof.
  intros Hh Hlt Hn. pose proof (strlen_buffered _ _ Hh) as Hl.
  destruct Hh as (ch & Hin & Hne & Hr & Hb & Hbuf & Hp).
  unfold bstream_readsome. apply wp_bind, wp_get.
  rewrite (proj2 (Z.ltb_lt _ _) Hlt).
  assert (Hcnt : (if n <? bcnt s - ridx s then n else bcnt s - ridx s) = n)
    by (destruct (Z.ltb_spec n (bcnt s - ridx s)); lia).
  rewrite Hcnt. apply wp_bind, wp_slice; [lia|unfold BSTREAM_BUFSIZE in *; lia|].
  apply wp_bind, wp_puts, wp_ret. cbn [snd].
  assert (Hnl : (Z.to_nat n <= length (buffered s))%nat) by (unfold strlen in Hl; lia).
  split; [|split; [apply moved_stream|]].
  - rewrite Hp, take_app_le by done. unfold buffered. rewrite take_take. f_equal. lia.
  - exists ch. cbn [h_net ridx bcnt buf]. do 4 (split; [done || lia|]). split; [done|].
    rewrite Hp, drop_app_le by done. f_equal. unfold buffered. cbn [ridx bcnt buf].
    rewrite skipn_firstn_comm, drop_drop. f_equal; [lia|]. f_equal. lia.
Qed.

(** Whatever is buffered: what comes is the front of [p], and nothing only at its end. *)
Lemma readsome_any s p n : holds s p -> 0 <= n < 2 ^ 63 ->
  wp (bstream_readsome n) s (fun r s' => r.2 = take (Z.to_nat r.1) p /\ r.1 = strlen r.2 /\ 0 <= r.1 <= n /\
    (r.1 = 0 -> n = 0 \/ p = []) /\ moved s s' /\ holds s' (drop (Z.to_nat r.1) p)).
Proof.
  intros Hh Hn. pose proof (strlen_buffered _ _ Hh) as Hl. pose proof Hh as (ch & Hin & Hne & Hr & Hb & Hbuf & Hp).
  unfold bstream_readsome. apply wp_bind, wp_get. destruct (Z.ltb_spec (ridx s) (bcnt s)) as [Hlt|Hge].
  - set (k := if n <? bcnt s - ridx s then n else bcnt s - ridx s).
    assert (Hk : 0 <= k <= n /\ k <= bcnt s - ridx s /\ (k = 0 -> n = 0))
      by (unfold k; destruct (Z.ltb_spec n (bcnt s - ridx s)); lia).
    apply wp_bind, wp_slice; [lia|unfold BSTREAM_BUFSIZE in *; lia|]. apply wp_bind, wp_puts, wp_ret. cbn [fst snd].
    assert (Hd : take (Z.to_nat k) (drop (Z.to_nat (ridx s)) (buf s)) = take (Z.to_nat k) p).
    { rewrite Hp, take_app_le by (unfold strlen in Hl; lia). unfold buffered. rewrite take_take. f_equal. lia. }
    rewrite Hd. split; [done|]. split; [|split; [lia|split; [lia|split; [apply moved_stream|]]]].
    + rewrite Hp, take_app_le by (unfold strlen in Hl; lia). unfold strlen in *. rewrite length_take. lia.
    + exists ch. cbn [h_net ridx bcnt buf]. do 4 (split; [done || lia|]). split; [done|].
      rewrite Hp, drop_app_le by (unfold strlen in Hl; lia). f_equal. unfold buffered. cbn [ridx bcnt buf].
      rewrite skipn_firstn_comm, drop_drop. f_equal; [lia|]. f_equal. lia.
  - assert (Hpc : p = concat ch) by (rewrite Hp, buffered_nil by lia; done).
    apply wp_bind, wp_on_net, wp_ret. change (net_recv ?n ?w) with (conn_recv n w). unfold conn_recv. rewrite Hin.
    destruct ch as [|c ch]; cbn [map fst snd].
    + cbn in Hpc. subst p. change (u64 0) with 0. split; [done|]. split; [done|]. split; [lia|]. split; [by right|].
      split; [apply moved_stream|]. exists []. cbn [h_net ridx bcnt buf]. do 5 (split; [done || lia|]). by rewrite buffered_nil by (cbn; lia).
    + apply Forall_cons in Hne as [Hc Hne]. set (a := take (Z.to_nat n) c).
      assert (Ha : strlen a <= n) by (unfold a, strlen; rewrite length_take; lia). pose proof (strlen_nonneg a).
      assert (take (Z.to_nat (strlen a)) p = a /\ drop (Z.to_nat (strlen a)) p = drop (Z.to_nat n) c ++ concat ch) as [Ht Hdr].
      { assert (p = a ++ drop (Z.to_nat n) c ++ concat ch) as -> by (rewrite Hpc, app_assoc; unfold a; by rewrite take_drop).
        unfold strlen. by rewrite Nat2Z.id, take_app_length, drop_app_length. }
      rewrite u64_small by lia. rewrite Ht, Hdr. split; [done|]. split; [done|]. split; [lia|]. split.
      { intros H0. destruct (Z.eq_dec n 0); [by left|]. unfold a, strlen in H0. rewrite length_take in H0. destruct c; [done|]. cbn [length] in H0. lia. }
      split; [by do 4 eexists|]. exists (match drop (Z.to_nat n) c with [] => ch | b => b :: ch end).
      cbn [h_net ridx bcnt buf c_in]. split; [by destruct (drop _ c)|]. split; [destruct (drop _ c); [done|by constructor]|].
      do 3 (split; [done || lia|]). unfold buffered. cbn [ridx bcnt buf]. rewrite (Z2Nat.nonpos (bcnt s - ridx s)) by lia. cbn [take app].
      by destruct (drop _ c).
Qed.

(** What [bstream_read] has stored so far is at the front of the block. *)
Lemma fill_at_take off data blk : 0 <= off -> off + strlen data <= strlen blk ->
  strlen (fill_at off data blk) = strlen blk /\
  take (Z.to_nat (off + strlen data)) (fill_at off data blk) = take (Z.to_nat off) blk ++ data.
Proof.
  intros H0 H1. unfold fill_at, strlen in *. split.
  - rewrite !length_app, length_take, length_drop. lia.
  - rewrite app_assoc. apply take_app_length'. rewrite length_app, length_take. lia.
Qed.

Lemma read_loop_ok fuel : forall cnt n blk s p, 0 <= cnt <= n -> n < 2 ^ 63 -> n <= strlen blk ->
  n - cnt < Z.of_nat fuel -> holds s p ->
  wp (read_loop fuel cnt cnt n blk) s (fun r s' => let k := Z.min (n - cnt) (strlen p) in
    r.1 = cnt + k /\ take (Z.to_nat r.1) r.2 = take (Z.to_nat cnt) blk ++ take (Z.to_nat k) p /\
    moved s s' /\ holds s' (drop (Z.to_nat k) p)).
Proof.
  induction fuel as [|fuel IH]; intros cnt n blk s p Hc Hn Hb Hf Hh; [lia|]. cbn [read_loop].
  pose proof (strlen_nonneg p). destruct (Z.ltb_spec cnt n) as [Hlt|Hge].
  2:{ apply wp_ret. cbn [fst snd]. rewrite Z.min_l, (Z2Nat.nonpos (n - cnt)) by lia. cbn [take drop]. rewrite app_nil_r, drop_0.
      split; [lia|]. split; [done|]. eauto with trivia. }
  rewrite u64_small by lia. apply wp_bind. eapply wp_mono; [apply readsome_any; [done|lia]|].
  cbn beta. intros [k d] s1 (Hd & Hk & Hkn & H0 & Hm1 & Hh1). cbn [fst snd] in *.
  assert (Hkp : k <= strlen p). { rewrite Hk, Hd. unfold strlen. rewrite length_take. lia. }
  destruct (Z.eq_dec k 0) as [->|Hne].
  - destruct (H0 eq_refl) as [?| ->]; [lia|]. assert (d = []) as -> by (by rewrite take_nil in Hd).
    cbn [store]. apply wp_bind, wp_ret. cbn. apply wp_ret. cbn [fst snd]. rewrite Z.min_r by (cbn; lia).
    cbn. rewrite app_nil_r. split; [lia|]. done.
  - apply wp_bind. unfold store. destruct d as [|b d0]; [unfold strlen in Hk; cbn in Hk; lia|]. set (d := b :: d0) in *.
    rewrite (proj2 (Z.leb_le 0 cnt)), (proj2 (Z.leb_le (cnt + strlen d) (strlen blk))) by lia. cbn [andb].
    apply wp_ret. rewrite (proj2 (Z.leb_gt k 0)) by lia. rewrite s64_small, u64_small by lia.
    destruct (fill_at_take cnt d blk) as [Hfl Hft]; [lia|lia|]. rewrite <-Hk in Hft.
    eapply wp_mono; [apply (IH _ _ _ _ (drop (Z.to_nat k) p)); [lia|done|lia|lia|done]|]. cbn beta zeta.
    assert (Hls : strlen (drop (Z.to_nat k) p) = strlen p - k) by (unfold strlen in *; rewrite length_drop; lia).
    rewrite Hls. intros r s' (Hr & Ht & Hm & Hh'). replace (Z.min (n - cnt) (strlen p)) with (k + Z.min (n - (cnt + k)) (strlen p - k)) by lia.
    split; [lia|]. rewrite Ht, Hft, Hd, <-app_assoc. rewrite drop_drop in Hh'.
    rewrite Z2Nat.inj_add by lia. split; [|split; [eauto with trivia|done]]. f_equal.
    apply take_take_drop.
Qed.

(** [bstream_read] of thrhttp gives the next [n] bytes of the stream, or all that are
    left, however they are cut into pieces and whatever of them is buffered. *)
Theorem bstream_read_bytes n blk s p : 0 <= n < 2 ^ 63 -> n <= strlen blk -> holds s p ->
  let k := Z.min n (strlen p) in
  exists blk' s', bstream_read (S (Z.to_nat n)) n blk s = Ok ((k, blk'), s') /\ take (Z.to_nat k) blk' = take (Z.to_nat k) p /\
    moved s s' /\ holds s' (drop (Z.to_nat k) p).
Proof.
  intros Hn Hb Hh k. enough (Hw : wp (bstream_read (S (Z.to_nat n)) n blk) s (fun r s' =>
    r.1 = k /\ take (Z.to_nat k) r.2 = take (Z.to_nat k) p /\ moved s s' /\ holds s' (drop (Z.to_nat k) p))).
  { apply wp_run in Hw as ([c blk'] & s' & Hr & Hc & H). cbn in Hc, H. subst c. by exists blk', s'. }
  unfold bstream_read. eapply wp_mono; [apply read_loop_ok; [lia|lia|done|lia|done]|]. cbn beta zeta.
  rewrite Z.sub_0_r. fold k. intros r s' (Hr & Ht & Hm & Hh'). rewrite Z.add_0_l in Hr. rewrite Hr in Ht. done.
Qed.

(** The next line of the bytes [p], behind what was read of it. *)
Definition next_line (ln : option (list Z)) (p : list Z) : option (list Z) * list Z :=
  match p with
  | [] => (ln, [])
  | _ =>
    match index_of LF p with
    | Some i => (Some (default [] ln ++ take (S i) p), drop (S i) p)
    | None => (Some (default [] ln ++ p), [])
    end
  end.

Lemma index_of_app c a b : index_of c (a ++ b) =
  match index_of c a with Some i => Some i | None => Nat.add (length a) <$> index_of c b end.
Proof.
  induction a as [|x a IH]; cbn; [by destruct (index_of c b)|].
  destruct (x =? c); [done|]. rewrite IH. destruct (index_of c a); [done|]. by destruct (index_of c b).
Qed.

Lemma next_line_app ln a b : a <> [] -> index_of LF a = None ->
  next_line ln (a ++ b) = next_line (Some (default [] ln ++ a)) b.
Proof.
  intros Ha Hi. destruct b as [|y b].
  { rewrite app_nil_r. destruct a; [done|]. cbn [next_line]. by rewrite Hi. }
  unfold next_line. rewrite index_of_app, Hi. destruct (a ++ y :: b) eqn:E; [by destruct a|].
  rewrite <- E. clear E.
  destruct (index_of LF (y :: b)) as [i|]; cbn [fmap option_fmap option_map default from_option].
  - unfold id. rewrite <- app_assoc. f_equal.
    + rewrite take_app_ge by lia. do 3 f_equal. f_equal. lia.
    + rewrite drop_app_ge by lia. f_equal. lia.
  - unfold id. by rewrite app_assoc.
Qed.

Lemma readln_loop_ok fuel : forall ln s p, holds s p -> strlen p + 1 < Z.of_nat fuel ->
  wp (readln_loop fuel ln) s (fun r s' => r = (next_line ln p).1 /\ moved s s' /\ holds s' (next_line ln p).2).
Proof.
  induction fuel as [|fuel IH]; intros ln s p Hh Hf; [unfold strlen in Hf; lia|]. cbn [readln_loop].
  apply wp_bind, wp_get. apply wp_bind.
  eapply (wp_mono _ _ (fun n s' => holds s' p /\ moved s s' /\
    (p = [] -> n = 0) /\ (p <> [] -> 0 < n /\ ridx s' < bcnt s'))).
  { destruct (Z.eqb_spec (ridx s) (bcnt s)) as [Heq|Hne]; [by apply refil_ok|].
    apply wp_ret. split; [done|]. split; [eauto with trivia|].
    pose proof (strlen_buffered _ _ Hh) as Hl. destruct Hh as (ch & _ & _ & Hr & _ & _ & ->).
    split; [|intros _; lia]. intros [E _]%app_nil. rewrite E, strlen_nil in Hl. lia. }
  intros n s1 (Hh1 & Hm1 & Hnil & Hcons). destruct (decide (p = [])) as [-> | Hp].
  { rewrite Hnil by done. cbn. apply wp_ret. done. }
  destruct (Hcons Hp) as [Hn Hlt]. rewrite (proj2 (Z.leb_gt n 0)) by lia.
  pose proof (strlen_buffered _ _ Hh1) as Hl.
  pose proof Hh1 as (ch & _ & _ & Hr & Hb & Hbuf & Hpe). unfold BSTREAM_BUFSIZE in *.
  apply wp_bind, wp_get. rewrite u64_small by lia. apply wp_bind.
  unfold memchr. rewrite (Z.min_l (bcnt s1 - ridx s1)) by lia. fold (buffered s1).
  destruct (index_of LF (buffered s1)) as [i|] eqn:Ei.
  - apply wp_ret. apply wp_bind. pose proof (index_of_some _ _ _ Ei) as [Hsp _].
    assert (Hil : (i < length (buffered s1))%nat).
    { rewrite Hsp, length_app. cbn [length]. rewrite length_take.
      destruct (Nat.le_gt_cases (length (buffered s1)) i); [|lia].
      exfalso. apply (f_equal length) in Hsp. rewrite length_app, take_ge in Hsp by done. cbn in Hsp. lia. }
    unfold strlen in Hl. replace (ridx s1 + Z.of_nat i - ridx s1 + 1) with (Z.of_nat (S i)) by lia.
    eapply wp_mono; [apply (readsome_ok _ p); [done|lia|lia]|].
    intros [x d] s2 (Hd & Hm2 & Hh2). apply wp_ret. cbn [snd] in Hd. rewrite Nat2Z.id in *.
    assert (Hip : index_of LF p = Some i) by (rewrite Hpe, index_of_app, Ei; done).
    assert (Hnl : next_line ln p = (Some (default [] ln ++ take (S i) p), drop (S i) p)).
    { unfold next_line. rewrite Hip. by destruct p. }
    rewrite Hnl. cbn [fst snd]. rewrite Hd. split; [done|]. split; [eauto with trivia|done].
  - rewrite (proj2 (Z.leb_le _ _)) by lia. apply wp_ret, wp_bind.
    eapply wp_mono; [apply (readsome_ok _ p); [done|lia|lia]|].
    intros [x d] s2 (Hd & Hm2 & Hh2). cbn [snd] in Hd.
    assert (Hd' : d = buffered s1).
    { rewrite Hd, Hpe. rewrite take_app_length'; [done|unfold strlen in Hl; lia]. }
    assert (Hrest : drop (Z.to_nat (bcnt s1 - ridx s1)) p = concat ch).
    { rewrite Hpe. rewrite drop_app_length'; [done|unfold strlen in Hl; lia]. }
    rewrite Hrest in Hh2. cbn [snd]. rewrite Hd'. rewrite Hpe, next_line_app; [|intros E; rewrite E, strlen_nil in Hl; lia|done].
    eapply wp_mono; [apply (IH _ _ (concat ch)); [done|]|].
    + apply (f_equal strlen) in Hpe. rewrite strlen_app in Hpe. lia.
    + intros r s3 (-> & Hm3 & Hh3). split; [done|]. split; [eauto with trivia|done].
Qed.

(** ** Proofs: the session *)

(** What a session still has to read is a property of the reader [I s p]: it does
    not depend on what is sent or counted. *)
Class Reader (I : http conn -> list Z -> Prop) : Prop :=
  reader_stream : forall s w p cn rq tb, c_in w = c_in (h_net s) -> I s p ->
    I (mk_http w (ridx s) (bcnt s) (buf s) cn rq tb) p.

#[export] Instance holds_reader : Reader holds.
Proof. intros s w p cn rq tb Hw (ch & Hin & H). exists ch. cbn. by rewrite Hw. Qed.

Section reply.
Context {I : http conn -> list Z -> Prop} `{!Reader I}.

(** [after s s' out r b p]: the session went from [s] to [s'] sending [out],
    counting [r] requests and [b] bytes, and has [p] still to read. *)
Record after (s s' : http conn) (out : list Z) (r b : Z) (p : list Z) : Prop := {
  af_holds : I s' p;
  af_acc : positive (c_acc (h_net s'));
  af_out : c_out (h_net s') = c_out (h_net s) ++ out;
  af_files : c_files (h_net s') = c_files (h_net s);
  af_stop : c_stop (h_net s') = c_stop (h_net s);
  af_conns : conns s' = conns s;
  af_reqs : u64 (reqs s') = u64 (reqs s + r);
  af_bytes : u64 (tbytes s') = u64 (tbytes s + b)
}.

Lemma u64_add_l x y z : u64 x = u64 y -> u64 (x + z) = u64 (y + z).
Proof. unfold u64. intros H. by rewrite Z.add_mod, H, <- Z.add_mod by lia. Qed.

Lemma after_trans s1 s2 s3 o1 o2 r1 r2 b1 b2 p1 p2 :
  after s1 s2 o1 r1 b1 p1 -> after s2 s3 o2 r2 b2 p2 ->
  after s1 s3 (o1 ++ o2) (r1 + r2) (b1 + b2) p2.
Proof.
  intros [] []. split; try done; try congruence.
  - by rewrite af_out1, af_out0, app_assoc.
  - rewrite af_reqs1, Z.add_assoc. by apply u64_add_l.
  - rewrite af_bytes1, Z.add_assoc. by apply u64_add_l.
Qed.

Lemma after_moved s s' p : positive (c_acc (h_net s)) -> moved s s' -> I s' p ->
  after s s' [] 0 0 p.
Proof.
  intros Hp (l & r & b & d & ->) Hh. split; try done; cbn; [by rewrite app_nil_r| |]; by rewrite Z.add_0_r.
Qed.

Lemma after_sent s acc d p : I s p -> positive acc -> after s (sent s acc d) d 0 0 p.
Proof. intros Hh Hp. split; try done; cbn; [by apply reader_stream|..]; by rewrite Z.add_0_r. Qed.

Lemma after_ready s1 s2 o r b p : after s1 s2 o r b p -> positive (c_acc (h_net s2)) /\ I s2 p.
Proof. by intros []. Qed.

Lemma after_refl s p : I s p -> positive (c_acc (h_net s)) -> after s s [] 0 0 p.
Proof. intros. apply after_moved; eauto with trivia. Qed.

Lemma write_after fuel d s p : I s p -> positive (c_acc (h_net s)) ->
  strlen d < 2 ^ 63 -> strlen d < Z.of_nat fuel ->
  wp (bstream_write fuel d) s (fun n s' => n = strlen d /\ after s s' d 0 0 p).
Proof. intros. apply write_ok; [done..|]. intros. split; [done|]. by apply after_sent. Qed.

Lemma query_after {A} (f : conn -> A * conn) s p : (f (h_net s)).2 = h_net s ->
  I s p -> positive (c_acc (h_net s)) ->
  wp (on_net f) s (fun a s' => a = (f (h_net s)).1 /\ after s s' [] 0 0 p).
Proof.
  intros Hf ? ?. apply wp_on_net. split; [done|]. rewrite Hf.
  apply after_moved; [done|apply moved_stream|by apply reader_stream].
Qed.

Lemma cork_after v s p : I s p -> positive (c_acc (h_net s)) ->
  wp (set_cork v) s (fun _ s' => True /\ after s s' [] 0 0 p).
Proof. intros. apply wp_on_net. split; [done|]. apply after_moved; [done|apply moved_stream|by apply reader_stream]. Qed.

Lemma add_tbytes_after n s p : I s p -> positive (c_acc (h_net s)) ->
  wp (add_tbytes n) s (fun _ s' => True /\ after s s' [] 0 n p).
Proof.
  intros. apply wp_puts. split; [done|]. split; try done; cbn; [by apply reader_stream|by rewrite app_nil_r|by rewrite Z.add_0_r|].
  unfold u64. by rewrite Z.mod_mod by lia.
Qed.

Lemma add_reqs_after n s p : I s p -> positive (c_acc (h_net s)) ->
  wp (add_reqs n) s (fun _ s' => True /\ after s s' [] n 0 p).
Proof.
  intros. apply wp_puts. split; [done|]. split; try done; cbn; [by apply reader_stream|by rewrite app_nil_r| |by rewrite Z.add_0_r].
  unfold u64. by rewrite Z.mod_mod by lia.
Qed.

(** Sequencing of steps. *)
Lemma wp_step {A B} (m : M (http conn) A) (k : A -> M (http conn) B) s (P : A -> Prop) (Q : B -> Prop)
  o o1 o2 r r1 r2 b b1 b2 p1 p2 :
  wp m s (fun a s1 => P a /\ after s s1 o1 r1 b1 p1) ->
  o = o1 ++ o2 -> r = r1 + r2 -> b = b1 + b2 ->
  (forall a s1, P a -> I s1 p1 -> positive (c_acc (h_net s1)) -> c_files (h_net s1) = c_files (h_net s) ->
     c_stop (h_net s1) = c_stop (h_net s) ->
     wp (k a) s1 (fun a s2 => Q a /\ after s1 s2 o2 r2 b2 p2)) ->
  wp (m ≫= k) s (fun a s2 => Q a /\ after s s2 o r b p2).
Proof.
  intros Hm -> -> -> Hk. apply wp_bind. eapply wp_mono; [exact Hm|]. intros a s1 [HP H1].
  eapply wp_mono; [by apply Hk; destruct H1|]. intros a' s2 [HQ H2]. split; [done|].
  exact (after_trans _ _ _ _ _ _ _ _ _ _ _ H1 H2).
Qed.

Lemma wp_done {A} (a : A) s p (Q : A -> Prop) : Q a -> I s p -> positive (c_acc (h_net s)) ->
  wp (mret a) s (fun a s' => Q a /\ after s s' [] 0 0 p).
Proof. intros. apply wp_ret. split; [done|]. by apply after_refl. Qed.

Lemma mem_loop_ok fuel wfuel : forall msent size s p,
  I s p -> positive (c_acc (h_net s)) -> 0 <= msent <= Z.max 0 size -> size < 2 ^ 63 ->
  Z.max 0 (size - msent) < Z.of_nat fuel -> Z.max 0 (size - msent) < Z.of_nat wfuel ->
  wp (mem_loop fuel wfuel msent size) s (fun m s' =>
    m = Z.max 0 size /\ after s s' (repeat 0 (Z.to_nat (size - msent))) 0 0 p).
Proof.
  induction fuel as [|fuel IH]; intros msent size s p Hh Ha Hm Hs Hf Hw; [lia|]. cbn [mem_loop].
  destruct (Z.ltb_spec msent size) as [Hlt|Hge].
  2:{ apply wp_ret. split; [lia|]. rewrite (Z2Nat.nonpos (size - msent)) by lia. by apply after_refl. }
  rewrite (u64_small (size - msent)) by lia.
  set (csize := if mbuf_size <? size - msent then mbuf_size else size - msent).
  assert (Hc : 0 < csize <= size - msent).
  { unfold csize, mbuf_size. destruct (Z.ltb_spec (1024 * 8) (size - msent)); lia. }
  assert (Hl : strlen (repeat 0 (Z.to_nat csize)) = csize) by (unfold strlen; rewrite repeat_length; lia).
  eapply wp_step; [apply write_after; [done|done|lia|lia]| | | |]; cycle 3.
  { intros n s1 -> Hh1 Ha1 _ _. rewrite Hl. rewrite (proj2 (Z.ltb_lt 0 csize)), Z.eqb_refl by lia.
    cbn [negb]. rewrite s64_small by lia. apply IH; [done|done|lia|done|lia|lia]. }
  - rewrite <- repeat_app. f_equal. lia.
  - done.
  - done.
Qed.

(** The reply to a request: what is sent and the bytes counted. *)
Definition mem_reply (size : Z) (ver cc : list Z) : list Z * Z :=
  (response_head ver (str " 200 OK") cc (dec size) ++ repeat 0 (Z.to_nat size), Z.max 0 size).

Definition doc_reply (cfg : config) (files : list Z -> option (list Z)) (doc ver cc : list Z) : list Z * Z :=
  match files (doc_path cfg doc) with
  | None => (response_head ver (str " 404 Not found") cc (str "0"), 0)
  | Some contents =>
    (response_head ver (str " 200 OK") cc (dec (strlen contents)) ++ contents, strlen contents)
  end.

Definition url_reply (cfg : config) (files : list Z -> option (list Z)) (doc ver cc : list Z) : list Z * Z :=
  if strneq 5 doc (str "/mem-") then mem_reply (atol (drop 5 doc)) ver cc
  else doc_reply cfg files doc ver cc.

Lemma send_mem_ok fuel size ver cc s p :
  I s p -> positive (c_acc (h_net s)) ->
  strlen (mem_reply size ver cc).1 < 2 ^ 63 -> strlen (mem_reply size ver cc).1 < Z.of_nat fuel ->
  wp (send_mem fuel size ver cc) s (fun e s' => e = (if 0 <=? size then 0 else -1) /\
    after s s' (mem_reply size ver cc).1 0 (mem_reply size ver cc).2 p).
Proof.
  intros Hh Ha Hs Hf. unfold send_mem, mem_reply in *. cbn [fst snd] in *.
  rewrite strlen_app in Hs, Hf. set (hd := response_head _ _ _ _) in *.
  assert (Hr : strlen (repeat 0 (Z.to_nat size)) = Z.max 0 size) by (unfold strlen; rewrite repeat_length; lia).
  pose proof (strlen_nonneg hd). rewrite Hr in Hs, Hf.
  eapply wp_step; [by apply cork_after| | | |]; [done..|]. intros _ s1 _ Hh1 Ha1 _ _.
  eapply wp_step; [apply write_after; [done|done|lia|lia]|done|done|symmetry; apply Z.add_0_l|].
  intros n s2 _ Hh2 Ha2 _ _.
  eapply wp_step; [apply mem_loop_ok; [done|done|lia|lia|lia|lia]|rewrite Z.sub_0_r; symmetry; apply app_nil_r|done|symmetry; apply Z.add_0_l|].
  intros m s3 -> Hh3 Ha3 _ _.
  eapply wp_step; [by apply cork_after| | | |]; [done..|]. intros _ s4 _ Hh4 Ha4 _ _.
  eapply wp_step; [by apply add_tbytes_after|done|done|symmetry; apply Z.add_0_r|].
  intros _ s5 _ Hh5 Ha5 _ _. apply wp_done; [|done|done].
  destruct (Z.leb_spec 0 size), (Z.eqb_spec (Z.max 0 size) size); lia.
Qed.

Lemma send_doc_ok cfg fuel doc ver cc s p :
  I s p -> positive (c_acc (h_net s)) ->
  let reply := doc_reply cfg (c_files (h_net s)) doc ver cc in
  strlen reply.1 < 2 ^ 63 -> strlen reply.1 < Z.of_nat fuel ->
  wp (send_doc cfg fuel doc ver cc) s (fun _ s' => True /\ after s s' reply.1 0 reply.2 p).
Proof.
  intros Hh Ha reply Hs Hf. unfold send_doc. eapply wp_step; [by apply query_after|done|done|done|].
  cbn [net_open conn_net fst]. intros f s1 -> Hh1 Ha1 _ _.
  unfold reply, doc_reply in *. destruct (c_files (h_net s) (doc_path cfg doc)) as [d|]; cbn [fst snd] in *.
  2:{ eapply wp_step; [by apply write_after|symmetry; apply app_nil_r|done|done|].
      intros n s2 _ Hh2 Ha2 _ _. by apply wp_done. }
  rewrite strlen_app in Hs, Hf. set (hd := response_head _ _ _ _) in *.
  pose proof (strlen_nonneg hd). pose proof (strlen_nonneg d).
  eapply wp_step; [by apply cork_after| | | |]; [done..|]. intros _ s2 _ Hh2 Ha2 _ _.
  eapply wp_step; [apply write_after; [done|done|lia|lia]|done|done|symmetry; apply Z.add_0_l|].
  intros n s3 _ Hh3 Ha3 _ _.
  eapply (wp_step _ _ _ (fun e => e < 0 -> strlen d = 0) _ _ d []).
  { instantiate (1 := p). instantiate (1 := 0). instantiate (1 := 0). destruct (txmode cfg).
    - unfold sendfile_tx. eapply wp_step.
      + apply wp_on_net. split; [apply eq_refl|]. cbn [net_sendfile conn_net snd]. by apply (after_sent s3).
      + symmetry; apply app_nil_r.
      + done.
      + done.
      + cbn [net_sendfile conn_net fst]. intros e s4 -> Hh4 Ha4 _ _. rewrite Z.eqb_refl. by apply wp_done.
    - unfold mmap_tx. eapply (wp_step _ _ _ (fun ok => ok = (0 <? strlen d)) _ _ [] d).
      + by apply query_after.
      + done.
      + done.
      + done.
      + intros ok s4 -> Hh4 Ha4 _ _. destruct (Z.ltb_spec 0 (strlen d)); cbn [negb].
        * eapply wp_step; [apply write_after; [done|done|lia|lia]|symmetry; apply app_nil_r|done|done|].
          intros m s5 -> Hh5 Ha5 _ _. rewrite Z.eqb_refl. by apply wp_done.
        * destruct d; [by apply wp_done|unfold strlen in *; cbn in *; lia]. }
  - symmetry; apply app_nil_r.
  - done.
  - symmetry; apply Z.add_0_l.
  - intros e s4 He Hh4 Ha4 _ _.
    eapply wp_step; [by apply cork_after| | | |]; [done..|]. intros _ s5 _ Hh5 Ha5 _ _.
    destruct (Z.ltb_spec e 0).
    + destruct d; [by apply wp_done|]. by specialize (He ltac:(done)).
    + eapply wp_step; [by apply add_tbytes_after|done|done|symmetry; apply Z.add_0_r|].
      intros _ s6 _ Hh6 Ha6 _ _. by apply wp_done.
Qed.

Lemma send_url_ok cfg fuel doc ver cc s p :
  I s p -> positive (c_acc (h_net s)) ->
  let reply := url_reply cfg (c_files (h_net s)) doc ver cc in
  strlen reply.1 < 2 ^ 63 -> strlen reply.1 < Z.of_nat fuel ->
  wp (send_url cfg fuel doc ver cc) s (fun _ s' => True /\ after s s' reply.1 0 reply.2 p).
Proof.
  intros Hh Ha reply Hs Hf. unfold reply, url_reply, send_url in *. destruct (strneq 5 doc (str "/mem-")).
  - eapply wp_mono; [by apply send_mem_ok|]. intros e s' [_ ?]. done.
  - by apply send_doc_ok.
Qed.

End reply.
Arguments after : clear implicits.

Lemma readln_after fuel s p : holds s p -> positive (c_acc (h_net s)) -> strlen p + 1 < Z.of_nat fuel ->
  wp (bstream_readln fuel) s (fun ln s' =>
    ln = (next_line None p).1 /\ after holds s s' [] 0 0 (next_line None p).2).
Proof.
  intros. eapply wp_mono; [by apply readln_loop_ok|]. intros ln s' (-> & ? & ?).
  split; [done|]. by apply after_moved.
Qed.

(** The headers, read from the bytes [p] themselves. *)
Fixpoint plain_headers (n : nat) (p : list Z) (h : headers) : headers * list Z :=
  match n with
  | O => (h, p)
  | S n =>
    match next_line None p with
    | (None, p) => (h, p)
    | (Some ln, p) => if streq (cstr ln) crlf then (h, p) else plain_headers n p (parse_header (cstr ln) h)
    end
  end.

Lemma next_line_shorter p : p <> [] -> exists ln, (next_line None p).1 = Some ln /\
  strlen (next_line None p).2 < strlen p.
Proof.
  intros Hp. unfold next_line. destruct p as [|x p]; [done|].
  destruct (index_of LF (x :: p)) as [i|]; eexists; (split; [done|]); cbn [snd]; unfold strlen.
  - rewrite length_drop. cbn [length]. lia.
  - cbn [length]. lia.
Qed.

Lemma next_line_le p : strlen (next_line None p).2 <= strlen p.
Proof.
  destruct (decide (p = [])) as [->|Hp]; [done|]. destruct (next_line_shorter p Hp) as (? & _ & ?). lia.
Qed.

Lemma read_headers_ok fuel : forall n h s p,
  holds s p -> positive (c_acc (h_net s)) -> (length p < n)%nat -> strlen p + 1 < Z.of_nat fuel ->
  wp (read_headers fuel h) s (fun h' s' => h' = (plain_headers n p h).1 /\
    after holds s s' [] 0 0 (plain_headers n p h).2).
Proof.
  induction fuel as [|fuel IH]; intros n h s p Hh Ha Hn Hf; [unfold strlen in Hf; lia|].
  destruct n as [|n]; [lia|]. cbn [read_headers plain_headers].
  eapply wp_step; [by apply readln_after|done|done|done|].
  intros ln s1 -> Hh1 Ha1 _ _. destruct (decide (p = [])) as [->|Hp]; [by apply wp_done|].
  destruct (next_line_shorter p Hp) as (ln & Hln & Hs). destruct (next_line None p) as [o p1].
  cbn [fst snd] in *. subst o. destruct (streq (cstr ln) crlf); [by apply wp_done|].
  apply IH; [done|done|unfold strlen in Hs; lia|lia].
Qed.

(** ** The server on a plain stream of bytes

    The session as if all bytes were there at once and every send took all it is
    given: what is sent, the requests and the bytes counted, whether the session
    goes on and what is left to read. *)
Record outcome := mk_outcome {
  oc_out : list Z; oc_reqs : Z; oc_bytes : Z; oc_more : bool; oc_rest : list Z
}.

Definition plain_request (cfg : config) (files : list Z -> option (list Z)) (stop : Z) (p : list Z) : outcome :=
  match next_line None p with
  | (None, p) => mk_outcome [] 0 0 false p
  | (Some req, p) =>
    match parse_request req with
    | None => mk_outcome bad_request_text 0 0 false p
    | Some (meth, doc, ver) =>
      let (h, p) := plain_headers (S (length p)) p (mk_headers 0 false (negb (strcaseeq ver (str "HTTP/1.1")))) in
      if negb (clen h =? 0) || chunked h then mk_outcome bad_request_text 1 0 false p else
      let (o, b) := url_reply cfg files doc ver (if cclose h then str "close" else str "keep-alive") in
      mk_outcome o 1 b ((stop =? 0) && negb (cclose h)) p
    end
  end.

Fixpoint plain_session (cfg : config) (files : list Z -> option (list Z)) (stop : Z)
    (n : nat) (p : list Z) : list Z * Z * Z :=
  match n with
  | O => ([], 0, 0)
  | S n =>
    let oc := plain_request cfg files stop p in
    if oc_more oc then
      let '(o, r, b) := plain_session cfg files stop n (oc_rest oc) in
      (oc_out oc ++ o, oc_reqs oc + r, oc_bytes oc + b)
    else (oc_out oc, oc_reqs oc, oc_bytes oc)
  end.

Lemma plain_headers_shorter n : forall p h, strlen (plain_headers n p h).2 <= strlen p.
Proof.
  induction n as [|n IH]; intros p h; cbn [plain_headers]; [done|].
  destruct (decide (p = [])) as [->|Hp]; [done|].
  destruct (next_line_shorter p Hp) as (ln & Hln & Hs). destruct (next_line None p) as [o p1].
  cbn [fst snd] in *. subst o. destruct (streq (cstr ln) crlf); cbn [snd]; [lia|].
  etrans; [apply IH|lia].
Qed.

Lemma plain_request_shorter cfg files stop p :
  oc_more (plain_request cfg files stop p) = true ->
  strlen (oc_rest (plain_request cfg files stop p)) < strlen p.
Proof.
  unfold plain_request. destruct (decide (p = [])) as [->|Hp]; [done|].
  destruct (next_line_shorter p Hp) as (ln & Hln & Hs). destruct (next_line None p) as [o p1].
  cbn [fst snd] in *. subst o. destruct (parse_request ln) as [[[meth doc] ver]|]; [|done].
  pose proof (plain_headers_shorter (S (length p1)) p1 (mk_headers 0 false (negb (strcaseeq ver (str "HTTP/1.1"))))).
  destruct (plain_headers _ _ _) as [h p2]. cbn [snd] in *. destruct (negb (clen h =? 0) || chunked h); [done|].
  destruct (url_reply _ _ _ _ _). cbn. lia.
Qed.

Lemma serve_request_ok cfg fuel s p oc :
  holds s p -> positive (c_acc (h_net s)) -> strlen p + 1 < Z.of_nat fuel ->
  plain_request cfg (c_files (h_net s)) (c_stop (h_net s)) p = oc ->
  strlen (oc_out oc) < 2 ^ 63 -> strlen (oc_out oc) < Z.of_nat fuel ->
  wp (serve_request cfg fuel) s (fun more s' => more = oc_more oc /\
    after holds s s' (oc_out oc) (oc_reqs oc) (oc_bytes oc) (oc_rest oc)).
Proof.
  intros Hh Ha Hf Hoc Hs Ho. unfold serve_request, plain_request in *.
  eapply wp_step; [by apply readln_after|done|symmetry; apply Z.add_0_l|symmetry; apply Z.add_0_l|].
  intros ln s1 -> Hh1 Ha1 Hfi1 Hst1.
  pose proof (next_line_le p) as Hp1.
  destruct (next_line None p) as [[req|] p1]; cbn [fst snd] in *; [|subst oc; by apply wp_done].
  destruct (parse_request req) as [[[meth doc] ver]|].
  2:{ subst oc. eapply wp_step; [by apply write_after|symmetry; apply app_nil_r|done|done|].
      intros ? s2 _ Hh2 Ha2 _ _. by apply wp_done. }
  pose proof (plain_headers_shorter (S (length p1)) p1 (mk_headers 0 false (negb (strcaseeq ver (str "HTTP/1.1"))))) as Hp2.
  destruct (plain_headers _ _ _) as [h p2] eqn:Eh. cbn [snd] in Hp2.
  destruct (url_reply _ _ _ _ _) as [o b] eqn:Eu.
  assert (Hr : oc_reqs oc = 1) by (subst oc; by destruct (_ || _)).
  eapply wp_step; [by apply add_reqs_after|done|rewrite Hr; symmetry; apply Z.add_0_r|symmetry; apply Z.add_0_l|].
  intros _ s2 _ Hh2 Ha2 Hfi2 Hst2.
  eapply wp_step; [apply (read_headers_ok _ (S (length p1))); [done|done|lia|lia]
                  |done|symmetry; apply Z.add_0_l|symmetry; apply Z.add_0_l|].
  rewrite Eh. cbn [fst snd]. intros h' s3 -> Hh3 Ha3 Hfi3 Hst3.
  destruct (negb (clen h =? 0) || chunked h).
  { subst oc. eapply wp_step; [by apply write_after|symmetry; apply app_nil_r|done|done|].
    intros ? s4 _ Hh4 Ha4 _ _. by apply wp_done. }
  assert (Hfi : c_files (h_net s3) = c_files (h_net s)) by congruence.
  assert (Hst : c_stop (h_net s3) = c_stop (h_net s)) by congruence.
  pose proof (send_url_ok cfg fuel doc ver (if cclose h then str "close" else str "keep-alive") s3 p2 Hh3 Ha3) as Hsend.
  cbn beta zeta in Hsend. rewrite Hfi, Eu in Hsend. subst oc. cbn [fst snd oc_out oc_bytes oc_rest oc_more] in *.
  eapply wp_step; [by apply Hsend|symmetry; apply app_nil_r|done|symmetry; apply Z.add_0_r|].
  intros _ s4 _ Hh4 Ha4 _ Hst4. apply wp_bind, wp_get. apply wp_done; [|done|done].
  change (net_stopped (h_net s4)) with (c_stop (h_net s4)). by rewrite Hst4, Hst.
Qed.

Lemma serve_loop_ok cfg lfuel fuel : forall n s p o r b,
  holds s p -> positive (c_acc (h_net s)) -> (length p < n)%nat -> strlen p < Z.of_nat fuel ->
  strlen p + 1 < Z.of_nat lfuel ->
  plain_session cfg (c_files (h_net s)) (c_stop (h_net s)) n p = (o, r, b) ->
  strlen o < 2 ^ 63 -> strlen o < Z.of_nat lfuel ->
  wp (serve_loop cfg fuel lfuel) s (fun _ s' => exists p', after holds s s' o r b p').
Proof.
  induction fuel as [|fuel IH]; intros n s p o r b Hh Ha Hn Hf Hlf Hpl Hs Ho; [unfold strlen in Hf; lia|].
  destruct n as [|n]; [lia|]. cbn [serve_loop plain_session] in *.
  set (oc := plain_request cfg (c_files (h_net s)) (c_stop (h_net s)) p) in *.
  assert (Hoc : strlen (oc_out oc) <= strlen o).
  { destruct (oc_more oc); [|injection Hpl as <- _ _; done].
    destruct (plain_session _ _ _ _ _) as [[o' r'] b']. injection Hpl as <- _ _.
    rewrite strlen_app. pose proof (strlen_nonneg o'). lia. }
  apply wp_bind. eapply wp_mono; [apply (serve_request_ok cfg lfuel s p oc); [done|done|lia|done|lia|lia]|].
  intros more s1 [-> H1]. destruct (oc_more oc) eqn:Em.
  - pose proof (plain_request_shorter cfg _ _ _ Em) as Hsh. fold oc in Hsh.
    destruct (plain_session _ _ _ n _) as [[o' r'] b'] eqn:Epl. injection Hpl as <- <- <-.
    rewrite strlen_app in Hs, Ho. pose proof (strlen_nonneg (oc_out oc)). pose proof H1 as [].
    eapply wp_mono; [apply (IH n _ (oc_rest oc) o' r' b'); try done; try lia|].
    + unfold strlen in *. lia.
    + by rewrite af_files0, af_stop0.
    + intros _ s2 [p' H2]. exists p'. by eapply after_trans.
  - injection Hpl as <- <- <-. apply wp_ret. by exists (oc_rest oc).
Qed.

Lemma thproc_pieces cfg fuel (s : http conn) (chunks : list (list Z)) o r b :
  let p := concat chunks in
  c_in (h_net s) = map Some chunks -> Forall (fun c => c <> []) chunks ->
  Forall (fun k => 0 < k) (c_acc (h_net s)) -> strlen (buf s) = BSTREAM_BUFSIZE ->
  plain_session cfg (c_files (h_net s)) (c_stop (h_net s)) (S (length p)) p = (o, r, b) ->
  strlen o < 2 ^ 63 -> strlen p + strlen o + 1 < Z.of_nat fuel ->
  exists s', thproc cfg fuel s = Ok (tt, s') /\
    c_out (h_net s') = c_out (h_net s) ++ o /\
    u64 (reqs s') = u64 (reqs s + r) /\ u64 (tbytes s') = u64 (tbytes s + b).
Proof.
  intros p Hin Hne Hacc Hbuf Hpl Ho Hf.
  enough (wp (thproc cfg fuel) s (fun _ s' => c_out (h_net s') = c_out (h_net s) ++ o /\
    u64 (reqs s') = u64 (reqs s + r) /\ u64 (tbytes s') = u64 (tbytes s + b))) as Hwp.
  { apply wp_run in Hwp as ([] & s' & ? & ?). by exists s'. }
  unfold thproc. apply wp_bind. unfold bstream_open. apply wp_bind, wp_get, wp_puts.
  pose proof (strlen_nonneg o). pose proof (strlen_nonneg p). apply wp_bind.
  eapply wp_mono; [apply (serve_loop_ok cfg fuel fuel (S (length p)) _ p o r b); try done; try lia|].
  - exists chunks. cbn. by repeat split.
  - intros [] s1 (p' & []). apply wp_on_net. done.
Qed.

(** C3: A session of thrhttp is the session on a plain stream of bytes: whatever
    the pieces in which the client's bytes arrive and whatever part of each piece
    the kernel takes when the server sends, [thproc] returns, and it has sent the
    replies that [plain_session] computes from the bytes alone and counted its
    requests and bytes. *)
Theorem thproc_session cfg fuel (s : http conn) (chunks : list (list Z)) o r b :
  let p := concat chunks in
  c_in (h_net s) = map Some chunks -> Forall (fun c => c <> []) chunks ->
  Forall (fun k => 0 < k) (c_acc (h_net s)) -> strlen (buf s) = BSTREAM_BUFSIZE ->
  plain_session cfg (c_files (h_net s)) (c_stop (h_net s)) (S (length p)) p = (o, r, b) ->
  strlen o < 2 ^ 63 -> strlen p + strlen o + 1 < Z.of_nat fuel ->
  exists s', thproc cfg fuel s = Ok (tt, s') /\
    c_out (h_net s') = c_out (h_net s) ++ o /\
    u64 (reqs s') = u64 (reqs s + r) /\ u64 (tbytes s') = u64 (tbytes s + b).
Proof. apply thproc_pieces. Qed.

(** A request for 5 bytes of memory, cut in the middle of the line end, sent in
    small parts. *)
Definition demo_request : list Z :=
  str "GET /mem-5 HTTP/1.1" ++ crlf ++ str "Connection: close" ++ crlf ++ crlf.
Definition demo_conn : http conn :=
  mk_http (mk_conn [Some (take 20 demo_request); Some (drop 20 demo_request)] [1; 30; 2] [] (fun _ => None) 0)
    0 0 (repeat 0 4096) 1 0 0.

Lemma thproc_session_witness : exists s', thproc config0 200 demo_conn = Ok (tt, s') /\
  c_out (h_net s') = str "HTTP/1.1 200 OK" ++ crlf ++ str "Connection: close" ++ crlf ++
    str "Content-Length: 5" ++ crlf ++ crlf ++ [0; 0; 0; 0; 0] /\
  u64 (reqs s') = 1 /\ u64 (tbytes s') = 5.
Proof.
  apply (thproc_session config0 200 demo_conn [take 20 demo_request; drop 20 demo_request] _ 1 5);
    try (vm_compute; reflexivity).
  - repeat constructor; discriminate.
  - repeat constructor.
Defined.

(** ** Errors of the kernel *)

(** One turn of the loop of [bstream_write], whatever [send] returns. *)
Lemma write_loop_turn fuel d off cnt (s : http conn) r w Q : cnt < strlen d -> 0 <= off -> off + (strlen d - cnt) <= strlen d ->
  conn_send (take (Z.to_nat (strlen d - cnt)) (drop (Z.to_nat off) d)) (h_net s) = (r, w) ->
  wp (write_loop fuel d (s64 (off + u64 r)) (u64 (cnt + u64 r)) (strlen d)) (with_conn s w) Q ->
  wp (write_loop (S fuel) d off cnt (strlen d)) s Q.
Proof.
  intros Hc H0 Ho Hs Hk. cbn [write_loop]. rewrite (proj2 (Z.ltb_lt cnt (strlen d))) by done.
  apply wp_bind, wp_slice; [done|done|]. apply wp_bind, wp_on_net.
  change (net_send ?b ?w) with (conn_send b w). rewrite Hs. cbn [fst snd].
  pose proof (u64_range r). by rewrite (proj2 (Z.ltb_ge (u64 r) 0)) by lia.
Qed.

(** C38: When a send fails after [k] bytes went out, [bstream_write] does not
    report it: the test [acnt < 0] is one of an unsigned number, the count goes
    back by one and the last byte that was sent is sent again.  The caller sees
    success. *)
Theorem bstream_write_error_repeats fuel d (s : http conn) k :
  c_acc (h_net s) = [k; -1] -> 0 < k < strlen d -> strlen d < 2 ^ 63 -> strlen d + 2 < Z.of_nat fuel ->
  bstream_write fuel d s =
    Ok (strlen d, sent s [] (take (Z.to_nat k) d ++ drop (Z.to_nat (k - 1)) d)).
Proof.
  intros Ha Hk Hd Hf. do 2 (destruct fuel as [|fuel]; [lia|]).
  enough (wp (bstream_write (S (S fuel)) d) s (fun n s' => n = strlen d /\
    s' = sent s [] (take (Z.to_nat k) d ++ drop (Z.to_nat (k - 1)) d))) as Hwp.
  { apply wp_run in Hwp as (? & ? & -> & -> & ->). done. }
  eapply write_loop_turn; [lia|lia|lia| |].
  { rewrite Z.sub_0_r, drop_0, take_ge by (unfold strlen; lia). unfold conn_send. rewrite Ha.
    by rewrite (proj2 (Z.ltb_ge k 0)) by lia. }
  assert (Hsl : strlen (take (Z.to_nat k) d) = k) by (unfold strlen in *; rewrite length_take; lia).
  rewrite Hsl, !Z.add_0_l, !(u64_small k), s64_small by lia.
  eapply write_loop_turn; [lia|lia|lia|done|].
  assert (Hu : forall j, u64 (-1) = 2 ^ 64 - 1 /\ k + u64 (-1) + j = k - 1 + j + 1 * 2 ^ 64)
    by (intros j; change (u64 (-1)) with (2 ^ 64 - 1); lia).
  assert (s64 (k + u64 (-1)) = k - 1) as ->.
  { unfold s64. destruct (Hu (2 ^ 63)) as [_ ->]. rewrite Z.mod_add, Z.mod_small by lia. lia. }
  assert (u64 (k + u64 (-1)) = k - 1) as ->.
  { unfold u64 at 1. destruct (Hu 0) as [_ Hu']. rewrite !Z.add_0_r in Hu'. rewrite Hu'.
    rewrite Z.mod_add, Z.mod_small by lia. lia. }
  apply write_loop_ok; [constructor|lia|lia|lia|]. intros m. split; [done|]. cbn.
  rewrite drop_nil. unfold sent, with_conn. cbn. by rewrite app_assoc.
Qed.

Lemma bstream_write_error_repeats_witness :
  bstream_write 20 (str "hello") (mk_http (mk_conn [] [3; -1] [] (fun _ => None) 0) 0 0 [] 0 0 0) =
    Ok (5, mk_http (mk_conn [] [] (str "helllo") (fun _ => None) 0) 0 0 [] 0 0 0).
Proof.
  refine (bstream_write_error_repeats 20 (str "hello")
    (mk_http (mk_conn [] [3; -1] [] (fun _ => None) 0) 0 0 [] 0 0 0) 3 _ _ _ _);
    [reflexivity|split; reflexivity|reflexivity|reflexivity].
Defined.

(** When [recv] fails, [bstream_refil] does not report it either: the buffer
    then counts as holding [2^64 - 1] bytes, and [bstream_readln] returns the
    first line of the bytes left from earlier reads, a line that was already
    answered; without a line feed among them [memchr] reads past the buffer. *)
Theorem bstream_readln_recv_error fuel (s : http conn) rest :
  c_in (h_net s) = None :: rest -> ridx s = bcnt s -> strlen (buf s) = BSTREAM_BUFSIZE -> (0 < fuel)%nat ->
  match index_of LF (buf s) with
  | Some i => exists s', bstream_readln fuel s = Ok (Some (take (S i) (buf s)), s') /\
                ridx s' = Z.of_nat (S i) /\ bcnt s' = 2 ^ 64 - 1 /\ buf s' = buf s
  | None => bstream_readln fuel s = Fault
  end.
Proof.
  intros Hin Heq Hbuf Hf. destruct fuel as [|fuel]; [lia|].
  set (s1 := mk_http (mk_conn rest (c_acc (h_net s)) (c_out (h_net s)) (c_files (h_net s)) (c_stop (h_net s)))
    0 (2 ^ 64 - 1) (buf s) (conns s) (reqs s) (tbytes s)).
  assert (Hrf : bstream_refil s = Ok (2 ^ 64 - 1, s1)).
  { unfold bstream_refil, on_net, mbind, M_bind. change (net_recv ?n ?w) with (conn_recv n w).
    unfold conn_recv. rewrite Hin. cbn. unfold fill_front. cbn. by rewrite drop_0. }
  assert (Hbl : forall i, index_of LF (buf s) = Some i -> Z.of_nat i < 4096).
  { intros i Hi. pose proof (index_of_some _ _ _ Hi) as [He _].
    apply (f_equal length) in He. rewrite length_app in He. cbn [length] in He.
    unfold strlen, BSTREAM_BUFSIZE in Hbuf. rewrite length_take, length_drop in He. lia. }
  unfold bstream_readln. cbn [readln_loop].
  rewrite (run_bind (gets id) _ s s s eq_refl), Heq, Z.eqb_refl, (run_bind _ _ _ _ _ Hrf).
  change (2 ^ 64 - 1 <=? 0) with false. cbn iota. rewrite (run_bind (gets id) _ s1 s1 s1 eq_refl).
  change (ridx s1) with 0. change (bcnt s1) with (2 ^ 64 - 1). change (buf s1) with (buf s).
  change (u64 (2 ^ 64 - 1 - 0)) with (2 ^ 64 - 1).
  unfold memchr. rewrite Z.min_r by (unfold BSTREAM_BUFSIZE in *; lia). change (Z.to_nat 0) with O. rewrite drop_0.
  rewrite (take_ge (buf s)) by (unfold strlen; lia).
  destruct (index_of LF (buf s)) as [i|] eqn:Ei.
  2:{ rewrite Hbuf. done. }
  specialize (Hbl i eq_refl). rewrite (run_bind _ _ s1 (Some (0 + Z.of_nat i)) s1 eq_refl).
  replace (0 + Z.of_nat i - 0 + 1) with (Z.of_nat (S i)) by lia.
  set (s2 := mk_http (h_net s1) (Z.of_nat (S i)) (2 ^ 64 - 1) (buf s) (conns s) (reqs s) (tbytes s)).
  assert (Hrs : bstream_readsome (Z.of_nat (S i)) s1 = Ok ((Z.of_nat (S i), take (S i) (buf s)), s2)).
  { unfold bstream_readsome. rewrite (run_bind (gets id) _ s1 s1 s1 eq_refl).
    change (ridx s1 <? bcnt s1) with true. cbn iota. change (bcnt s1 - ridx s1) with (2 ^ 64 - 1).
    change (ridx s1) with 0. change (buf s1) with (buf s).
    rewrite (proj2 (Z.ltb_lt (Z.of_nat (S i)) (2 ^ 64 - 1))) by lia.
    assert (Hsl : slice (buf s) 0 (Z.of_nat (S i)) s1 = Ok (take (S i) (buf s), s1)).
    { unfold slice. rewrite (proj2 (Z.leb_le _ (strlen (buf s)))) by (unfold BSTREAM_BUFSIZE in *; lia).
      change (0 <=? 0) with true. cbn [andb]. change (Z.to_nat 0) with O. by rewrite drop_0, Nat2Z.id. }
    by rewrite (run_bind _ _ _ _ _ Hsl). }
  exists s2. by rewrite (run_bind _ _ _ _ _ Hrs).
Qed.

(** The buffer of a stream that read two requests in one piece, and the error. *)
Definition stale_http : http conn :=
  mk_http (mk_conn [None] [] [] (fun _ => None) 0) 9 9
    (str "GET /a" ++ [LF] ++ repeat 0 4089) 0 0 0.

Lemma bstream_readln_recv_error_witness :
  exists s', bstream_readln 1 stale_http = Ok (Some (str "GET /a" ++ [LF]), s') /\
    ridx s' = 7 /\ bcnt s' = 2 ^ 64 - 1 /\ buf s' = buf stale_http.
Proof.
  exact (bstream_readln_recv_error 1 stale_http [] eq_refl eq_refl eq_refl (le_n 1)).
Defined.
