(* ===== verification/ThrPlHttp.v ===== *)
(** * thrplhttp.c: the HTTP server with a pool of threads, one session

    The server differs from thrhttp in its buffered reader, in a fixed block for
    the request line and in ending the whole program when the kernel refuses a
    request of its x-functions.  Functions whose text is the one of thrhttp are
    those of [ThrHttp].  The queue of sessions is in [SessionQueue]. *)
From Stdlib Require Import ZArith Lia Bool String.
From stdpp Require Import base tactics list sets.
From S2P Require Import Prelude Exits Libc ThrHttp.

(** ** The request line *)
Definition REQ_SIZE : nat := 2048.

(** [strncpy(req, ln, sizeof(req))]: the block; a long line leaves no NUL in it. *)
Definition strncpy (n : nat) (s : list Z) : list Z := take n (cstr s ++ repeat 0 n).

(** [strtok_r] on a block: reading on at its end is a fault. *)
Fixpoint skip_block (delims blk : list Z) : res (list Z) :=
  match blk with
  | [] => Fault
  | c :: b => if mem c delims then skip_block delims b else Ok blk
  end.
Fixpoint token_block (delims blk : list Z) : res (list Z * list Z) :=
  match blk with
  | [] => Fault
  | c :: b =>
    if c =? 0 then Ok ([], blk)
    else if mem c delims then Ok ([], b)
    else r ← token_block delims b; Ok (c :: r.1, r.2)
  end.
Definition strtok_block (delims blk : list Z) : res (option (list Z * list Z)) :=
  b ← skip_block delims blk;
  if at_ b 0 =? 0 then Ok None else t ← token_block delims b; Ok (Some t).

Definition parse_request (req : list Z) : res (option (list Z * list Z * list Z)) :=
  m ← strtok_block (str " ") req;
  match m with
  | None => Ok None
  | Some (meth, r) =>
    d ← strtok_block (str " ") r;
    match d with
    | None => Ok None
    | Some (doc, r) =>
      v ← strtok_block (str " " ++ [CR]) r;
      match v with
      | None => Ok None
      | Some (ver, _) => if negb (strcaseeq meth (str "GET")) then Ok None else Ok (Some (meth, doc, ver))
      end
    end
  end.

Section server.
Context {W : Type} `{!Net W} (cfg : config).
Abbreviation http := (ThrHttp.http W).
Abbreviation H := (M http).

(** ** The buffered stream

    Here [bcnt] counts the bytes behind [ridx]. *)
Definition bstream_open : H unit := ThrHttp.bstream_open.
Definition bstream_close : H unit := ThrHttp.bstream_close.

(** [n] bytes from [off] moved to the front of a block. *)
Definition move_front (d : list Z) (off n : Z) : list Z := fill_front (take (Z.to_nat n) (drop (Z.to_nat off) d)) d.

Definition bstream_refil : H Z :=
  s ← gets id;
  (if (0 <? bcnt s) && (0 <? ridx s) then
     if ridx s + bcnt s <=? strlen (buf s)
     then set_stream (ridx s) (bcnt s) (move_front (buf s) (ridx s) (bcnt s))
     else fault
   else mret tt);;
  s ← gets id;
  set_stream 0 (bcnt s) (buf s);;
  r ← on_net (net_recv (u64 (BSTREAM_BUFSIZE - bcnt s)));
  let n := u64 r.1 in
  s ← gets id;
  (if 0 <? n then set_stream 0 (u64 (bcnt s + n)) (fill_at (bcnt s) r.2 (buf s)) else mret tt);;
  mret n.

(** The line that ends at offset [e], its line feed replaced by a NUL. *)
Definition take_line (e : Z) : H (option (list Z)) :=
  s ← gets id;
  let lsize := e - ridx s + 1 in
  let d := <[Z.to_nat e := 0]> (buf s) in
  set_stream (ridx s + lsize) (u64 (bcnt s - lsize)) d;;
  ln ← slice d (ridx s) lsize;
  mret (Some ln).

Definition bstream_readln : H (option (list Z)) :=
  s ← gets id;
  eol ← memchr (buf s) (ridx s) LF (bcnt s);
  eol ← (match eol with
         | Some e => mret (Some e)
         | None =>
           n ← bstream_refil;
           if n <=? 0 then mret None else
           s ← gets id; memchr (buf s) (ridx s) LF (bcnt s)
         end);
  match eol with None => mret None | Some e => take_line e end.

Definition bstream_readsome (n : Z) : H (Z * list Z) :=
  s ← gets id;
  let cnt := bcnt s in
  if 0 <? cnt then
    let cnt := if n <? cnt then n else cnt in
    d ← slice (buf s) (ridx s) cnt;
    set_stream (ridx s + cnt) (bcnt s - cnt) (buf s);;
    mret (cnt, d)
  else
    r ← on_net (net_recv n); mret (u64 r.1, r.2).

(** [off] is the caller's pointer, moved by every piece. *)
Fixpoint read_loop (fuel : nat) (off cnt n : Z) (blk : list Z) : H (Z * list Z) :=
  match fuel with
  | O => nofuel
  | S fuel =>
    if cnt <? n then
      r ← bstream_readsome (u64 (n - cnt));
      blk ← store off r.2 blk;
      if r.1 <=? 0 then mret (cnt, blk) else read_loop fuel (s64 (off + r.1)) (u64 (cnt + r.1)) n blk
    else mret (cnt, blk)
  end.
Definition bstream_read (fuel : nat) (n : Z) (blk : list Z) : H (Z * list Z) := read_loop fuel 0 0 n blk.

Definition bstream_write (fuel : nat) (d : list Z) : H Z := ThrHttp.bstream_write fuel d.
Definition bstream_printf (fuel : nat) (text : list Z) : H Z := bstream_write fuel text.

(** ** Sending *)
Definition sendfile_tx (contents : list Z) : H Z := ThrHttp.sendfile_tx contents.

Definition xmmap (n : Z) : E http unit :=
  ok <~ e_run (on_net (net_mmap n)); if negb ok then e_exit 1 else e_ret tt.

Definition mmap_tx (fuel : nat) (contents : list Z) : E http Z :=
  _ <~ xmmap (strlen contents);
  txcnt <~ e_run (bstream_write fuel contents);
  e_ret (if txcnt =? strlen contents then 0 else -1).

Definition set_cork (v : Z) : H unit := ThrHttp.set_cork v.

Definition send_doc (fuel : nat) (doc ver cclose : list Z) : E http Z :=
  f <~ e_run (on_net (net_open (doc_path cfg doc) (Z.lor (oflags cfg) O_RDONLY)));
  match f with
  | None =>
    _ <~ e_run (bstream_printf fuel (response_head ver (str " 404 Not found") cclose (str "0")));
    e_ret (-1)
  | Some contents =>
    _ <~ e_run (set_cork 1);
    _ <~ e_run (bstream_printf fuel (response_head ver (str " 200 OK") cclose (dec (strlen contents))));
    error <~ (match txmode cfg with
              | TX_SENDFILE => e_run (sendfile_tx contents)
              | TX_MMAP => mmap_tx fuel contents
              end);
    _ <~ e_run (set_cork 0);
    if error <? 0 then e_ret error else
    _ <~ e_run (add_tbytes (strlen contents));
    e_ret 0
  end.

Definition send_mem (fuel : nat) (size : Z) (ver cclose : list Z) : H Z :=
  ThrHttp.send_mem fuel size ver cclose.

Definition send_url (fuel : nat) (doc ver cclose : list Z) : E http Z :=
  if strneq 5 doc (str "/mem-") then e_run (send_mem fuel (atol (drop 5 doc)) ver cclose)
  else send_doc fuel doc ver cclose.

(** ** A session *)
Fixpoint read_headers (fuel : nat) (h : headers) : H headers :=
  match fuel with
  | O => nofuel
  | S fuel =>
    ln ← bstream_readln;
    match ln with
    | None => mret h
    | Some ln => if streq (cstr ln) [CR] then mret h else read_headers fuel (parse_header (cstr ln) h)
    end
  end.

(** One turn of the loop; [false] when it ends. *)
Definition serve_request (fuel : nat) : E http bool :=
  ln <~ e_run bstream_readln;
  match ln with
  | None => e_ret false
  | Some ln =>
    p <~ e_run (lift_res (parse_request (strncpy REQ_SIZE ln)));
    match p with
    | None => _ <~ e_run (bstream_printf fuel bad_request_text); e_ret false
    | Some (meth, doc, ver) =>
      _ <~ e_run (add_reqs 1);
      h <~ e_run (read_headers fuel (mk_headers 0 false (negb (strcaseeq ver (str "HTTP/1.1")))));
      if negb (clen h =? 0) || chunked h then
        _ <~ e_run (bstream_printf fuel bad_request_text); e_ret false
      else
        _ <~ send_url fuel doc ver (if cclose h then str "close" else str "keep-alive");
        s <~ e_run (gets id);
        e_ret ((net_stopped (h_net s) =? 0) && negb (cclose h))
    end
  end.

Fixpoint serve_loop (fuel lfuel : nat) : E http unit :=
  match fuel with
  | O => nofuel
  | S fuel => more <~ serve_request lfuel; if (more : bool) then serve_loop fuel lfuel else e_ret tt
  end.

Definition process_session (fuel : nat) : E http Z :=
  _ <~ e_run bstream_open; _ <~ serve_loop fuel fuel; _ <~ e_run bstream_close; e_ret 0.
End server.

(** ** Options *)
Record pool_config := mk_pool_config { pc_base : config; nthreads : Z; qsize : Z; rescpu : Z }.

Definition pool_config0 : pool_config := mk_pool_config config0 16 32 0.

Definition set_base (f : config -> config) (c : pool_config) : pool_config :=
  mk_pool_config (f (pc_base c)) (nthreads c) (qsize c) (rescpu c).

(** The arguments behind the program name; [None] asks for the usage text. *)
Fixpoint parse_args (av : list (list Z)) (c : pool_config) : option pool_config :=
  match av with
  | [] => Some c
  | a :: av =>
    if is_opt a "--port" "-p" then
      match av with
      | v :: av => parse_args av (set_base (fun b => mk_config (atoi v) (lbklog b) (stksize b) (rootfs b) (oflags b) (txmode b)) c)
      | [] => Some c
      end
    else if is_opt a "--listen" "-L" then
      match av with
      | v :: av => parse_args av (set_base (fun b => mk_config (port b) (atoi v) (stksize b) (rootfs b) (oflags b) (txmode b)) c)
      | [] => Some c
      end
    else if is_opt a "--root" "-r" then
      match av with
      | v :: av => parse_args av (set_base (fun b => mk_config (port b) (lbklog b) (stksize b) v (oflags b) (txmode b)) c)
      | [] => Some c
      end
    else if is_opt a "-N" "--no-atime" then
      parse_args av (set_base (fun b => mk_config (port b) (lbklog b) (stksize b) (rootfs b) (Z.lor (oflags b) O_NOATIME) (txmode b)) c)
    else if is_opt a "-S" "--sendfile" then
      parse_args av (set_base (fun b => mk_config (port b) (lbklog b) (stksize b) (rootfs b) (oflags b) TX_SENDFILE) c)
    else if is_opt a "--stksize" "-k" then
      match av with
      | v :: av => parse_args av (set_base (fun b => mk_config (port b) (lbklog b) (atoi v) (rootfs b) (oflags b) (txmode b)) c)
      | [] => Some c
      end
    else if is_opt a "--res-cpu" "-R" then
      match av with
      | v :: av => parse_args av (mk_pool_config (pc_base c) (nthreads c) (qsize c) (atoi v))
      | [] => Some c
      end
    else if is_opt a "--num-threads" "-T" then
      match av with
      | v :: av => parse_args av (mk_pool_config (pc_base c) (atoi v) (qsize c) (rescpu c))
      | [] => Some c
      end
    else if is_opt a "--queue-size" "-Q" then
      match av with
      | v :: av => parse_args av (mk_pool_config (pc_base c) (nthreads c) (atoi v) (rescpu c))
      | [] => Some c
      end
    else if is_opt a "--help" "-h" then None
    else parse_args av c
  end.

(** The number of CPUs used, from the number there are. *)
Definition num_cpus (avail : Z) (c : pool_config) : Z :=
  let n := s32 (avail - rescpu c) in if n <=? 0 then 1 else n.

(** ** Proofs: the reader *)

(** The bytes buffered and those that one call of [recv] brings. *)
Definition held (s : http conn) : list Z := take (Z.to_nat (bcnt s)) (drop (Z.to_nat (ridx s)) (buf s)).
Definition one_recv (s : http conn) : list Z :=
  match c_in (h_net s) with
  | Some c :: _ => take (Z.to_nat (BSTREAM_BUFSIZE - bcnt s)) c
  | _ => []
  end.

Definition stream_ok (s : http conn) : Prop :=
  0 <= ridx s /\ 0 <= bcnt s /\ ridx s + bcnt s <= BSTREAM_BUFSIZE /\ strlen (buf s) = BSTREAM_BUFSIZE.

Lemma held_length s : stream_ok s -> strlen (held s) = bcnt s.
Proof.
  intros (H0 & H1 & H2 & H3). unfold held, strlen in *. rewrite length_take, length_drop. lia.
Qed.

Lemma take_line_ok s i : stream_ok s -> index_of LF (held s) = Some i ->
  wp (take_line (ridx s + Z.of_nat i)) s (fun ln s' => stream_ok s' /\
    ln = Some (take i (held s) ++ [0]) /\ held s' = drop (S i) (held s) /\ h_net s' = h_net s).
Proof.
  intros Hok Hi. pose proof (held_length s Hok) as Hl. destruct Hok as (H0 & H1 & H2 & H3).
  pose proof (index_of_some _ _ _ Hi) as [Hs _].
  assert (Hil : (i < length (held s))%nat).
  { destruct (Nat.le_gt_cases (length (held s)) i); [|lia]. exfalso.
    apply (f_equal length) in Hs. rewrite length_app, take_ge in Hs by done. cbn in Hs. lia. }
  unfold strlen in Hl. set (e := ridx s + Z.of_nat i).
  assert (Hel : (Z.to_nat e < length (buf s))%nat) by (unfold strlen in H3; lia).
  assert (Hd : strlen (<[Z.to_nat e := 0]> (buf s)) = strlen (buf s)) by (unfold strlen; by rewrite length_insert).
  unfold take_line. apply wp_bind, wp_get, wp_bind, wp_puts.
  replace (e - ridx s + 1) with (Z.of_nat (S i)) by lia.
  rewrite u64_small by (unfold BSTREAM_BUFSIZE in *; lia).
  apply wp_bind, wp_slice; [lia|lia|]. apply wp_ret. split; [|split; [|split; [|done]]].
  - unfold stream_ok. cbn [ridx bcnt buf]. lia.
  - f_equal. rewrite Nat2Z.id, drop_insert_ge by lia. replace (Z.to_nat e - Z.to_nat (ridx s))%nat with i by lia.
    assert (Hii : (i < length (drop (Z.to_nat (ridx s)) (buf s)))%nat) by (rewrite length_drop; lia).
    rewrite (take_S_r _ _ 0) by (rewrite list_lookup_insert_eq by done; done).
    rewrite take_insert_ge by lia. f_equal. unfold held. rewrite take_take. f_equal. lia.
  - unfold held. cbn [ridx bcnt buf]. rewrite drop_insert_lt by lia.
    rewrite skipn_firstn_comm, drop_drop. f_equal; [lia|]. f_equal. lia.
Qed.

Lemma pool_refil_ok s chunks : stream_ok s -> c_in (h_net s) = map Some chunks ->
  wp bstream_refil s (fun n s' => n = strlen (one_recv s) /\ stream_ok s' /\ ridx s' = 0 /\
    held s' = held s ++ one_recv s /\ h_net s' = (conn_recv (BSTREAM_BUFSIZE - bcnt s) (h_net s)).2).
Proof.
  intros Hok Hin. pose proof (held_length s Hok) as Hl. pose proof Hok as (H0 & H1 & H2 & H3).
  unfold bstream_refil. apply wp_bind, wp_get, wp_bind.
  eapply (wp_mono _ _ (fun _ s1 => exists r b1, s1 = mk_http (h_net s) r (bcnt s) b1 (conns s) (reqs s) (tbytes s) /\
    strlen b1 = BSTREAM_BUFSIZE /\ take (Z.to_nat (bcnt s)) b1 = held s)).
  { destruct ((0 <? bcnt s) && (0 <? ridx s)) eqn:Hc.
    - rewrite (proj2 (Z.leb_le (ridx s + bcnt s) (strlen (buf s)))) by lia. apply wp_puts. do 2 eexists. split; [done|].
      unfold move_front. fold (held s). unfold fill_front, strlen in *. split.
      + rewrite length_app, length_drop. lia.
      + rewrite take_app_length'; [done|lia].
    - apply wp_ret. exists (ridx s), (buf s). split; [by destruct s|]. split; [done|]. unfold held.
      destruct (Z.eq_dec (bcnt s) 0) as [->|]; [done|]. assert (ridx s = 0) as -> by lia. by rewrite drop_0. }
  intros _ s1 (r & b1 & -> & Hb1 & Hh1). apply wp_bind, wp_get, wp_bind, wp_puts. cbn [bcnt buf h_net conns reqs tbytes].
  apply wp_bind, wp_on_net. cbn [bcnt buf h_net conns reqs tbytes ridx].
  change (net_recv ?n ?w) with (conn_recv n w). rewrite (u64_small (BSTREAM_BUFSIZE - bcnt s)) by (unfold BSTREAM_BUFSIZE in *; lia).
  set (a := one_recv s).
  assert (Ha : strlen a <= BSTREAM_BUFSIZE - bcnt s).
  { unfold a, one_recv, strlen. destruct (c_in (h_net s)) as [|[c|] ?]; cbn [length]; [lia| |lia].
    rewrite length_take. lia. }
  assert (Hr : (conn_recv (BSTREAM_BUFSIZE - bcnt s) (h_net s)).1 = (strlen a, a)).
  { unfold conn_recv, a, one_recv. rewrite Hin. by destruct chunks. }
  rewrite Hr. cbn [fst snd]. pose proof (strlen_nonneg a). rewrite (u64_small (strlen a)) by (unfold BSTREAM_BUFSIZE in *; lia).
  apply wp_bind, wp_get. cbn [bcnt buf]. apply wp_bind. destruct (Z.ltb_spec 0 (strlen a)).
  - apply wp_puts, wp_ret. split; [done|]. rewrite (u64_small (bcnt s + strlen a)) by (unfold BSTREAM_BUFSIZE in *; lia).
    assert (Hf : strlen (fill_at (bcnt s) a b1) = BSTREAM_BUFSIZE).
    { unfold fill_at, strlen in *. rewrite !length_app, length_take, length_drop. lia. }
    split; [|split; [done|]].
    + unfold stream_ok. cbn [ridx bcnt buf]. lia.
    + unfold held at 1. cbn [ridx bcnt buf]. rewrite drop_0. unfold fill_at. rewrite app_assoc, Hh1.
      rewrite take_app_length'; [done|]. rewrite length_app. unfold strlen in *. lia.
  - apply wp_ret. assert (a = []) as -> by (destruct a; [done|unfold strlen in *; cbn in *; lia]).
    split; [done|]. split; [|split; [done|]].
    + unfold stream_ok. cbn [ridx bcnt buf]. lia.
    + unfold held at 1. cbn [ridx bcnt buf]. by rewrite drop_0, app_nil_r.
Qed.

(** [memchr] on the buffered bytes. *)
Lemma memchr_held s Q : stream_ok s ->
  Q ((fun i => ridx s + Z.of_nat i) <$> index_of LF (held s)) s ->
  wp (memchr (buf s) (ridx s) LF (bcnt s)) s Q.
Proof.
  intros (H0 & H1 & H2 & H3) HQ. unfold memchr. rewrite Z.min_l by lia. fold (held s).
  destruct (index_of LF (held s)); [by apply wp_ret|].
  rewrite (proj2 (Z.leb_le (ridx s + bcnt s) (strlen (buf s)))) by lia. by apply wp_ret.
Qed.

(** The reader of thrplhttp finds a line only in the bytes it has together with
    those that a single [recv] brings: it returns that line and keeps the bytes
    behind it, without calling the kernel when the line is there already; a line
    that arrives in more pieces, or ends behind the 4096 bytes of the buffer, makes
    it return NULL as at the end of the connection. *)
Theorem bstream_readln_two_pieces s chunks : stream_ok s -> c_in (h_net s) = map Some chunks ->
  exists ln s', bstream_readln s = Ok (ln, s') /\ stream_ok s' /\
    match index_of LF (held s) with
    | Some i => ln = Some (take i (held s) ++ [0]) /\ held s' = drop (S i) (held s) /\ h_net s' = h_net s
    | None =>
      match index_of LF (held s ++ one_recv s) with
      | Some i => ln = Some (take i (held s ++ one_recv s) ++ [0]) /\ held s' = drop (S i) (held s ++ one_recv s)
      | None => ln = None
      end
    end.
Proof.
  intros Hok Hin. apply wp_run. unfold bstream_readln. apply wp_bind, wp_get, wp_bind, memchr_held; [done|].
  apply wp_bind. destruct (index_of LF (held s)) as [i|] eqn:Ei; cbn [fmap option_fmap option_map].
  - apply wp_ret. eapply wp_mono; [by apply take_line_ok|]. cbn beta. intros ln s' (? & ? & ? & ?). done.
  - apply wp_bind. eapply wp_mono; [by eapply pool_refil_ok|]. intros n s1 (-> & Hok1 & Hr1 & Hh1 & _).
    pose proof (strlen_nonneg (one_recv s)). destruct (Z.leb_spec (strlen (one_recv s)) 0) as [Hn|Hn].
    + apply wp_ret, wp_ret. split; [done|]. assert (one_recv s = []) as ->.
      { destruct (one_recv s); [done|]. unfold strlen in Hn. cbn in Hn. lia. }
      by rewrite app_nil_r, Ei.
    + apply wp_bind, wp_get, memchr_held; [done|]. rewrite Hh1.
      destruct (index_of LF (held s ++ one_recv s)) as [i|] eqn:Ej; cbn [fmap option_fmap option_map].
      * eapply wp_mono; [apply take_line_ok; [done|by rewrite Hh1]|]. cbn beta.
        rewrite Hh1. intros ln s' (? & ? & ? & ?). done.
      * by apply wp_ret.
Qed.

(** ** Proofs: no byte of the stream is lost *)

(** A well-formed stream from which exactly the bytes [p] are still to come. *)
Definition upcoming (s : http conn) (p : list Z) : Prop :=
  stream_ok s /\ exists chunks, c_in (h_net s) = map Some chunks /\ held s ++ concat chunks = p.

Lemma conn_recv_split n w chunks : c_in w = map Some chunks -> 0 <= n ->
  exists a chunks', (conn_recv n w).1 = (strlen a, a) /\ strlen a <= n /\
    c_in (conn_recv n w).2 = map Some chunks' /\ a ++ concat chunks' = concat chunks.
Proof.
  intros Hin Hn. unfold conn_recv. rewrite Hin. destruct chunks as [|c chunks]; cbn [map].
  - exists [], []. cbn. by rewrite Hin.
  - exists (take (Z.to_nat n) c), (match drop (Z.to_nat n) c with [] => chunks | b => b :: chunks end).
    cbn [fst snd c_in]. split; [done|]. split; [unfold strlen; rewrite length_take; lia|].
    cbn [concat]. rewrite <-(take_drop (Z.to_nat n) c) at 5. rewrite <-app_assoc. split.
    + by destruct (drop (Z.to_nat n) c).
    + f_equal. by destruct (drop (Z.to_nat n) c).
Qed.

Lemma refil_upcoming s p : upcoming s p -> wp bstream_refil s (fun _ s' => upcoming s' p).
Proof.
  intros (Hok & chunks & Hin & <-). eapply wp_mono; [by eapply pool_refil_ok|].
  cbn beta. intros n s' (_ & Hok' & _ & Hh & Hn). split; [done|]. pose proof Hok as (H0 & H1 & H2 & H3).
  assert (Hrm : 0 <= BSTREAM_BUFSIZE - bcnt s) by lia.
  destruct (conn_recv_split _ _ _ Hin Hrm) as (a & chunks' & Ha & _ & Hin' & Hc).
  exists chunks'. rewrite Hn. split; [done|]. rewrite Hh, <-Hc, app_assoc. do 2 f_equal.
  apply (f_equal snd) in Ha. cbn in Ha. rewrite <-Ha. unfold one_recv, conn_recv. rewrite Hin. by destruct chunks.
Qed.

Lemma take_line_upcoming s p i : upcoming s p -> index_of LF (held s) = Some i ->
  wp (take_line (ridx s + Z.of_nat i)) s (fun ln s' => exists l p',
    ln = Some (l ++ [0]) /\ p = l ++ LF :: p' /\ upcoming s' p').
Proof.
  intros (Hok & chunks & Hin & <-) Hi. eapply wp_mono; [by apply take_line_ok|].
  cbn beta. intros ln s' (Hok' & -> & Hh & Hn). eexists _, (drop (S i) (held s) ++ concat chunks). split; [done|].
  split.
  - rewrite app_comm_cons, app_assoc. f_equal. by apply index_of_some.
  - split; [done|]. exists chunks. by rewrite Hn, Hh.
Qed.

Lemma readln_upcoming s p : upcoming s p -> wp bstream_readln s (fun ln s' =>
  match ln with
  | Some ln => exists l p', ln = l ++ [0] /\ p = l ++ LF :: p' /\ upcoming s' p'
  | None => upcoming s' p
  end).
Proof.
  intros Hu. unfold bstream_readln. apply wp_bind, wp_get, wp_bind, memchr_held; [apply Hu|]. apply wp_bind.
  assert (Hline : forall s i, upcoming s p -> index_of LF (held s) = Some i ->
    wp (take_line (ridx s + Z.of_nat i)) s (fun ln s' => match ln with
      | Some ln => exists l p', ln = l ++ [0] /\ p = l ++ LF :: p' /\ upcoming s' p'
      | None => upcoming s' p end)).
  { intros s0 i Hu0 Ei. eapply wp_mono; [by apply take_line_upcoming|]. cbn beta.
    intros ln s' (l & p' & -> & -> & ?). by exists l, p'. }
  destruct (index_of LF (held s)) as [i|] eqn:Ei; cbn [fmap option_fmap option_map].
  - apply wp_ret. by apply Hline.
  - apply wp_bind. eapply wp_mono; [by apply refil_upcoming|]. cbn beta. intros n s1 Hu1.
    destruct (n <=? 0); [by apply wp_ret, wp_ret|]. apply wp_bind, wp_get, memchr_held; [apply Hu1|].
    destruct (index_of LF (held s1)) as [i|] eqn:Ej; cbn [fmap option_fmap option_map]; [by apply Hline|by apply wp_ret].
Qed.

Lemma readsome_upcoming n s p : 0 <= n < 2 ^ 63 -> upcoming s p -> wp (bstream_readsome n) s (fun r s' =>
  exists p', p = r.2 ++ p' /\ upcoming s' p' /\ r.1 = strlen r.2 /\ strlen r.2 <= n).
Proof.
  intros Hn (Hok & chunks & Hin & <-). pose proof (held_length s Hok) as Hl. pose proof Hok as (H0 & H1 & H2 & H3).
  unfold bstream_readsome. apply wp_bind, wp_get. destruct (Z.ltb_spec 0 (bcnt s)) as [Hb|Hb].
  - set (k := if n <? bcnt s then n else bcnt s).
    assert (Hk : 0 <= k <= bcnt s /\ k <= n) by (unfold k; destruct (Z.ltb_spec n (bcnt s)); lia).
    apply wp_bind, wp_slice; [lia|lia|]. apply wp_bind, wp_puts, wp_ret. cbn [fst snd].
    assert (Hd : take (Z.to_nat k) (drop (Z.to_nat (ridx s)) (buf s)) = take (Z.to_nat k) (held s)).
    { unfold held. rewrite take_take. f_equal. lia. }
    rewrite Hd. exists (drop (Z.to_nat k) (held s) ++ concat chunks). split; [by rewrite app_assoc, take_drop|].
    split; [|unfold strlen in *; rewrite length_take; lia].
    split; [unfold stream_ok; cbn [ridx bcnt buf]; lia|]. exists chunks. split; [done|]. f_equal.
    unfold held. cbn [ridx bcnt buf]. rewrite skipn_firstn_comm, drop_drop. f_equal; [lia|]. f_equal. lia.
  - apply wp_bind, wp_on_net, wp_ret. change (net_recv ?n ?w) with (conn_recv n w).
    assert (Hn0 : 0 <= n) by lia.
    destruct (conn_recv_split _ _ _ Hin Hn0) as (a & chunks' & Ha & Hle & Hin' & Hc). rewrite Ha. cbn [fst snd].
    assert (Hs : held s = []) by (destruct (held s); [done|]; unfold strlen in Hl; cbn in Hl; lia).
    exists (concat chunks'). rewrite Hs, Hc. pose proof (strlen_nonneg a). split; [done|].
    split; [|split; [apply u64_small; lia|done]]. split; [done|]. exists chunks'. split; [done|].
    unfold held in Hs |- *. cbn [ridx bcnt buf]. by rewrite Hs.
Qed.

Lemma read_loop_upcoming fuel : forall cnt n blk s p, 0 <= cnt <= n -> n < 2 ^ 63 -> n <= strlen blk ->
  (Z.to_nat (n - cnt) < fuel)%nat -> upcoming s p ->
  wp (read_loop fuel cnt cnt n blk) s (fun r s' => exists out p', p = out ++ p' /\ upcoming s' p' /\
    0 <= r.1 <= n /\ take (Z.to_nat r.1) r.2 = take (Z.to_nat cnt) blk ++ out).
Proof.
  induction fuel as [|fuel IH]; intros cnt n blk s p Hc Hn Hb Hf Hu; [lia|]. cbn [read_loop].
  destruct (Z.ltb_spec cnt n) as [Hlt|Hge].
  2:{ apply wp_ret. exists [], p. cbn [fst snd]. rewrite app_nil_r. split; [done|]. split; [done|]. split; [lia|done]. }
  rewrite u64_small by lia. apply wp_bind. eapply wp_mono; [apply readsome_upcoming; [lia|done]|].
  cbn beta. intros [k d] s1 (p1 & -> & Hu1 & Hk & Hd). cbn [fst snd] in *. subst k.
  destruct d as [|b d0]; [|set (d := b :: d0)].
  - cbn [store]. apply wp_bind, wp_ret. cbn. apply wp_ret. exists [], p1. cbn [fst snd]. rewrite app_nil_r.
    split; [done|]. split; [done|]. split; [lia|done].
  - assert (Hp : 0 < strlen d) by (unfold strlen; cbn; lia). fold d in Hd.
    change (store cnt d blk) with ((if (0 <=? cnt) && (cnt + strlen d <=? strlen blk) then mret (fill_at cnt d blk) else fault) : M (http conn) (list Z)).
    rewrite (proj2 (Z.leb_le 0 cnt)), (proj2 (Z.leb_le (cnt + strlen d) (strlen blk))) by lia.
    apply wp_bind, wp_ret. rewrite (proj2 (Z.leb_gt (strlen d) 0)) by lia.
    rewrite s64_small, u64_small by lia.
    destruct (fill_at_take cnt d blk) as [Hl Ht]; [lia|lia|].
    eapply wp_mono; [apply IH; [lia|done|lia|lia|done]|]. cbn beta. intros r s' (out & p' & -> & Hu' & Hr & Hout).
    exists (d ++ out), p'. rewrite Hout, Ht, !app_assoc. done.
Qed.

(** The calls of the reader, and the bytes each of them hands to its caller. *)
Inductive reader_call := Refil | Readln | Readsome (n : Z) | Read (n : Z).

Definition reader_call_ok (c : reader_call) : Prop :=
  match c with Readsome n | Read n => 0 <= n < 2 ^ 63 | _ => True end.

Definition reader_run (c : reader_call) : M (http conn) (list Z) :=
  match c with
  | Refil => bstream_refil;; mret []
  | Readln => ln ← bstream_readln; mret (match ln with Some ln => removelast ln ++ [LF] | None => [] end)
  | Readsome n => r ← bstream_readsome n; mret r.2
  | Read n => r ← bstream_read (S (Z.to_nat n)) n (repeat 0 (Z.to_nat n)); mret (take (Z.to_nat r.1) r.2)
  end.

Fixpoint reader_runs (cs : list reader_call) : M (http conn) (list Z) :=
  match cs with
  | [] => mret []
  | c :: cs => d ← reader_run c; ds ← reader_runs cs; mret (d ++ ds)
  end.

Lemma reader_run_upcoming c s p : reader_call_ok c -> upcoming s p ->
  wp (reader_run c) s (fun d s' => exists p', p = d ++ p' /\ upcoming s' p').
Proof.
  intros Hc Hu. destruct c as [| |n|n]; cbn [reader_run reader_call_ok] in *; apply wp_bind.
  - eapply wp_mono; [by apply refil_upcoming|]. intros ? s' ?. apply wp_ret. by exists p.
  - eapply wp_mono; [by apply readln_upcoming|]. cbn beta. intros [ln|] s' H; apply wp_ret.
    + destruct H as (l & p' & -> & -> & ?). exists p'. rewrite removelast_last, <-app_assoc. done.
    + by exists p.
  - eapply wp_mono; [by apply readsome_upcoming|]. cbn beta. intros r s' (p' & -> & ? & _). apply wp_ret. by exists p'.
  - eapply wp_mono.
    + unfold bstream_read. apply read_loop_upcoming; [lia|lia| |lia|done]. unfold strlen. rewrite repeat_length. lia.
    + cbn beta. intros r s' (out & p' & -> & ? & _ & Hr). apply wp_ret. rewrite Hr. by exists p'.
Qed.

(** C11: The buffered stream of thrplhttp keeps its shape: on a connection whose
    [recv] does not fail, every sequence of calls of bstream_refil, bstream_readln,
    bstream_readsome and bstream_read returns, reads and writes only inside the
    4096 bytes of the buffer and inside the blocks of the callers, leaves ridx and
    bcnt inside the buffer, and hands out the bytes of the connection in their
    order, none lost and none twice, however [recv] cuts them: what was handed
    out, what is still buffered and what the kernel still holds are the bytes the
    stream began with. *)
Theorem bstream_calls_keep_stream cs s chunks : stream_ok s -> c_in (h_net s) = map Some chunks ->
  Forall reader_call_ok cs ->
  exists out s' rest, reader_runs cs s = Ok (out, s') /\ stream_ok s' /\ c_in (h_net s') = map Some rest /\
    held s ++ concat chunks = out ++ held s' ++ concat rest.
Proof.
  intros Hok Hin Hcs.
  assert (Hu : upcoming s (held s ++ concat chunks)) by (split; [done|]; by exists chunks).
  revert Hu. generalize (held s ++ concat chunks). clear Hok Hin. intros p Hu.
  enough (Hw : wp (reader_runs cs) s (fun out s' => exists p', p = out ++ p' /\ upcoming s' p')).
  { apply wp_run in Hw as (out & s' & Hr & p' & -> & Hok' & rest & Hin' & <-). by exists out, s', rest. }
  revert s p Hu. induction Hcs as [|c cs Hc Hcs IH]; intros s p Hu; cbn [reader_runs].
  { apply wp_ret. by exists p. }
  apply wp_bind. eapply wp_mono; [by apply reader_run_upcoming|]. cbn beta. intros d s1 (p1 & -> & Hu1).
  apply wp_bind. eapply wp_mono; [by apply IH|]. cbn beta. intros ds s2 (p2 & -> & Hu2).
  apply wp_ret. exists p2. by rewrite <-app_assoc.
Qed.

(** A stream that has read the start of a request, and the rest of its line. *)
Definition pool_conn (first : list Z) (more : list (list Z)) : http conn :=
  mk_http (mk_conn (map Some more) [] [] (fun _ => Some []) 0) 0 (strlen first)
    (first ++ repeat 0 (4096 - length first)) 0 0 0.

Lemma bstream_readln_two_pieces_witness : exists ln s',
  bstream_readln (pool_conn (str "GET /a") [str " HTTP"; [CR; LF]]) = Ok (ln, s') /\ stream_ok s' /\ ln = None.
Proof.
  apply (bstream_readln_two_pieces (pool_conn (str "GET /a") [str " HTTP"; [CR; LF]]) [str " HTTP"; [CR; LF]]).
  - repeat split; vm_compute; congruence.
  - reflexivity.
Defined.

Lemma bstream_calls_keep_stream_witness : exists out s' rest,
  reader_runs [Readln; Readsome 3; Read 9; Refil] (pool_conn (str "GET /a") [[LF]; str "abcdef"; str "ghijklmn"]) = Ok (out, s') /\
  stream_ok s' /\ c_in (h_net s') = map Some rest /\
  held (pool_conn (str "GET /a") [[LF]; str "abcdef"; str "ghijklmn"]) ++ concat [[LF]; str "abcdef"; str "ghijklmn"] =
    out ++ held s' ++ concat rest.
Proof.
  apply bstream_calls_keep_stream.
  - repeat split; vm_compute; congruence.
  - reflexivity.
  - repeat constructor; cbn; lia.
Defined.

(** ** Proofs: the request line *)
Lemma cstr_no_nul s : 0 ∉ cstr s.
Proof.
  induction s as [|c s IH]; cbn; [apply not_elem_of_nil|]. destruct (Z.eqb_spec c 0); [apply not_elem_of_nil|].
  rewrite elem_of_cons. intros [?|?]; congruence.
Qed.

Lemma cstr_id s : 0 ∉ s -> cstr s = s.
Proof.
  induction s as [|c s IH]; cbn; [done|]. rewrite elem_of_cons. intros Hc.
  destruct (Z.eqb_spec c 0) as [->|]; [tauto|]. f_equal. tauto.
Qed.

Lemma skip_block_app delims s z : mem 0 delims = false ->
  skip_block delims (s ++ 0 :: z) = Ok (skip_delims delims s ++ 0 :: z).
Proof. intros Hd. induction s as [|c s IH]; cbn; [by rewrite Hd|]. by destruct (mem c delims). Qed.

Lemma token_block_app delims s z : mem 0 delims = false -> 0 ∉ s ->
  token_block delims (s ++ 0 :: z) = Ok ((token delims s).1, (token delims s).2 ++ 0 :: z).
Proof.
  intros Hd. induction s as [|c s IH]; cbn; [done|]. rewrite elem_of_cons. intros Hc.
  destruct (Z.eqb_spec c 0) as [->|]; [tauto|]. destruct (mem c delims); [done|].
  rewrite IH by tauto. unfold mbind, res_bind. by destruct (token delims s).
Qed.

Lemma skip_delims_sub delims s : 0 ∉ s -> 0 ∉ skip_delims delims s.
Proof.
  induction s as [|c s IH]; cbn; [done|]. rewrite elem_of_cons. intros. destruct (mem c delims); [tauto|].
  by rewrite elem_of_cons.
Qed.

Lemma token_rest_sub delims x s : x ∉ s -> x ∉ (token delims s).2.
Proof.
  induction s as [|c s IH]; cbn; [done|]. rewrite elem_of_cons. intros. destruct (mem c delims); [tauto|].
  destruct (token delims s). cbn in *. tauto.
Qed.

Lemma skip_delims_rest_sub delims x s : x ∉ s -> x ∉ skip_delims delims s.
Proof.
  induction s as [|c s IH]; cbn; [done|]. rewrite elem_of_cons. intros. destruct (mem c delims); [tauto|].
  by rewrite elem_of_cons.
Qed.

Lemma strtok_rest_sub delims x s t r : x ∉ s -> strtok_r delims s = Some (t, r) -> x ∉ r.
Proof.
  intros Hx. unfold strtok_r. pose proof (skip_delims_rest_sub delims x s Hx) as Hs.
  destruct (skip_delims delims s) as [|c s'] eqn:E; [done|]. intros [= Ht].
  pose proof (token_rest_sub delims x (c :: s') Hs) as Hr. cbn in Hr, Ht. by rewrite Ht in Hr.
Qed.

Lemma strtok_block_app delims s z : mem 0 delims = false -> 0 ∉ s ->
  strtok_block delims (s ++ 0 :: z) =
    Ok ((fun tr => (tr.1, tr.2 ++ 0 :: z)) <$> strtok_r delims s).
Proof.
  intros Hd Hs. unfold strtok_block, strtok_r. rewrite skip_block_app, res_bind_ok by done.
  pose proof (skip_delims_sub delims s Hs) as Hk.
  destruct (skip_delims delims s) as [|c s'] eqn:E; [done|].
  rewrite <- E in *. assert ((at_ (skip_delims delims s ++ 0 :: z) 0 =? 0) = false) as ->.
  { rewrite E in *. cbn. rewrite elem_of_cons in Hk. apply Z.eqb_neq. intros ->. tauto. }
  rewrite token_block_app by done. rewrite E. done.
Qed.

(** Without a line feed in the string the line feed is no delimiter. *)
Lemma strtok_no_lf s : LF ∉ s -> strtok_r (str " " ++ crlf) s = strtok_r (str " " ++ [CR]) s.
Proof.
  intros Hs.
  assert (Hm : forall c, c <> LF -> mem c (str " " ++ crlf) = mem c (str " " ++ [CR])).
  { intros c Hc. cbn. apply Z.eqb_neq in Hc. change 10 with LF. by rewrite Hc. }
  assert (Hsk : forall s, LF ∉ s -> skip_delims (str " " ++ crlf) s = skip_delims (str " " ++ [CR]) s).
  { clear s Hs. induction s as [|c s IH]; cbn [skip_delims]; [done|]. rewrite elem_of_cons. intros.
    rewrite Hm by (intros ->; tauto). destruct (mem c _); [apply IH; tauto|done]. }
  assert (Htk : forall s, LF ∉ s -> token (str " " ++ crlf) s = token (str " " ++ [CR]) s).
  { clear s Hs. induction s as [|c s IH]; cbn [token]; [done|]. rewrite elem_of_cons. intros.
    rewrite Hm by (intros ->; tauto). destruct (mem c _); [done|]. by rewrite IH by tauto. }
  unfold strtok_r. rewrite Hsk by done. pose proof (skip_delims_rest_sub (str " " ++ [CR]) LF s Hs) as Hr.
  destruct (skip_delims (str " " ++ [CR]) s) as [|c s'] eqn:E; [done|]. by rewrite Htk.
Qed.

(** A line that leaves a NUL in the block. *)
Lemma parse_request_short ln : LF ∉ cstr ln -> strlen (cstr ln) < 2048 ->
  parse_request (strncpy REQ_SIZE ln) = Ok (ThrHttp.parse_request ln).
Proof.
  intros Hlf Hl. assert (exists z, strncpy REQ_SIZE ln = cstr ln ++ 0 :: z) as [z ->].
  { unfold strncpy, strlen in *. rewrite take_app_ge by (unfold REQ_SIZE; lia).
    destruct (REQ_SIZE - length (cstr ln))%nat as [|n] eqn:E; [unfold REQ_SIZE in *; lia|].
    by exists (take n (repeat 0 2047)). }
  pose proof (cstr_no_nul ln) as H0. unfold parse_request, ThrHttp.parse_request.
  rewrite strtok_block_app by done. destruct (strtok_r (str " ") (cstr ln)) as [[meth r1]|] eqn:E1; [|done].
  pose proof (strtok_rest_sub _ 0 _ _ _ H0 E1) as H1. pose proof (strtok_rest_sub _ LF _ _ _ Hlf E1) as Hl1.
  cbn [fmap option_fmap option_map fst snd]. rewrite res_bind_ok, strtok_block_app by done.
  destruct (strtok_r (str " ") r1) as [[doc r2]|] eqn:E2; [|done].
  pose proof (strtok_rest_sub _ 0 _ _ _ H1 E2) as H2. pose proof (strtok_rest_sub _ LF _ _ _ Hl1 E2) as Hl2.
  cbn [fmap option_fmap option_map fst snd]. rewrite res_bind_ok, strtok_block_app by done.
  rewrite strtok_no_lf by done. destruct (strtok_r (str " " ++ [CR]) r2) as [[ver r3]|]; [|done].
  cbn [fmap option_fmap option_map fst snd]. rewrite res_bind_ok. by destruct (negb _).
Qed.

(** The request line is copied to a block of 2048 bytes and cut into tokens
    there.  A shorter line gives the method, document and version that thrhttp
    finds in it; a line of 2048 bytes or more leaves the block without a NUL, and
    when its first 2048 bytes hold no space [strtok_r] reads past the block. *)
Theorem parse_request_bounds ln : LF ∉ cstr ln ->
  (strlen (cstr ln) < 2048 -> parse_request (strncpy REQ_SIZE ln) = Ok (ThrHttp.parse_request ln)) /\
  (2048 <= strlen (cstr ln) -> 32 ∉ take REQ_SIZE (cstr ln) -> parse_request (strncpy REQ_SIZE ln) = Fault).
Proof.
  intros Hlf. split; [by apply parse_request_short|].
  - intros Hl Hsp. unfold strncpy, strlen in *. rewrite take_app_le by (unfold REQ_SIZE; lia).
    assert (H0 : 0 ∉ take REQ_SIZE (cstr ln)).
    { intros Hin. apply (cstr_no_nul ln). rewrite <- (take_drop REQ_SIZE (cstr ln)). apply elem_of_app. by left. }
    set (b := take REQ_SIZE (cstr ln)) in *.
    assert (Hb : b <> []). { intros E. apply (f_equal length) in E. unfold b in E. rewrite length_take in E. unfold REQ_SIZE in E. cbn [length] in E. lia. }
    clearbody b. clear - Hsp H0 Hb. unfold parse_request, strtok_block.
    assert (Hnm : forall c, c ∈ b -> mem c (str " ") = false).
    { intros c Hc. cbn. rewrite orb_false_r. apply Z.eqb_neq. intros ->. done. }
    destruct b as [|c b]; [done|]. cbn [skip_block]. rewrite Hnm by set_solver. rewrite res_bind_ok.
    assert ((at_ (c :: b) 0 =? 0) = false) as ->. { apply Z.eqb_neq. cbn. intros ->. set_solver. }
    assert (Ht : token_block (str " ") (c :: b) = Fault).
    { clear Hsp Hb. revert Hnm H0. generalize (c :: b). clear b c. induction l as [|c l IH]; intros Hnm H0; [done|].
      cbn [token_block]. destruct (Z.eqb_spec c 0) as [->|]; [set_solver|]. rewrite Hnm by set_solver.
      rewrite IH; [done| |]; set_solver. }
    by rewrite Ht.
Qed.

Lemma parse_request_bounds_witness :
  parse_request (strncpy REQ_SIZE (str "GET /a HTTP/1.1" ++ [CR; 0])) = Ok (Some (str "GET", str "/a", str "HTTP/1.1")).
Proof. apply (parse_request_bounds (str "GET /a HTTP/1.1" ++ [CR; 0])); vm_compute; [set_solver|reflexivity]. Defined.

Lemma wp_e_run_then {S A B} (m : M S A) (k : A -> E S B) s Q :
  wp (mbind (M := M S) k m) s Q -> wp (e_bind (e_run m) k) s Q.
Proof. unfold wp, e_bind, e_run, mbind, M_bind. by destruct (m s) as [[]| |]. Qed.

Lemma mmap_tx_empty fuel (s : http conn) : mmap_tx fuel [] s = Ok (inl 1, s).
Proof. by destruct s. Qed.

(** With the default way to send, a request for an empty document ends the
    whole server: [mmap] refuses a length of 0 and [xmmap] calls [exit(1)], after
    the head of the response went out. *)
Theorem send_empty_doc_exits cfg fuel doc ver cc (s : http conn) p :
  c_files (h_net s) (doc_path cfg doc) = Some [] -> txmode cfg = TX_MMAP -> strneq 5 doc (str "/mem-") = false ->
  holds s p -> positive (c_acc (h_net s)) ->
  let head := response_head ver (str " 200 OK") cc (dec 0) in
  strlen head < 2 ^ 63 -> strlen head < Z.of_nat fuel ->
  exists s', send_url cfg fuel doc ver cc s = Ok (inl 1, s') /\ c_out (h_net s') = c_out (h_net s) ++ head.
Proof.
  intros Hfi Htx Hm Hh Ha head Hl Hf.
  enough (wp (send_url cfg fuel doc ver cc) s (fun r s' => r = inl 1 /\ after holds s s' head 0 0 p)) as Hwp.
  { apply wp_run in Hwp as (r & s' & ? & -> & []). by exists s'. }
  unfold send_url. rewrite Hm. unfold send_doc.
  apply wp_e_run_then. eapply wp_step; [by apply query_after|done|done|done|].
  cbn [net_open conn_net fst]. rewrite Hfi. intros f s1 -> Hh1 Ha1 _ _.
  apply wp_e_run_then. eapply wp_step; [by apply cork_after|done|done|done|]. intros _ s2 _ Hh2 Ha2 _ _.
  apply wp_e_run_then. eapply wp_step; [by apply write_after|symmetry; apply app_nil_r|done|done|].
  intros n s3 _ Hh3 Ha3 _ _. rewrite Htx. unfold e_bind at 1. apply wp_bind.
  unfold wp at 1. rewrite mmap_tx_empty. by apply wp_done.
Qed.

Lemma send_empty_doc_exits_witness : exists s',
  send_url config0 100 (str "/empty") (str "HTTP/1.1") (str "close") (pool_conn [] []) = Ok (inl 1, s') /\
  c_out (h_net s') = response_head (str "HTTP/1.1") (str " 200 OK") (str "close") (str "0").
Proof.
  apply (send_empty_doc_exits config0 100 (str "/empty") (str "HTTP/1.1") (str "close") (pool_conn [] []) []);
    try (vm_compute; reflexivity).
  - exists []. vm_compute. repeat split; try discriminate. constructor.
  - constructor.
Defined.
