(* ===== verification/ThrPlSession.v ===== *)
(** * thrplhttp.c: a session whose pieces end with lines

    The buffered reader of thrplhttp looks at the bytes it has and at those of one
    more receive: it finds every line when the client sends whole lines that fit
    in the buffer.  For such clients a session of thrplhttp is the session on the
    plain bytes that [ThrHttp.thproc_session] shows of thrhttp. *)
From Stdlib Require Import ZArith Lia Bool String.
From stdpp Require Import base tactics list sets.
From S2P Require Import Prelude Exits Libc ThrHttp ThrPlHttp.

(** ** Lines *)

(** The bytes of some lines, and the lines this is about: without a line feed or
    a NUL inside, and short enough for the block of the request line. *)
Definition unlines (ls : list (list Z)) : list Z := concat (map (fun l => l ++ [LF]) ls).
Definition good_line (l : list Z) : Prop := LF ∉ l /\ 0 ∉ l /\ strlen l < 2048.

Lemma unlines_cons l ls : unlines (l :: ls) = l ++ LF :: unlines ls.
Proof. unfold unlines. cbn. by rewrite <-app_assoc. Qed.

Lemma unlines_app a b : unlines (a ++ b) = unlines a ++ unlines b.
Proof. unfold unlines. by rewrite map_app, concat_app. Qed.

Lemma unlines_nil ls : unlines ls = [] -> ls = [].
Proof. destruct ls as [|l ls]; [done|]. rewrite unlines_cons. by destruct l. Qed.

Lemma index_of_line l b : LF ∉ l -> index_of LF (l ++ LF :: b) = Some (length l).
Proof.
  induction l as [|c l IH]; cbn; [done|]. rewrite elem_of_cons. intros Hc.
  destruct (Z.eqb_spec c LF) as [->|]; [tauto|]. by rewrite IH by tauto.
Qed.

Lemma next_line_unlines l ls : LF ∉ l -> next_line None (unlines (l :: ls)) = (Some (l ++ [LF]), unlines ls).
Proof.
  intros Hl. rewrite unlines_cons. unfold next_line. rewrite index_of_line by done. cbn [default from_option].
  unfold id. change ([] ++ ?x) with x.
  assert (take (S (length l)) (l ++ LF :: unlines ls) = l ++ [LF] /\ drop (S (length l)) (l ++ LF :: unlines ls) = unlines ls) as [-> ->].
  { change (l ++ LF :: unlines ls) with (l ++ [LF] ++ unlines ls). rewrite app_assoc.
    rewrite take_app_length', drop_app_length' by (rewrite length_app; cbn; lia). done. }
  by destruct l.
Qed.

(** ** A line of thrhttp and one of thrplhttp

    The one ends with the line feed, the other with a NUL in its place. *)
Lemma cstr_lf l : 0 ∉ l -> cstr (l ++ [LF]) = l ++ [LF].
Proof. intros Hl. apply cstr_id. rewrite elem_of_app. intros [?|Hn]; [done|]. by inversion Hn as [|? ? ? Hx]; inversion Hx. Qed.

Lemma cstr_nul l b : 0 ∉ l -> cstr (l ++ 0 :: b) = l.
Proof.
  induction l as [|c l IH]; cbn; [done|]. rewrite elem_of_cons. intros Hc.
  destruct (Z.eqb_spec c 0) as [->|]; [tauto|]. by rewrite IH by tauto.
Qed.

Lemma skip_delims_lf delims s : mem LF delims = false -> skip_delims delims (s ++ [LF]) = skip_delims delims s ++ [LF].
Proof. intros Hd. induction s as [|c s IH]; cbn; [by rewrite Hd|]. by destruct (mem c delims). Qed.

Lemma token_lf delims s : mem LF delims = false ->
  token delims (s ++ [LF]) = ((token delims s).1, (token delims s).2 ++ [LF]) \/ (token delims (s ++ [LF])).2 = [] /\ (token delims s).2 = [].
Proof.
  intros Hd. induction s as [|c s IH]; cbn; [rewrite Hd; by right|]. destruct (mem c delims); [by left|].
  destruct (token delims (s ++ [LF])) as [t' r'], (token delims s) as [t r]. cbn in *.
  destruct IH as [[= -> ->]|[-> ->]]; [by left|by right].
Qed.

(** The tokens of a line with and without its line feed: the same, or none follow. *)
Lemma strtok_lf delims s : mem LF delims = false ->
  match strtok_r delims (s ++ [LF]) with
  | None => False
  | Some (t', r') => (exists r, strtok_r delims s = Some (t', r) /\ r' = r ++ [LF]) \/
      r' = [] /\ (strtok_r delims s = None \/ exists t, strtok_r delims s = Some (t, []))
  end.
Proof.
  intros Hd. unfold strtok_r. rewrite skip_delims_lf by done. destruct (skip_delims delims s) as [|c s'] eqn:E.
  - cbn. rewrite Hd. right. split; [done|]. by left.
  - cbn [app]. change (c :: s' ++ [LF]) with ((c :: s') ++ [LF]). pose proof (token_lf delims (c :: s') Hd) as Ht.
    destruct (token delims ((c :: s') ++ [LF])) as [t' r'], (token delims (c :: s')) as [t r]. cbn in *.
    destruct Ht as [[= -> ->]|[-> ->]]; [left; by exists r|right; split; [done|right; by exists t]].
Qed.

Lemma token_lf_delim delims s : mem LF delims = true -> (token delims (s ++ [LF])).1 = (token delims s).1.
Proof.
  intros Hd. induction s as [|c s IH]; cbn; [by rewrite Hd|]. destruct (mem c delims); [done|].
  destruct (token delims (s ++ [LF])), (token delims s). cbn in *. by rewrite IH.
Qed.

(** Whether a version follows, and which. *)
Lemma version_lf s : fst <$> strtok_r (str " " ++ crlf) (s ++ [LF]) = fst <$> strtok_r (str " " ++ crlf) s.
Proof.
  set (ds := str " " ++ crlf). assert (Hd : mem LF ds = true) by done. unfold strtok_r.
  assert (Hs : skip_delims ds (s ++ [LF]) = match skip_delims ds s with [] => [] | k => k ++ [LF] end).
  { clearbody ds. induction s as [|c s IH]; cbn; [by rewrite Hd|]. by destruct (mem c ds). }
  rewrite Hs. destruct (skip_delims ds s) as [|c s']; [done|]. cbn [app fmap option_fmap option_map].
  f_equal. by apply (token_lf_delim ds (c :: s')).
Qed.

Lemma parse_request_lf l : 0 ∉ l -> ThrHttp.parse_request (l ++ [0]) = ThrHttp.parse_request (l ++ [LF]).
Proof.
  intros Hl. unfold ThrHttp.parse_request. rewrite cstr_nul, cstr_lf by done.
  pose proof (strtok_lf (str " ") l eq_refl) as H1.
  destruct (strtok_r (str " ") (l ++ [LF])) as [[m r1]|]; [|done].
  destruct H1 as [(r & -> & ->)|(-> & H1)].
  2:{ change (strtok_r (str " ") []) with (@None (list Z * list Z)). by destruct H1 as [-> |[t ->]]. }
  pose proof (strtok_lf (str " ") r eq_refl) as H2. destruct (strtok_r (str " ") (r ++ [LF])) as [[d r2]|]; [|done].
  destruct H2 as [(q & -> & ->)|(-> & H2)].
  2:{ change (strtok_r (str " " ++ crlf) []) with (@None (list Z * list Z)). by destruct H2 as [-> |[t ->]]. }
  pose proof (version_lf q) as H3.
  destruct (strtok_r (str " " ++ crlf) (q ++ [LF])) as [[v1 x]|], (strtok_r (str " " ++ crlf) q) as [[v2 y]|]; try done.
  cbn in H3. by injection H3 as ->.
Qed.

Lemma strncaseeq_lf n : forall l pat, (n <= length pat)%nat -> Forall (fun y => tolower y <> LF) pat ->
  strncaseeq n (l ++ [LF]) pat = strncaseeq n l pat.
Proof.
  induction n as [|n IH]; intros l pat Hn Hp; [done|]. destruct pat as [|y pat]; cbn in Hn; [lia|].
  apply Forall_cons in Hp as [Hy Hp]. destruct l as [|x l]; cbn [app strncaseeq].
  - change (tolower LF) with LF. by rewrite (proj2 (Z.eqb_neq LF (tolower y))) by congruence.
  - by rewrite IH by (done || lia).
Qed.

Lemma atoi_lf s : atoi (s ++ [LF]) = atoi s.
Proof.
  assert (Hb : forall s, base_prefix 10 s = (10, s)).
  { intros [|[|c|c] s0]; try done. unfold base_prefix. change (10 =? 0) with false. change (10 =? 16) with false. cbn [orb andb]. destruct c; try done.
    repeat (match goal with |- context [match ?c with _ => _ end] => destruct c; try done end). }
  assert (Hd : forall s acc, (digits 10 (s ++ [LF]) acc).1 = (digits 10 s acc).1).
  { clear. induction s as [|c s IH]; intros acc; cbn; [done|]. by destruct (digit_val c <? 10). }
  assert (Hs : skip_spaces (s ++ [LF]) = match skip_spaces s with [] => [] | k => k ++ [LF] end).
  { clear. induction s as [|c s IH]; cbn; [done|]. by destruct (isspace c). }
  unfold atoi, strtol. rewrite Hs. destruct (skip_spaces s) as [|c k]; [done|].
  assert (Hg : sign ((c :: k) ++ [LF]) = ((sign (c :: k)).1, (sign (c :: k)).2 ++ [LF])).
  { unfold sign. cbn [app]. destruct c as [|c|c]; try done.
    repeat (match goal with |- context [match ?c with _ => _ end] => destruct c; try done end). }
  rewrite Hg. destruct (sign (c :: k)) as [g r]. cbn [fst snd]. rewrite !Hb.
  destruct r as [|x r]; [done|]. cbn [app]. destruct (digit_val x <? 10); [|done].
  change (x :: r ++ [LF]) with ((x :: r) ++ [LF]). specialize (Hd (x :: r) 0).
  destruct (digits 10 ((x :: r) ++ [LF]) 0), (digits 10 (x :: r) 0). cbn in *. by subst.
Qed.

Lemma drop_lf n (l : list Z) : (n <= length l)%nat -> drop n (l ++ [LF]) = drop n l ++ [LF].
Proof. intros. by rewrite drop_app_le. Qed.

Lemma strncaseeq_length n : forall l pat, (n <= length pat)%nat -> strncaseeq n l pat = true -> (n <= length l)%nat.
Proof.
  induction n as [|n IH]; intros l pat Hn H; [lia|]. destruct pat; cbn in Hn; [lia|]. destruct l; [done|]. cbn in *.
  apply andb_true_iff in H as [_ H]. apply IH in H; lia.
Qed.

Lemma parse_header_lf l h : parse_header (l ++ [LF]) h = parse_header l h.
Proof.
  assert (Hk : forall n l, (n <= length l)%nat -> skip_blanks (drop n (l ++ [LF])) = skip_blanks (drop n l) ++ [LF]).
  { intros n k Hn. unfold skip_blanks. by rewrite drop_lf, skip_delims_lf. }
  assert (Hc : forall n pat l, Forall (fun y => tolower y <> LF) pat -> (n <= length pat)%nat ->
    strncaseeq n (l ++ [LF]) pat = strncaseeq n l pat) by (intros; by apply strncaseeq_lf).
  unfold parse_header.
  rewrite (Hc 15%nat), (Hc 11%nat), (Hc 18%nat) by (cbn; try lia; repeat constructor; discriminate).
  destruct (strncaseeq 15 l _) eqn:E1.
  { apply strncaseeq_length in E1; [|cbn; lia]. by rewrite Hk, atoi_lf. }
  destruct (strncaseeq 11 l _) eqn:E2.
  { apply strncaseeq_length in E2; [|cbn; lia]. rewrite Hk by done.
    by rewrite (Hc 5%nat) by (cbn; try lia; repeat constructor; discriminate). }
  destruct (strncaseeq 18 l _) eqn:E3; [|done].
  apply strncaseeq_length in E3; [|cbn; lia]. rewrite Hk by done.
  by rewrite (Hc 7%nat) by (cbn; try lia; repeat constructor; discriminate).
Qed.

(** ** The reader on whole lines *)

(** [lined s p]: the buffered bytes are whole lines, and every piece that is still to
    come is made of some and fits in the buffer. *)
Definition lined (s : http conn) (p : list Z) : Prop := exists ls lss,
  stream_ok s /\ held s = unlines ls /\ c_in (h_net s) = map (fun ls => Some (unlines ls)) lss /\
  Forall (fun ls => ls <> [] /\ strlen (unlines ls) <= BSTREAM_BUFSIZE) lss /\
  Forall good_line (ls ++ concat lss) /\ p = unlines (ls ++ concat lss).

#[export] Instance lined_reader : Reader lined.
Proof. intros s w p cn rq tb Hw (ls & lss & Hok & Hh & Hin & H). exists ls, lss. by rewrite <-Hw in Hin. Qed.

(** Calls of the reader touch the stream only. *)
Definition moving {A} (m : M (http conn) A) : Prop := forall s a s', m s = Ok (a, s') -> moved s s'.

Lemma moving_ret {A} (a : A) : moving (mret a).
Proof. intros s ? s' [= <- <-]. apply moved_refl. Qed.
Lemma moving_gets {A} (f : http conn -> A) : moving (gets f).
Proof. intros s ? s' [= <- <-]. apply moved_refl. Qed.
Lemma moving_fault {A} : moving (@fault (http conn) A).
Proof. done. Qed.
Lemma moving_bind {A B} (m : M (http conn) A) (k : A -> M (http conn) B) :
  moving m -> (forall a, moving (k a)) -> moving (m ≫= k).
Proof.
  intros Hm Hk s b s' H. unfold mbind, M_bind in H. destruct (m s) as [[a s1]| |] eqn:E; [|done..].
  eapply moved_trans; [by eapply Hm|by eapply Hk].
Qed.
Lemma moving_stream r b d : moving (set_stream r b d).
Proof. intros s ? s' [= <- <-]. apply moved_stream. Qed.
Lemma moving_recv n : moving (on_net (net_recv n)).
Proof.
  intros s a s' H. unfold on_net in H. change (net_recv n (h_net s)) with (conn_recv n (h_net s)) in H.
  unfold conn_recv in H. destruct (c_in (h_net s)) as [|[c|] l]; injection H as <- <-; [apply moved_stream|by do 4 eexists..].
Qed.
Lemma moving_slice d off n : moving (slice d off n).
Proof. unfold slice. destruct (_ && _); [apply moving_ret|apply moving_fault]. Qed.
Lemma moving_memchr d off c n : moving (memchr d off c n).
Proof.
  unfold memchr. destruct (index_of _ _); [apply moving_ret|]. destruct (_ <=? _); [apply moving_ret|apply moving_fault].
Qed.
Create HintDb moving.
#[export] Hint Resolve moving_ret moving_gets moving_fault moving_bind moving_stream moving_recv moving_slice moving_memchr : moving.

Lemma moving_take_line e : moving (take_line e).
Proof. unfold take_line. eauto 10 with moving. Qed.
Lemma moving_refil : moving bstream_refil.
Proof.
  unfold bstream_refil. apply moving_bind; [auto with moving|intros s]. apply moving_bind.
  { destruct (_ && _); [destruct (_ <=? _)|]; auto with moving. }
  intros []. apply moving_bind; [auto with moving|intros s1]. apply moving_bind; [auto with moving|intros []].
  apply moving_bind; [auto with moving|intros r]. apply moving_bind; [auto with moving|intros s2].
  apply moving_bind; [destruct (_ <? _)|]; auto with moving.
Qed.
Lemma moving_readln : moving bstream_readln.
Proof.
  unfold bstream_readln. apply moving_bind; [auto with moving|intros s]. apply moving_bind; [auto with moving|intros o].
  apply moving_bind; [|intros [e|]; [apply moving_take_line|auto with moving]].
  destruct o; [auto with moving|]. apply moving_bind; [apply moving_refil|intros n]. destruct (n <=? 0); auto with moving.
Qed.

Lemma wp_moving {A} (m : M (http conn) A) s Q : moving m -> wp m s Q -> wp m s (fun a s' => Q a s' /\ moved s s').
Proof. intros Hm Hw. apply wp_run in Hw as (a & s' & Hr & HQ). apply wp_run. exists a, s'. eauto. Qed.

(** The line that [take_line] gives, and what stays. *)
Lemma take_line_lined s l ls lss : stream_ok s -> held s = unlines (l :: ls) -> Forall good_line ((l :: ls) ++ concat lss) ->
  c_in (h_net s) = map (fun ls => Some (unlines ls)) lss ->
  Forall (fun ls => ls <> [] /\ strlen (unlines ls) <= BSTREAM_BUFSIZE) lss ->
  index_of LF (held s) = Some (length l) /\
  wp (take_line (ridx s + Z.of_nat (length l))) s (fun ln s' => ln = Some (l ++ [0]) /\ lined s' (unlines (ls ++ concat lss))).
Proof.
  intros Hok Hh Hg Hin Hne. pose proof Hg as Hg'. cbn [app] in Hg'. apply Forall_cons in Hg' as [(Hlf & _ & _) Hg'].
  assert (Hi : index_of LF (held s) = Some (length l)) by (rewrite Hh, unlines_cons; by apply index_of_line).
  split; [done|]. eapply wp_mono; [by apply take_line_ok|]. cbn beta. intros ln s' (Hok' & -> & Hh' & Hn).
  rewrite Hh, unlines_cons in *. rewrite take_app_length. split; [done|].
  exists ls, lss. split; [done|]. split.
  - rewrite Hh'. change (l ++ LF :: unlines ls) with (l ++ [LF] ++ unlines ls). rewrite app_assoc.
    apply drop_app_length'. rewrite length_app. cbn. lia.
  - by rewrite Hn.
Qed.

Lemma pool_readln_lined s p : lined s p -> wp bstream_readln s (fun ln s' => lined s' (next_line None p).2 /\
  match ln with
  | None => (next_line None p).1 = None
  | Some b => exists l, good_line l /\ b = l ++ [0] /\ (next_line None p).1 = Some (l ++ [LF])
  end).
Proof.
  intros (ls & lss & Hok & Hh & Hin & Hne & Hg & ->).
  unfold bstream_readln. apply wp_bind, wp_get, wp_bind, memchr_held; [done|]. apply wp_bind.
  destruct ls as [|l ls].
  - rewrite Hh. cbn [index_of fmap option_fmap option_map unlines concat map]. apply wp_bind.
    assert (Hc : exists chunks, c_in (h_net s) = map Some chunks) by (exists (map unlines lss); by rewrite map_map).
    destruct Hc as [chunks Hc]. eapply wp_mono; [by eapply pool_refil_ok|]. cbn beta.
    pose proof (held_length s Hok) as Hb. rewrite Hh in Hb. change (strlen (unlines [])) with 0 in Hb.
    intros n s1 (-> & Hok1 & Hr1 & Hh1 & Hn1). unfold one_recv in *. rewrite Hin in *.
    destruct lss as [|ls lss]; cbn [map concat app] in *.
    + cbn. apply wp_ret, wp_ret. split; [|done]. exists [], []. rewrite Hh1, Hh, Hn1. unfold conn_recv. by rewrite Hin.
    + apply Forall_cons in Hne as [[Hls Hlen] Hne].
      rewrite take_ge in * by (unfold strlen in *; lia). rewrite Hh in Hh1. change (unlines [] ++ ?b) with b in Hh1.
      destruct ls as [|l ls]; [done|]. rewrite (proj2 (Z.leb_gt _ 0)).
      2:{ rewrite unlines_cons. unfold strlen. rewrite length_app. cbn. lia. }
      assert (Hin1 : c_in (h_net s1) = map (fun ls => Some (unlines ls)) lss).
      { rewrite Hn1. unfold conn_recv. rewrite Hin. cbn [c_in snd]. by rewrite drop_ge by (unfold strlen in *; lia). }
      apply wp_bind, wp_get, memchr_held; [done|].
      destruct (take_line_lined s1 l ls lss Hok1 Hh1 Hg Hin1 Hne) as [-> Hw]. cbn [fmap option_fmap option_map].
      eapply wp_mono; [exact Hw|]. cbn beta. intros ln s2 [-> Hl]. cbn [concat app] in *. apply Forall_cons in Hg as [Hgl _].
      rewrite next_line_unlines by apply Hgl. split; [done|]. by exists l.
  - destruct (take_line_lined s l ls lss Hok Hh Hg Hin Hne) as [-> Hw]. cbn [fmap option_fmap option_map].
    apply wp_ret. eapply wp_mono; [exact Hw|]. cbn beta. intros ln s2 [-> Hl].
    cbn [app] in *. apply Forall_cons in Hg as [Hgl _].
    rewrite next_line_unlines by apply Hgl. split; [done|]. by exists l.
Qed.

Lemma pool_readln_after s p : lined s p -> positive (c_acc (h_net s)) -> wp bstream_readln s (fun ln s' =>
  match ln with
  | None => (next_line None p).1 = None
  | Some b => exists l, good_line l /\ b = l ++ [0] /\ (next_line None p).1 = Some (l ++ [LF])
  end /\ after lined s s' [] 0 0 (next_line None p).2).
Proof.
  intros Hl Ha. eapply wp_mono; [apply wp_moving; [apply moving_readln|by apply pool_readln_lined]|].
  cbn beta. intros ln s' [[Hl' Hln] Hm]. split; [done|]. by apply after_moved.
Qed.

(** ** Sending, in a program that may exit *)
Section reply.
Context {I : http conn -> list Z -> Prop} `{!Reader I}.

(** A step that returns; no call of exit. *)
Lemma wp_e_step {A B} (m : E (http conn) A) (k : A -> E (http conn) B) s (P : A -> Prop) (Q : Z + B -> Prop)
  o o1 o2 r r1 r2 b b1 b2 p1 p2 :
  wp m s (fun a s1 => (exists x, a = inr x /\ P x) /\ after I s s1 o1 r1 b1 p1) ->
  o = o1 ++ o2 -> r = r1 + r2 -> b = b1 + b2 ->
  (forall a s1, P a -> I s1 p1 -> positive (c_acc (h_net s1)) -> c_files (h_net s1) = c_files (h_net s) ->
     c_stop (h_net s1) = c_stop (h_net s) ->
     wp (k a) s1 (fun a s2 => Q a /\ after I s1 s2 o2 r2 b2 p2)) ->
  wp (e_bind m k) s (fun a s2 => Q a /\ after I s s2 o r b p2).
Proof.
  intros Hm Ho Hr Hb Hk. unfold e_bind. eapply wp_step; [exact Hm|exact Ho|exact Hr|exact Hb|].
  cbn beta. intros a s1 (x & -> & HP). exact (Hk x s1 HP).
Qed.

Lemma wp_e_run_after {A} (m : M (http conn) A) s (P : A -> Prop) o r b p :
  wp m s (fun a s1 => P a /\ after I s s1 o r b p) ->
  wp (e_run m) s (fun a s1 => (exists x, a = inr x /\ P x) /\ after I s s1 o r b p).
Proof. intros Hm. apply wp_e_run. eapply wp_mono; [exact Hm|]. cbn beta. intros a s1 [HP ?]. split; [by exists a|done]. Qed.

Lemma wp_e_done {A} (a : A) s p (Q : A -> Prop) : Q a -> I s p -> positive (c_acc (h_net s)) ->
  wp (e_ret a) s (fun r s' => (exists x, r = inr x /\ Q x) /\ after I s s' [] 0 0 p).
Proof. intros. apply wp_done; [by exists a|done|done]. Qed.

(** What the pool server sends does not end the program. *)
Definition never_empty (cfg : config) (files : list Z -> option (list Z)) : Prop :=
  txmode cfg = TX_SENDFILE \/ forall path, files path <> Some [].

Lemma pool_mmap_tx_ok fuel d s p : I s p -> positive (c_acc (h_net s)) ->
  0 < strlen d < 2 ^ 63 -> strlen d < Z.of_nat fuel ->
  wp (mmap_tx fuel d) s (fun r s' => (exists e, r = inr e /\ e = 0) /\ after I s s' d 0 0 p).
Proof.
  intros Hi Ha Hd Hf. unfold mmap_tx, xmmap.
  apply (wp_e_step _ _ _ (fun _ => True) _ _ [] d 0 0 0 0 0 0 p p); [|done|done|done|].
  - eapply wp_e_step; [apply wp_e_run_after; by apply query_after|done|done|done|].
    cbn [net_mmap conn_net fst]. intros ok s1 -> Hi1 Ha1 _ _. rewrite (proj2 (Z.ltb_lt 0 (strlen d))) by lia.
    by apply wp_e_done.
  - intros _ s1 _ Hi1 Ha1 _ _.
    eapply wp_e_step; [apply wp_e_run_after; by apply write_after; [..|lia|]|symmetry; apply app_nil_r|done|done|].
    intros n s2 -> Hi2 Ha2 _ _. rewrite Z.eqb_refl. by apply wp_e_done.
Qed.

Lemma pool_send_doc_ok cfg fuel doc ver cc s p : I s p -> positive (c_acc (h_net s)) ->
  never_empty cfg (c_files (h_net s)) ->
  let reply := doc_reply cfg (c_files (h_net s)) doc ver cc in
  strlen reply.1 < 2 ^ 63 -> strlen reply.1 < Z.of_nat fuel ->
  wp (send_doc cfg fuel doc ver cc) s (fun r s' => (exists e, r = inr e /\ True) /\ after I s s' reply.1 0 reply.2 p).
Proof.
  intros Hi Ha Hne reply Hs Hf. unfold send_doc.
  eapply wp_e_step; [apply wp_e_run_after; by apply query_after|done|done|done|].
  cbn [net_open conn_net fst]. intros f s1 -> Hi1 Ha1 _ _.
  unfold reply, doc_reply in *. destruct (c_files (h_net s) (doc_path cfg doc)) as [d|] eqn:Ed; cbn [fst snd] in *.
  2:{ eapply wp_e_step; [apply wp_e_run_after; by apply write_after|symmetry; apply app_nil_r|done|done|].
      intros n s2 _ Hi2 Ha2 _ _. by apply wp_e_done. }
  rewrite strlen_app in Hs, Hf. set (hd := response_head _ _ _ _) in *.
  pose proof (strlen_nonneg hd). pose proof (strlen_nonneg d).
  eapply wp_e_step; [apply wp_e_run_after; by apply cork_after|done|done|done|]. intros _ s2 _ Hi2 Ha2 _ _.
  eapply wp_e_step; [apply wp_e_run_after; apply write_after; [done|done|lia|lia]|done|done|symmetry; apply Z.add_0_l|].
  intros n s3 _ Hi3 Ha3 _ _.
  eapply (wp_e_step _ _ _ (fun e => e = 0) _ _ d [] 0 0 0 _ 0 _ p).
  { destruct (txmode cfg) eqn:Etx.
    - apply wp_e_run_after. unfold sendfile_tx, ThrHttp.sendfile_tx. eapply wp_step.
      + apply wp_on_net. split; [apply eq_refl|]. cbn [net_sendfile conn_net snd]. by apply (after_sent s3).
      + symmetry; apply app_nil_r.
      + done.
      + done.
      + cbn [net_sendfile conn_net fst]. intros e s4 -> Hi4 Ha4 _ _. rewrite Z.eqb_refl. by apply wp_done.
    - destruct Hne as [Hne|Hne]; [congruence|]. apply pool_mmap_tx_ok; [done|done| |lia].
      destruct d; [by destruct (Hne _ Ed)|]. unfold strlen in *. cbn [length] in *. lia. }
  - symmetry; apply app_nil_r.
  - done.
  - symmetry; apply Z.add_0_l.
  - intros e s4 -> Hi4 Ha4 _ _.
    eapply wp_e_step; [apply wp_e_run_after; by apply cork_after|done|done|done|]. intros _ s5 _ Hi5 Ha5 _ _.
    eapply wp_e_step; [apply wp_e_run_after; by apply add_tbytes_after|done|done|symmetry; apply Z.add_0_r|].
    intros _ s6 _ Hi6 Ha6 _ _. by apply wp_e_done.
Qed.

Lemma pool_send_url_ok cfg fuel doc ver cc s p : I s p -> positive (c_acc (h_net s)) ->
  never_empty cfg (c_files (h_net s)) ->
  let reply := url_reply cfg (c_files (h_net s)) doc ver cc in
  strlen reply.1 < 2 ^ 63 -> strlen reply.1 < Z.of_nat fuel ->
  wp (send_url cfg fuel doc ver cc) s (fun r s' => (exists e, r = inr e /\ True) /\ after I s s' reply.1 0 reply.2 p).
Proof.
  intros Hi Ha Hne reply Hs Hf. unfold reply, url_reply, send_url in *. destruct (strneq 5 doc (str "/mem-")).
  - apply wp_e_run_after. eapply wp_mono; [by apply send_mem_ok|]. cbn beta. intros e s' [_ ?]. done.
  - by apply pool_send_doc_ok.
Qed.
End reply.

(** ** The session *)
Lemma end_of_head_lf l : streq (l ++ [LF]) crlf = streq l [CR].
Proof.
  unfold streq, crlf. apply bool_decide_ext. split; [|by intros ->].
  change [CR; LF] with ([CR] ++ [LF]). apply app_inj_tail_iff.
Qed.

Lemma pool_read_headers_ok fuel : forall n h s p,
  lined s p -> positive (c_acc (h_net s)) -> (length p < n)%nat -> strlen p < Z.of_nat fuel ->
  wp (read_headers fuel h) s (fun h' s' => h' = (plain_headers n p h).1 /\
    after lined s s' [] 0 0 (plain_headers n p h).2).
Proof.
  induction fuel as [|fuel IH]; intros n h s p Hh Ha Hn Hf; [unfold strlen in Hf; lia|].
  destruct n as [|n]; [lia|]. cbn [read_headers plain_headers].
  eapply wp_step; [by apply pool_readln_after|done|done|done|].
  intros ln s1 Hln Hh1 Ha1 _ _. destruct (next_line None p) as [o p1] eqn:E. cbn [fst snd] in *.
  destruct ln as [b|]; [|subst o; by apply wp_done]. destruct Hln as (l & (Hlf & H0 & Hl) & -> & ->).
  change (l ++ [0]) with (l ++ 0 :: []). rewrite cstr_nul, cstr_lf, end_of_head_lf, parse_header_lf by done.
  destruct (streq l [CR]); [by apply wp_done|].
  destruct (decide (p = [])) as [->|Hp]; [done|]. destruct (next_line_shorter p Hp) as (? & _ & Hs). rewrite E in Hs.
  cbn [snd] in Hs. apply IH; [done|done|unfold strlen in Hs; lia|lia].
Qed.

Lemma request_line_lf l : good_line l ->
  parse_request (strncpy REQ_SIZE (l ++ [0])) = Ok (ThrHttp.parse_request (l ++ [LF])).
Proof.
  intros (Hlf & H0 & Hl). rewrite <-parse_request_lf by done.
  apply parse_request_short; change (l ++ [0]) with (l ++ 0 :: []); by rewrite cstr_nul.
Qed.

Lemma pool_serve_request_ok cfg fuel s p oc :
  lined s p -> positive (c_acc (h_net s)) -> never_empty cfg (c_files (h_net s)) -> strlen p < Z.of_nat fuel ->
  plain_request cfg (c_files (h_net s)) (c_stop (h_net s)) p = oc ->
  strlen (oc_out oc) < 2 ^ 63 -> strlen (oc_out oc) < Z.of_nat fuel ->
  wp (serve_request cfg fuel) s (fun r s' => (exists more, r = inr more /\ more = oc_more oc) /\
    after lined s s' (oc_out oc) (oc_reqs oc) (oc_bytes oc) (oc_rest oc)).
Proof.
  intros Hh Ha Hne Hf Hoc Hs Ho. unfold serve_request, plain_request in *.
  eapply wp_e_step; [apply wp_e_run_after; by apply pool_readln_after|done|symmetry; apply Z.add_0_l|symmetry; apply Z.add_0_l|].
  intros ln s1 Hln Hh1 Ha1 Hfi1 Hst1. pose proof (next_line_le p) as Hp1.
  destruct (next_line None p) as [o p1] eqn:E. cbn [fst snd] in *.
  destruct ln as [b|]; [|subst o oc; by apply wp_e_done]. destruct Hln as (l & Hl & -> & ->).
  rewrite request_line_lf by done.
  eapply (wp_e_step _ _ _ (fun q => q = ThrHttp.parse_request (l ++ [LF]))); [by apply wp_e_done|done|symmetry; apply Z.add_0_l|symmetry; apply Z.add_0_l|].
  intros q s1' -> Hh1' Ha1' Hfi1' Hst1'.
  destruct (ThrHttp.parse_request (l ++ [LF])) as [[[meth doc] ver]|].
  2:{ subst oc. eapply wp_e_step; [apply wp_e_run_after; by apply write_after|symmetry; apply app_nil_r|done|done|].
      intros ? s2 _ Hh2 Ha2 _ _. by apply wp_e_done. }
  pose proof (plain_headers_shorter (S (length p1)) p1 (mk_headers 0 false (negb (strcaseeq ver (str "HTTP/1.1"))))) as Hp2.
  destruct (plain_headers _ _ _) as [h p2] eqn:Eh. cbn [snd] in Hp2.
  destruct (url_reply _ _ _ _ _) as [o b] eqn:Eu.
  assert (Hr : oc_reqs oc = 1) by (subst oc; by destruct (_ || _)).
  eapply wp_e_step; [apply wp_e_run_after; by apply add_reqs_after|done|rewrite Hr; symmetry; apply Z.add_0_r|symmetry; apply Z.add_0_l|].
  intros _ s2 _ Hh2 Ha2 Hfi2 Hst2.
  eapply wp_e_step; [apply wp_e_run_after; apply (pool_read_headers_ok _ (S (length p1))); [done|done|lia|lia]
                  |done|symmetry; apply Z.add_0_l|symmetry; apply Z.add_0_l|].
  rewrite Eh. cbn [fst snd]. intros h' s3 -> Hh3 Ha3 Hfi3 Hst3.
  destruct (negb (clen h =? 0) || chunked h).
  { subst oc. eapply wp_e_step; [apply wp_e_run_after; by apply write_after|symmetry; apply app_nil_r|done|done|].
    intros ? s4 _ Hh4 Ha4 _ _. by apply wp_e_done. }
  assert (Hfi : c_files (h_net s3) = c_files (h_net s)) by congruence.
  assert (Hst : c_stop (h_net s3) = c_stop (h_net s)) by congruence.
  assert (Hne3 : never_empty cfg (c_files (h_net s3))) by by rewrite Hfi.
  pose proof (pool_send_url_ok cfg fuel doc ver (if cclose h then str "close" else str "keep-alive") s3 p2 Hh3 Ha3 Hne3) as Hsend.
  cbn beta zeta in Hsend. rewrite Hfi, Eu in Hsend. subst oc. cbn [fst snd oc_out oc_bytes oc_rest oc_more] in *.
  eapply wp_e_step; [by apply Hsend|symmetry; apply app_nil_r|done|symmetry; apply Z.add_0_r|].
  intros _ s4 _ Hh4 Ha4 _ Hst4. apply wp_e_run_then, wp_bind, wp_get. apply wp_e_done; [|done|done].
  change (net_stopped (h_net s4)) with (c_stop (h_net s4)). by rewrite Hst4, Hst.
Qed.

Lemma pool_serve_loop_ok cfg lfuel fuel : forall n s p o r b,
  lined s p -> positive (c_acc (h_net s)) -> never_empty cfg (c_files (h_net s)) ->
  (length p < n)%nat -> strlen p < Z.of_nat fuel -> strlen p < Z.of_nat lfuel ->
  plain_session cfg (c_files (h_net s)) (c_stop (h_net s)) n p = (o, r, b) ->
  strlen o < 2 ^ 63 -> strlen o < Z.of_nat lfuel ->
  wp (serve_loop cfg fuel lfuel) s (fun x s' => x = inr tt /\ exists p', after lined s s' o r b p').
Proof.
  induction fuel as [|fuel IH]; intros n s p o r b Hh Ha Hne Hn Hf Hlf Hpl Hs Ho; [unfold strlen in Hf; lia|].
  destruct n as [|n]; [lia|]. cbn [serve_loop plain_session] in *.
  set (oc := plain_request cfg (c_files (h_net s)) (c_stop (h_net s)) p) in *.
  assert (Hoc : strlen (oc_out oc) <= strlen o).
  { destruct (oc_more oc); [|injection Hpl as <- _ _; done].
    destruct (plain_session _ _ _ _ _) as [[o' r'] b']. injection Hpl as <- _ _.
    rewrite strlen_app. pose proof (strlen_nonneg o'). lia. }
  apply wp_bind. eapply wp_mono; [apply (pool_serve_request_ok cfg lfuel s p oc); [done|done|done|lia|done|lia|lia]|].
  cbn beta. intros x s1 [(more & -> & ->) H1]. destruct (oc_more oc) eqn:Em.
  - pose proof (plain_request_shorter cfg _ _ _ Em) as Hsh. fold oc in Hsh.
    destruct (plain_session _ _ _ n _) as [[o' r'] b'] eqn:Epl. injection Hpl as <- <- <-.
    rewrite strlen_app in Hs, Ho. pose proof (strlen_nonneg (oc_out oc)). pose proof H1 as [].
    eapply wp_mono; [apply (IH n _ (oc_rest oc) o' r' b'); try done; try lia|].
    + by rewrite af_files.
    + unfold strlen in *. lia.
    + by rewrite af_files, af_stop.
    + cbn beta. intros y s2 [-> [p' H2]]. split; [done|]. exists p'. by eapply after_trans.
  - injection Hpl as <- <- <-. apply wp_ret. split; [done|]. by exists (oc_rest oc).
Qed.

(** The whole session. *)
Lemma process_session_lines cfg fuel (s : http conn) (lss : list (list (list Z))) o r b :
  let p := unlines (concat lss) in
  c_in (h_net s) = map (fun ls => Some (unlines ls)) lss ->
  Forall (fun ls => ls <> [] /\ strlen (unlines ls) <= 4096) lss -> Forall good_line (concat lss) ->
  Forall (fun k => 0 < k) (c_acc (h_net s)) -> strlen (buf s) = BSTREAM_BUFSIZE ->
  never_empty cfg (c_files (h_net s)) ->
  plain_session cfg (c_files (h_net s)) (c_stop (h_net s)) (S (length p)) p = (o, r, b) ->
  strlen o < 2 ^ 63 -> strlen p + strlen o < Z.of_nat fuel ->
  exists s', process_session cfg fuel s = Ok (inr 0, s') /\
    c_out (h_net s') = c_out (h_net s) ++ o /\
    u64 (reqs s') = u64 (reqs s + r) /\ u64 (tbytes s') = u64 (tbytes s + b).
Proof.
  intros p Hin Hne Hg Hacc Hbuf Hemp Hpl Ho Hf.
  enough (wp (process_session cfg fuel) s (fun x s' => x = inr 0 /\ c_out (h_net s') = c_out (h_net s) ++ o /\
    u64 (reqs s') = u64 (reqs s + r) /\ u64 (tbytes s') = u64 (tbytes s + b))) as Hwp.
  { apply wp_run in Hwp as (? & s' & ? & -> & ?). by exists s'. }
  unfold process_session, bstream_open, ThrHttp.bstream_open. apply wp_e_run_then, wp_bind, wp_bind, wp_get, wp_puts.
  pose proof (strlen_nonneg o). pose proof (strlen_nonneg p). apply wp_e_bind.
  eapply wp_mono; [apply (pool_serve_loop_ok cfg fuel fuel (S (length p)) _ p o r b); try done; try lia|].
  - exists [], lss. cbn. repeat split; try done; unfold BSTREAM_BUFSIZE in *; cbn; lia.
  - cbn beta. intros x s1 [-> (p' & [])]. done.
Qed.


(** A client that sends two requests, the first in one piece with the first line
    of the second. *)
Definition two_requests : list (list (list Z)) :=
  [[str "GET /a HTTP/1.1" ++ [CR]; [CR]; str "GET /mem-5 HTTP/1.1" ++ [CR]];
   [str "Connection: close" ++ [CR]; [CR]]].
Definition two_requests_conn : http conn :=
  mk_http (mk_conn (map (fun ls => Some (unlines ls)) two_requests) [1; 30; 2] [] (fun _ => Some (str "hello")) 0)
    0 0 (repeat 0 4096) 1 0 0.

