(* ===== verification/SessionQueue.v ===== *)
(** * thrplhttp.c: the queue of sessions of one CPU and its threads

    The acceptor thread of a CPU puts sessions in a ring, the service threads take
    them.  The functions below are the critical sections; the step relation
    interleaves them under the mutex with the condition variables [cnd] and
    [dqcnd], whose waits may end for no reason, as POSIX allows, and with the
    signal handler and the broadcast of main, which do not take the mutex. *)
From Stdlib Require Import ZArith Lia Bool.
From stdpp Require Import base tactics list sets.
From S2P Require Import Prelude.

(** ** The ring *)
Record per_cpu_ctx := mk_pcx {
  qsize : Z; rqpos : Z; wqpos : Z; qcount : Z; qwait : Z; squeue : list Z
}.

(** The fields of the queue after [init_per_cpu_ctx]; [mem] is what the allocation holds. *)
Definition init_per_cpu_ctx (size : Z) (mem : list Z) : per_cpu_ctx := mk_pcx size 0 0 0 0 mem.

(** The test of the loop of [dequeue_client_session]. *)
Definition dequeue_waits (stop : bool) (q : per_cpu_ctx) : bool := negb stop && (qcount q =? 0).

(** What follows it: the result, whether [dqcnd] is signalled; [None] when the
    access is outside [squeue]. *)
Definition dequeue_take (q : per_cpu_ctx) : option (Z * bool * per_cpu_ctx) :=
  if 0 <? qcount q then
    cfd ← (if rqpos q <? 0 then None else squeue q !! Z.to_nat (rqpos q));
    let q' := mk_pcx (qsize q) (Z.rem (rqpos q + 1) (qsize q)) (wqpos q) (qcount q - 1) (qwait q) (squeue q) in
    Some (cfd, 0 <? qwait q, q')
  else Some (-1, false, q).

(** The same for [queue_client_session]: whether [cnd] is signalled. *)
Definition queue_waits (stop : bool) (q : per_cpu_ctx) : bool := negb stop && (qsize q <=? qcount q).

Definition add_qwait (n : Z) (q : per_cpu_ctx) : per_cpu_ctx :=
  mk_pcx (qsize q) (rqpos q) (wqpos q) (qcount q) (qwait q + n) (squeue q).

Definition queue_put (cfd : Z) (q : per_cpu_ctx) : option (bool * per_cpu_ctx) :=
  if qcount q <? qsize q then
    if (0 <=? wqpos q) && (wqpos q <? Z.of_nat (length (squeue q))) then
      Some (true, mk_pcx (qsize q) (rqpos q) (Z.rem (wqpos q + 1) (qsize q)) (qcount q + 1) (qwait q)
                    (<[Z.to_nat (wqpos q) := cfd]> (squeue q)))
    else None
  else Some (false, q).

(** ** Threads *)

(** A service thread: before [dequeue_client_session]; holding the mutex between
    the test of its loop and the wait; in [pthread_cond_wait]; woken and to take the
    mutex; in [process_session]; returned. *)
Inductive service := SIdle | STested | SWait | SWoken | SBusy (cfd : Z) | SExit.

(** The acceptor: in its loop; with a connection; as above in
    [queue_client_session]; returned. *)
Inductive acceptor := AIdle | AReady (cfd : Z) | ATested (cfd : Z) | AWait (cfd : Z) | AWoken (cfd : Z) | AExit.

#[export] Instance service_eq_dec : EqDecision service.
Proof. solve_decision. Defined.
#[export] Instance acceptor_eq_dec : EqDecision acceptor.
Proof. solve_decision. Defined.

(** [entered] and [served] are the sessions put in the queue and taken from it so far. *)
Record pool := mk_pool {
  pcx : per_cpu_ctx; stopsvr : bool; broadcasted : bool;
  services : list service; acc : acceptor; entered : list Z; served : list Z
}.

Definition wake_service (s : service) : service := match s with SWait => SWoken | _ => s end.
Definition wake_acceptor (a : acceptor) : acceptor := match a with AWait cfd => AWoken cfd | _ => a end.
Definition is_tested (s : service) : bool := match s with STested => true | _ => false end.

(** [pthread_cond_signal] when the thread it would wake is [w]. *)
Definition signal_cnd (w : nat) (l : list service) : list service :=
  match l !! w with Some SWait => <[w := SWoken]> l | _ => l end.

(** Some thread holds the mutex. *)
Definition locked (p : pool) : bool :=
  match acc p with ATested _ => true | _ => existsb is_tested (services p) end.

Definition set_service (i : nat) (s : service) (p : pool) : pool :=
  mk_pool (pcx p) (stopsvr p) (broadcasted p) (<[i := s]> (services p)) (acc p) (entered p) (served p).
Definition set_acceptor (a : acceptor) (p : pool) : pool :=
  mk_pool (pcx p) (stopsvr p) (broadcasted p) (services p) a (entered p) (served p).
Definition set_pcx (q : per_cpu_ctx) (p : pool) : pool :=
  mk_pool q (stopsvr p) (broadcasted p) (services p) (acc p) (entered p) (served p).

(** A service thread that takes the mutex, before the wait or behind it. *)
Definition service_enter (i : nat) (p : pool) : option pool :=
  if dequeue_waits (stopsvr p) (pcx p) then Some (set_service i STested p)
  else
    '(cfd, sig, q) ← dequeue_take (pcx p);
    Some (mk_pool q (stopsvr p) (broadcasted p)
            (<[i := if cfd =? -1 then SExit else SBusy cfd]> (services p))
            (if (sig : bool) then wake_acceptor (acc p) else acc p)
            (entered p) (if 0 <? qcount (pcx p) then served p ++ [cfd] else served p)).

(** The acceptor with the mutex, before the wait; [w] is the thread that the signal
    wakes, if it waits. *)
Definition acceptor_enter (cfd : Z) (w : nat) (p : pool) : option pool :=
  if queue_waits (stopsvr p) (pcx p) then
    Some (set_acceptor (ATested cfd) (set_pcx (add_qwait 1 (pcx p)) p))
  else
    '(sig, q) ← queue_put cfd (pcx p);
    Some (mk_pool q (stopsvr p) (broadcasted p)
            (if (sig : bool) then signal_cnd w (services p) else services p) AIdle
            (if (sig : bool) then entered p ++ [cfd] else entered p) (served p)).

(** [pthread_cond_signal] wakes a waiting thread when there is one. *)
Definition may_wake (p : pool) (w : nat) : Prop :=
  services p !! w = Some SWait \/ SWait ∉ services p.

(** The steps of [dequeue_client_session] and [queue_client_session]. *)
Inductive queue_step : pool -> pool -> Prop :=
| step_service i s p p' : services p !! i = Some s -> s = SIdle \/ s = SWoken -> locked p = false ->
    service_enter i p = Some p' -> queue_step p p'
| step_service_sleep i p : services p !! i = Some STested -> queue_step p (set_service i SWait p)
| step_queue cfd w p p' : acc p = AReady cfd -> locked p = false -> may_wake p w ->
    acceptor_enter cfd w p = Some p' -> queue_step p p'
| step_queue_sleep cfd p : acc p = ATested cfd -> queue_step p (set_acceptor (AWait cfd) p)
| step_queue_again cfd w p p' : acc p = AWoken cfd -> locked p = false -> may_wake p w ->
    acceptor_enter cfd w (set_pcx (add_qwait (-1) (pcx p)) p) = Some p' -> queue_step p p'.

(** The steps that the program makes. *)
Inductive step : pool -> pool -> Prop :=
| step_queues p p' : queue_step p p' -> step p p'
| step_service_done i cfd p : services p !! i = Some (SBusy cfd) -> step p (set_service i SIdle p)
| step_accept cfd p : acc p = AIdle -> stopsvr p = false -> 0 <= cfd -> step p (set_acceptor (AReady cfd) p)
| step_accept_end p : acc p = AIdle -> step p (set_acceptor AExit p)
| step_sig_int p : step p (mk_pool (pcx p) true (broadcasted p) (services p) (acc p) (entered p) (served p))
| step_broadcast p : stopsvr p = true -> broadcasted p = false ->
    step p (mk_pool (pcx p) true true (map wake_service (services p)) (acc p) (entered p) (served p)).

(** The waits that end for no reason. *)
Inductive spurious : pool -> pool -> Prop :=
| spurious_service i p : services p !! i = Some SWait -> spurious p (set_service i SWoken p)
| spurious_acceptor cfd p : acc p = AWait cfd -> spurious p (set_acceptor (AWoken cfd) p).

Definition pool0 (size : Z) (mem : list Z) (n : nat) : pool :=
  mk_pool (init_per_cpu_ctx size mem) false false (replicate n SIdle) AIdle [] [].

(** The states of a CPU with [n] service threads. *)
Inductive reach (size : Z) (mem : list Z) (n : nat) : pool -> Prop :=
| reach0 : reach size mem n (pool0 size mem n)
| reach_step p p' : reach size mem n p -> step p p' -> reach size mem n p'
| reach_spurious p p' : reach size mem n p -> spurious p p' -> reach size mem n p'.

(** ** The invariant *)

(** The queued sessions, oldest first. *)
Definition contents (q : per_cpu_ctx) : list Z :=
  map (fun i => default 0 (squeue q !! Z.to_nat ((rqpos q + i) mod qsize q))) (seqZ 0 (qcount q)).

Definition waiting_in_queue (a : acceptor) : Z :=
  match a with ATested _ | AWait _ | AWoken _ => 1 | _ => 0 end.

Definition ring_ok (q : per_cpu_ctx) : Prop :=
  0 < qsize q /\ Z.of_nat (length (squeue q)) = qsize q /\ 0 <= qcount q <= qsize q /\
  0 <= rqpos q < qsize q /\ wqpos q = (rqpos q + qcount q) mod qsize q.

Record inv (p : pool) : Prop := {
  inv_ring : ring_ok (pcx p);
  inv_fifo : entered p = served p ++ contents (pcx p);
  inv_qwait : qwait (pcx p) = waiting_in_queue (acc p);
  inv_tested : STested ∈ services p -> qcount (pcx p) = 0;
  inv_wait : SWait ∈ services p -> qcount (pcx p) <= count SWoken (services p);
  inv_full : match acc p with ATested _ | AWait _ => qcount (pcx p) = qsize (pcx p) | _ => True end;
  inv_lock : match acc p with ATested _ => STested ∉ services p | _ => True end
}.

Lemma contents_take q : ring_ok q -> 0 < qcount q -> exists cfd,
  dequeue_take q = Some (cfd, 0 <? qwait q,
    mk_pcx (qsize q) ((rqpos q + 1) mod qsize q) (wqpos q) (qcount q - 1) (qwait q) (squeue q)) /\
  contents q = cfd :: contents (mk_pcx (qsize q) ((rqpos q + 1) mod qsize q) (wqpos q) (qcount q - 1) (qwait q) (squeue q)).
Proof.
  intros (Hs & Hl & Hc & Hr & Hw) H0. unfold dequeue_take. rewrite (proj2 (Z.ltb_lt 0 (qcount q))) by lia.
  rewrite (proj2 (Z.ltb_ge (rqpos q) 0)) by lia. rewrite Z.rem_mod_nonneg by lia.
  destruct (lookup_lt_is_Some_2 (squeue q) (Z.to_nat (rqpos q))) as [cfd Hcfd]; [lia|]. rewrite Hcfd.
  exists cfd. split; [done|]. unfold contents. cbn [qsize rqpos qcount squeue].
  rewrite seqZ_cons by lia. cbn [map]. f_equal.
  - rewrite Z.add_0_r, Z.mod_small by lia. by rewrite Hcfd.
  - change (Z.succ 0) with (1 + 0). rewrite <- fmap_add_seqZ, map_map. replace (Z.pred (qcount q)) with (qcount q - 1) by lia.
    apply map_ext. intros i. rewrite Z.add_mod_idemp_l by lia. do 4 f_equal. lia.
Qed.

Lemma mod_add_inj a n i j : 0 < n -> 0 <= i < n -> 0 <= j < n -> (a + i) mod n = (a + j) mod n -> i = j.
Proof.
  intros Hn Hi Hj He. pose proof (Z.div_mod (a + i) n ltac:(lia)) as Ei.
  pose proof (Z.div_mod (a + j) n ltac:(lia)) as Ej. rewrite He in Ei.
  assert (i - j = n * ((a + i) / n - (a + j) / n)) as E by lia.
  assert ((a + i) / n - (a + j) / n = 0) as E0 by nia. rewrite E0 in E. lia.
Qed.

Lemma contents_put q cfd : ring_ok q -> qcount q < qsize q -> exists q',
  queue_put cfd q = Some (true, q') /\ ring_ok q' /\ contents q' = contents q ++ [cfd] /\
  qcount q' = qcount q + 1 /\ qsize q' = qsize q /\ qwait q' = qwait q.
Proof.
  intros (Hs & Hl & Hc & Hr & Hw) H0. unfold queue_put. rewrite (proj2 (Z.ltb_lt (qcount q) (qsize q))) by lia.
  pose proof (Z.mod_pos_bound (rqpos q + qcount q) (qsize q)) as Hb. rewrite <- Hw in Hb.
  rewrite (proj2 (Z.leb_le 0 (wqpos q))), (proj2 (Z.ltb_lt (wqpos q) _)) by lia. cbn [andb].
  eexists. split; [done|]. split; [|split; [|done]].
  - unfold ring_ok. cbn [qsize rqpos wqpos qcount squeue]. rewrite length_insert, Z.rem_mod_nonneg by lia.
    repeat split; try lia. rewrite Hw, Z.add_mod_idemp_l by lia. f_equal. lia.
  - unfold contents. cbn [qsize rqpos qcount squeue].
    rewrite seqZ_app by lia. rewrite map_app. f_equal.
    + apply map_ext_in. intros i Hi. apply list_elem_of_In, elem_of_seqZ in Hi.
      rewrite list_lookup_insert_ne; [done|]. intros He.
      pose proof (Z.mod_pos_bound (rqpos q + i) (qsize q)).
      apply Z2Nat.inj in He; [|lia|lia]. rewrite Hw in He. apply mod_add_inj in He; lia.
    + rewrite Z.add_0_l, seqZ_cons by lia. cbn [map Z.pred]. rewrite <- Hw, list_lookup_insert_eq by lia. done.
Qed.

(** ** The threads *)
Lemma not_locked p : locked p = false -> STested ∉ services p /\ (forall cfd, acc p <> ATested cfd).
Proof.
  unfold locked. intros Hl.
  assert (existsb is_tested (services p) = false /\ (forall cfd, acc p <> ATested cfd)) as [He Ha]
    by (destruct (acc p); try done; split; try done; intros; congruence).
  split; [|done]. intros Hin. apply list_elem_of_In in Hin.
  assert (existsb is_tested (services p) = true) as Hx; [|congruence].
  apply existsb_exists. by exists STested.
Qed.

(** A service thread changes its state, the queue and the acceptor as they are. *)
Lemma inv_set_service i x y p : inv p -> services p !! i = Some y ->
  (x = STested -> qcount (pcx p) = 0 /\ (forall cfd, acc p <> ATested cfd)) ->
  (x = SWait -> qcount (pcx p) = 0 \/ y = SWait) -> (y = SWoken -> x = SWoken \/ qcount (pcx p) = 0) ->
  inv (set_service i x p).
Proof.
  intros [] Hy Ht Hw Hk. split; try done; cbn [services pcx acc set_service].
  - intros Hin. apply (elem_of_insert_list _ _ _ _ _ Hy) in Hin as [E|?]; [by apply Ht|auto].
  - intros Hin. rewrite (count_insert _ _ _ _ _ Hy).
    destruct inv_ring0 as (_ & _ & Hc & _).
    pose proof (count_nonneg SWoken (<[i:=x]> (services p))) as Hn. rewrite (count_insert _ _ _ _ _ Hy) in Hn.
    assert (qcount (pcx p) = 0 \/ SWait ∈ services p) as [H0|Hin0].
    { apply (elem_of_insert_list _ _ _ _ _ Hy) in Hin as [E|?]; [|by right].
      destruct (Hw (eq_sym E)) as [?|Hyw]; [by left|]. right. rewrite Hyw in Hy. by eapply list_elem_of_lookup_2. }
    + lia.
    + specialize (inv_wait0 Hin0). destruct (decide (SWoken = y)) as [<-|], (decide (SWoken = x)); try lia.
      destruct Hk as [?|?]; [done|congruence|lia].
  - destruct (acc p) as [| |cfd| | |]; try done. intros Hin.
    apply (elem_of_insert_list _ _ _ _ _ Hy) in Hin as [E|?]; [|done].
    destruct (Ht (eq_sym E)) as [_ Hn]. by apply (Hn cfd).
Qed.

Lemma inv_set_acceptor a p : inv p -> waiting_in_queue a = waiting_in_queue (acc p) ->
  match a with ATested _ => False | AWait _ => qcount (pcx p) = qsize (pcx p) | _ => True end ->
  inv (set_acceptor a p).
Proof. intros [] Hw Ha. split; try done; cbn; [by rewrite Hw| |]; by destruct a. Qed.

Lemma inv_service_enter i s p p' : inv p -> services p !! i = Some s -> s = SIdle \/ s = SWoken ->
  locked p = false -> service_enter i p = Some p' -> inv p'.
Proof.
  intros Hinv Hs Hss [Hnt Hna]%not_locked. unfold service_enter, dequeue_waits.
  pose proof Hinv as []. pose proof inv_ring0 as (H1 & H2 & H3 & H4 & H5).
  destruct (Z.eqb_spec (qcount (pcx p)) 0) as [H0|H0].
  - destruct (stopsvr p) eqn:Es; cbn [negb andb].
    + rewrite <- Es. unfold dequeue_take. rewrite H0. cbn [Z.ltb Z.compare]. intros [= <-].
      change (-1 =? -1) with true. cbn iota.
      apply (inv_set_service i SExit s p); try done. by right.
    + intros [= <-]. eapply inv_set_service; [done|done|done|done|by right].
  - rewrite andb_false_r. destruct (contents_take (pcx p) inv_ring0) as (cfd & Ht & Hc); [lia|].
    rewrite Ht. cbn [mbind option_bind]. intros [= <-].
    set (q := mk_pcx _ _ _ _ _ _) in *. set (x := if cfd =? -1 then SExit else SBusy cfd).
    assert (Hx : x <> STested /\ x <> SWait /\ x <> SWoken) by (unfold x; by destruct (cfd =? -1)).
    rewrite (proj2 (Z.ltb_lt 0 (qcount (pcx p)))) by lia.
    split; cbn [pcx services acc entered served].
    + unfold ring_ok. cbn. pose proof (Z.mod_pos_bound (rqpos (pcx p) + 1) (qsize (pcx p))). repeat split; try lia.
      rewrite H5, Z.add_mod_idemp_l by lia. f_equal. lia.
    + rewrite inv_fifo0, Hc. by rewrite <- app_assoc.
    + cbn [q qwait]. rewrite inv_qwait0. destruct (acc p); done.
    + intros Hin. apply (elem_of_insert_list _ _ _ _ _ Hs) in Hin as [E|?]; [by symmetry in E; tauto|done].
    + intros Hin. apply (elem_of_insert_list _ _ _ _ _ Hs) in Hin as [E|Hin]; [by symmetry in E; tauto|].
      specialize (inv_wait0 Hin). rewrite (count_insert _ _ _ _ _ Hs). cbn [q qcount].
      destruct (decide (SWoken = s)), (decide (SWoken = x)); try lia.
    + rewrite inv_qwait0. destruct (acc p) eqn:Ea; try done. by destruct (Hna cfd0).
    + rewrite inv_qwait0. destruct (acc p) eqn:Ea; try done. by destruct (Hna cfd0).
Qed.

Lemma elem_signal z w l : z ∈ signal_cnd w l -> z = SWoken \/ z ∈ l.
Proof.
  unfold signal_cnd. destruct (l !! w) as [[]|] eqn:E; try (by right). intros Hz. by apply (elem_of_insert_list _ _ _ _ _ E).
Qed.

Lemma inv_acceptor_enter cfd w p p' : inv p -> waiting_in_queue (acc p) = 0 -> STested ∉ services p ->
  may_wake p w -> acceptor_enter cfd w p = Some p' -> inv p'.
Proof.
  intros Hinv Ha Hnt Hw. unfold acceptor_enter, queue_waits.
  pose proof Hinv as []. pose proof inv_ring0 as (H1 & H2 & H3 & H4 & H5).
  destruct (Z.leb_spec (qsize (pcx p)) (qcount (pcx p))) as [Hf|Hf].
  - destruct (stopsvr p); cbn [negb andb].
    + unfold queue_put. rewrite (proj2 (Z.ltb_ge (qcount (pcx p)) (qsize (pcx p)))) by lia. cbn. intros [= <-].
      split; try done. cbn. by rewrite inv_qwait0, Ha.
    + intros [= <-]. split; try done; cbn; [|lia]. rewrite inv_qwait0, Ha. lia.
  - rewrite andb_false_r. destruct (contents_put (pcx p) cfd inv_ring0 Hf) as (q' & Hq & Hr & Hc & Hn & Hs & Hqw).
    rewrite Hq. cbn [mbind option_bind]. intros [= <-]. split; cbn [pcx services acc entered served]; try done.
    + by rewrite inv_fifo0, Hc, app_assoc.
    + by rewrite Hqw, inv_qwait0, Ha.
    + intros Hin. apply elem_signal in Hin as [?|?]; done.
    + intros Hin. assert (Hin0 : SWait ∈ services p) by (by apply elem_signal in Hin as [?|?]).
      destruct Hw as [Hw|Hw]; [|done]. specialize (inv_wait0 Hin0). unfold signal_cnd. rewrite Hw.
      rewrite (count_insert _ _ _ _ _ Hw).
      destruct (decide (SWoken = SWait)), (decide (SWoken = SWoken)); try done. lia.
Qed.

(** What the critical sections do while the server runs. *)
Lemma service_enter_cases i p p' : ring_ok (pcx p) -> stopsvr p = false -> service_enter i p = Some p' ->
  qcount (pcx p) = 0 /\ p' = set_service i STested p \/
  0 < qcount (pcx p) /\ exists cfd q, contents (pcx p) = cfd :: contents q /\ qcount q = qcount (pcx p) - 1 /\
    p' = mk_pool q (stopsvr p) (broadcasted p) (<[i := if cfd =? -1 then SExit else SBusy cfd]> (services p))
      (if 0 <? qwait (pcx p) then wake_acceptor (acc p) else acc p) (entered p) (served p ++ [cfd]).
Proof.
  intros Hr Hs. unfold service_enter, dequeue_waits. rewrite Hs. cbn [negb andb]. pose proof Hr as (_ & _ & Hc & _).
  destruct (Z.eqb_spec (qcount (pcx p)) 0) as [H0|H0]; [intros [= <-]; by left|].
  destruct (contents_take (pcx p) Hr) as (cfd & Ht & Hcs); [lia|]. rewrite Ht. cbn [mbind option_bind]. intros [= <-].
  right. split; [lia|]. eexists cfd, _. split; [exact Hcs|]. split; [done|].
  by rewrite (proj2 (Z.ltb_lt 0 (qcount (pcx p)))) by lia.
Qed.

Lemma acceptor_enter_cases cfd w p p' : ring_ok (pcx p) -> stopsvr p = false -> acceptor_enter cfd w p = Some p' ->
  qcount (pcx p) = qsize (pcx p) /\ p' = set_acceptor (ATested cfd) (set_pcx (add_qwait 1 (pcx p)) p) \/
  exists q, contents q = contents (pcx p) ++ [cfd] /\ qcount q = qcount (pcx p) + 1 /\
    p' = mk_pool q (stopsvr p) (broadcasted p) (signal_cnd w (services p)) AIdle (entered p ++ [cfd]) (served p).
Proof.
  intros Hr Hs. unfold acceptor_enter, queue_waits. rewrite Hs. cbn [negb andb]. pose proof Hr as (_ & _ & Hc & _).
  destruct (Z.leb_spec (qsize (pcx p)) (qcount (pcx p))) as [Hf|Hf]; [intros [= <-]; left; by split; [lia|]|].
  destruct (contents_put (pcx p) cfd Hr Hf) as (q & -> & _ & Hcs & Hn & _). cbn [mbind option_bind]. intros [= <-].
  right. by exists q.
Qed.

(** They always do something: they never leave the ring. *)
Lemma service_enter_some i p : ring_ok (pcx p) -> is_Some (service_enter i p).
Proof.
  intros Hr. unfold service_enter. destruct (dequeue_waits _ _); [by eexists|].
  destruct (Z.ltb_spec 0 (qcount (pcx p))) as [H0|H0].
  - destruct (contents_take (pcx p) Hr H0) as (cfd & -> & _). by eexists.
  - unfold dequeue_take. rewrite (proj2 (Z.ltb_ge 0 (qcount (pcx p)))) by lia. by eexists.
Qed.

Lemma acceptor_enter_some cfd w p : ring_ok (pcx p) -> is_Some (acceptor_enter cfd w p).
Proof.
  intros Hr. unfold acceptor_enter. destruct (queue_waits _ _); [by eexists|].
  destruct (Z.ltb_spec (qcount (pcx p)) (qsize (pcx p))) as [H0|H0].
  - destruct (contents_put (pcx p) cfd Hr H0) as (q & -> & _). by eexists.
  - unfold queue_put. rewrite (proj2 (Z.ltb_ge (qcount (pcx p)) (qsize (pcx p)))) by lia. by eexists.
Qed.

Lemma elem_wake z l : z ∈ map wake_service l -> z <> SWait /\ (z = SWoken \/ z ∈ l).
Proof.
  intros Hz. apply list_elem_of_In, in_map_iff in Hz as (y & <- & Hy). apply list_elem_of_In in Hy.
  destruct y; cbn; split; try done; auto.
Qed.

Lemma inv_queue_step p p' : inv p -> queue_step p p' -> inv p'.
Proof.
  intros Hinv Hst. destruct Hst as [i s p p' Hs Hss Hl He|i p Hs|cfd w p p' Ha Hl Hw He|cfd p Ha|cfd w p p' Ha Hl Hw He].
  - by eapply inv_service_enter.
  - eapply inv_set_service; [done|done|done| |done]. left. apply Hinv. by eapply list_elem_of_lookup_2.
  - apply not_locked in Hl as [Hnt _]. eapply inv_acceptor_enter; [done|by rewrite Ha|done..].
  - apply inv_set_acceptor; [done|by rewrite Ha|]. destruct Hinv. by rewrite Ha in inv_full0.
  - apply not_locked in Hl as [Hnt _].
    apply (inv_acceptor_enter cfd w (set_acceptor (AReady cfd) (set_pcx (add_qwait (-1) (pcx p)) p))); [|done|done|done|exact He].
    destruct Hinv. split; try done. cbn. rewrite inv_qwait0, Ha. done.
Qed.

Lemma pool_inv_step p p' : inv p -> step p p' -> inv p'.
Proof.
  intros Hinv Hst. destruct Hst as [p p' Hst|i cfd p Hs|cfd p Ha _ _|p Ha|p|p _ _].
  - by eapply inv_queue_step.
  - by eapply inv_set_service.
  - apply inv_set_acceptor; [done|by rewrite Ha|done].
  - apply inv_set_acceptor; [done|by rewrite Ha|done].
  - by destruct Hinv.
  - destruct Hinv. split; try done; cbn [pcx services acc].
    + intros [_ [?|?]]%elem_wake; [done|auto].
    + by intros [? _]%elem_wake.
    + destruct (acc p); try done. by intros [_ [?|?]]%elem_wake.
Qed.

Lemma inv_spurious p p' : inv p -> spurious p p' -> inv p'.
Proof.
  intros Hinv Hst. destruct Hst as [i p Hs|cfd p Ha].
  - by eapply inv_set_service.
  - apply inv_set_acceptor; [done|by rewrite Ha|done].
Qed.

Lemma inv_pool0 size mem n : 0 < size -> Z.of_nat (length mem) = size -> inv (pool0 size mem n).
Proof.
  intros Hs Hm. assert (Hr : forall x, x ∈ replicate n SIdle -> x = SIdle).
  { intros x Hx. by apply elem_of_replicate in Hx as [? _]. }
  split; try done; cbn.
  - unfold ring_ok. cbn. repeat split; try lia.
  - by intros ?%Hr.
Qed.

Lemma pool_reach_inv size mem n p : 0 < size -> Z.of_nat (length mem) = size -> reach size mem n p -> inv p.
Proof.
  intros Hs Hm. induction 1; [by apply inv_pool0|by eapply pool_inv_step|by eapply inv_spurious].
Qed.

(** C8: In every state that the threads of a CPU can reach, the sessions taken
    from the queue followed by those in it are the sessions put in it, in that
    order: nothing is lost, doubled or reordered; the counters stay in their ranges
    and neither critical section leaves the ring. *)
Theorem session_queue_fifo size mem n p :
  0 < size -> Z.of_nat (length mem) = size -> reach size mem n p ->
  entered p = served p ++ contents (pcx p) /\ 0 <= qcount (pcx p) <= size /\
  Z.of_nat (length (contents (pcx p))) = qcount (pcx p) /\
  dequeue_take (pcx p) <> None /\ (forall cfd, queue_put cfd (pcx p) <> None).
Proof.
  intros Hs Hm Hr. assert (Hqs : qsize (pcx p) = size).
  { clear Hm. induction Hr as [|p p' Hr IH Hst|p p' Hr IH Hst]; [done| |by destruct Hst].
    destruct Hst as [? ? Hst| | | | |]; try done.
    destruct Hst as [? ? ? ? _ _ _ He| |? ? ? ? _ _ _ He| |? ? ? ? _ _ _ He]; try done.
    - revert He. unfold service_enter, dequeue_take. repeat case_match; intros; simplify_option_eq; done.
    - revert He. unfold acceptor_enter, queue_put. repeat case_match; intros; simplify_option_eq; done.
    - revert He. unfold acceptor_enter, queue_put. repeat case_match; intros; simplify_option_eq; done. }
  pose proof (pool_reach_inv _ _ _ _ Hs Hm Hr) as []. pose proof inv_ring0 as (H1 & H2 & H3 & H4 & H5).
  split; [done|]. split; [lia|]. split; [|split].
  - unfold contents. rewrite length_map, length_seqZ. lia.
  - destruct (Z.ltb_spec 0 (qcount (pcx p))).
    + destruct (contents_take _ inv_ring0) as (cfd & -> & _); [lia|done].
    + unfold dequeue_take. by rewrite (proj2 (Z.ltb_ge 0 (qcount (pcx p)))) by lia.
  - intros cfd. destruct (Z.ltb_spec (qcount (pcx p)) (qsize (pcx p))).
    + by destruct (contents_put _ cfd inv_ring0) as (q' & -> & _).
    + unfold queue_put. by rewrite (proj2 (Z.ltb_ge (qcount (pcx p)) (qsize (pcx p)))) by lia.
Qed.

(** No wake-up is lost between the acceptor and the service threads: while a
    session is queued and a service thread sleeps, another one has been woken and is
    on its way to the queue; the acceptor never sleeps while there is room. *)
Theorem session_queue_wakeups size mem n p :
  0 < size -> Z.of_nat (length mem) = size -> reach size mem n p ->
  (0 < qcount (pcx p) -> SWait ∈ services p -> SWoken ∈ services p) /\
  (qcount (pcx p) < qsize (pcx p) -> forall cfd, acc p <> AWait cfd).
Proof.
  intros Hs Hm Hr. pose proof (pool_reach_inv _ _ _ _ Hs Hm Hr) as []. split.
  - intros Hq Hw. apply count_elem. specialize (inv_wait0 Hw). lia.
  - intros Hq cfd Ha. rewrite Ha in inv_full0. lia.
Qed.

(** A run with two threads: one sleeps, a session is queued and wakes it. *)
Definition demo_pool : pool :=
  mk_pool (mk_pcx 2 0 1 1 0 [7; 0]) false false [SWoken; SIdle] AIdle [7] [].

Lemma demo_pool_reach : reach 2 [0; 0] 2 demo_pool.
Proof.
  set (p1 := set_service 0 STested (pool0 2 [0; 0] 2)). set (p2 := set_service 0 SWait p1).
  set (p3 := set_acceptor (AReady 7) p2).
  assert (H1 : step (pool0 2 [0; 0] 2) p1) by (apply step_queues; by eapply (step_service 0 SIdle); [|left| |]).
  assert (H2 : step p1 p2) by (by apply step_queues, step_service_sleep).
  assert (H3 : step p2 p3) by (by apply step_accept).
  assert (H4 : step p3 demo_pool) by (apply step_queues; by eapply (step_queue 7 0); [| |left|]).
  repeat (eapply reach_step; [|eassumption]). constructor.
Qed.

Lemma session_queue_fifo_witness :
  entered demo_pool = served demo_pool ++ contents (pcx demo_pool) /\ 0 <= qcount (pcx demo_pool) <= 2 /\
  Z.of_nat (length (contents (pcx demo_pool))) = qcount (pcx demo_pool) /\
  dequeue_take (pcx demo_pool) <> None /\ (forall cfd, queue_put cfd (pcx demo_pool) <> None).
Proof. apply (session_queue_fifo 2 [0; 0] 2); [lia|reflexivity|exact demo_pool_reach]. Defined.

Lemma session_queue_wakeups_witness :
  (0 < qcount (pcx demo_pool) -> SWait ∈ services demo_pool -> SWoken ∈ services demo_pool) /\
  (qcount (pcx demo_pool) < qsize (pcx demo_pool) -> forall cfd, acc demo_pool <> AWait cfd).
Proof. apply (session_queue_wakeups 2 [0; 0] 2); [lia|reflexivity|exact demo_pool_reach]. Defined.

(** A service thread that tested [stopsvr] before the signal and sleeps after the
    broadcast. *)
Definition hung (size : Z) (mem : list Z) : pool :=
  mk_pool (init_per_cpu_ctx size mem) true true [SWait] AExit [] [].

(** C39: The wake-up at the end can be lost: the handler sets [stopsvr] and main
    broadcasts without the mutex, so a service thread that has just seen [stopsvr]
    clear goes to sleep after the broadcast.  No step of the program wakes it then,
    and main waits for it in [pthread_join] for ever. *)
Theorem shutdown_wakeup_lost size mem :
  reach size mem 1 (hung size mem) /\ forall p, step (hung size mem) p -> p = hung size mem.
Proof.
  split.
  - set (p0 := pool0 size mem 1). set (p1 := set_service 0 STested p0).
    set (p2 := mk_pool (pcx p1) true false (services p1) AIdle [] []).
    set (p3 := mk_pool (pcx p1) true true (services p1) AIdle [] []).
    set (p4 := set_service 0 SWait p3).
    assert (H1 : step p0 p1) by (apply step_queues; by eapply (step_service 0 SIdle); [|left| |]).
    assert (H2 : step p1 p2) by apply step_sig_int.
    assert (H3 : step p2 p3) by (by apply (step_broadcast p2)).
    assert (H4 : step p3 p4) by (by apply step_queues, step_service_sleep).
    assert (H5 : step p4 (hung size mem)) by (by apply step_accept_end).
    repeat (eapply reach_step; [|eassumption]). constructor.
  - intros p Hst. inversion Hst as [? ? Hq|i ? ? Hs|? ? Ha|? Ha|?|? _ Hb]; subst; try done.
    + inversion Hq as [i s ? ? Hs Hss|i ? Hs|? ? ? ? Ha|? ? Ha|? ? ? ? Ha]; subst; try done;
        destruct i as [|i]; cbn in Hs; try done. injection Hs as <-. by destruct Hss.
    + by destruct i.
Qed.
