(* ===== verification/QueueProgress.v ===== *)
(** * thrplhttp.c: the progress of the threads at the queue of a CPU

    What the steps of [SessionQueue.queue_step] hand on and use up: the sessions they
    carry, and a measure of how far the threads are from rest.  [PoolSystem] and
    [PoolShutdown] use it, for the server that runs and for the one that ends. *)
From Stdlib Require Import ZArith Lia Bool.
From stdpp Require Import base tactics list sets.
From S2P Require Import Prelude SessionQueue.

(** The session the acceptor holds, and those that service threads run. *)
Definition pending (a : acceptor) : list Z :=
  match a with AReady cfd | ATested cfd | AWait cfd | AWoken cfd => [cfd] | AIdle | AExit => [] end.
Definition running (s : service) : option Z := match s with SBusy cfd => Some cfd | _ => None end.
Definition busy (l : list service) : list Z := omap running l.

(** How far the threads are from rest. *)
Definition service_work (s : service) : Z := match s with SBusy _ => 4 | SIdle | SWoken => 3 | STested => 1 | SWait | SExit => 0 end.
Definition acceptor_work (a : acceptor) : Z := match a with AReady _ | AWoken _ => 10 | ATested _ => 8 | AWait _ => 7 | AIdle => 1 | AExit => 0 end.
Definition services_work (l : list service) : Z := zsum (map service_work l).
Definition pool_work (p : pool) : Z := 5 * qcount (pcx p) + services_work (services p) + acceptor_work (acc p).

Lemma busy_insert l i x y : l !! i = Some x -> busy (<[i := y]> l) ++ busy [x] ≡ₚ busy [y] ++ busy l.
Proof.
  intros Hi. rewrite insert_take_drop by (by eapply lookup_lt_Some). rewrite <-(take_drop_middle l i x Hi) at 3.
  unfold busy. rewrite !omap_app. change (omap running (y :: drop (S i) l)) with (omap running ([y] ++ drop (S i) l)).
  change (omap running (x :: drop (S i) l)) with (omap running ([x] ++ drop (S i) l)). rewrite !omap_app. solve_Permutation.
Qed.

Lemma busy_idle n : busy (replicate n SIdle) = [].
Proof. by induction n. Qed.

Lemma services_work_insert l i x y : l !! i = Some x ->
  services_work (<[i := y]> l) = services_work l - service_work x + service_work y.
Proof.
  intros Hi. unfold services_work. change (map service_work (<[i := y]> l)) with (service_work <$> <[i := y]> l).
  rewrite list_fmap_insert. apply zsum_insert. by rewrite list_lookup_fmap, Hi.
Qed.

Lemma services_work_nonneg l : 0 <= services_work l.
Proof. apply zsum_nonneg, Forall_map, Forall_forall. intros [] _; cbn; lia. Qed.

Lemma pool_work_nonneg p : inv p -> 0 <= pool_work p.
Proof.
  intros Hp. destruct (inv_ring p Hp) as (_ & _ & Hc & _). pose proof (services_work_nonneg (services p)).
  unfold pool_work, acceptor_work. destruct (acc p); lia.
Qed.

(** What a step of the queue leaves as it is, moves on and uses up. *)
Record goes_on (p p' : pool) : Prop := mk_goes_on {
  go_accepted : entered p' ++ pending (acc p') = entered p ++ pending (acc p);
  go_served : exists new, served p' = served p ++ new /\ busy (services p') ≡ₚ new ++ busy (services p);
  go_work : pool_work p' < pool_work p;
  go_stop : stopsvr p' = false;
  go_threads : length (services p') = length (services p);
  go_exit : SExit ∉ services p -> SExit ∉ services p';
  go_acc : acc p <> AExit -> acc p' <> AExit
}.

(** A service thread gets another state. *)
Lemma goes_on_service p i x y q a srv : services p !! i = Some x -> stopsvr p = false ->
  pending a = pending (acc p) -> (acc p <> AExit -> a <> AExit) -> y <> SExit -> busy [x] = [] -> srv = served p ++ busy [y] ->
  5 * qcount q + service_work y + acceptor_work a < 5 * qcount (pcx p) + service_work x + acceptor_work (acc p) ->
  goes_on p (mk_pool q (stopsvr p) (broadcasted p) (<[i := y]> (services p)) a (entered p) srv).
Proof.
  intros Hi Hs Hp Ha Hy Hx -> Hw. split; cbn [entered acc served services stopsvr pcx].
  - by rewrite Hp.
  - exists (busy [y]). split; [done|]. pose proof (busy_insert _ _ _ y Hi) as Hb. by rewrite Hx, app_nil_r in Hb.
  - unfold pool_work. cbn [pcx services acc]. rewrite (services_work_insert _ _ _ _ Hi). lia.
  - done.
  - by rewrite length_insert.
  - intros He Hin. apply (elem_of_insert_list _ _ _ _ _ Hi) in Hin as [?|?]; congruence.
  - done.
Qed.

(** So does the acceptor, with the queue. *)
Lemma goes_on_acceptor p q a l ent : stopsvr p = false -> ent ++ pending a = entered p ++ pending (acc p) -> a <> AExit ->
  busy l ≡ₚ busy (services p) -> length l = length (services p) -> (SExit ∉ services p -> SExit ∉ l) ->
  5 * qcount q + services_work l + acceptor_work a < pool_work p ->
  goes_on p (mk_pool q (stopsvr p) (broadcasted p) l a ent (served p)).
Proof. intros Hs He Ha Hb Hl Hx Hw. split; try done. exists []. by rewrite app_nil_r. Qed.

Lemma signal_cnd_keeps w l : busy (signal_cnd w l) ≡ₚ busy l /\ length (signal_cnd w l) = length l /\
  (SExit ∉ l -> SExit ∉ signal_cnd w l) /\ services_work (signal_cnd w l) <= services_work l + 3.
Proof.
  unfold signal_cnd. destruct (l !! w) as [[]|] eqn:E; try (repeat split; (done || lia)). split; [|split; [|split]].
  - pose proof (busy_insert l w SWait SWoken E) as Hb. cbn in Hb. by rewrite app_nil_r in Hb.
  - apply length_insert.
  - intros Hn Hin. by apply (elem_of_insert_list _ _ _ _ _ E) in Hin as [?|?].
  - rewrite (services_work_insert _ _ _ _ E). cbn. lia.
Qed.

(** The acceptor with the mutex. *)
Lemma acceptor_enter_goes_on cfd w p p' a : ring_ok (pcx p) -> stopsvr p = false -> a = AReady cfd \/ a = AWoken cfd ->
  acceptor_enter cfd w (set_acceptor a p) = Some p' -> goes_on (set_acceptor a p) p'.
Proof.
  intros Hr Hs Ha He. assert (Hp : pending a = [cfd] /\ acceptor_work a = 10) by (by destruct Ha as [-> | ->]). destruct Hp as [Hp Hw].
  destruct (acceptor_enter_cases cfd w (set_acceptor a p) p' Hr Hs He) as [[_ ->]|(q & _ & Hq & ->)].
  - apply (goes_on_acceptor (set_acceptor a p)); cbn [acc set_acceptor set_pcx services pcx entered]; try done.
    + by rewrite Hp.
    + unfold pool_work. cbn [acc set_acceptor set_pcx services pcx add_qwait qcount]. rewrite Hw. cbn [acceptor_work]. lia.
  - destruct (signal_cnd_keeps w (services p)) as (H1 & H2 & H3 & H4).
    apply (goes_on_acceptor (set_acceptor a p)); cbn [acc set_acceptor services pcx entered]; try done.
    + by rewrite Hp, app_nil_r.
    + unfold pool_work. cbn [acc set_acceptor services pcx] in *. rewrite Hw. cbn [acceptor_work]. lia.
Qed.

Lemma queue_step_goes_on p p' : inv p -> stopsvr p = false -> Forall (fun cfd => 0 <= cfd) (entered p) ->
  queue_step p p' -> goes_on p p'.
Proof.
  intros Hp Hs Hpos Hst. pose proof (inv_ring p Hp) as Hr.
  destruct Hst as [i x p p' Hi Hx Hl He|i p Hi|cfd w p p' Ha Hl Hw He|cfd p Ha|cfd w p p' Ha Hl Hw He].
  - assert (Hb : busy [x] = [] /\ service_work x = 3) by (by destruct Hx as [-> | ->]). destruct Hb as [Hb Hwx].
    destruct (service_enter_cases i p p' Hr Hs He) as [[H0 ->]|(H0 & cfd & q & Hc & Hq & ->)].
    + apply (goes_on_service p i x); try done; [by rewrite app_nil_r|]. cbn. lia.
    + assert (0 <= cfd) as Hcfd.
      { rewrite (inv_fifo p Hp), Hc in Hpos. apply Forall_app in Hpos as [_ Hpos]. by apply Forall_cons in Hpos as [? _]. }
      rewrite (proj2 (Z.eqb_neq cfd (-1))) by lia.
      apply (goes_on_service p i x); try done; try (by destruct (0 <? qwait (pcx p)), (acc p)).
      cbn. destruct (0 <? qwait (pcx p)), (acc p); cbn; lia.
  - apply (goes_on_service p i STested); try done; [by rewrite app_nil_r|]. cbn. lia.
  - replace p with (set_acceptor (AReady cfd) p) in * by (destruct p; cbn in *; by subst).
    apply (acceptor_enter_goes_on cfd w p p' (AReady cfd)); auto.
  - apply goes_on_acceptor; try done; [by rewrite Ha|]. unfold pool_work. rewrite Ha. cbn. lia.
  - assert (Hg : goes_on (set_pcx (add_qwait (-1) (pcx p)) p) p').
    { replace (set_pcx (add_qwait (-1) (pcx p)) p) with (set_acceptor (AWoken cfd) (set_pcx (add_qwait (-1) (pcx p)) p)) in * by (destruct p; cbn in *; by subst).
      apply (acceptor_enter_goes_on cfd w (set_pcx (add_qwait (-1) (pcx p)) p) p' (AWoken cfd)); auto. }
    destruct Hg. by split.
Qed.

(** Someone holds the mutex and goes to sleep, or a thread that wants it takes it. *)
Definition wants_queue (p : pool) : Prop :=
  (exists i x, services p !! i = Some x /\ (x = SIdle \/ x = SWoken \/ x = STested)) \/
  (exists cfd, acc p = AReady cfd \/ acc p = ATested cfd \/ acc p = AWoken cfd).

Lemma queue_step_some p : ring_ok (pcx p) -> wants_queue p -> exists p', queue_step p p'.
Proof.
  intros Hr Hgo. destruct (locked p) eqn:Hl.
  - unfold locked in Hl. assert ((exists cfd, acc p = ATested cfd) \/ existsb is_tested (services p) = true) as [[cfd Ha]|Ht]
      by (destruct (acc p); eauto).
    + eexists. by eapply step_queue_sleep.
    + apply existsb_exists in Ht as (x & Hin%list_elem_of_In & Hx). destruct x; try done.
      apply list_elem_of_lookup in Hin as [i Hi]. eexists. by apply (step_service_sleep i).
  - pose proof (not_locked p Hl) as [Hnt Hna]. destruct Hgo as [(i & x & Hi & Hx)|(cfd & Ha)].
    + destruct (service_enter_some i p Hr) as [p' He]. exists p'. apply (step_service i x); try done.
      destruct Hx as [?|[?| ->]]; [by left|by right|]. destruct Hnt. by eapply list_elem_of_lookup_2.
    + assert (exists w, may_wake p w) as [w Hw].
      { destruct (decide (SWait ∈ services p)) as [[w Hw]%list_elem_of_lookup|]; [exists w; by left|exists 0%nat; by right]. }
      destruct Ha as [Ha|[Ha|Ha]]; [|by destruct (Hna cfd)|].
      * destruct (acceptor_enter_some cfd w p Hr) as [p' He]. exists p'. by apply (step_queue cfd w).
      * destruct (acceptor_enter_some cfd w (set_pcx (add_qwait (-1) (pcx p)) p) Hr) as [p' He]. exists p'. by apply (step_queue_again cfd w).
Qed.
