(* ===== verification/PoolSystem.v ===== *)
(** * thrplhttp.c: the threads of a CPU and their sessions together

    [SessionQueue] has the queue of a CPU with its threads, [ThrPlSession] a session of
    one client.  Here they are put together: clients connect one after the other, the
    acceptor counts and queues them, and each service thread runs [process_session] on
    the session it took.  A session is one step: what it shares with the other threads
    are the counters of its CPU, to which it adds under their mutex.  A connection is
    named by its descriptor; a descriptor that is given twice stands for a client that
    does the same again.  No signal comes. *)
From Stdlib Require Import ZArith Lia Bool.
From stdpp Require Import base tactics list sets.
From S2P Require Import Prelude Exits Steps Libc ThrHttp ThrPlHttp ThrPlSession SessionQueue QueueProgress.

(** The threads of the CPU, the clients still to come, the sessions that are over with
    what was sent on them, and the counters. *)
Record server := mk_server {
  cpu : pool; incoming : list Z; answered : list (Z * list Z);
  s_conns : Z; s_reqs : Z; s_tbytes : Z
}.

Definition set_cpu (p : pool) (s : server) : server :=
  mk_server p (incoming s) (answered s) (s_conns s) (s_reqs s) (s_tbytes s).

Section system.
(** The options, the bound on the loops of a session, what [malloc] gives it as a
    buffer, and the clients. *)
Context (cfg : config) (fuel : nat) (heap : list Z) (clients : Z -> conn).

Definition open_session (cfd : Z) (s : server) : http conn :=
  let c := clients cfd in
  mk_http (mk_conn (c_in c) (c_acc c) [] (c_files c) (Z.b2z (stopsvr (cpu s)))) 0 0 heap
    (s_conns s) (s_reqs s) (s_tbytes s).

Inductive step : server -> server -> Prop :=
| accept_client cfd rest s : incoming s = cfd :: rest -> acc (cpu s) = AIdle -> stopsvr (cpu s) = false ->
    step s (mk_server (set_acceptor (AReady cfd) (cpu s)) rest (answered s) (u64 (s_conns s + 1)) (s_reqs s) (s_tbytes s))
| serve_client i cfd r h s : services (cpu s) !! i = Some (SBusy cfd) ->
    process_session cfg fuel (open_session cfd s) = Ok (inr r, h) ->
    step s (mk_server (set_service i SIdle (cpu s)) (incoming s) (answered s ++ [(cfd, c_out (h_net h))])
              (s_conns s) (reqs h) (tbytes h))
| move_session p s : queue_step (cpu s) p -> step s (set_cpu p s).

(** A wait of a thread that ends for no reason. *)
Inductive stir : server -> server -> Prop :=
| stir_thread p s : spurious (cpu s) p -> stir s (set_cpu p s).

Definition start (size : Z) (mem : list Z) (n : nat) (cfds : list Z) : server :=
  mk_server (pool0 size mem n) cfds [] 0 0 0.

(** ** What is promised *)

(** The bytes of a client, and the reply to them as [plain_session] computes it. *)
Definition received (c : conn) : list Z := concat (omap id (c_in c)).
Definition reply (c : conn) : list Z * Z * Z := plain_session cfg (c_files c) 0 (S (length (received c))) (received c).

(** A client of [ThrPlSession.process_session_plain]. *)
Definition good_client (c : conn) : Prop :=
  (exists lss, c_in c = map (fun ls => Some (unlines ls)) lss /\
     Forall (fun ls => ls <> [] /\ strlen (unlines ls) <= 4096) lss /\ Forall good_line (concat lss)) /\
  Forall (fun k => 0 < k) (c_acc c) /\ never_empty cfg (c_files c) /\
  strlen (reply c).1.1 < 2 ^ 63 /\ strlen (received c) + strlen (reply c).1.1 < Z.of_nat fuel.

(** All clients were served, each once. *)
Record all_served (cfds : list Z) (s : server) : Prop := mk_all_served {
  as_incoming : incoming s = [];
  as_order : served (cpu s) = cfds;
  as_each : map fst (answered s) ≡ₚ cfds;
  as_replies : Forall (fun x => x.2 = (reply (clients x.1)).1.1) (answered s);
  as_conns : s_conns s = u64 (Z.of_nat (length cfds));
  as_reqs : u64 (s_reqs s) = u64 (zsum (map (fun cfd => (reply (clients cfd)).1.2) cfds));
  as_tbytes : u64 (s_tbytes s) = u64 (zsum (map (fun cfd => (reply (clients cfd)).2) cfds))
}.

(** ** Proofs: a session *)
Context (Hheap : strlen heap = BSTREAM_BUFSIZE).

Lemma received_lines c lss : c_in c = map (fun ls => Some (unlines ls)) lss -> received c = unlines (concat lss).
Proof.
  unfold received. intros ->. induction lss as [|ls lss IH]; [done|]. cbn [map concat omap list_omap id].
  by rewrite unlines_app, <-IH.
Qed.

Lemma session_served cfd s : good_client (clients cfd) -> stopsvr (cpu s) = false -> exists h,
  process_session cfg fuel (open_session cfd s) = Ok (inr 0, h) /\ c_out (h_net h) = (reply (clients cfd)).1.1 /\
  u64 (reqs h) = u64 (s_reqs s + (reply (clients cfd)).1.2) /\ u64 (tbytes h) = u64 (s_tbytes s + (reply (clients cfd)).2).
Proof.
  intros ((lss & Hin & Hls & Hg) & Ha & He & Ho & Hf) Hst. pose proof (received_lines _ _ Hin) as Hr.
  destruct (reply (clients cfd)) as [[o r] b] eqn:E. cbn [fst snd] in *. unfold reply in E. rewrite Hr in *.
  apply (process_session_lines cfg fuel (open_session cfd s) lss o r b); try done. cbn. by rewrite Hst.
Qed.

(** ** Proofs: the threads with their sessions *)
Section serving.
Context (cfds : list Z) (n : nat) (Hcfds : Forall (fun cfd => 0 <= cfd /\ good_client (clients cfd)) cfds).

Record serving (s : server) : Prop := mk_serving {
  sv_inv : SessionQueue.inv (cpu s);
  sv_stop : stopsvr (cpu s) = false;
  sv_threads : length (services (cpu s)) = n;
  sv_exit : SExit ∉ services (cpu s);
  sv_acc : acc (cpu s) <> AExit;
  sv_accepted : (entered (cpu s) ++ pending (acc (cpu s))) ++ incoming s = cfds;
  sv_served : served (cpu s) ≡ₚ map fst (answered s) ++ busy (services (cpu s));
  sv_replies : Forall (fun x => x.2 = (reply (clients x.1)).1.1) (answered s);
  sv_conns : s_conns s = u64 (Z.of_nat (length (entered (cpu s) ++ pending (acc (cpu s)))));
  sv_reqs : u64 (s_reqs s) = u64 (zsum (map (fun cfd => (reply (clients cfd)).1.2) (map fst (answered s))));
  sv_tbytes : u64 (s_tbytes s) = u64 (zsum (map (fun cfd => (reply (clients cfd)).2) (map fst (answered s))))
}.

Definition work (s : server) : Z := 10 * Z.of_nat (length (incoming s)) + pool_work (cpu s).

Lemma serving_known s cfd : serving s -> cfd ∈ entered (cpu s) -> 0 <= cfd /\ good_client (clients cfd).
Proof.
  intros Hs Hin. rewrite Forall_forall in Hcfds. apply Hcfds. rewrite <-(sv_accepted s Hs). rewrite !elem_of_app. auto.
Qed.

Lemma serving_busy s i cfd : serving s -> services (cpu s) !! i = Some (SBusy cfd) -> good_client (clients cfd).
Proof.
  intros Hs Hi. apply (serving_known s cfd Hs). rewrite (SessionQueue.inv_fifo _ (sv_inv s Hs)), (sv_served s Hs).
  rewrite !elem_of_app. left; right. apply list_elem_of_omap. exists (SBusy cfd). split; [by eapply list_elem_of_lookup_2|done].
Qed.

Lemma serving_entered s : serving s -> Forall (fun cfd => 0 <= cfd) (entered (cpu s)).
Proof. intros Hs. apply Forall_forall. intros cfd Hin. by apply (serving_known s). Qed.

Lemma serving_goes_on s p : serving s -> SessionQueue.inv p -> goes_on (cpu s) p -> serving (set_cpu p s).
Proof.
  intros Hs Hp [Ha (new & Hnew & Hb) _ Hst Hl Hx Hacc]. destruct Hs. split; cbn [set_cpu cpu incoming answered s_conns s_reqs s_tbytes]; auto.
  - by rewrite Hl.
  - by rewrite Ha.
  - rewrite Hnew, Hb, sv_served0. solve_Permutation.
  - by rewrite Ha.
Qed.

Lemma serving_accept s cfd rest : serving s -> incoming s = cfd :: rest -> acc (cpu s) = AIdle ->
  serving (mk_server (set_acceptor (AReady cfd) (cpu s)) rest (answered s) (u64 (s_conns s + 1)) (s_reqs s) (s_tbytes s)).
Proof.
  intros [] Hi Ha. split; cbn [set_acceptor cpu incoming answered s_conns s_reqs s_tbytes stopsvr services acc entered served pending]; try done.
  - apply inv_set_acceptor; [done|by rewrite Ha|done].
  - rewrite <-sv_accepted0, Ha, Hi. cbn [pending]. by rewrite app_nil_r, <-app_assoc.
  - rewrite sv_conns0, Ha. cbn [pending]. rewrite !length_app, u64_add_u64. f_equal. cbn [length]. lia.
Qed.

Lemma serving_serve s i cfd r h : serving s -> services (cpu s) !! i = Some (SBusy cfd) ->
  process_session cfg fuel (open_session cfd s) = Ok (inr r, h) ->
  serving (mk_server (set_service i SIdle (cpu s)) (incoming s) (answered s ++ [(cfd, c_out (h_net h))]) (s_conns s) (reqs h) (tbytes h)).
Proof.
  intros Hs Hi Hrun. destruct (session_served cfd s (serving_busy s i cfd Hs Hi) (sv_stop s Hs)) as (h' & Hrun' & Ho & Hr & Hb).
  rewrite Hrun in Hrun'. injection Hrun' as -> <-. destruct Hs.
  split; cbn [set_service cpu incoming answered s_conns s_reqs s_tbytes stopsvr services acc entered served]; try done.
  - by eapply inv_set_service.
  - by rewrite length_insert.
  - intros Hin. by apply (elem_of_insert_list _ _ _ _ _ Hi) in Hin as [?|?].
  - rewrite sv_served0, map_app. pose proof (busy_insert _ _ _ SIdle Hi) as Hp. cbn in Hp |- *. rewrite <-Hp. solve_Permutation.
  - apply Forall_app. split; [done|]. by apply Forall_singleton.
  - rewrite Hr, <-u64_add_u64, sv_reqs0, u64_add_u64, !map_app, zsum_app. cbn. f_equal. lia.
  - rewrite Hb, <-u64_add_u64, sv_tbytes0, u64_add_u64, !map_app, zsum_app. cbn. f_equal. lia.
Qed.

Lemma serving_step s s' : serving s -> step s s' -> serving s' /\ work s' < work s.
Proof.
  intros Hs Hst. destruct Hst as [cfd rest s Hi Ha Hstop|i cfd r h s Hi Hrun|p s Hq].
  - split; [by apply serving_accept|]. unfold work, pool_work. cbn [incoming cpu set_acceptor pcx services acc]. rewrite Hi, Ha.
    cbn [acceptor_work length]. lia.
  - split; [by eapply serving_serve|]. unfold work, pool_work. cbn [incoming cpu set_service pcx services acc].
    rewrite (services_work_insert _ _ _ _ Hi). cbn [service_work]. lia.
  - pose proof (queue_step_goes_on _ _ (sv_inv s Hs) (sv_stop s Hs) (serving_entered s Hs) Hq) as Hg.
    split; [apply serving_goes_on; [done|by eapply inv_queue_step; [apply Hs|]|done]|].
    pose proof (go_work _ _ Hg). unfold work. cbn [set_cpu cpu incoming]. lia.
Qed.

Lemma serving_stir s s' : serving s -> stir s s' -> serving s'.
Proof.
  intros Hs Hst. destruct Hst as [p s Hp]. pose proof (inv_spurious _ _ (sv_inv _ Hs) Hp) as Hi. destruct Hs. destruct Hp as [i p Hw|cfd p Ha]; (split;
    cbn [set_cpu set_service set_acceptor cpu incoming answered s_conns s_reqs s_tbytes stopsvr services acc entered served] in *; try done).
  - by rewrite length_insert.
  - intros Hin. by apply (elem_of_insert_list _ _ _ _ _ Hw) in Hin as [?|?].
  - rewrite sv_served0. pose proof (busy_insert _ _ _ SWoken Hw) as Hb. cbn in Hb. rewrite app_nil_r in Hb. by rewrite Hb.
  - by rewrite Ha in sv_accepted0.
  - by rewrite Ha in sv_conns0.
Qed.

Lemma serving_start size mem : 0 < size -> Z.of_nat (length mem) = size -> serving (start size mem n cfds).
Proof.
  intros Hs Hm. split; cbn; try done.
  - by apply inv_pool0.
  - apply length_replicate.
  - by intros [? _]%elem_of_replicate.
  - by rewrite busy_idle.
Qed.

Lemma serving_queue s : serving s -> wants_queue (cpu s) -> exists s', step s s'.
Proof.
  intros Hs Hgo. destruct (queue_step_some (cpu s) (SessionQueue.inv_ring _ (sv_inv s Hs)) Hgo) as [p' Hq].
  eexists. by apply move_session.
Qed.

(** Where nothing can be done all is done. *)
Lemma serving_progress s : (0 < n)%nat -> serving s -> all_served cfds s \/ exists s', step s s'.
Proof.
  intros Hn Hs. set (p := cpu s). pose proof (SessionQueue.inv_ring p (sv_inv s Hs)) as Hr.
  destruct (decide (Exists (fun x => x = SIdle \/ x = SWoken \/ x = STested) (services p))) as [Hx|Hx].
  { apply Exists_exists in Hx as (x & [i Hi]%list_elem_of_lookup & Hx). right. apply serving_queue; [done|]. left. by exists i, x. }
  destruct (busy (services p)) as [|cfd l] eqn:Hnb.
  2:{ assert (cfd ∈ busy (services p)) as ([] & [i Hi]%list_elem_of_lookup & Hb)%list_elem_of_omap by (rewrite Hnb; by left); try done.
    injection Hb as ->. right. destruct (session_served cfd s (serving_busy s i cfd Hs Hi) (sv_stop s Hs)) as (h & Hrun & _).
    eexists. by eapply serve_client. }
  assert (Hwait : Forall (fun x => x = SWait) (services p)).
  { apply Forall_forall. intros x Hin. destruct x as [| | | |cfd|]; try done.
    - destruct Hx. apply Exists_exists. exists SIdle. auto.
    - destruct Hx. apply Exists_exists. exists STested. auto.
    - destruct Hx. apply Exists_exists. exists SWoken. auto.
    - assert (cfd ∈ busy (services p)) as Hc by (apply list_elem_of_omap; by exists (SBusy cfd)). rewrite Hnb in Hc. by apply elem_of_nil in Hc.
    - by destruct (sv_exit s Hs). }
  assert (Hin : SWait ∈ services p).
  { destruct (services p) as [|x l] eqn:E; [pose proof (sv_threads s Hs) as H; fold p in H; rewrite E in H; cbn in H; lia|].
    apply Forall_cons in Hwait as [-> _]. by left. }
  assert (H0 : qcount (pcx p) = 0).
  { pose proof (SessionQueue.inv_wait p (sv_inv s Hs) Hin) as Hw. rewrite count_absent in Hw.
    - destruct Hr as (_ & _ & ? & _). lia.
    - intros Hk. rewrite Forall_forall in Hwait. by specialize (Hwait _ Hk). }
  destruct (acc p) as [|cfd|cfd|cfd|cfd|] eqn:Ea.
  - destruct (incoming s) as [|cfd rest] eqn:Ei; [left|right].
    + pose proof Hs as []. fold p in sv_accepted0, sv_served0, sv_conns0. rewrite Ea, Ei in *. cbn [pending] in *.
      rewrite !app_nil_r in *.
      assert (He : entered p = served p) by (rewrite (SessionQueue.inv_fifo p sv_inv0); unfold contents; by rewrite H0, app_nil_r).
      rewrite Hnb, app_nil_r in sv_served0. rewrite He in *. split; fold p; try done; rewrite <-?sv_accepted0; try done.
      * by rewrite sv_reqs0, <-sv_served0.
      * by rewrite sv_tbytes0, <-sv_served0.
    + eexists. eapply accept_client; [exact Ei|exact Ea|apply Hs].
  - right. apply serving_queue; [done|]. right. exists cfd. auto.
  - right. apply serving_queue; [done|]. right. exists cfd. auto.
  - pose proof (SessionQueue.inv_full p (sv_inv s Hs)) as Hf. rewrite Ea in Hf. destruct Hr as (? & _). lia.
  - right. apply serving_queue; [done|]. right. exists cfd. auto.
  - by destruct (sv_acc s Hs).
Qed.
End serving.
End system.


(** Three clients, the last of which sends nothing, and a queue for one. *)
Definition demo_clients (cfd : Z) : conn :=
  if cfd =? 9 then mk_conn [] [] [] (fun _ => None) 0 else h_net two_requests_conn.

Lemma demo_good cfd : good_client config0 300 (demo_clients cfd).
Proof.
  unfold demo_clients. destruct (cfd =? 9).
  - split; [by exists []|]. split; [constructor|]. split; [by right|]. done.
  - split; [|split; [|split]].
    + exists two_requests. split; [done|]. split; repeat constructor; try discriminate; cbv; set_solver.
    + repeat constructor.
    + right. intros path. discriminate.
    + split; vm_compute; reflexivity.
Qed.

