(* ===== verification/PoolShutdown.v ===== *)
(** * thrplhttp.c: the end of the threads of a CPU

    SIGINT sets [stopsvr], main broadcasts, and the threads are to return:
    the acceptor from its loop, the service threads when the queue is empty.
    [SessionQueue.shutdown_wakeup_lost] is how that can fail; here is when it does not. *)
From Stdlib Require Import ZArith Lia Bool.
From stdpp Require Import base tactics list sets.
From S2P Require Import Prelude SessionQueue QueueProgress.
From S2P Require Steps.

(** ** The critical sections of a server that stops *)
Lemma service_enter_stopped i p p' : ring_ok (pcx p) -> stopsvr p = true -> service_enter i p = Some p' ->
  qcount (pcx p) = 0 /\ p' = set_service i SExit p \/
  0 < qcount (pcx p) /\ exists cfd q, contents (pcx p) = cfd :: contents q /\ qcount q = qcount (pcx p) - 1 /\
    p' = mk_pool q (stopsvr p) (broadcasted p) (<[i := if cfd =? -1 then SExit else SBusy cfd]> (services p))
      (if 0 <? qwait (pcx p) then wake_acceptor (acc p) else acc p) (entered p) (served p ++ [cfd]).
Proof.
  intros Hr Hs. unfold service_enter, dequeue_waits. rewrite Hs. cbn [negb andb]. pose proof Hr as (_ & _ & Hc & _).
  destruct (Z.ltb_spec 0 (qcount (pcx p))) as [H0|H0].
  - destruct (contents_take (pcx p) Hr H0) as (cfd & Ht & Hcs). rewrite Ht. cbn [mbind option_bind]. intros [= <-].
    right. split; [done|]. by eexists cfd, _.
  - unfold dequeue_take. rewrite (proj2 (Z.ltb_ge 0 (qcount (pcx p)))) by lia. cbn [mbind option_bind]. intros [= <-].
    left. split; [lia|]. unfold set_service. by rewrite Hs.
Qed.

Lemma acceptor_enter_stopped cfd w p p' : ring_ok (pcx p) -> stopsvr p = true -> acceptor_enter cfd w p = Some p' ->
  qcount (pcx p) = qsize (pcx p) /\ p' = set_acceptor AIdle p \/
  exists q, qcount q = qcount (pcx p) + 1 /\
    p' = mk_pool q (stopsvr p) (broadcasted p) (signal_cnd w (services p)) AIdle (entered p ++ [cfd]) (served p).
Proof.
  intros Hr Hs. unfold acceptor_enter, queue_waits. rewrite Hs. cbn [negb andb]. pose proof Hr as (_ & _ & Hc & _).
  destruct (Z.ltb_spec (qcount (pcx p)) (qsize (pcx p))) as [Hf|Hf].
  - destruct (contents_put (pcx p) cfd Hr Hf) as (q & -> & _ & _ & Hn & _). cbn [mbind option_bind]. intros [= <-]. right. exists q. by rewrite ?Hs.
  - unfold queue_put. rewrite (proj2 (Z.ltb_ge (qcount (pcx p)) (qsize (pcx p)))) by lia. cbn. intros [= <-].
    left. split; [lia|]. unfold set_acceptor. by rewrite Hs.
Qed.

(** ** What holds of the threads that have returned

    They saw an empty queue after the signal, and only the session that the acceptor
    had then can follow. *)
Definition after_exit (a : acceptor) (count : Z) : Prop :=
  match a with ATested _ | AWait _ => False | AReady _ | AWoken _ => count = 0 | AIdle | AExit => count <= 1 end.

Record orderly (p : pool) : Prop := mk_orderly {
  or_inv : inv p;
  or_names : Forall (fun cfd => 0 <= cfd) (entered p ++ pending (acc p));
  or_exit : SExit ∈ services p -> stopsvr p = true /\ after_exit (acc p) (qcount (pcx p))
}.

Lemma orderly_head p cfd l : orderly p -> contents (pcx p) = cfd :: l -> cfd =? -1 = false.
Proof.
  intros Hp Hc. pose proof (or_names p Hp) as Hn. rewrite (inv_fifo p (or_inv p Hp)), Hc in Hn.
  apply Forall_app in Hn as [Hn _]. apply Forall_app in Hn as [_ Hn]. apply Forall_cons in Hn as [Hn _]. apply Z.eqb_neq. lia.
Qed.

Lemma in_insert i x y (l : list service) : l !! i = Some y -> SExit ∈ <[i := x]> l -> x = SExit \/ SExit ∈ l.
Proof. intros Hi Hin. apply (elem_of_insert_list _ _ _ _ _ Hi) in Hin as [?|?]; auto. Qed.

Lemma orderly_service i s p p' : orderly p -> services p !! i = Some s -> s = SIdle \/ s = SWoken -> locked p = false ->
  service_enter i p = Some p' -> orderly p'.
Proof.
  intros Hp Hi Hs Hl He. pose proof (or_inv p Hp) as Hinv. pose proof (inv_ring p Hinv) as Hr.
  assert (Hinv' : inv p') by (by eapply inv_service_enter).
  destruct (not_locked p Hl) as [_ Hna]. destruct (stopsvr p) eqn:Est.
  - destruct (service_enter_stopped i p p' Hr Est He) as [[H0 ->]|(H0 & cfd & q & Hc & Hq & ->)].
    + split; [done|apply Hp|]. cbn. intros _. split; [done|]. rewrite H0. pose proof (inv_full p Hinv) as Hf.
      destruct Hr as (? & _). unfold after_exit. destruct (acc p) as [| |c|c| |]; try done; try lia.
    + rewrite (orderly_head p cfd _ Hp Hc) in *. split; [done| |].
      * pose proof (or_names p Hp) as Hn. cbn. destruct (0 <? qwait (pcx p)), (acc p); done.
      * cbn [services pcx acc]. intros Hin. apply (in_insert _ _ _ _ Hi) in Hin as [?|Hin]; [done|].
        destruct (or_exit p Hp Hin) as [_ Ha]. split; [done|]. rewrite Hq.
        destruct (0 <? qwait (pcx p)), (acc p); cbn in *; lia.
  - destruct (service_enter_cases i p p' Hr Est He) as [[H0 ->]|(H0 & cfd & q & Hc & Hq & ->)].
    + split; [done|apply Hp|]. cbn. intros Hin. apply (in_insert _ _ _ _ Hi) in Hin as [?|Hin]; [done|]. by destruct (or_exit p Hp Hin); congruence.
    + rewrite (orderly_head p cfd _ Hp Hc) in *. split; [done| |].
      * pose proof (or_names p Hp) as Hn. cbn. destruct (0 <? qwait (pcx p)), (acc p); done.
      * cbn [services]. intros Hin. apply (in_insert _ _ _ _ Hi) in Hin as [?|Hin]; [done|]. by destruct (or_exit p Hp Hin); congruence.
Qed.

Lemma orderly_acceptor cfd w a p p' : orderly (set_acceptor a p) -> inv p' -> a = AReady cfd \/ a = AWoken cfd ->
  acceptor_enter cfd w (set_acceptor a p) = Some p' -> orderly p'.
Proof.
  intros Hp Hinv' Ha He. pose proof (inv_ring _ (or_inv _ Hp)) as Hr. pose proof (or_names _ Hp) as Hn.
  assert (Hpend : pending a = [cfd]) by (by destruct Ha as [-> | ->]).
  cbn [entered acc set_acceptor] in Hn. rewrite Hpend in Hn.
  assert (Hx : forall q (l : list service), (SExit ∈ l -> SExit ∈ services p) -> qcount q = qcount (pcx p) + 1 ->
    SExit ∈ l -> stopsvr p = true /\ after_exit AIdle (qcount q)).
  { intros q l Hl Hq Hin%Hl. destruct (or_exit _ Hp Hin) as [Hs Hc]. split; [done|]. rewrite Hq. cbn in *.
    destruct Ha as [-> | ->]; cbn in Hc; lia. }
  assert (Hsig : SExit ∈ signal_cnd w (services p) -> SExit ∈ services p).
  { intros Hin. by apply elem_signal in Hin as [?|?]. }
  destruct (stopsvr p) eqn:Est.
  - destruct (acceptor_enter_stopped cfd w (set_acceptor a p) p' Hr Est He) as [[Hf ->]|(q & Hq & ->)].
    + split; [done| |].
      * cbn. apply Forall_app in Hn as [Hn _]. by rewrite app_nil_r.
      * cbn. intros Hin. destruct (or_exit _ Hp Hin) as [_ Hc]. split; [done|]. cbn in Hc. destruct Ha as [-> | ->]; cbn in Hc; lia.
    + split; [done|by cbn; rewrite app_nil_r|]. cbn. rewrite Est. by apply Hx.
  - destruct (acceptor_enter_cases cfd w (set_acceptor a p) p' Hr Est He) as [[Hf ->]|(q & _ & Hq & ->)].
    + split; [done|by cbn|]. cbn. intros Hin. destruct (or_exit _ Hp Hin) as [Hs _]. cbn in Hs. congruence.
    + split; [done|by cbn; rewrite app_nil_r|]. cbn. rewrite Est. by apply Hx.
Qed.

Lemma orderly_queue_step p p' : orderly p -> queue_step p p' -> orderly p'.
Proof.
  intros Hp Hst. assert (Hinv' : inv p') by (by eapply inv_queue_step; [apply Hp|]).
  destruct Hst as [i x p p' Hi Hx Hl He|i p Hi|cfd w p p' Ha Hl Hw He|cfd p Ha|cfd w p p' Ha Hl Hw He].
  - by eapply orderly_service.
  - split; [done|apply Hp|]. cbn. intros Hin. apply (in_insert _ _ _ _ Hi) in Hin as [?|Hin]; [done|]. by apply Hp.
  - replace p with (set_acceptor (AReady cfd) p) in * by (destruct p; cbn in *; by subst).
    apply (orderly_acceptor cfd w (AReady cfd) p p'); auto.
  - split; [done| |].
    + pose proof (or_names p Hp) as Hn. by rewrite Ha in Hn.
    + intros Hin. pose proof (or_exit p Hp Hin) as Hx. by rewrite Ha in Hx.
  - set (p1 := set_pcx (add_qwait (-1) (pcx p)) p) in *.
    replace p1 with (set_acceptor (AWoken cfd) p1) in He by (unfold p1; destruct p; cbn in *; by subst).
    apply (orderly_acceptor cfd w (AReady cfd) p1 p'); auto.
    destruct Hp as [[] Hn Hx]. split.
    + split; try done. cbn. rewrite inv_qwait, Ha. done.
    + cbn. by rewrite Ha in Hn.
    + cbn. intros Hin. specialize (Hx Hin). by rewrite Ha in Hx.
Qed.

Lemma orderly_step p p' : orderly p -> step p p' -> orderly p'.
Proof.
  intros Hp Hst. assert (Hinv' : inv p') by (by eapply pool_inv_step; [apply Hp|]).
  destruct Hst as [p p' Hst|i cfd p Hi|cfd p Ha Hs Hc|p Ha|p|p _ _].
  - by eapply orderly_queue_step.
  - split; [done|apply Hp|]. cbn. intros Hin. apply (in_insert _ _ _ _ Hi) in Hin as [?|Hin]; [done|]. by apply Hp.
  - split; [done| |].
    + pose proof (or_names p Hp) as Hn. rewrite Ha, app_nil_r in Hn. cbn. apply Forall_app. split; [done|]. by apply Forall_singleton.
    + cbn. intros Hin. destruct (or_exit p Hp Hin). congruence.
  - split; [done| |].
    + pose proof (or_names p Hp) as Hn. by rewrite Ha in Hn.
    + intros Hin. pose proof (or_exit p Hp Hin) as Hx. by rewrite Ha in Hx.
  - split; [done|apply Hp|]. cbn. intros Hin. split; [done|]. by apply (or_exit p Hp).
  - split; [done|apply Hp|]. cbn. intros [_ [?|Hin]]%elem_wake; [done|]. split; [done|]. by apply (or_exit p Hp).
Qed.

Lemma acceptor_enter_length cfd w p p' : acceptor_enter cfd w p = Some p' -> length (services p') = length (services p).
Proof.
  unfold acceptor_enter. destruct (queue_waits _ _); [by intros [= <-]|].
  destruct (queue_put cfd (pcx p)) as [[[] q]|]; [|by intros [= <-]|done]. intros [= <-]. cbn. apply signal_cnd_keeps.
Qed.

Lemma step_length p p' : step p p' -> length (services p') = length (services p).
Proof.
  intros [? ? Hst|i ? ? ?| | | |]; cbn; rewrite ?length_insert, ?length_map; try done.
  destruct Hst as [i x ? ? _ _ _ He|i ? ?|? ? ? ? _ _ _ He| |? ? ? ? _ _ _ He]; cbn; rewrite ?length_insert; try done.
  - revert He. unfold service_enter. destruct (dequeue_waits _ _); [intros [= <-]; apply length_insert|].
    destruct (dequeue_take _) as [[[? ?] ?]|]; [|done]. intros [= <-]. apply length_insert.
  - by eapply acceptor_enter_length.
  - by apply acceptor_enter_length in He.
Qed.

Lemma orderly_spurious p p' : orderly p -> spurious p p' -> orderly p'.
Proof.
  intros Hp Hst. assert (Hinv' : inv p') by (by eapply inv_spurious; [apply Hp|]). destruct Hp as [_ Hn Hx]. destruct Hst as [i p Hi|cfd p Ha].
  - split; [done|done|]. cbn. intros Hin. apply (in_insert _ _ _ _ Hi) in Hin as [?|Hin]; [done|]. by apply Hx.
  - split; [done| |]; cbn; rewrite Ha in *; [done|]. intros Hin. by destruct (Hx Hin).
Qed.

Lemma orderly_pool0 size mem n : 0 < size -> Z.of_nat (length mem) = size -> orderly (pool0 size mem n).
Proof. intros Hs Hm. split; [by apply inv_pool0|constructor|]. cbn. by intros [? _]%elem_of_replicate. Qed.

Lemma orderly_reach size mem n p : 0 < size -> Z.of_nat (length mem) = size -> reach size mem n p -> orderly p /\ length (services p) = n.
Proof.
  intros Hs Hm. induction 1 as [|p p' _ [IH Hl] Hst|p p' _ [IH Hl] Hst].
  - split; [by apply orderly_pool0|apply length_replicate].
  - split; [by eapply orderly_step|]. by rewrite (step_length p p').
  - split; [by eapply orderly_spurious|]. destruct Hst; cbn; by rewrite ?length_insert.
Qed.

(** ** After the broadcast *)
(** No service thread sleeps or is about to. *)
Definition awake (s : service) : Prop := match s with SWait | STested => False | _ => True end.

Record ending (p : pool) : Prop := mk_ending {
  en_orderly : orderly p;
  en_stop : stopsvr p = true;
  en_broadcasted : broadcasted p = true;
  en_awake : Forall awake (services p)
}.

(** A step that is not just another SIGINT. *)
Definition moves (p p' : pool) : Prop := step p p' /\ p' <> p.

(** All threads have returned; a session that came too late is left. *)
Definition all_returned (p : pool) : Prop :=
  Forall (fun s => s = SExit) (services p) /\ acc p = AExit /\ qcount (pcx p) <= 1 /\ entered p = served p ++ contents (pcx p).

Lemma signal_awake w l : Forall awake l -> signal_cnd w l = l.
Proof. intros Hl. unfold signal_cnd. destruct (l !! w) as [[]|] eqn:E; try done. by pose proof (Forall_lookup_1 _ _ _ _ Hl E). Qed.

Lemma ending_queue_step p p' : ending p -> queue_step p p' ->
  stopsvr p' = true /\ broadcasted p' = true /\ Forall awake (services p') /\ pool_work p' < pool_work p.
Proof.
  intros [Ho Hs Hb Ha] Hst. pose proof (inv_ring p (or_inv p Ho)) as Hr.
  destruct Hst as [i x p p' Hi Hx Hl He|i p Hi|cfd w p p' Hacc Hl Hw He|cfd p Hacc|cfd w p p' Hacc Hl Hw He].
  - assert (service_work x = 3) as Hwx by (by destruct Hx as [-> | ->]). unfold pool_work.
    destruct (service_enter_stopped i p p' Hr Hs He) as [[H0 ->]|(H0 & cfd & q & Hc & Hq & ->)]; cbn [stopsvr broadcasted set_service services pcx acc];
      (split; [done|]; split; [done|]).
    + split; [by apply Forall_insert|]. rewrite (services_work_insert _ _ _ _ Hi). cbn. lia.
    + rewrite (orderly_head p cfd _ Ho Hc). split; [by apply Forall_insert|]. rewrite (services_work_insert _ _ _ _ Hi), Hq, Hwx.
      destruct (0 <? qwait (pcx p)), (acc p); cbn; lia.
  - by pose proof (Forall_lookup_1 _ _ _ _ Ha Hi).
  - destruct (acceptor_enter_stopped cfd w p p' Hr Hs He) as [[Hf ->]|(q & Hq & ->)]; unfold pool_work;
      cbn [stopsvr broadcasted set_acceptor services pcx acc]; rewrite ?signal_awake by done; rewrite Hacc; cbn [acceptor_work]; split_and!; (done || lia).
  - unfold pool_work. cbn [stopsvr broadcasted set_acceptor services pcx acc]. rewrite Hacc. cbn [acceptor_work]. split_and!; (done || lia).
  - set (p1 := set_pcx (add_qwait (-1) (pcx p)) p) in *.
    destruct (acceptor_enter_stopped cfd w p1 p' Hr Hs He) as [[Hf ->]|(q & Hq & ->)]; unfold pool_work;
      cbn [stopsvr broadcasted set_acceptor services pcx acc]; rewrite ?signal_awake by done; cbn [acc set_pcx p1] in *; rewrite Hacc; cbn [acceptor_work];
      cbn [pcx set_pcx p1 add_qwait qcount services] in *; split_and!; (done || lia).
Qed.

Lemma ending_moves p p' : ending p -> moves p p' -> ending p' /\ pool_work p' < pool_work p.
Proof.
  intros He [Hst Hne]. pose proof (orderly_step p p' (en_orderly p He) Hst) as Ho. destruct Hst as [p p' Hst|i cfd p Hi|cfd p Ha Hs Hc|p Ha|p|p _ Hb].
  - destruct (ending_queue_step p p' He Hst) as (H1 & H2 & H3 & H4). by split.
  - destruct He. split; [split; try done; by apply Forall_insert|]. unfold pool_work. cbn [set_service pcx services acc].
    rewrite (services_work_insert _ _ _ _ Hi). cbn. lia.
  - pose proof (en_stop p He). congruence.
  - destruct He. split; [by split|]. unfold pool_work. cbn [set_acceptor pcx services acc]. rewrite Ha. cbn. lia.
  - destruct Hne. destruct He as [_ Hs _ _]. destruct p. cbn in *. by rewrite Hs.
  - pose proof (en_broadcasted p He). congruence.
Qed.

(** A service thread that has not returned can go on, and so can the acceptor. *)
Lemma ending_queue p : ending p -> wants_queue p -> exists p', moves p p'.
Proof.
  intros He Hgo. destruct (queue_step_some p (inv_ring p (or_inv p (en_orderly p He))) Hgo) as [p' Hq]. exists p'.
  split; [by apply step_queues|]. intros ->. destruct (ending_queue_step p p He Hq) as (_ & _ & _ & ?). lia.
Qed.

Lemma acceptor_moves p : ending p -> acc p <> AExit -> (forall cfd, acc p <> AWait cfd) -> exists p', moves p p'.
Proof.
  intros He Hx Hw. destruct (acc p) as [|cfd|cfd|cfd|cfd|] eqn:E; try (apply ending_queue; [done|right; exists cfd; by auto]).
  - exists (set_acceptor AExit p). split; [by apply step_accept_end|]. intros Heq. by rewrite <-Heq in E.
  - by destruct (Hw cfd).
  - done.
Qed.

Lemma service_moves i x p : ending p -> services p !! i = Some x -> x <> SExit -> exists p', moves p p'.
Proof.
  intros He Hi Hx. pose proof (Forall_lookup_1 _ _ _ _ (en_awake p He) Hi) as Hax.
  destruct x as [| | | |c|]; try done; try (apply ending_queue; [done|left; eexists _, _; split; [exact Hi|]; by auto]).
  eexists. split; [by eapply step_service_done|]. intros Heq. assert (Hi' := f_equal (fun p => services p !! i) Heq).
  cbn in Hi'. by rewrite list_lookup_insert_eq, Hi in Hi' by (by eapply lookup_lt_Some).
Qed.

Lemma ending_progress p : (0 < length (services p))%nat -> ending p -> all_returned p \/ exists p', moves p p'.
Proof.
  intros Hn He. pose proof He as [Ho _ _ _].
  destruct (decide (Forall (fun x => x = SExit) (services p))) as [Hx|Hx].
  2:{ right. apply not_Forall_Exists, Exists_exists in Hx as (x & [i Hi]%list_elem_of_lookup & Hx); [|apply _]. by eapply service_moves. }
  assert (Hin : SExit ∈ services p).
  { destruct (services p) as [|x l]; [cbn in Hn; lia|]. apply Forall_cons in Hx as [-> _]. by left. }
  destruct (or_exit p Ho Hin) as [_ Ha]. destruct (decide (acc p = AExit)) as [Hacc|Hacc].
  - left. split; [done|]. split; [done|]. rewrite Hacc in Ha. split; [done|]. apply (inv_fifo p (or_inv p Ho)).
  - right. apply acceptor_moves; [done|done|]. intros cfd E. by rewrite E in Ha.
Qed.

(** The threads of a CPU end when the broadcast of main finds none of them asleep or
    about to fall asleep at the empty queue: whatever they do then, all service
    threads and the acceptor return, and every queued session is begun before, except
    one at most that the acceptor queues when the last of them has already left; that one is
    never served nor closed. *)
Theorem shutdown_returns size mem n p : 0 < size -> Z.of_nat (length mem) = size -> (0 < n)%nat ->
  reach size mem n p -> stopsvr p = true -> broadcasted p = true -> Forall awake (services p) ->
  Steps.inevitable moves all_returned p.
Proof.
  intros Hs Hm Hn Hr Hst Hb Ha. destruct (orderly_reach size mem n p Hs Hm Hr) as [Ho Hl].
  apply (Steps.inevitable_measure moves (fun p => ending p /\ length (services p) = n) (fun p => Z.to_nat (pool_work p))); [| |by split].
  - intros x x' [Hx Hxl] Hx'. destruct (ending_moves x x' Hx Hx') as [He Hlt]. split; [split; [done|]|].
    + rewrite <-Hxl. apply step_length, Hx'.
    + pose proof (pool_work_nonneg x' (or_inv _ (en_orderly _ He))). lia.
  - intros x [Hx <-]. by apply ending_progress.
Qed.

(** The acceptor comes with a session when the only service thread has returned. *)
Definition late (size : Z) (mem : list Z) : pool := mk_pool (init_per_cpu_ctx size mem) true true [SExit] (AReady 5) [] [].

Lemma late_reach : reach 1 [0] 1 (late 1 [0]).
Proof.
  set (p0 := pool0 1 [0] 1). set (p1 := set_acceptor (AReady 5) p0).
  set (p2 := mk_pool (pcx p1) true false (services p1) (acc p1) [] []).
  set (p3 := mk_pool (pcx p1) true true (services p1) (acc p1) [] []).
  assert (H1 : step p0 p1) by (by apply step_accept).
  assert (H2 : step p1 p2) by apply step_sig_int.
  assert (H3 : step p2 p3) by (by apply (step_broadcast p2)).
  assert (H4 : step p3 (late 1 [0])) by (apply step_queues; by eapply (step_service 0 SIdle p3); [|left| |]).
  repeat (eapply reach_step; [|eassumption]). constructor.
Qed.

Lemma shutdown_returns_witness : Steps.inevitable moves all_returned (late 1 [0]).
Proof. apply (shutdown_returns 1 [0] 1); [lia|done|lia|apply late_reach|done|done|by repeat constructor]. Defined.

(** That session is left in the queue. *)
Lemma session_left : exists p, Steps.reach step (late 1 [0]) p /\ all_returned p /\ contents (pcx p) = [5].
Proof.
  set (p1 := mk_pool (mk_pcx 1 0 0 1 0 [5]) true true [SExit] AIdle [5] []).
  assert (H1 : step (late 1 [0]) p1).
  { apply step_queues, (step_queue 5 0); try done. right. intros Hin. apply list_elem_of_singleton in Hin. done. }
  assert (H2 : step p1 (set_acceptor AExit p1)) by (by apply step_accept_end).
  exists (set_acceptor AExit p1). split; [|by repeat split; repeat constructor].
  eapply Steps.reach_step; [eapply Steps.reach_step; [apply Steps.reach_start|exact H1]|exact H2].
Qed.
