(* ===== verification/PoolProgram.v ===== *)
(** * thrplhttp.c: the CPUs and main together

    The threads of all CPUs as they are in [SessionQueue], what each CPU counts, the
    handler of SIGINT, and main: it sleeps until the signal, broadcasts to the CPUs one
    after the other, joins their threads and adds up their counters (that it closes the listening socket
    before has no effect here: no connection is accepted after the signal).  A session is what
    a service thread does between taking it and coming back; what it adds to the
    counters on the way, under their mutex, is added in the step that ends it, and may
    be anything (what it is [ThrPlSession] says).  So the signal may come at any moment
    of a session. *)
From Stdlib Require Import ZArith Lia Bool.
From stdpp Require Import base tactics list sets.
From S2P Require Import Prelude SessionQueue QueueProgress PoolShutdown.
From S2P Require Steps.

(** A CPU: its threads, the connections accepted so far, the sessions that are over
    with what each added to [reqs] and [tbytes], and the counters. *)
Record node := mk_node {
  cpu : pool; accepted : list Z; over : list (Z * (Z * Z));
  n_conns : Z; n_reqs : Z; n_tbytes : Z
}.

Definition set_cpu (p : pool) (x : node) : node := mk_node p (accepted x) (over x) (n_conns x) (n_reqs x) (n_tbytes x).

Inductive node_step : node -> node -> Prop :=
| node_queue p x : queue_step (cpu x) p -> node_step x (set_cpu p x)
| node_accept cfd x : acc (cpu x) = AIdle -> stopsvr (cpu x) = false -> 0 <= cfd ->
    node_step x (mk_node (set_acceptor (AReady cfd) (cpu x)) (accepted x ++ [cfd]) (over x) (u64 (n_conns x + 1)) (n_reqs x) (n_tbytes x))
| node_accept_end x : acc (cpu x) = AIdle -> node_step x (set_cpu (set_acceptor AExit (cpu x)) x)
| node_over i cfd r b x : services (cpu x) !! i = Some (SBusy cfd) ->
    node_step x (mk_node (set_service i SIdle (cpu x)) (accepted x) (over x ++ [(cfd, (r, b))]) (n_conns x)
                   (u64 (n_reqs x + r)) (u64 (n_tbytes x + b))).

(** The signal as the threads of a CPU see it, and the broadcast. *)
Definition notify (x : node) : node :=
  set_cpu (mk_pool (pcx (cpu x)) true (broadcasted (cpu x)) (services (cpu x)) (acc (cpu x)) (entered (cpu x)) (served (cpu x))) x.
Definition broadcast (x : node) : node :=
  set_cpu (mk_pool (pcx (cpu x)) (stopsvr (cpu x)) true (map wake_service (services (cpu x))) (acc (cpu x)) (entered (cpu x)) (served (cpu x))) x.

Definition returned (x : node) : Prop := Forall (fun s => s = SExit) (services (cpu x)) /\ acc (cpu x) = AExit.

(** Where main is: in its poll; before the broadcast to CPU [k]; before it joins the
    threads of CPU [k], with the sums so far; at its end, with what it printed. *)
Inductive phase := Waiting | Broadcasting (k : nat) | Joining (k : nat) (conns reqs tbytes : Z) | Printed (conns reqs tbytes : Z).

Record program := mk_program { nodes : list node; signalled : bool; main_at : phase }.

Inductive step : program -> program -> Prop :=
| threads_run i x y s : nodes s !! i = Some x -> node_step x y ->
    step s (mk_program (<[i := y]> (nodes s)) (signalled s) (main_at s))
| sig_int_comes s : signalled s = false -> step s (mk_program (map notify (nodes s)) true (main_at s))
| main_wakes s : main_at s = Waiting -> signalled s = true -> step s (mk_program (nodes s) (signalled s) (Broadcasting 0))
| main_broadcasts k x s : main_at s = Broadcasting k -> nodes s !! k = Some x ->
    step s (mk_program (<[k := broadcast x]> (nodes s)) (signalled s) (Broadcasting (S k)))
| main_has_broadcast s : main_at s = Broadcasting (length (nodes s)) -> step s (mk_program (nodes s) (signalled s) (Joining 0 0 0 0))
| main_joins k conns reqs tbytes x s : main_at s = Joining k conns reqs tbytes -> nodes s !! k = Some x -> returned x ->
    step s (mk_program (nodes s) (signalled s) (Joining (S k) (u64 (conns + n_conns x)) (u64 (reqs + n_reqs x)) (u64 (tbytes + n_tbytes x))))
| main_prints conns reqs tbytes s : main_at s = Joining (length (nodes s)) conns reqs tbytes ->
    step s (mk_program (nodes s) (signalled s) (Printed conns reqs tbytes)).

(** A wait that ends for no reason. *)
Inductive stir : program -> program -> Prop :=
| stir_thread i x p s : nodes s !! i = Some x -> spurious (cpu x) p ->
    stir s (mk_program (<[i := set_cpu p x]> (nodes s)) (signalled s) (main_at s)).

Definition node0 (size : Z) (mem : list Z) (n : nat) : node := mk_node (pool0 size mem n) [] [] 0 0 0.
Definition start (size : Z) (mems : list (list Z)) (n : nat) : program :=
  mk_program (map (fun mem => node0 size mem n) mems) false Waiting.

(** ** What is promised *)
Definition conns_of (x : node) : Z := Z.of_nat (length (accepted x)).
Definition reqs_of (x : node) : Z := zsum (map (fun y => y.2.1) (over x)).
Definition tbytes_of (x : node) : Z := zsum (map (fun y => y.2.2) (over x)).

(** The threads of a CPU have returned: the sessions that were begun, in the order of
    the connections, are over, and there are as many as connections, but for one. *)
Definition node_done (x : node) : Prop :=
  returned x /\ served (cpu x) ≡ₚ map fst (over x) /\ served (cpu x) `prefix_of` accepted x /\
  (length (accepted x) <= length (over x) + 1)%nat.

Definition finished (s : program) : Prop :=
  Forall node_done (nodes s) /\
  main_at s = Printed (u64 (zsum (map conns_of (nodes s)))) (u64 (zsum (map reqs_of (nodes s)))) (u64 (zsum (map tbytes_of (nodes s)))).

(** Main joins a thread that sleeps for ever, at an empty queue. *)
Definition sleeper (x : node) : Prop :=
  SWait ∈ services (cpu x) /\ Forall (fun s => s = SWait \/ s = SExit) (services (cpu x)) /\
  acc (cpu x) = AExit /\ qcount (pcx (cpu x)) = 0 /\ broadcasted (cpu x) = true.
Definition hangs (s : program) : Prop :=
  exists k conns reqs tbytes x, main_at s = Joining k conns reqs tbytes /\ nodes s !! k = Some x /\ sleeper x.

(** ** Proofs: the threads of a CPU *)

(** What the critical sections do, whether the server stops or not. *)
Lemma service_enter_any i p p' : orderly p -> service_enter i p = Some p' ->
  (exists y, (y = STested /\ stopsvr p = false \/ y = SExit /\ qcount (pcx p) = 0) /\ p' = set_service i y p) \/
  0 < qcount (pcx p) /\ exists cfd q, qcount q = qcount (pcx p) - 1 /\
    p' = mk_pool q (stopsvr p) (broadcasted p) (<[i := SBusy cfd]> (services p))
      (if 0 <? qwait (pcx p) then wake_acceptor (acc p) else acc p) (entered p) (served p ++ [cfd]).
Proof.
  intros Hp He. pose proof (inv_ring p (or_inv p Hp)) as Hr. destruct (stopsvr p) eqn:Hs.
  - destruct (service_enter_stopped i p p' Hr Hs He) as [[H0 ->]|(H0 & cfd & q & Hc & Hq & ->)]; [left; eauto|].
    rewrite (orderly_head p cfd _ Hp Hc), Hs. right. split; [done|]. by exists cfd, q.
  - destruct (service_enter_cases i p p' Hr Hs He) as [[H0 ->]|(H0 & cfd & q & Hc & Hq & ->)]; [left; eauto|].
    rewrite (orderly_head p cfd _ Hp Hc), Hs. right. split; [done|]. by exists cfd, q.
Qed.

Lemma acceptor_enter_any cfd w p p' : ring_ok (pcx p) -> acceptor_enter cfd w p = Some p' ->
  stopsvr p = false /\ p' = set_acceptor (ATested cfd) (set_pcx (add_qwait 1 (pcx p)) p) \/
  stopsvr p = true /\ 0 < qcount (pcx p) /\ p' = set_acceptor AIdle p \/
  exists q, qcount q = qcount (pcx p) + 1 /\
    p' = mk_pool q (stopsvr p) (broadcasted p) (signal_cnd w (services p)) AIdle (entered p ++ [cfd]) (served p).
Proof.
  intros Hr He. pose proof Hr as (? & _). destruct (stopsvr p) eqn:Hs.
  - destruct (acceptor_enter_stopped cfd w p p' Hr Hs He) as [[Hf ->]|(q & Hq & ->)]; rewrite ?Hs.
    + right. left. repeat split. lia.
    + right. right. by exists q.
  - destruct (acceptor_enter_cases cfd w p p' Hr Hs He) as [[_ ->]|(q & _ & Hq & ->)]; rewrite ?Hs; [by left|].
    right. right. by exists q.
Qed.

(** A connection is queued, on its way to the queue, or was given up: when the server
    stops and the queue is full. *)
Definition lost_ok (l : list Z) (p : pool) : Prop :=
  l = entered p ++ pending (acc p) \/
  (exists cfd, l = entered p ++ [cfd]) /\ stopsvr p = true /\ (acc p = AIdle \/ acc p = AExit) /\
  (SExit ∈ services p -> qcount (pcx p) = 0).

Record moves_on (p p' : pool) : Prop := mk_moves_on {
  mo_served : exists new, served p' = served p ++ new /\ busy (services p') ≡ₚ new ++ busy (services p);
  mo_lost : forall l, lost_ok l p -> lost_ok l p';
  mo_work : pool_work p' < pool_work p;
  mo_flags : stopsvr p' = stopsvr p /\ broadcasted p' = broadcasted p /\ length (services p') = length (services p)
}.

Lemma in_set i x y (l : list service) : l !! i = Some y -> x <> SExit -> SExit ∈ <[i := x]> l -> SExit ∈ l.
Proof. intros Hi Hx Hin. by apply (in_insert _ _ _ _ Hi) in Hin as [?|?]. Qed.

(** A service thread gets another state, the rest stays. *)
Lemma moves_set_service p i x y : services p !! i = Some x -> busy [x] = [] -> busy [y] = [] ->
  (y = SExit -> qcount (pcx p) = 0) -> service_work y < service_work x -> moves_on p (set_service i y p).
Proof.
  intros Hi Hx Hy He Hw. split; cbn [set_service services served entered acc stopsvr broadcasted pcx]; [| | |by rewrite length_insert].
  - exists []. split; [by rewrite app_nil_r|]. pose proof (busy_insert _ _ _ y Hi) as Hb. rewrite Hx, Hy, app_nil_r in Hb. done.
  - intros l [Hl|(Hl & Hs & Ha & Hc)]; [by left|right]. split; [done|]. split; [done|]. split; [done|].
    intros [?|?]%(in_insert _ _ _ _ Hi); auto.
  - unfold pool_work. cbn [set_service pcx services acc]. rewrite (services_work_insert _ _ _ _ Hi). lia.
Qed.

Lemma moves_service p i x p' : orderly p -> services p !! i = Some x -> x = SIdle \/ x = SWoken ->
  service_enter i p = Some p' -> moves_on p p'.
Proof.
  intros Hp Hi Hx He. assert (Hbw : busy [x] = [] /\ service_work x = 3) by (by destruct Hx as [-> | ->]). destruct Hbw as [Hb Hwx].
  destruct (service_enter_any i p p' Hp He) as [(y & Hy & ->)|(H0 & cfd & q & Hq & ->)].
  - destruct Hy as [[-> _]|[-> H0]]; apply (moves_set_service p i x); try done; by rewrite Hwx.
  - split; cbn [services served entered acc stopsvr broadcasted pcx]; [| | |by rewrite length_insert].
    + exists [cfd]. split; [done|]. pose proof (busy_insert _ _ _ (SBusy cfd) Hi) as Hp'. rewrite Hb, app_nil_r in Hp'. done.
    + intros l [->|(Hl & Hs & Ha & Hc)]; [left|right]; cbn [services served entered acc stopsvr pcx].
      * by destruct (0 <? qwait (pcx p)), (acc p).
      * split; [done|]. split; [done|]. split; [by destruct (0 <? qwait (pcx p)), Ha as [-> | ->]; auto|].
        intros Hin%(in_set _ _ _ _ Hi); [|done]. specialize (Hc Hin). lia.
    + unfold pool_work. cbn [pcx services acc]. rewrite (services_work_insert _ _ _ _ Hi).
      destruct (0 <? qwait (pcx p)), (acc p); cbn; lia.
Qed.

Lemma moves_acceptor p cfd w p' : ring_ok (pcx p) -> acc p = AReady cfd \/ acc p = AWoken cfd ->
  (SExit ∈ services p -> qcount (pcx p) = 0) -> acceptor_enter cfd w p = Some p' -> moves_on p p'.
Proof.
  intros Hr Ha Hx He.
  assert (Hlost : forall l, lost_ok l p -> l = entered p ++ [cfd]).
  { intros l [->|(_ & _ & Hi & _)]; [by destruct Ha as [-> | ->]|]. destruct Ha as [Ha|Ha], Hi as [Hi|Hi]; congruence. }
  assert (Hw : acceptor_work (acc p) = 10) by (by destruct Ha as [-> | ->]).
  destruct (acceptor_enter_any cfd w p p' Hr He) as [[_ ->]|[(Hs & H0 & ->)|(q & Hq & ->)]];
    unfold set_acceptor, set_pcx; (split; cbn [services served entered acc stopsvr broadcasted pcx]);
    try (intros l Hl%Hlost); try done.
  - exists []. by rewrite app_nil_r.
  - by left.
  - unfold pool_work. cbn [pcx services acc add_qwait qcount]. rewrite Hw. cbn. lia.
  - exists []. by rewrite app_nil_r.
  - right. cbn. split; [by exists cfd|]. auto.
  - unfold pool_work. cbn [pcx services acc]. rewrite Hw. cbn. lia.
  - exists []. split; [by rewrite app_nil_r|]. apply signal_cnd_keeps.
  - left. cbn. by rewrite app_nil_r.
  - destruct (signal_cnd_keeps w (services p)) as (_ & _ & _ & Hwk). unfold pool_work. cbn [pcx services acc]. rewrite Hw. cbn. lia.
  - split; [done|]. split; [done|]. apply signal_cnd_keeps.
Qed.

Lemma queue_step_moves p p' : orderly p -> queue_step p p' -> moves_on p p'.
Proof.
  intros Hp Hst. pose proof (inv_ring p (or_inv p Hp)) as Hr.
  assert (Hx : forall cfd, acc p = AReady cfd \/ acc p = AWoken cfd -> SExit ∈ services p -> qcount (pcx p) = 0).
  { intros cfd Ha Hin. destruct (or_exit p Hp Hin) as [_ He]. by destruct Ha as [Ha|Ha]; rewrite Ha in He. }
  destruct Hst as [i x p p' Hi Hxs Hl He|i p Hi|cfd w p p' Ha Hl Hw He|cfd p Ha|cfd w p p' Ha Hl Hw He].
  - by eapply moves_service.
  - by apply (moves_set_service p i STested).
  - eapply moves_acceptor; eauto.
  - split; cbn; try done.
    + exists []. by rewrite app_nil_r.
    + intros l [->|(_ & _ & [?|?] & _)]; [left; by rewrite Ha|congruence|congruence].
    + unfold pool_work. cbn [set_acceptor pcx services acc]. rewrite Ha. cbn [acceptor_work]. lia.
  - set (p1 := set_pcx (add_qwait (-1) (pcx p)) p) in *.
    assert (Hm : moves_on p1 p') by (eapply (moves_acceptor p1 cfd w); [done|by right|by apply (Hx cfd); right|done]).
    destruct Hm as [Hs Hlo Hwk Hfl]. by split.
Qed.

(** ** Proofs: a CPU *)
Record node_ok (sig bc : bool) (x : node) : Prop := mk_node_ok {
  no_orderly : orderly (cpu x);
  no_stop : stopsvr (cpu x) = sig;
  no_broadcasted : broadcasted (cpu x) = bc;
  no_threads : (0 < length (services (cpu x)))%nat;
  no_over : served (cpu x) ≡ₚ map fst (over x) ++ busy (services (cpu x));
  no_lost : lost_ok (accepted x) (cpu x);
  no_conns : n_conns x = u64 (conns_of x);
  no_reqs : n_reqs x = u64 (reqs_of x);
  no_tbytes : n_tbytes x = u64 (tbytes_of x)
}.

Lemma node_ok_step sig bc x y : node_ok sig bc x -> node_step x y ->
  node_ok sig bc y /\ (sig = true -> pool_work (cpu y) < pool_work (cpu x)) /\ length (services (cpu y)) = length (services (cpu x)).
Proof.
  intros Hx Hst. destruct Hst as [p x Hq|cfd x Ha Hs Hc|x Ha|i cfd r b x Hi].
  - destruct Hx. destruct (queue_step_moves _ _ no_orderly0 Hq) as [(new & Hnew & Hb) Hl Hw (Hs & Hbc & Hlen)].
    split; [|by split]. split; cbn [set_cpu cpu accepted over n_conns n_reqs n_tbytes]; auto; try congruence; try lia.
    + by eapply orderly_queue_step.
    + rewrite Hnew, Hb, no_over0. solve_Permutation.
  - assert (sig = false) as -> by (destruct Hx; congruence). split; [|by split]. destruct Hx.
    split; cbn [cpu accepted over n_conns n_reqs n_tbytes]; try done.
    + by eapply orderly_step, step_accept.
    + left. cbn. destruct no_lost0 as [->|(_ & ? & _)]; [|congruence]. by rewrite Ha, app_nil_r.
    + rewrite no_conns0, u64_add_u64. unfold conns_of. cbn [accepted]. rewrite length_app. f_equal. cbn [length]. lia.
  - destruct Hx. split; [|split; [|done]; intros _; unfold pool_work; cbn [set_cpu cpu set_acceptor pcx services acc]; rewrite Ha; cbn [acceptor_work]; lia].
    split; cbn [set_cpu cpu accepted over n_conns n_reqs n_tbytes]; try done.
    + by eapply orderly_step, step_accept_end.
    + destruct no_lost0 as [->|(Hl & Hs & _ & Hc)]; [left; by rewrite Ha|right]. cbn. auto.
  - destruct Hx. split.
    2:{ split; [|by cbn; rewrite length_insert]. intros _. unfold pool_work. cbn [set_service pcx services acc cpu].
        rewrite (services_work_insert _ _ _ _ Hi). cbn. lia. }
    split; cbn [cpu accepted over n_conns n_reqs n_tbytes]; try done.
    + by eapply orderly_step, step_service_done.
    + cbn. by rewrite length_insert.
    + cbn [set_service services served]. rewrite no_over0, map_app. pose proof (busy_insert _ _ _ SIdle Hi) as Hp. cbn in Hp |- *.
      rewrite <-Hp. solve_Permutation.
    + destruct no_lost0 as [->|(Hl & Hs & Ha & Hc)]; [by left|right]. cbn. repeat split; try done.
      intros Hin%(in_set _ _ _ _ Hi); auto.
    + rewrite no_reqs0, u64_add_u64. unfold reqs_of. cbn [over]. rewrite map_app, zsum_app. f_equal. cbn. lia.
    + rewrite no_tbytes0, u64_add_u64. unfold tbytes_of. cbn [over]. rewrite map_app, zsum_app. f_equal. cbn. lia.
Qed.

Lemma lost_ok_keeps l p p' : entered p' = entered p -> pending (acc p') = pending (acc p) ->
  (acc p = AIdle \/ acc p = AExit -> acc p' = acc p) -> pcx p' = pcx p -> (stopsvr p = true -> stopsvr p' = true) ->
  (SExit ∈ services p' -> SExit ∈ services p) -> lost_ok l p -> lost_ok l p'.
Proof.
  intros He Hp Ha Hq Hs Hx [->|(Hl & Hst & Hi & Hc)]; [left; congruence|right]. rewrite He, Hq, (Ha Hi). repeat split; auto.
Qed.

Lemma busy_wake l : busy (map wake_service l) = busy l.
Proof. unfold busy. induction l as [|[] l IH]; cbn; congruence. Qed.

Lemma work_wake l : services_work (map wake_service l) <= services_work l + 3 * Z.of_nat (length l).
Proof.
  unfold services_work. induction l as [|x l IH]; [done|]. cbn [map length]. rewrite !zsum_cons. destruct x; cbn [wake_service service_work] in *; lia.
Qed.

Lemma notify_ok bc x : node_ok false bc x -> node_ok true bc (notify x).
Proof.
  intros []. split; cbn; try done; [by eapply orderly_step, step_sig_int|].
  revert no_lost0. by apply lost_ok_keeps.
Qed.

Lemma broadcast_ok x : node_ok true false x -> node_ok true true (broadcast x).
Proof.
  intros []. split; cbn; try done.
  - rewrite no_stop0. replace true with (stopsvr (cpu x)) at 1 by done. rewrite no_stop0. by eapply orderly_step, step_broadcast.
  - by rewrite length_map.
  - by rewrite busy_wake.
  - revert no_lost0. apply lost_ok_keeps; try done. by intros [_ [?|?]]%elem_wake.
Qed.

Lemma spurious_ok sig bc x p : node_ok sig bc x -> spurious (cpu x) p -> node_ok sig bc (set_cpu p x).
Proof.
  intros [] Hp. assert (Ho : orderly p) by (by eapply orderly_spurious).
  destruct Hp as [i p Hi|cfd p Ha]; split; cbn; try done.
  - by rewrite length_insert.
  - pose proof (busy_insert _ _ _ SWoken Hi) as Hb. cbn in Hb. rewrite app_nil_r in Hb. by rewrite no_over0, Hb.
  - revert no_lost0. apply lost_ok_keeps; try done. cbn. by apply (in_set _ _ _ _ Hi).
  - revert no_lost0. apply lost_ok_keeps; try done; cbn; rewrite Ha; [done|by intros [?|?]].
Qed.

Lemma returned_stays x y : returned x -> ~ node_step x y.
Proof.
  intros [Hs Ha] Hst. rewrite Forall_lookup in Hs. destruct Hst as [p x Hq|cfd x Hi|x Hi|i cfd r b x Hi]; try congruence.
  - destruct Hq as [i z p p' Hi Hz|i p Hi|cfd w p p' Hi|cfd p Hi|cfd w p p' Hi]; try congruence.
    + specialize (Hs i z Hi). destruct Hz; congruence.
    + by specialize (Hs i _ Hi).
  - by specialize (Hs i _ Hi).
Qed.

(** A CPU can go on, or its threads have returned, or one of them sleeps for ever. *)
Lemma node_progress x : node_ok true true x -> returned x \/ sleeper x \/ exists y, node_step x y.
Proof.
  intros Hx. pose proof (or_inv _ (no_orderly _ _ _ Hx)) as Hinv. pose proof (inv_ring _ Hinv) as Hr.
  assert (Hq : wants_queue (cpu x) -> exists y, node_step x y).
  { intros Hw. destruct (queue_step_some _ Hr Hw) as [p Hp]. eexists. by apply node_queue. }
  destruct (decide (Forall (fun s => s = SWait \/ s = SExit) (services (cpu x)))) as [Hrest|Hrest].
  2:{ apply not_Forall_Exists, Exists_exists in Hrest as (s & [i Hi]%list_elem_of_lookup & Hs); [|apply _]. right. right.
      destruct s; try (by destruct Hs; auto); try (apply Hq; left; eexists _, _; split; [exact Hi|]; by auto).
      eexists. by apply (node_over i cfd 0 0). }
  assert (Hempty : SWait ∈ services (cpu x) -> qcount (pcx (cpu x)) = 0).
  { intros Hin. pose proof (inv_wait _ Hinv Hin) as Hw. rewrite count_absent in Hw; [destruct Hr as (_ & _ & ? & _); lia|].
    intros Hk. rewrite Forall_forall in Hrest. by destruct (Hrest _ Hk). }
  destruct (acc (cpu x)) as [|cfd|cfd|cfd|cfd|] eqn:Ea; try (right; right; apply Hq; right; exists cfd; by auto).
  - right. right. eexists. by apply node_accept_end.
  - exfalso. destruct (services (cpu x)) as [|s l] eqn:E; [by pose proof (no_threads _ _ _ Hx) as H; rewrite E in H; cbn in H; lia|].
    apply Forall_cons in Hrest as [[-> | ->] _].
    + pose proof (inv_full _ Hinv) as Hf. rewrite Ea, Hempty in Hf by left. destruct Hr as (? & _). lia.
    + destruct (or_exit _ (no_orderly _ _ _ Hx)) as [_ He]; [rewrite E; by left|]. by rewrite Ea in He.
  - destruct (decide (SWait ∈ services (cpu x))) as [Hin|Hin]; [right; left|left].
    + split; [done|]. split; [done|]. split; [done|]. split; [auto|]. apply Hx.
    + split; [|done]. apply Forall_forall. intros s Hs. rewrite Forall_forall in Hrest. destruct (Hrest s Hs) as [->|]; done.
Qed.

Lemma returned_done bc x : node_ok true bc x -> returned x -> node_done x.
Proof.
  intros [] [Hs Ha]. assert (Hin : SExit ∈ services (cpu x)).
  { destruct (services (cpu x)) as [|s l]; [by cbn in *; lia|]. apply Forall_cons in Hs as [-> _]. by left. }
  assert (Hb : busy (services (cpu x)) = []).
  { clear -Hs. induction Hs as [|s l -> _ IH]; [done|]. exact IH. }
  rewrite Hb, app_nil_r in no_over0. split; [done|]. split; [done|].
  pose proof (inv_fifo _ (or_inv _ no_orderly0)) as Hf. destruct (or_exit _ no_orderly0 Hin) as [_ Hc]. rewrite Ha in Hc. cbn in Hc.
  pose proof (inv_ring _ (or_inv _ no_orderly0)) as (_ & _ & Hq & _).
  assert (Hlen : Z.of_nat (length (contents (pcx (cpu x)))) = qcount (pcx (cpu x))).
  { unfold contents. rewrite length_map, length_seqZ. lia. }
  assert (Hl : length (over x) = length (served (cpu x))) by (by rewrite no_over0, length_map).
  destruct no_lost0 as [->|((cfd & ->) & _ & _ & H0)]; rewrite Hf; rewrite <-?app_assoc; split.
  - by apply prefix_app_r.
  - rewrite Ha, !length_app. cbn. lia.
  - by apply prefix_app_r.
  - specialize (H0 Hin). rewrite !length_app. cbn. lia.
Qed.

(** ** Proofs: main *)
Definition told (m : phase) (k : nat) : bool :=
  match m with Waiting => false | Broadcasting j => bool_decide (k < j)%nat | _ => true end.

Definition sums (l : list node) (conns reqs tbytes : Z) : Prop :=
  Forall returned l /\ conns = u64 (zsum (map conns_of l)) /\ reqs = u64 (zsum (map reqs_of l)) /\ tbytes = u64 (zsum (map tbytes_of l)).

Record program_ok (s : program) : Prop := mk_program_ok {
  po_nodes : forall k x, nodes s !! k = Some x -> node_ok (signalled s) (told (main_at s) k) x;
  po_signalled : main_at s <> Waiting -> signalled s = true;
  po_main : match main_at s with
    | Waiting => True
    | Broadcasting k => (k <= length (nodes s))%nat
    | Joining k conns reqs tbytes => (k <= length (nodes s))%nat /\ sums (take k (nodes s)) conns reqs tbytes
    | Printed conns reqs tbytes => sums (nodes s) conns reqs tbytes
    end
}.

(** What a CPU and main still have to do. *)
Definition node_work (x : node) : Z :=
  pool_work (cpu x) + (if broadcasted (cpu x) then 0 else 3 * Z.of_nat (length (services (cpu x))) + 1).
Definition main_work (s : program) : Z :=
  let n := Z.of_nat (length (nodes s)) in
  match main_at s with Waiting => n + 4 | Broadcasting _ => n + 3 | Joining k _ _ _ => n - Z.of_nat k + 1 | Printed _ _ _ => 0 end.
Definition work (s : program) : Z := zsum (map node_work (nodes s)) + main_work s.

Lemma sums_snoc l x conns reqs tbytes bc : sums l conns reqs tbytes -> node_ok true bc x -> returned x ->
  sums (l ++ [x]) (u64 (conns + n_conns x)) (u64 (reqs + n_reqs x)) (u64 (tbytes + n_tbytes x)).
Proof.
  intros (Hl & -> & -> & ->) Hx Hr. rewrite (no_conns _ _ _ Hx), (no_reqs _ _ _ Hx), (no_tbytes _ _ _ Hx).
  split; [by apply Forall_app; split; [|constructor]|].
  rewrite !map_app, !zsum_app, !u64_add_u64, !(Z.add_comm _ (u64 _)), !u64_add_u64. cbn.
  repeat split; f_equal; lia.
Qed.

Lemma take_keeps (P : node -> Prop) k i x y l : l !! i = Some x -> ~ P x -> Forall P (take k l) -> take k (<[i := y]> l) = take k l.
Proof.
  intros Hi Hx Hl. rewrite take_insert. destruct (decide _) as [Hk|]; [|done]. destruct Hx.
  apply (Forall_lookup_1 _ _ i _ Hl). by rewrite lookup_take_lt.
Qed.

(** A CPU that is not at its end takes another state, and main is where it was. *)
Lemma program_ok_insert s i x y : program_ok s -> nodes s !! i = Some x -> ~ returned x ->
  node_ok (signalled s) (told (main_at s) i) y -> program_ok (mk_program (<[i := y]> (nodes s)) (signalled s) (main_at s)).
Proof.
  intros [Hn Hs Hm] Hi Hx Hy. split; cbn [nodes signalled main_at]; [|done|].
  - intros k z [(<- & <- & _)|[_ Hz]]%list_lookup_insert_Some; auto.
  - rewrite length_insert. destruct (main_at s) as [|k|k c r b|c r b]; try done.
    + destruct Hm as [Hk Hsum]. split; [done|]. by rewrite (take_keeps returned k i x y) by (try done; apply Hsum).
    + pose proof Hm as [Hret _]. rewrite <-(firstn_all (nodes s)) in Hret. pose proof (take_keeps returned _ i x y _ Hi Hx Hret) as Ht.
      rewrite take_ge in Ht by (rewrite length_insert; lia). rewrite firstn_all in Ht. by rewrite Ht.
Qed.

Lemma work_insert s i x y m : nodes s !! i = Some x -> main_work (mk_program (<[i := y]> (nodes s)) (signalled s) m) <= main_work s ->
  node_work y < node_work x -> work (mk_program (<[i := y]> (nodes s)) (signalled s) m) < work s.
Proof.
  intros Hi Hm Hw. unfold work. cbn [nodes]. change (map node_work (<[i := y]> (nodes s))) with (node_work <$> <[i := y]> (nodes s)).
  rewrite list_fmap_insert, (zsum_insert _ _ _ (node_work x)) by (by rewrite list_lookup_fmap, Hi). change (node_work <$> nodes s) with (map node_work (nodes s)). lia.
Qed.

Lemma work_main s m : main_work (mk_program (nodes s) (signalled s) m) < main_work s -> work (mk_program (nodes s) (signalled s) m) < work s.
Proof. unfold work. cbn [nodes]. lia. Qed.

Lemma node_work_broadcast x : node_ok true false x -> node_work (broadcast x) < node_work x.
Proof.
  intros Hx. unfold node_work, pool_work. cbn [broadcast set_cpu cpu pcx services acc broadcasted]. rewrite (no_broadcasted _ _ _ Hx).
  pose proof (work_wake (services (cpu x))). lia.
Qed.

Lemma node_work_step bc x y : node_ok true bc x -> node_step x y -> node_ok true bc y /\ node_work y < node_work x.
Proof.
  intros Hx Hst. destruct (node_ok_step true bc x y Hx Hst) as (Hy & Hw & Hl). split; [done|]. specialize (Hw eq_refl).
  unfold node_work. rewrite Hl, (no_broadcasted _ _ _ Hy), (no_broadcasted _ _ _ Hx). lia.
Qed.

Lemma program_ok_step s s' : program_ok s -> step s s' -> program_ok s'.
Proof.
  intros Hp Hst. pose proof Hp as [Hn Hs Hm]. destruct Hst as [i x y s Hi Hxy|s Hsig|s Hw Hsig|k x s Hb Hi|s Hb|k c r b x s Hj Hi Hr|c r b s Hj].
  - apply (program_ok_insert s i x); [done|done|by intros Hr; eapply returned_stays|]. by apply (node_ok_step _ _ x y (Hn i x Hi)).
  - assert (main_at s = Waiting) as Hw.
    { destruct (main_at s) eqn:E; [done|rewrite Hs in Hsig by done; done..]. }
    rewrite Hw in *. split; cbn [nodes signalled main_at told]; try done.
    intros k y Hy. apply list_lookup_fmap_Some in Hy as (x & -> & Hx). specialize (Hn k x Hx). rewrite Hsig in Hn. by apply notify_ok.
  - rewrite Hw in *. split; cbn [nodes signalled main_at told] in *; [|done|lia]. intros k x Hx. rewrite bool_decide_false by lia. by apply (Hn k).
  - rewrite Hb in *. pose proof (lookup_lt_Some _ _ _ Hi). assert (Hsig : signalled s = true) by auto. rewrite Hsig in *.
    split; cbn [nodes signalled main_at told] in *; [|done|rewrite length_insert; lia].
    intros j z [(<- & <- & _)|[Hne Hz]]%list_lookup_insert_Some.
    + rewrite bool_decide_true by lia. apply broadcast_ok. specialize (Hn k x Hi). by rewrite bool_decide_false in Hn by lia.
    + specialize (Hn j z Hz). replace (bool_decide (j < S k)%nat) with (bool_decide (j < k)%nat) by (apply bool_decide_ext; lia). done.
  - rewrite Hb in *. assert (Hsig : signalled s = true) by auto.
    split; cbn [nodes signalled main_at told] in *; [|done|split; [lia|by repeat split]].
    intros k x Hx. specialize (Hn k x Hx). rewrite bool_decide_true in Hn by (by eapply lookup_lt_Some). done.
  - rewrite Hj in *. pose proof (lookup_lt_Some _ _ _ Hi). assert (Hsig : signalled s = true) by auto.
    split; cbn [nodes signalled main_at told] in *; [done|done|]. split; [lia|]. rewrite (take_S_r _ _ _ Hi).
    eapply sums_snoc; [apply Hm| |done]. specialize (Hn k x Hi). rewrite Hsig in Hn. exact Hn.
  - rewrite Hj in *. assert (Hsig : signalled s = true) by auto. split; cbn [nodes signalled main_at told] in *; [done|done|]. destruct Hm as [_ Hm]. by rewrite firstn_all in Hm.
Qed.

Lemma program_work_step s s' : program_ok s -> signalled s = true -> step s s' -> signalled s' = true /\ work s' < work s.
Proof.
  intros [Hn Hs Hm] Hsig Hst. destruct Hst as [i x y s Hi Hxy|s Hns|s Hw _|k x s Hb Hi|s Hb|k c r b x s Hj Hi Hr|c r b s Hj];
    (split; [done || congruence|]); try congruence; rewrite ?Hsig in *.
  - rewrite <-Hsig. apply (work_insert s i x); [done|unfold main_work; cbn [nodes main_at]; rewrite length_insert; lia|].
    eapply node_work_step; [by apply Hn|done].
  - rewrite <-Hsig. apply work_main. unfold main_work. cbn [nodes main_at]. rewrite Hw. lia.
  - rewrite <-Hsig. apply (work_insert s k x); [done|unfold main_work; cbn [nodes main_at]; rewrite length_insert, Hb; lia|].
    apply node_work_broadcast. specialize (Hn k x Hi). rewrite Hb in Hn. cbn [told] in Hn. by rewrite bool_decide_false in Hn by lia.
  - rewrite <-Hsig. apply work_main. unfold main_work. cbn [nodes main_at]. rewrite Hb. lia.
  - rewrite <-Hsig. apply work_main. unfold main_work. cbn [nodes main_at]. rewrite Hj. lia.
  - rewrite <-Hsig. apply work_main. unfold main_work. cbn [nodes main_at]. rewrite Hj. lia.
Qed.

Lemma program_ok_stir s s' : program_ok s -> stir s s' -> program_ok s'.
Proof.
  intros Hp Hst. destruct Hst as [i x p s Hi Hsp]. apply (program_ok_insert s i x); [done|done| |].
  - intros [Hx Ha]. destruct Hsp as [j p Hj|cfd p Hj]; [|congruence]. rewrite Forall_lookup in Hx. by specialize (Hx j _ Hj).
  - apply spurious_ok; [|done]. by apply (po_nodes s Hp).
Qed.

Lemma program_ok_start size mems n : 0 < size -> (0 < n)%nat -> Forall (fun mem => Z.of_nat (length mem) = size) mems ->
  program_ok (start size mems n).
Proof.
  intros Hs Hn Hm. split; cbn [start nodes signalled main_at told]; try done.
  intros k x Hx. apply list_lookup_fmap_Some in Hx as (mem & -> & Hk). pose proof (Forall_lookup_1 _ _ _ _ Hm Hk).
  split; cbn; try done; [by apply orderly_pool0|by rewrite length_replicate|by rewrite busy_idle|by left].
Qed.

Lemma work_nonneg s : program_ok s -> 0 <= work s.
Proof.
  intros [Hn _ Hm]. unfold work. assert (0 <= zsum (map node_work (nodes s))).
  { apply zsum_nonneg, Forall_map, Forall_lookup. intros k x Hx. unfold node_work.
    pose proof (pool_work_nonneg _ (or_inv _ (no_orderly _ _ _ (Hn k x Hx)))). destruct (broadcasted (cpu x)); lia. }
  unfold main_work. destruct (main_at s); lia.
Qed.

Lemma program_progress s : program_ok s -> signalled s = true -> (finished s \/ hangs s) \/ exists s', step s s'.
Proof.
  intros [Hn Hs Hm] Hsig. destruct (main_at s) as [|k|k c r b|c r b] eqn:Em.
  - right. eexists. by apply main_wakes.
  - right. destruct (nodes s !! k) as [x|] eqn:Ex; [eexists; by eapply main_broadcasts|].
    apply lookup_ge_None in Ex. eexists. apply main_has_broadcast. rewrite Em. f_equal. lia.
  - destruct (nodes s !! k) as [x|] eqn:Ex.
    + pose proof (Hn k x Ex) as Hx. rewrite Hsig in Hx. destruct (node_progress x Hx) as [Hr|[Hsl|[y Hy]]].
      * right. eexists. by eapply main_joins.
      * left. right. by exists k, c, r, b, x.
      * right. eexists. by eapply threads_run.
    + right. apply lookup_ge_None in Ex. eexists. eapply main_prints. rewrite Em. f_equal. lia.
  - left. left. destruct Hm as (Hr & -> & -> & ->). split; [|done]. apply Forall_lookup. intros k x Hx.
    eapply returned_done; [|by eapply Forall_lookup_1]. specialize (Hn k x Hx). rewrite Hsig in Hn. exact Hn.
Qed.


(** Two CPUs; the first has accepted a connection when the signal comes. *)
Definition demo : program :=
  let x := mk_node (set_acceptor (AReady 5) (pool0 1 [0] 2)) [5] [] 1 0 0 in
  mk_program (map notify [x; node0 1 [0] 2]) true Waiting.

Lemma demo_reach : Steps.reach (fun s s' => step s s' \/ stir s s') (start 1 [[0]; [0]] 2) demo.
Proof.
  set (x := mk_node (set_acceptor (AReady 5) (pool0 1 [0] 2)) [5] [] 1 0 0).
  assert (H1 : step (start 1 [[0]; [0]] 2) (mk_program [x; node0 1 [0] 2] false Waiting))
    by (apply (threads_run 0 _ x (start 1 [[0]; [0]] 2) eq_refl); by apply (node_accept 5)).
  assert (H2 : step (mk_program [x; node0 1 [0] 2] false Waiting) demo) by (by apply sig_int_comes).
  eapply Steps.reach_step; [eapply Steps.reach_step; [apply Steps.reach_start|by left]|by left].
Qed.


(** The second end is reached: the service thread has looked at the empty queue when the
    signal comes, and sleeps after the broadcast. *)
Lemma program_hangs : exists s, Steps.reach step (start 1 [[0]] 1) s /\ hangs s.
Proof.
  set (q := init_per_cpu_ctx 1 [0]).
  set (run := fun sig bc s a m => mk_program [mk_node (mk_pool q sig bc [s] a [] []) [] [] 0 0 0] sig m).
  assert (H : forall sig bc s a s' a' m, node_step (mk_node (mk_pool q sig bc [s] a [] []) [] [] 0 0 0) (mk_node (mk_pool q sig bc [s'] a' [] []) [] [] 0 0 0) ->
    step (run sig bc s a m) (run sig bc s' a' m)).
  { intros sig bc s a s' a' m Hst. by apply (threads_run 0 _ _ (run sig bc s a m) eq_refl). }
  assert (H1 : step (start 1 [[0]] 1) (run false false STested AIdle Waiting)).
  { apply H, (node_queue (mk_pool q false false [STested] AIdle [] [])). apply (step_service 0 SIdle); auto. }
  assert (H2 : step (run false false STested AIdle Waiting) (run true false STested AIdle Waiting)) by (by apply sig_int_comes).
  assert (H3 : step (run true false STested AIdle Waiting) (run true false STested AIdle (Broadcasting 0))) by (by apply main_wakes).
  assert (H4 : step (run true false STested AIdle (Broadcasting 0)) (run true true STested AIdle (Broadcasting 1)))
    by apply (main_broadcasts 0 _ (run true false STested AIdle (Broadcasting 0)) eq_refl eq_refl).
  assert (H5 : step (run true true STested AIdle (Broadcasting 1)) (run true true STested AIdle (Joining 0 0 0 0))) by (by apply main_has_broadcast).
  assert (H6 : step (run true true STested AIdle (Joining 0 0 0 0)) (run true true SWait AIdle (Joining 0 0 0 0))).
  { apply H, (node_queue (mk_pool q true true [SWait] AIdle [] [])). by apply (step_service_sleep 0). }
  assert (H7 : step (run true true SWait AIdle (Joining 0 0 0 0)) (run true true SWait AExit (Joining 0 0 0 0))) by (apply H; by apply node_accept_end).
  exists (run true true SWait AExit (Joining 0 0 0 0)).
  split; [do 7 (eapply Steps.reach_step; [|eassumption]); apply Steps.reach_start|].
  eexists 0%nat, 0, 0, 0, _. split; [done|]. split; [done|]. split; [by left|]. split; [|done]. constructor; [by left|constructor].
Qed.
