(* ===== verification/PoolServer.v ===== *)
(** * thrplhttp.c: setting the server up and shutting it down

    main and the threads it starts, seen by the calls they make (see [Trace]): the
    sockets, the threads of every CPU, the wait for the end and the totals.  What the
    threads call is modelled elsewhere and is one call here: the queue of a CPU in
    [SessionQueue], a session in [ThrPlHttp], the options in [ThrPlHttp] too. *)
From Stdlib Require Import ZArith Lia Bool.
From stdpp Require Import base tactics list strings.
From S2P Require Import Prelude Exits Libc Trace ThrHttp ThrPlHttp.

(** The two kinds of thread, and the counters of a CPU. *)
Inductive role := Service | Acceptor.
Inductive counter := Tbytes | Reqs | Conns.
#[export] Instance role_eq_dec : EqDecision role.
Proof. solve_decision. Defined.

(** The calls.  Their answers are the results of the functions, with these
    exceptions: [Pipe] and [Create] give a descriptor and a thread, or a negative
    number for an error; [Poll] gives a number that is not positive, or one whose bit
    [i + 1] says that the descriptor [i] can be read; [Accept] gives [- errno] for an
    error; [Getspecific] gives the cpu of the context that the thread has set, or a
    negative number for none; [Stopsvr], [Incr_stopsvr], [Count] and [Value] are
    accesses to shared variables. *)
Inductive call :=
| Signal (sig : Z) (handled : bool) | Siginterrupt (sig flag : Z)
| Attr_setstacksize (n : Z) | Pipe | Nprocessors | Report (values : list Z)
| Socket | Getfl (fd : Z) | Setfl (fd flags : Z) | Setsockopt (fd name : Z) | Bind (fd port : Z) | Listen (fd backlog : Z)
| Key_create | Setspecific (cpu : Z) | Getspecific | Setaffinity (cpu : Z)
| Realloc (n : Z) | Vasprintf | Free | Incr_stopsvr | Write (fd n : Z)
| Malloc (n : Z) | Mutex_init (cpu : Z) | Cond_init (cpu : Z)
| Create (r : role) (cpu : Z) | Join (thread : Z) | Broadcast (cpu : Z)
| Poll (fds : list Z) | Accept (fd : Z) | Close (fd : Z)
| Lock (cpu : Z) | Unlock (cpu : Z) | Count (c : counter) (cpu : Z) | Value (c : counter) (cpu : Z) | Stopsvr
| Queue_client_session (cpu cfd : Z) | Dequeue_client_session (cpu : Z) | Process_session (cfd : Z).

Definition SIGINT : Z := 2.
Definition SIGPIPE : Z := 13.
Definition EAGAIN : Z := 11.
Definition O_NONBLOCK : Z := 2048.
Definition SO_REUSEADDR : Z := 2.
Definition SO_LINGER : Z := 13.

(** [sizeof] of a pthread_t, an int and the two structures. *)
Definition PTHREAD_SIZE : Z := 8.
Definition INT_SIZE : Z := 4.
Definition THREAD_CTX_SIZE : Z := 4.
Definition PER_CPU_CTX_SIZE : Z := 256.

Definition pollin (i : Z) (r : Z) : bool := (0 <? r) && Z.testbit r (i + 1).

Section program.
Context {K : Type} `{!Os call K}.

(** A call whose failure ends the program. *)
Definition or_exit (c : call) (bad : Z -> bool) : E K Z := r <~ sys c; if bad r then e_exit 1 else e_ret r.

Definition xpthread_create (r : role) (cpu : Z) : E K Z := or_exit (Create r cpu) (fun r => r <? 0).
Definition xpthread_key_create : E K Z := or_exit Key_create (fun r => negb (r =? 0)).
Definition xpthread_setspecific (cpu : Z) : E K Z := or_exit (Setspecific cpu) (fun r => negb (r =? 0)).
Definition xpthread_mutex_init (cpu : Z) : E K Z := or_exit (Mutex_init cpu) (fun r => negb (r =? 0)).
Definition xpthread_cond_init (cpu : Z) : E K Z := or_exit (Cond_init cpu) (fun r => negb (r =? 0)).
Definition xsched_setaffinity (cpu : Z) : E K Z := or_exit (Setaffinity cpu) (fun r => negb (r =? 0)).
Definition xpipe : E K Z := or_exit Pipe (fun r => r <? 0).
Definition xsocket : E K Z := or_exit Socket (fun r => r =? -1).
Definition xbind (fd port : Z) : E K Z := or_exit (Bind fd port) (fun r => r =? -1).
Definition xmalloc (n : Z) : E K Z := or_exit (Malloc (u64 n)) (fun r => r =? 0).

Definition xrealloc (n : Z) : E K Z := or_exit (Realloc (u64 n)) (fun r => r =? 0).
Definition xvasprintf : E K Z := or_exit Vasprintf (fun r => r <? 0).
Definition xasprintf : E K Z := error <~ xvasprintf; e_ret error.

(** The context of the thread, of which the cpu is all there is, and the macro
    [GET_CPUCTX]: which element of [thcpu_ctx] the thread works with. *)
Definition xget_thread_ctx : E K Z := or_exit Getspecific (fun r => r <? 0).
Definition get_cpuctx : E K Z := cpu <~ xget_thread_ctx; e_ret cpu.
Definition thtls_dtor : E K unit := _ <~ sys Free; e_ret tt.

(** The handler of SIGINT; [sh_pipe] is the end that is written. *)
Definition sig_int (sh_pipe sig : Z) : E K unit :=
  _ <~ sys Incr_stopsvr;
  _ <~ sys (Write sh_pipe INT_SIZE);
  e_ret tt.

(** ** The threads of a CPU *)
Definition setup_thread_ctx (cpu : Z) : E K unit :=
  _ <~ xsched_setaffinity cpu;
  _ <~ xmalloc THREAD_CTX_SIZE;
  _ <~ xpthread_setspecific cpu;
  e_ret tt.

Fixpoint service_loop (fuel : nat) (cpu : Z) : E K unit :=
  match fuel with
  | O => nofuel
  | S fuel =>
    cfd <~ sys (Dequeue_client_session cpu);
    if cfd =? -1 then e_ret tt else
    _ <~ sys (Process_session cfd);
    service_loop fuel cpu
  end.

Definition service_thproc (fuel : nat) (cpu : Z) : E K unit :=
  _ <~ setup_thread_ctx cpu;
  service_loop fuel cpu.

Fixpoint accept_session (fuel : nat) (svrfd sh_pipe : Z) : E K Z :=
  match fuel with
  | O => nofuel
  | S fuel =>
    r <~ sys (Poll [svrfd; sh_pipe]);
    if (r <=? 0) || pollin 1 r then e_ret (-1)
    else if pollin 0 r then
      cfd <~ sys (Accept svrfd);
      if cfd <? 0 then
        if negb (cfd =? - EAGAIN) then e_ret (-1) else accept_session fuel svrfd sh_pipe
      else e_ret cfd
    else accept_session fuel svrfd sh_pipe
  end.

Fixpoint acceptor_loop (fuel : nat) (afuel : nat) (svrfd sh_pipe cpu : Z) : E K unit :=
  match fuel with
  | O => nofuel
  | S fuel =>
    stop <~ sys Stopsvr;
    if negb (stop =? 0) then e_ret tt else
    cfd <~ accept_session afuel svrfd sh_pipe;
    if cfd <? 0 then e_ret tt else
    _ <~ sys (Setsockopt cfd SO_LINGER);
    _ <~ sys (Lock cpu);
    _ <~ sys (Count Conns cpu);
    _ <~ sys (Unlock cpu);
    _ <~ sys (Queue_client_session cpu cfd);
    acceptor_loop fuel afuel svrfd sh_pipe cpu
  end.

Definition acceptor_thproc (fuel afuel : nat) (svrfd sh_pipe cpu : Z) : E K unit :=
  _ <~ setup_thread_ctx cpu;
  acceptor_loop fuel afuel svrfd sh_pipe cpu.

(** ** main *)

(** [threads + i = ...]: the array has room for [n] threads. *)
Definition start_thread (n : Z) (r : role) (cpu : Z) (threads : list Z) : E K (list Z) :=
  if Z.of_nat (length threads) <? n then
    t <~ xpthread_create r cpu;
    e_ret (threads ++ [t])%list
  else e_run fault.

Fixpoint start_services (count : nat) (n cpu : Z) (threads : list Z) : E K (list Z) :=
  match count with
  | O => e_ret threads
  | S count =>
    threads <~ start_thread n Service cpu threads;
    start_services count n cpu threads
  end.

(** The result is the array of threads; its length is [pcx->nthreads]. *)
Definition init_per_cpu_ctx (cpu nthreads qsize : Z) : E K (list Z) :=
  _ <~ xpthread_mutex_init cpu;
  _ <~ xpthread_cond_init cpu;
  _ <~ xpthread_cond_init cpu;
  let n := s32 (nthreads + 1) in
  _ <~ xmalloc (n * PTHREAD_SIZE);
  _ <~ xmalloc (qsize * INT_SIZE);
  threads <~ start_services (Z.to_nat nthreads) n cpu [];
  start_thread n Acceptor cpu threads.

Fixpoint init_cpus (cpus : list Z) (nthreads qsize : Z) : E K (list (Z * list Z)) :=
  match cpus with
  | [] => e_ret []
  | cpu :: cpus =>
    threads <~ init_per_cpu_ctx cpu nthreads qsize;
    rest <~ init_cpus cpus nthreads qsize;
    e_ret ((cpu, threads) :: rest)
  end.

(** Until the handler of the signal has written to the pipe. *)
Fixpoint wait_shutdown (fuel : nat) (sh_pipe : Z) : E K unit :=
  match fuel with
  | O => nofuel
  | S fuel =>
    r <~ sys (Poll [sh_pipe]);
    if pollin 0 r then e_ret tt else wait_shutdown fuel sh_pipe
  end.

(** Joining the threads of the CPUs and adding up what they counted. *)
Fixpoint collect (cpus : list (Z * list Z)) (conns reqs tbytes : Z) : E K (Z * Z * Z) :=
  match cpus with
  | [] => e_ret (conns, reqs, tbytes)
  | (cpu, threads) :: cpus =>
    _ <~ e_for_each threads (fun t => _ <~ sys (Join t); e_ret tt);
    b <~ sys (Value Tbytes cpu);
    r <~ sys (Value Reqs cpu);
    c <~ sys (Value Conns cpu);
    collect cpus (u64 (conns + c)) (u64 (reqs + r)) (u64 (tbytes + b))
  end.

Definition setup_server (port lbklog : Z) : E K Z :=
  svrfd <~ xsocket;
  fl <~ sys (Getfl svrfd);
  _ <~ sys (Setfl svrfd (Z.lor fl O_NONBLOCK));
  _ <~ sys (Setsockopt svrfd SO_REUSEADDR);
  _ <~ sys (Setsockopt svrfd SO_LINGER);
  _ <~ xbind svrfd (htons (u16 port));
  _ <~ sys (Listen svrfd lbklog);
  e_ret svrfd.

Definition setup_signals : E K unit :=
  _ <~ sys (Signal SIGINT true);
  _ <~ sys (Signal SIGPIPE false);
  _ <~ sys (Siginterrupt SIGINT 1);
  e_ret tt.

Definition shutdown (fuel : nat) (sh_pipe svrfd : Z) (cpus : list Z) (all : list (Z * list Z)) : E K Z :=
  _ <~ wait_shutdown fuel sh_pipe;
  _ <~ sys (Close svrfd);
  _ <~ e_for_each cpus (fun cpu => _ <~ sys (Broadcast cpu); e_ret tt);
  totals <~ collect all 0 0 0;
  let '(conns, reqs, tbytes) := totals in
  _ <~ sys (Report [conns; reqs; tbytes]);
  e_ret 0.

Definition main (fuel : nat) (av : list (list Z)) : E K Z :=
  match parse_args av pool_config0 with
  | None => e_ret 1
  | Some c =>
    _ <~ setup_signals;
    _ <~ (if 0 <? stksize (pc_base c) then
            r <~ sys (Attr_setstacksize (u64 (stksize (pc_base c))));
            if negb (r =? 0) then e_exit 2 else e_ret tt
          else e_ret tt);
    sh_pipe <~ xpipe;
    avail <~ sys Nprocessors;
    let cpus := seqZ 0 (num_cpus avail c) in
    _ <~ sys (Report [avail; num_cpus avail c; nthreads c]);
    svrfd <~ setup_server (port (pc_base c)) (lbklog (pc_base c));
    _ <~ xpthread_key_create;
    _ <~ xmalloc (num_cpus avail c * PER_CPU_CTX_SIZE);
    all <~ init_cpus cpus (nthreads c) (qsize c);
    shutdown fuel sh_pipe svrfd cpus all
  end.
End program.

(** ** What a run has done *)
Definition created (t : trace call) : list (role * Z) :=
  omap (fun e => match e with (Create r cpu, h) => if h <? 0 then None else Some (r, cpu) | _ => None end) t.
(** The threads that exist. *)
Definition handles (t : trace call) : list Z :=
  omap (fun e => match e with (Create r cpu, h) => if h <? 0 then None else Some h | _ => None end) t.
Definition joined (t : trace call) : list Z := omap (fun e => match e with (Join h, _) => Some h | _ => None end) t.
Definition broadcasts (t : trace call) : list Z := omap (fun e => match e with (Broadcast cpu, _) => Some cpu | _ => None end) t.

(** What the counters had when main looked at them. *)
Definition counter_eqb (a b : counter) : bool :=
  match a, b with Tbytes, Tbytes | Reqs, Reqs | Conns, Conns => true | _, _ => false end.
Definition values (c : counter) (t : trace call) : list Z :=
  omap (fun e => match e with (Value d _, x) => if counter_eqb c d then Some x else None | _ => None end) t.
Definition total (c : counter) (t : trace call) : Z := u64 (zsum (values c t)).

Definition is_poll (c : call) : bool := match c with Poll _ => true | _ => false end.
Definition polls (t : trace call) : nat := length (omap (fun e => if is_poll e.1 then Some tt else None) t).

(** The threads main is to start. *)
Definition crew (n : nat) (cpu : Z) : list (role * Z) := replicate n (Service, cpu) ++ [(Acceptor, cpu)].

(** What matters of a part of a run. *)
Definition view (t : trace call) : list (role * Z) * list Z * list Z * list Z := (created t, handles t, broadcasts t, joined t).

Lemma view_app t u : view (t ++ u) =
  (created t ++ created u, handles t ++ handles u, broadcasts t ++ broadcasts u, joined t ++ joined u).
Proof. unfold view, created, handles, broadcasts, joined. by rewrite !omap_app. Qed.

Lemma values_app c t u : values c (t ++ u) = (values c t ++ values c u)%list.
Proof. apply omap_app. Qed.

Lemma polls_app t u : polls (t ++ u) = (polls t + polls u)%nat.
Proof. unfold polls. by rewrite omap_app, length_app. Qed.

(** ** Proofs: main *)
Section proofs.
Context (answers : trace call -> call -> Z).
#[local] Instance answers_os : Os call (trace call) := tracing answers.

(** A part of main before the shutdown: if the program does not end in it, it has
    started the threads [new], of which [hs] are the handles, and [P] holds of its
    result and [hs]. *)
Definition starting {A} (new : list (role * Z)) (P : A -> list Z -> Prop) (r : Z + A) (u : trace call) : Prop :=
  match r with
  | inl _ => broadcasts u = [] /\ joined u = []
  | inr a => exists hs, view u = (new, hs, [], []) /\ P a hs
  end.

Lemma adds_starting {A B} t (m : E (trace call) A) (k : A -> E (trace call) B) new1 new2 P P' :
  adds t m (starting new1 P) ->
  (forall a hs t', P a hs -> adds t' (k a) (starting new2 (fun b hs' => P' b (hs ++ hs')%list))) ->
  adds t (e_bind m k) (starting (new1 ++ new2) P').
Proof.
  intros Hm Hk. eapply adds_bind; [exact Hm|done|]. intros a u (hs & [= H1 H2 H3 H4] & HP).
  eapply adds_mono; [by apply Hk|]. intros [code|b] v; cbn [starting].
  - unfold broadcasts, joined in *. by rewrite !omap_app, H3, H4.
  - intros (hs' & [= G1 G2 G3 G4] & HP'). exists (hs ++ hs')%list. by rewrite view_app, H1, H2, H3, H4, G1, G2, G3, G4.
Qed.

(** No thread is started. *)
Definition no_thread {A} : Z + A -> trace call -> Prop := starting [] (fun _ hs => hs = []).

Lemma adds_quiet {A B} t (m : E (trace call) A) (k : A -> E (trace call) B) new P :
  adds t m no_thread -> (forall a t', adds t' (k a) (starting new P)) -> adds t (e_bind m k) (starting new P).
Proof. intros Hm Hk. apply (adds_starting t m k [] new _ _ Hm). by intros a _ t' ->. Qed.

Lemma no_thread_ret {A} t (a : A) : adds t (e_ret a) no_thread.
Proof. apply adds_ret. by exists []. Qed.

Definition is_quiet (c : call) : Prop := forall r, view [(c, r)] = ([], [], [], []).

Lemma sys_quiet t c : is_quiet c -> adds t (sys c) no_thread.
Proof. intros Hc. exists [(c, answers t c)]. split; [done|]. by exists []. Qed.

Lemma or_exit_quiet t c bad : is_quiet c -> adds t (or_exit c bad) no_thread.
Proof.
  intros Hc. apply adds_sys. intros r. specialize (Hc r).
  destruct (bad r); [apply adds_exit; by injection Hc as _ _ ? ?|apply adds_ret; by exists []].
Qed.

(** A step of main that starts no thread. *)
Ltac quiet := apply adds_quiet; [first [by apply or_exit_quiet | by apply sys_quiet]|intros].

(** The array [l] is [threads] with the new threads behind. *)
Definition appended (threads l hs : list Z) : Prop := l = (threads ++ hs)%list.

Lemma start_thread_starts t n r cpu threads : Z.of_nat (length threads) < n ->
  adds t (start_thread n r cpu threads) (starting [(r, cpu)] (fun l hs => length hs = 1%nat /\ appended threads l hs)).
Proof.
  intros Hn. unfold start_thread. rewrite (proj2 (Z.ltb_lt _ _) Hn).
  apply (adds_starting t _ _ [(r, cpu)] [] (fun h hs => hs = [h])).
  - apply adds_sys. intros h. destruct (h <? 0) eqn:E; [by apply adds_exit|apply adds_ret].
    exists [h]. unfold view. cbn. by rewrite E.
  - intros h hs t' ->. apply adds_ret. by exists [].
Qed.

Lemma start_services_starts cpu n count : forall t threads, Z.of_nat (length threads + count) <= n ->
  adds t (start_services count n cpu threads) (starting (replicate count (Service, cpu)) (fun l hs => length hs = count /\ appended threads l hs)).
Proof.
  induction count as [|count IH]; intros t threads Hn; cbn [start_services replicate].
  { apply adds_ret. exists []. unfold appended. by rewrite app_nil_r. }
  change (?a :: ?l) with ([a] ++ l)%list. eapply adds_starting; [apply start_thread_starts; lia|].
  intros l hs t' [H1 ->]. eapply adds_mono; [apply IH; rewrite length_app; lia|].
  intros [code|l] u; [done|]. intros (hs' & Hv & H2 & Hl). exists hs'. split; [done|]. rewrite length_app. unfold appended in *.
  split; [lia|]. by rewrite (assoc_L (++)).
Qed.

Lemma init_per_cpu_ctx_starts t cpu nthreads qsize : 0 <= nthreads < 2 ^ 31 - 1 ->
  adds t (init_per_cpu_ctx cpu nthreads qsize) (starting (crew (Z.to_nat nthreads) cpu) (fun l hs => l = hs)).
Proof.
  intros Hn. unfold init_per_cpu_ctx. do 5 quiet. eapply adds_starting.
  - apply start_services_starts. rewrite s32_small; cbn; lia.
  - intros l hs t2 [Hl ->]. eapply adds_mono; [apply start_thread_starts; rewrite s32_small; cbn; lia|].
    intros [code|l] u; [done|]. intros (hs' & Hv & H2 & ->). by exists hs'.
Qed.

Lemma init_cpus_starts cpus nthreads qsize : 0 <= nthreads < 2 ^ 31 - 1 -> forall t,
  adds t (init_cpus cpus nthreads qsize)
    (starting (concat (map (crew (Z.to_nat nthreads)) cpus)) (fun all hs => map fst all = cpus /\ concat (map snd all) = hs)).
Proof.
  intros Hn. induction cpus as [|cpu cpus IH]; intros t; cbn [init_cpus map concat].
  { apply adds_ret. by exists []. }
  eapply adds_starting; [by apply init_per_cpu_ctx_starts|]. intros threads hs t' ->.
  replace (concat (map (crew (Z.to_nat nthreads)) cpus)) with (concat (map (crew (Z.to_nat nthreads)) cpus) ++ [])%list by apply app_nil_r.
  eapply adds_starting; [apply IH|]. intros rest hs' t'' [H1 H2]. apply adds_ret. exists []. split; [done|].
  rewrite app_nil_r. cbn [map concat fst snd]. by rewrite H1, H2.
Qed.

(** ** Proofs: the end of main *)
Lemma polls_snoc t c r : polls (t ++ [(c, r)]) = (polls t + if is_poll c then 1 else 0)%nat.
Proof. rewrite polls_app. by destruct c. Qed.

(** From the [k]-th poll on the pipe of the handler can be read. *)
Definition stops_main (k : nat) : Prop := forall t fd, (k <= polls t)%nat -> pollin 0 (answers t (Poll [fd])) = true.

(** The last poll saw the pipe readable. *)
Definition stop_seen (u : trace call) : Prop := exists u' fd r, u = (u' ++ [(Poll [fd], r)])%list /\ pollin 0 r = true.

Lemma wait_shutdown_ends k fd fuel : stops_main k -> forall t, (k - polls t < fuel)%nat ->
  adds t (wait_shutdown fuel fd) (fun r u => r = inr tt /\ view u = ([], [], [], []) /\ (forall c, values c u = []) /\ stop_seen u).
Proof.
  intros Hk. induction fuel as [|fuel IH]; intros t Hf; [lia|]. cbn [wait_shutdown]. apply adds_call.
  destruct (pollin 0 (answers t (Poll [fd]))) eqn:E.
  { apply adds_ret. repeat split. by exists [], fd, (answers t (Poll [fd])). }
  eapply adds_mono; [apply IH|].
  - rewrite polls_snoc. cbn [is_poll]. destruct (decide (k <= polls t)%nat) as [Hp|]; [|lia]. by rewrite Hk in E.
  - intros r u (-> & Hv & Hc & u' & fd' & r' & -> & Hr). repeat split; try done.
    by exists ((Poll [fd], answers t (Poll [fd])) :: u'), fd', r'.
Qed.

Lemma for_each_calls {A} (l : list A) (f : A -> call) : forall t,
  adds t (e_for_each l (fun x => _ <~ sys (f x); e_ret tt)) (fun r u => r = inr tt /\ map fst u = map f l).
Proof.
  induction l as [|x l IH]; intros t; cbn [e_for_each map]; [by apply adds_ret|].
  eapply adds_bind with (P := fun r u => r = inr tt /\ map fst u = [f x]).
  - apply adds_sys. intros r. by apply adds_ret.
  - by intros ? ? [? _].
  - intros [] u [_ Hu]. eapply adds_mono; [apply IH|]. intros r v [-> Hv]. split; [done|]. by rewrite map_app, Hu, Hv.
Qed.

(** What a list of joins, or of broadcasts, adds. *)
Lemma joins_view l : forall u, map fst u = map Join l -> view u = ([], [], [], l) /\ forall c, values c u = [].
Proof.
  induction l as [|h l IH]; intros [|[c r] u] Hu; try done. injection Hu as -> Hu.
  destruct (IH u Hu) as [[= H1 H2 H3 H4] Hc]. split; [|exact Hc]. unfold view, created, handles, broadcasts, joined in *. cbn.
  by rewrite H1, H2, H3, H4.
Qed.

Lemma broadcasts_view l : forall u, map fst u = map Broadcast l -> view u = ([], [], l, []) /\ forall c, values c u = [].
Proof.
  induction l as [|h l IH]; intros [|[c r] u] Hu; try done. injection Hu as -> Hu.
  destruct (IH u Hu) as [[= H1 H2 H3 H4] Hc]. split; [|exact Hc]. unfold view, created, handles, broadcasts, joined in *. cbn.
  by rewrite H1, H2, H3, H4.
Qed.

Lemma total_app c u v : values c u = [] -> total c (u ++ v) = total c v.
Proof. intros Hu. unfold total. by rewrite values_app, Hu. Qed.

Lemma total_cons c d cpu x u : total c ((Value d cpu, x) :: u) = if counter_eqb c d then u64 (x + total c u) else total c u.
Proof. unfold total, values. cbn. destruct (counter_eqb c d); [|done]. cbn. unfold u64. by rewrite Zplus_mod_idemp_r. Qed.

Lemma u64_shift a b c : u64 (u64 (a + b) + c) = u64 (a + u64 (b + c)).
Proof. unfold u64. rewrite Zplus_mod_idemp_l, Zplus_mod_idemp_r. f_equal. lia. Qed.

Lemma collect_joins all : forall t conns reqs tbytes, u64 conns = conns -> u64 reqs = reqs -> u64 tbytes = tbytes ->
  adds t (collect all conns reqs tbytes) (fun r u => view u = ([], [], [], concat (map snd all)) /\
    r = inr (u64 (conns + total Conns u), u64 (reqs + total Reqs u), u64 (tbytes + total Tbytes u))).
Proof.
  induction all as [|[cpu threads] all IH]; intros t conns reqs tbytes E1 E2 E3; cbn [collect map concat snd].
  { apply adds_ret. split; [done|]. change (total _ []) with 0. by rewrite !Z.add_0_r, E1, E2, E3. }
  eapply adds_bind; [apply (for_each_calls threads Join)|by intros ? ? [? _]|].
  intros [] u [_ Hu]. apply joins_view in Hu as [[= H1 H2 H3 H4] Hc].
  apply adds_sys. intros b. apply adds_sys. intros q. apply adds_sys. intros c.
  eapply adds_mono; [apply IH; apply u64_small, u64_range|]. intros r v ([= G1 G2 G3 G4] & ->). split.
  - rewrite view_app, H1, H2, H3, H4. unfold created, handles, broadcasts, joined in *. cbn. by rewrite G1, G2, G3, G4.
  - rewrite !(total_app _ u) by apply Hc. rewrite !total_cons. cbn [counter_eqb]. by rewrite !u64_shift.
Qed.

(** How a run of main ends: early, when a call has failed; or when it is stopped.  Then
    the parts of the run are the start, up to the poll that sees the pipe readable; the
    broadcasts to all CPUs; the joins of all threads there are, and the sums. *)
Definition ends (n : nat) (cpus : list Z) (r : Z + Z) (t : trace call) : Prop :=
  match r with
  | inl _ => broadcasts t = [] /\ joined t = []
  | inr r => r = 0 /\ exists t1 t2 t3 x,
      t = (t1 ++ t2 ++ t3 ++ [(Report [total Conns t3; total Reqs t3; total Tbytes t3], x)])%list /\
      stop_seen t1 /\ created t1 = concat (map (crew n) cpus) /\ broadcasts t1 = [] /\ joined t1 = [] /\
      view t2 = ([], [], cpus, []) /\ view t3 = ([], [], [], handles t1)
  end.

Lemma ends_app n cpus r t u : ends n cpus r t -> view u = ([], [], [], []) -> ends n cpus r (u ++ t).
Proof.
  intros Ht [= H1 H2 H3 H4]. destruct r as [code|r].
  - destruct Ht as [E1 E2]. unfold ends, broadcasts, joined in *. by rewrite !omap_app, E1, E2, H3, H4.
  - destruct Ht as (-> & t1 & t2 & t3 & x & -> & (t0 & fd & y & -> & Hy) & Hc & Hb & Hj & E2 & E3).
    split; [done|]. exists (u ++ t0 ++ [(Poll [fd], y)])%list, t2, t3, x. rewrite (assoc_L (++)). split; [done|].
    split; [exists (u ++ t0)%list, fd, y; by rewrite (assoc_L (++))|].
    unfold created, handles, broadcasts, joined in *. rewrite !omap_app in *. by rewrite H1, H2, H3, H4.
Qed.

Lemma adds_before {A} t (m : E (trace call) A) (k : A -> E (trace call) Z) n cpus : adds t m no_thread ->
  (forall a t', adds t' (k a) (ends n cpus)) -> adds t (e_bind m k) (ends n cpus).
Proof.
  intros Hm Hk. eapply adds_bind; [exact Hm|done|]. intros a u (hs & Hu & ->). eapply adds_mono; [apply Hk|].
  intros r v Hv. by apply ends_app.
Qed.

Lemma shutdown_ends k fuel sh svrfd cpus all n t : stops_main k -> (k < fuel)%nat ->
  adds t (shutdown fuel sh svrfd cpus all) (fun r v => forall u, view u = (concat (map (crew n) cpus), concat (map snd all), [], []) ->
    ends n cpus r (u ++ v)).
Proof.
  intros Hk Hf. unfold shutdown. eapply adds_bind; [apply (wait_shutdown_ends k); [done|lia]|by intros ? ? [? _]|].
  intros [] t1 (_ & [= A1 A2 A3 A4] & _ & t0 & fd & y & -> & Hy). apply adds_sys. intros x.
  eapply adds_bind; [apply for_each_calls|by intros ? ? [? _]|].
  intros [] t2 [_ Ht2]. apply broadcasts_view in Ht2 as [Ht2 _].
  eapply adds_bind; [by apply collect_joins|by intros ? ? [_ ?]|].
  intros [[c q] b] t3 (Ht3 & [= -> -> ->]). apply adds_sys. intros z. apply adds_ret.
  intros u [= H1 H2 H3 H4]. split; [done|].
  assert (E : forall d, u64 (0 + total d t3) = total d t3) by (intros d; apply u64_small, u64_range).
  exists (u ++ t0 ++ [(Poll [fd], y)])%list, ((Close svrfd, x) :: t2), t3, z. rewrite !E. split.
  { rewrite <- !(assoc_L (++)). done. }
  split; [exists (u ++ t0)%list, fd, y; by rewrite (assoc_L (++))|].
  injection Ht2 as B1 B2 B3 B4. unfold created, handles, broadcasts, joined in *. rewrite !(omap_app _ u), H1, H2, H3, H4, A1, A2, A3, A4.
  rewrite !app_nil_r. repeat split; try done. unfold view, created, handles, broadcasts, joined. cbn. by rewrite B1, B2, B3, B4.
Qed.

Lemma setup_signals_quiet t : adds t setup_signals no_thread.
Proof. unfold setup_signals. do 3 quiet. apply no_thread_ret. Qed.

Lemma setup_server_quiet t port lbklog : adds t (setup_server port lbklog) no_thread.
Proof. unfold setup_server. do 7 quiet. apply no_thread_ret. Qed.

(** The same for main: its CPUs are those that were counted. *)
Definition main_ends (c : pool_config) (r : Z + Z) (t : trace call) : Prop :=
  match r with
  | inl _ => broadcasts t = [] /\ joined t = []
  | inr _ => exists avail, (Nprocessors, avail) ∈ t /\ ends (Z.to_nat (nthreads c)) (seqZ 0 (num_cpus avail c)) r t
  end.

Lemma adds_main {A} t (m : E (trace call) A) (k : A -> E (trace call) Z) c : adds t m no_thread ->
  (forall a t', adds t' (k a) (main_ends c)) -> adds t (e_bind m k) (main_ends c).
Proof.
  intros Hm Hk. eapply adds_bind; [exact Hm|done|]. intros a u (hs & Hu & ->). eapply adds_mono; [apply Hk|].
  intros [code|r] v.
  - intros Hv. exact (ends_app 0 [] (inl code) v u Hv Hu).
  - intros (avail & Hin & Hv). exists avail. split; [apply elem_of_app; by right|by apply ends_app].
Qed.

Lemma main_adds fuel k av c : parse_args av pool_config0 = Some c -> 0 <= nthreads c < 2 ^ 31 - 1 -> stops_main k -> (k < fuel)%nat ->
  adds [] (main fuel av) (main_ends c).
Proof.
  intros Hp Hn Hk Hf. unfold main. rewrite Hp. apply adds_main; [apply setup_signals_quiet|intros].
  apply adds_main; [|intros].
  { destruct (0 <? _); [|apply no_thread_ret]. quiet. destruct (negb _); [by apply adds_exit|apply no_thread_ret]. }
  apply adds_main; [by apply or_exit_quiet|intros sh t2]. apply adds_sys. intros avail.
  eapply adds_mono with (P := ends (Z.to_nat (nthreads c)) (seqZ 0 (num_cpus avail c))).
  - apply adds_before; [by apply sys_quiet|intros]. apply adds_before; [apply setup_server_quiet|intros].
    do 2 (apply adds_before; [by apply or_exit_quiet|intros]).
    eapply adds_bind; [by apply init_cpus_starts|done|]. intros all u (hs & Hu & [_ <-]).
    eapply adds_mono; [by eapply shutdown_ends|]. intros r v Hv. by apply Hv.
  - intros [code|r] u Hu; [exact Hu|]. exists avail. split; [apply elem_of_cons; by left|].
    by apply (ends_app _ _ _ u [(Nprocessors, avail)]).
Qed.
End proofs.
(** ** Proofs: the threads *)
Section threads.
Context (answers : trace call -> call -> Z).
#[local] Instance threads_os : Os call (trace call) := tracing answers.

Definition accepted (t : trace call) : list Z :=
  omap (fun e => match e with (Accept _, cfd) => if cfd <? 0 then None else Some cfd | _ => None end) t.
Definition queued (t : trace call) : list (Z * Z) :=
  omap (fun e => match e with (Queue_client_session cpu cfd, _) => Some (cpu, cfd) | _ => None end) t.
Definition counted (t : trace call) : list (counter * Z) :=
  omap (fun e => match e with (Count c cpu, _) => Some (c, cpu) | _ => None end) t.
Definition dequeued (t : trace call) : list Z :=
  omap (fun e => match e with (Dequeue_client_session _, cfd) => Some cfd | _ => None end) t.
Definition processed (t : trace call) : list Z :=
  omap (fun e => match e with (Process_session cfd, _) => Some cfd | _ => None end) t.

(** From the [k]-th poll on there is the end of the server to see, or an error. *)
Definition stops_acceptor (k : nat) : Prop :=
  forall t fd fd', (k <= polls t)%nat -> let r := answers t (Poll [fd; fd']) in r <= 0 \/ pollin 1 r = true.

Lemma accept_session_ends k svrfd sh fuel : stops_acceptor k -> forall t, (k - polls t < fuel)%nat ->
  adds t (accept_session fuel svrfd sh) (fun r u => (0 < polls u)%nat /\ queued u = [] /\ counted u = [] /\
    exists cfd, r = inr cfd /\ accepted u = (if cfd <? 0 then [] else [cfd]) /\ (0 <= cfd -> (polls t < k)%nat)).
Proof.
  intros Hk. induction fuel as [|fuel IH]; intros t Hf; [lia|]. cbn [accept_session]. apply adds_call.
  set (r := answers t _). assert (Hstop : (k <= polls t)%nat -> (r <=? 0) || pollin 1 r = true).
  { intros Hp. destruct (Hk t svrfd sh Hp) as [H|H]; fold r in H; [by rewrite (proj2 (Z.leb_le _ _) H)|rewrite H; apply orb_true_r]. }
  clearbody r. destruct ((r <=? 0) || pollin 1 r).
  { apply adds_ret. cbn. split; [lia|]. do 2 (split; [done|]). exists (-1). split; [done|]. by split; [|lia]. }
  assert (Hlt : (polls t < k)%nat) by (destruct (decide (k <= polls t)%nat); [by specialize (Hstop ltac:(done))|lia]).
  destruct (pollin 0 r).
  - apply adds_sys. intros cfd. destruct (Z.ltb_spec cfd 0) as [E%Z.ltb_lt|E].
    + destruct (negb (cfd =? - EAGAIN)).
      { apply adds_ret. unfold polls, accepted, queued, counted. cbn. rewrite E. split; [lia|]. do 2 (split; [done|]).
        exists (-1). split; [done|]. by split; [|lia]. }
      eapply adds_mono; [apply IH; rewrite !polls_snoc; cbn [is_poll]; lia|]. intros x u (Hp & Hq & Hc & cfd' & -> & Ha & _).
      unfold polls, accepted, queued, counted in *. cbn. rewrite E. split; [lia|]. do 2 (split; [done|]). by exists cfd'.
    + apply Z.ltb_ge in E. apply adds_ret. unfold polls, accepted, queued, counted. cbn. rewrite E.
      split; [lia|]. do 2 (split; [done|]). exists cfd. by rewrite E.
  - eapply adds_mono; [apply IH; rewrite !polls_snoc; cbn [is_poll]; lia|]. intros x u (Hp & Hq & Hc & cfd' & -> & Ha & _).
    unfold polls, accepted, queued, counted in *. cbn. split; [lia|]. do 2 (split; [done|]). by exists cfd'.
Qed.

Definition hands_over (cpu : Z) (u : trace call) : Prop :=
  queued u = map (pair cpu) (accepted u) /\ counted u = map (fun _ => (Conns, cpu)) (accepted u).

Lemma hands_over_app cpu u v : hands_over cpu u -> hands_over cpu v -> hands_over cpu (u ++ v).
Proof.
  unfold hands_over, queued, counted, accepted. intros [H1 H2] [G1 G2]. by rewrite !omap_app, !map_app, H1, H2, G1, G2.
Qed.

Lemma acceptor_loop_ends k svrfd sh cpu afuel fuel : stops_acceptor k -> (k < afuel)%nat -> forall t, (k - polls t + 1 < fuel)%nat ->
  adds t (acceptor_loop fuel afuel svrfd sh cpu) (fun r u => r = inr tt /\ hands_over cpu u).
Proof.
  intros Hk Ha. induction fuel as [|fuel IH]; intros t Hf; [lia|]. cbn [acceptor_loop].
  apply adds_sys. intros stop. destruct (negb (stop =? 0)); [by apply adds_ret|].
  eapply adds_bind; [apply (accept_session_ends k); [done|lia]|by intros ? ? (_ & _ & _ & ? & ? & _)|].
  intros cfd u (Hp & Hq & Hc & cfd' & [= <-] & Hac & Hlt). rewrite polls_snoc in Hlt. cbn [is_poll] in Hlt.
  destruct (Z.ltb_spec cfd 0).
  { apply adds_ret. rewrite app_nil_r. split; [done|]. unfold hands_over, queued, counted, accepted in *. cbn. by rewrite Hq, Hc, Hac. }
  do 5 (apply adds_sys; intros ?). eapply adds_mono.
  - apply IH. rewrite !polls_snoc, polls_app, polls_snoc. cbn [is_poll]. specialize (Hlt ltac:(lia)). lia.
  - intros x v [-> Hv]. split; [done|]. cbn [app].
    change (?e :: (u ++ ?e1 :: ?e2 :: ?e3 :: ?e4 :: ?e5 :: v))%list with ([e] ++ u ++ [e1; e2; e3; e4; e5] ++ v)%list.
    apply (hands_over_app cpu [_]); [done|]. rewrite (assoc_L (++)). apply hands_over_app; [|done].
    unfold hands_over, queued, counted, accepted in *. by rewrite !omap_app, Hq, Hc, Hac.
Qed.

(** Nothing that matters for the theorems about the threads. *)
Definition idle (u : trace call) : Prop :=
  accepted u = [] /\ queued u = [] /\ counted u = [] /\ dequeued u = [] /\ processed u = [] /\ polls u = O.

Lemma idle_app u v : idle u -> idle v -> idle (u ++ v).
Proof.
  unfold idle. rewrite polls_app. unfold accepted, queued, counted, dequeued, processed. rewrite !omap_app.
  intros (-> & -> & -> & -> & -> & ->) (-> & -> & -> & -> & -> & ->). done.
Qed.

Definition idle_or_exit {A} (r : Z + A) (u : trace call) : Prop := idle u /\ (r = inl 1 \/ exists a, r = inr a).

Lemma adds_idle {A B} t (m : E (trace call) A) (k : A -> E (trace call) B) Q : adds t m idle_or_exit ->
  (forall u, idle u -> Q (inl 1) u) -> (forall a u, idle u -> adds (t ++ u) (k a) (fun r v => Q r (u ++ v)%list)) -> adds t (e_bind m k) Q.
Proof.
  intros Hm Hx Hk. eapply adds_bind; [exact Hm| |]; cbn; [|by intros a u [Hu _]; apply Hk].
  intros code u [Hu [[= ->]|[? [=]]]]. by apply Hx.
Qed.

Lemma or_exit_idle t c bad : (forall r, idle [(c, r)]) -> adds t (or_exit c bad) idle_or_exit.
Proof.
  intros Hc. apply adds_sys. intros r. destruct (bad r); [apply adds_exit|apply adds_ret]; split; eauto.
Qed.

Lemma setup_thread_ctx_idle t cpu : adds t (setup_thread_ctx cpu) idle_or_exit.
Proof.
  unfold setup_thread_ctx.
  do 3 (apply adds_idle; [by apply or_exit_idle|intros v Hv; split; [by repeat (apply idle_app || done)|by left]|intros ? ? ?]).
  apply adds_ret. split; [|eauto]. by repeat (apply idle_app || done).
Qed.

Lemma acceptor_thproc_ends k svrfd sh cpu afuel fuel : stops_acceptor k -> (k < afuel)%nat -> (k + 1 < fuel)%nat -> forall t,
  adds t (acceptor_thproc fuel afuel svrfd sh cpu) (fun r u => (r = inl 1 /\ accepted u = [] \/ r = inr tt) /\ hands_over cpu u).
Proof.
  intros Hk Ha Hf t. unfold acceptor_thproc. apply adds_idle; [apply setup_thread_ctx_idle| |].
  - intros u (H1 & H2 & H3 & _). unfold hands_over. rewrite H1, H2, H3. by split; [left|].
  - intros _ u (H1 & H2 & H3 & _). eapply adds_mono; [apply (acceptor_loop_ends k); [done..|lia]|].
    intros r v [-> Hv]. split; [by right|]. apply hands_over_app; [|done]. unfold hands_over. by rewrite H1, H2, H3.
Qed.

(** From the [k]-th call on [dequeue_client_session] gives -1. *)
Definition stops_service (k : nat) : Prop :=
  forall t cpu, (k <= length (dequeued t))%nat -> answers t (Dequeue_client_session cpu) = -1.

Lemma service_loop_ends k cpu fuel : stops_service k -> forall t, (k - length (dequeued t) < fuel)%nat ->
  adds t (service_loop fuel cpu) (fun r u => r = inr tt /\ dequeued u = processed u ++ [-1] /\ -1 ∉ processed u)%list.
Proof.
  intros Hk. induction fuel as [|fuel IH]; intros t Hf; [lia|]. cbn [service_loop]. apply adds_call.
  set (cfd := answers t _). destruct (Z.eqb_spec cfd (-1)) as [->|Hne].
  { apply adds_ret. cbn. split; [done|]. split; [done|]. apply not_elem_of_nil. }
  assert (Hlt : (length (dequeued t) < k)%nat) by (destruct (decide (k <= length (dequeued t))%nat) as [Hd|]; [by destruct Hne; apply Hk|lia]).
  apply adds_sys. intros x. eapply adds_mono.
  - apply IH. unfold dequeued in *. rewrite !omap_app, !length_app. cbn. lia.
  - intros r u (-> & Hd & Hp). unfold dequeued, processed in *. cbn. split; [done|]. rewrite Hd. split; [done|].
    apply not_elem_of_cons. by split.
Qed.

Lemma service_thproc_ends k cpu fuel : stops_service k -> (k < fuel)%nat -> forall t,
  adds t (service_thproc fuel cpu) (fun r u => (r = inl 1 /\ dequeued u = [] \/ r = inr tt /\ dequeued u = (processed u ++ [-1])%list) /\ -1 ∉ processed u).
Proof.
  intros Hk Hf t. unfold service_thproc. apply adds_idle; [apply setup_thread_ctx_idle| |].
  - intros u (_ & _ & _ & H1 & H2 & _). rewrite H1, H2. split; [by left|]. apply not_elem_of_nil.
  - intros _ u (_ & _ & _ & H1 & H2 & _). eapply adds_mono; [apply (service_loop_ends k); [done|lia]|].
    intros r v (-> & Hd & Hp). unfold dequeued, processed in *. rewrite !omap_app, H1, H2. cbn [app]. split; [by right|done].
Qed.
End threads.


(** Calls that succeed; a thread is known by the number of calls before it. *)
Definition demo_answers (t : trace call) (c : call) : Z :=
  match c with
  | Nprocessors => 2 | Malloc _ => 4096 | Create _ _ => Z.of_nat (length t) | Poll _ => 7
  | Value Tbytes _ => 2 ^ 63 + 1 | Value _ _ => 5 | Socket => 3 | Pipe => 5
  | Accept _ => 9 | Dequeue_client_session _ => if (2 <=? length (dequeued t))%nat then -1 else 9
  | _ => 0
  end.


(** The run of the witness: it is not one of those that end early. *)
Lemma demo_run : exists t, main (Os0 := tracing demo_answers) 1 (map str ["-T"; "3"]%string) [] = Ok (inr 0, t) /\
  last t = Some (Report [10; 10; 2], 0) /\ length (joined t) = 8%nat.
Proof. eexists. split; [vm_compute; reflexivity|]. by vm_compute. Qed.

(** The context that a thread has set last. *)
Definition thread_specific (t : trace call) : option Z :=
  last (omap (fun e => match e with (Setspecific cpu, 0) => Some cpu | _ => None end) t).

Section context.
Context (answers : trace call -> call -> Z).
#[local] Instance context_os : Os call (trace call) := tracing answers.

(** A call that may end the program, and what it adds. *)
Lemma or_exit_adds c bad t : adds t (or_exit c bad) (fun r u => u = [(c, answers t c)] /\
  r = if bad (answers t c) then inl 1 else inr (answers t c)).
Proof. unfold or_exit. apply adds_call. destruct (bad _); [by apply adds_exit|by apply adds_ret]. Qed.

Lemma setup_thread_ctx_sets t cpu : adds t (setup_thread_ctx cpu) (fun r u => r = inl 1 \/
  r = inr tt /\ thread_specific (t ++ u) = Some cpu).
Proof.
  unfold setup_thread_ctx. eapply adds_bind; [apply or_exit_adds| |].
  { intros code u [_ H]. left. destruct (negb _); congruence. }
  intros a u _. eapply adds_bind; [apply or_exit_adds| |].
  { intros code v [_ H]. left. destruct (_ =? _); congruence. }
  intros b v _. eapply adds_bind; [apply or_exit_adds| |].
  { intros code w [_ H]. left. destruct (negb _); congruence. }
  intros c w [-> H]. apply adds_ret. right. split; [done|].
  destruct (Z.eqb_spec (answers ((t ++ u) ++ v) (Setspecific cpu)) 0) as [E|]; [|done]. rewrite app_nil_r, !(assoc_L (++)).
  unfold thread_specific. rewrite omap_app. rewrite E. cbn [omap list_omap]. by rewrite last_snoc.
Qed.
End context.

(** A thread finds in [GET_CPUCTX] the context of the CPU it was started for, or it has
    ended the program: [setup_thread_ctx] has set it, whatever was done before. *)
Theorem thread_finds_its_cpu answers t cpu : 0 <= cpu ->
  (forall t, answers t Getspecific = default (-1) (thread_specific t)) ->
  let os := tracing answers in
  exists r t', e_bind (setup_thread_ctx (Os0 := os) cpu) (fun _ => get_cpuctx (Os0 := os)) t = Ok (r, t') /\
    (r = inl 1 \/ r = inr cpu).
Proof.
  intros Hcpu Hget os.
  assert (Ha : adds t (e_bind (setup_thread_ctx (Os0 := os) cpu) (fun _ => get_cpuctx (Os0 := os))) (fun r _ => r = inl 1 \/ r = inr cpu)).
  { eapply adds_bind; [apply setup_thread_ctx_sets| |].
    - intros code u [[= ->]|[? _]]; [by left|done].
    - intros [] u [?|[_ Hu]]; [done|]. unfold get_cpuctx, xget_thread_ctx. eapply adds_bind; [apply or_exit_adds| |].
      + intros code v [_ H]. rewrite Hget, Hu in H. cbn in H. rewrite (proj2 (Z.ltb_ge cpu 0)) in H by done. done.
      + intros a v [_ H]. rewrite Hget, Hu in H. cbn in H. rewrite (proj2 (Z.ltb_ge cpu 0)) in H by done.
        injection H as ->. apply adds_ret. by right. }
  unfold adds in Ha. apply wp_run in Ha as (r & t' & Hr & _ & _ & H). by exists r, t'.
Qed.


(** Two sessions, then the end. *)
Definition demo_threads (t : trace call) (c : call) : Z :=
  match c with Poll _ => if (2 <=? polls t)%nat then 5 else 2 | _ => demo_answers t c end.


(** With [-T -1] the array of threads has no room for the acceptor. *)
Lemma no_room_for_acceptor : main (Os0 := tracing demo_answers) 1 (map str ["-T"; "-1"]%string) [] = Fault.
Proof. by vm_compute. Qed.
