(* ===== verification/BinPatch.v ===== *)
(** * binpatch.c: replacing byte strings in a file

    The scan for matches and the copy with the patches, over the contents of the
    input file and a position in it.  An element of [match_buf] that was never
    written is not read in the model: such a read is a fault.  A character and the
    byte it stands for are identified. *)
From Stdlib Require Import ZArith Lia Bool String.
From stdpp Require Import base tactics list.
From S2P Require Import Prelude Libc.

Definition MAX_MATCHES : nat := 32.
Definition BUF_SIZE : nat := 4096.

(** ** Arguments *)
Record options := mk_options {
  in_file_path : option (list Z); out_file_path : option (list Z); dry_run : bool
}.

(** The options, and the arguments behind them. *)
Fixpoint parse_options (av : list (list Z)) (o : options) : options * list (list Z) :=
  match av with
  | [] => (o, [])
  | a :: av' =>
    if streq a (str "-i") then
      match av' with
      | v :: av' => parse_options av' (mk_options (Some v) (out_file_path o) (dry_run o))
      | [] => (o, [])
      end
    else if streq a (str "-o") then
      match av' with
      | v :: av' => parse_options av' (mk_options (in_file_path o) (Some v) (dry_run o))
      | [] => (o, [])
      end
    else if streq a (str "-d") then parse_options av' (mk_options (in_file_path o) (out_file_path o) true)
    else (o, av)
  end.

Definition arg_byte (a : list Z) : Z := u8 (strtol 0 a).1.

(** The bytes to match: up to [--] or the size of the buffer; then what follows. *)
Fixpoint match_bytes (room : nat) (av : list (list Z)) : list Z * list (list Z) :=
  match room, av with
  | S room, a :: av' =>
    if streq a (str "--") then ([], av)
    else let (b, r) := match_bytes room av' in (arg_byte a :: b, r)
  | _, _ => ([], av)
  end.

Definition patch_bytes (av : list (list Z)) : list Z := map arg_byte (take BUF_SIZE av).

(** ** The scan

    [cur] is [matches[match_count]], [found] the entries below it. *)
Fixpoint scan (fuel : nat) (pat data : list Z) (pos match_pos cur : nat) (found : list nat) : res (list nat) :=
  match fuel with
  | O => NoFuel
  | S fuel =>
    if (length found <? MAX_MATCHES)%nat then
      match data !! pos with
      | None => Ok found
      | Some i =>
        match pat !! match_pos with
        | None => Fault
        | Some c =>
          if c =? i then
            let cur := if (match_pos =? 0)%nat then pos else cur in
            if (S match_pos =? length pat)%nat then scan fuel pat data (S pos) 0 cur (found ++ [cur])
            else scan fuel pat data (S pos) (S match_pos) cur found
          else if (0 <? match_pos)%nat then scan fuel pat data (S cur) 0 cur found
          else scan fuel pat data (S pos) 0 cur found
        end
      end
    else Ok found
  end.

(** ** The copy: [todo] are the matches from the [m]th on. *)
Fixpoint patch (fuel : nat) (rep data : list Z) (pos : nat) (todo : list nat) : res (list Z) :=
  match fuel with
  | O => NoFuel
  | S fuel =>
    match data !! pos with
    | None => Ok []
    | Some i =>
      match todo with
      | off :: todo' =>
        if (pos =? off)%nat then
          out ← patch fuel rep data (S pos + length rep - 1) todo'; Ok (rep ++ out)
        else out ← patch fuel rep data (S pos) todo; Ok (i :: out)
      | [] => out ← patch fuel rep data (S pos) []; Ok (i :: out)
      end
    end
  end.

(** ** main

    [files] gives the contents of the input file, [answer] is the character read
    from stdin, [writable] tells whether the output file can be opened.  The result
    is the exit code and what was written, to the file or to stdout. *)
Definition main (fuel : nat) (files : list Z -> option (list Z)) (answer : Z) (writable : bool)
    (av : list (list Z)) : res (Z * option (list Z)) :=
  let (o, av) := parse_options av (mk_options None None false) in
  match in_file_path o with
  | None => Ok (1, None)
  | Some path =>
    let (pat, av) := match_bytes BUF_SIZE av in
    let rep := patch_bytes (tail av) in
    if negb (length pat =? length rep)%nat then Ok (2, None) else
    match files path with
    | None => Ok (3, None)
    | Some data =>
      matches ← scan fuel pat data 0 0 0 [];
      if dry_run o then Ok (0, None) else
      if negb (answer =? 121) then Ok (5, None) else
      if match out_file_path o with Some _ => negb writable | None => false end then Ok (4, None) else
      out ← patch fuel rep data 0 matches;
      Ok (0, Some out)
    end
  end.

(** ** The specification: the first [n] occurrences, from the left, replaced *)
Fixpoint replace_n (n : nat) (pat rep s : list Z) : list Z :=
  match n with
  | O => s
  | S n =>
    match find_sub pat s with
    | None => s
    | Some k => take k s ++ rep ++ replace_n n pat rep (drop (k + length pat) s)
    end
  end.

(** Their places. *)
Fixpoint places (n : nat) (pat s : list Z) (off : nat) : list nat :=
  match n with
  | O => []
  | S n =>
    match find_sub pat s with
    | None => []
    | Some k => (off + k)%nat :: places n pat (drop (k + length pat) s) (off + k + length pat)
    end
  end.

(** ** Proofs *)
Lemma starts_with_take pat s : starts_with pat s = true <-> take (length pat) s = pat.
Proof.
  rewrite starts_with_spec. split.
  - intros [t ->]. by rewrite take_app_length.
  - intros E. exists (drop (length pat) s). rewrite <- E at 1. by rewrite take_drop.
Qed.

Lemma find_sub_skip pat s : starts_with pat s = false -> find_sub pat s = S <$> find_sub pat (tail s).
Proof. destruct s as [|x s]; cbn [find_sub tail]; intros ->; [|done]. by destruct pat. Qed.

Lemma find_sub_short pat s : (length s < length pat)%nat -> find_sub pat s = None.
Proof.
  induction s as [|x s IH]; intros Hl.
  - destruct pat; [cbn in Hl; lia|done].
  - cbn [find_sub]. assert (starts_with pat (x :: s) = false) as ->.
    { apply not_true_iff_false. rewrite starts_with_spec. intros [t E]. rewrite E, length_app in Hl. lia. }
    rewrite IH by (cbn in Hl; lia). done.
Qed.

(** The matches found from the start [st] on. *)
Definition rest_places (n : nat) (pat data : list Z) (st : nat) : list nat := places n pat (drop st data) st.

Lemma rest_places_none n pat data st : find_sub pat (drop st data) = None -> rest_places n pat data st = [].
Proof. unfold rest_places. destruct n; cbn; [done|]. by intros ->. Qed.

Lemma rest_places_skip n pat data st : starts_with pat (drop st data) = false ->
  rest_places n pat data st = rest_places n pat data (S st).
Proof.
  intros Hs. unfold rest_places. destruct n as [|n]; [done|]. cbn [places]. rewrite find_sub_skip by done.
  assert (tail (drop st data) = drop (S st) data) as ->.
  { rewrite <- Nat.add_1_r, <- drop_drop. by destruct (drop st data). }
  destruct (find_sub pat (drop (S st) data)) as [k|]; cbn [fmap option_fmap option_map]; [|done].
  rewrite !drop_drop. f_equal; [lia|]. f_equal; [|lia]. f_equal. lia.
Qed.

Lemma rest_places_hit n pat data st : starts_with pat (drop st data) = true ->
  rest_places (S n) pat data st = st :: rest_places n pat data (st + length pat).
Proof.
  intros Hs. unfold rest_places. cbn [places].
  assert (find_sub pat (drop st data) = Some O) as -> by (destruct (drop st data); cbn [find_sub]; by rewrite Hs).
  rewrite drop_drop, Nat.add_0_r. done.
Qed.

(** The first [k] bytes of [pat] stand at [st]. *)
Definition partial (pat data : list Z) (st k : nat) : Prop := take k (drop st data) = take k pat /\ (st + k <= length data)%nat.

Lemma partial_next pat data st k c : partial pat data st k -> data !! (st + k)%nat = Some c -> pat !! k = Some c ->
  partial pat data st (S k).
Proof.
  intros [Ht Hl] Hd Hp. split.
  - rewrite (take_S_r _ _ c) by (by rewrite lookup_drop). by rewrite (take_S_r _ _ c), Ht.
  - apply lookup_lt_Some in Hd. lia.
Qed.

Lemma partial_stop pat data st k c i : partial pat data st k -> data !! (st + k)%nat = Some i -> pat !! k = Some c ->
  c <> i -> starts_with pat (drop st data) = false.
Proof.
  intros _ Hd Hp Hne. apply not_true_iff_false. rewrite starts_with_spec. intros [t E].
  assert (drop st data !! k = Some i) as Hi by (by rewrite lookup_drop). rewrite E, lookup_app, Hp in Hi. congruence.
Qed.

(** Work left: a step either goes on in a comparison or moves its start. *)
Definition work (pat data : list Z) (st k : nat) : nat :=
  ((length data - st) * S (length pat) + (length pat - k))%nat.

Lemma scan_ok pat data fuel : forall st k cur found,
  pat <> [] -> (k < length pat)%nat -> (0 < k -> cur = st)%nat -> partial pat data st k ->
  (length found <= MAX_MATCHES)%nat -> (work pat data st k + 1 < fuel)%nat ->
  scan fuel pat data (st + k) k cur found =
    Ok (found ++ rest_places (MAX_MATCHES - length found) pat data st).
Proof.
  induction fuel as [|fuel IH]; intros st k cur found Hne Hk Hcur Hpar Hlen Hf; [lia|]. cbn [scan].
  destruct (Nat.ltb_spec (length found) MAX_MATCHES) as [Hlt|Hge].
  2:{ rewrite (proj2 (Nat.sub_0_le _ _)) by lia. unfold rest_places. cbn [places]. by rewrite app_nil_r. }
  destruct (data !! (st + k)%nat) as [i|] eqn:Ei.
  2:{ rewrite rest_places_none; [by rewrite app_nil_r|]. apply find_sub_short.
      apply lookup_ge_None in Ei. rewrite length_drop. lia. }
  destruct (lookup_lt_is_Some_2 pat k Hk) as [c Hc]. rewrite Hc.
  pose proof (lookup_lt_Some _ _ _ Ei) as Hb. unfold work in Hf.
  destruct (Z.eqb_spec c i) as [->|Hci].
  - set (cur' := if (k =? 0)%nat then (st + k)%nat else cur).
    assert (Hcur' : cur' = st) by (unfold cur'; destruct (Nat.eqb_spec k 0); lia). rewrite Hcur'.
    pose proof (partial_next _ _ _ _ _ Hpar Ei Hc) as Hpar'.
    destruct (Nat.eqb_spec (S k) (length pat)) as [Hfull|Hpart].
    + assert (Hsw : starts_with pat (drop st data) = true).
      { apply starts_with_take. rewrite <- Hfull. destruct Hpar' as [-> _]. rewrite Hfull. by apply take_ge. }
      replace (MAX_MATCHES - length found)%nat with (S (MAX_MATCHES - length (found ++ [st])))
        by (rewrite length_app; cbn [length]; lia).
      rewrite rest_places_hit by done. replace (S (st + k)) with (st + length pat + 0)%nat by lia.
      rewrite IH; try done; try lia.
      * by rewrite <- app_assoc.
      * split; [done|]. lia.
      * rewrite length_app. cbn [length]. lia.
      * unfold work. nia.
    + replace (S (st + k)) with (st + S k)%nat by lia. rewrite IH; try done; try lia.
      unfold work. lia.
  - pose proof (partial_stop _ _ _ _ _ _ Hpar Ei Hc Hci) as Hsw. rewrite rest_places_skip by done.
    assert (Hpar' : partial pat data (S st) 0) by (split; [done|lia]).
    assert (Hlp : (0 < length pat)%nat) by lia.
    destruct (Nat.ltb_spec 0 k).
    + rewrite Hcur by done. replace (S st) with (S st + 0)%nat at 1 by lia. apply IH; try done; try lia.
      unfold work. nia.
    + replace (S (st + k)) with (S st + 0)%nat by lia. apply IH; try done; try lia. unfold work. nia.
Qed.

Lemma rest_places_head n pat data st off l : rest_places n pat data st = off :: l -> (st <= off)%nat.
Proof.
  unfold rest_places. destruct n; cbn [places]; [done|]. destruct (find_sub _ _); [|done]. intros [= <- _]. lia.
Qed.

Lemma replace_n_skip n pat rep x s : starts_with pat (x :: s) = false ->
  replace_n n pat rep (x :: s) = x :: replace_n n pat rep s.
Proof.
  intros Hs. destruct n as [|n]; [done|]. cbn [replace_n]. rewrite find_sub_skip by done. cbn [tail].
  by destruct (find_sub pat s).
Qed.

Lemma replace_n_hit n pat rep s : starts_with pat s = true ->
  replace_n (S n) pat rep s = rep ++ replace_n n pat rep (drop (length pat) s).
Proof.
  intros Hs. cbn [replace_n].
  assert (find_sub pat s = Some O) as -> by (destruct s; cbn [find_sub]; by rewrite Hs). done.
Qed.

Lemma rest_places_0 pat data st : rest_places 0 pat data st = [].
Proof. done. Qed.

Lemma patch_ok pat rep data fuel : forall n st,
  pat <> [] -> length rep = length pat -> (length data - st < fuel)%nat ->
  patch fuel rep data st (rest_places n pat data st) = Ok (replace_n n pat rep (drop st data)).
Proof.
  induction fuel as [|fuel IH]; intros n st Hne Hl Hf; [lia|]. cbn [patch].
  destruct (data !! st) as [i|] eqn:Ei.
  2:{ apply lookup_ge_None in Ei. rewrite drop_ge by lia. destruct n; [done|]. cbn [replace_n].
      destruct pat; [done|]. done. }
  pose proof (lookup_lt_Some _ _ _ Ei) as Hb. assert (Hp : (0 < length pat)%nat) by (destruct pat; [done|cbn; lia]).
  assert (Hd : drop st data = i :: drop (S st) data) by (by apply drop_S).
  destruct (starts_with pat (drop st data)) eqn:Hs.
  - destruct n as [|n].
    + rewrite rest_places_0. rewrite <- (rest_places_0 pat data (S st)), IH by (done || lia). cbn [replace_n]. by rewrite Hd.
    + rewrite rest_places_hit, Nat.eqb_refl, replace_n_hit by done.
      replace (S st + length rep - 1)%nat with (st + length pat)%nat by lia.
      rewrite IH by (done || lia). by rewrite drop_drop.
  - rewrite rest_places_skip by done. pose proof (IH n (S st) Hne Hl ltac:(lia)) as IH'.
    assert (Hout : replace_n n pat rep (drop st data) = i :: replace_n n pat rep (drop (S st) data)).
    { rewrite Hd in *. by apply replace_n_skip. }
    rewrite Hout. destruct (rest_places n pat data (S st)) as [|off l] eqn:E.
    + by rewrite IH'.
    + apply rest_places_head in E. rewrite (proj2 (Nat.eqb_neq st off)) by lia. by rewrite IH'.
Qed.

(** C26: For a pattern of at least one byte and a patch of the same length,
    answered with [y], binpatch writes the input with its first 32 occurrences of
    the pattern, found from the left without overlap, replaced by the patch, and
    exits with 0; the naive restart of the scan misses no occurrence. *)
Theorem binpatch_correct files path data out pat_args rep_args :
  let pat := map arg_byte pat_args in
  let rep := map arg_byte rep_args in
  Forall (fun a => streq a (str "--") = false) pat_args ->
  match pat_args with a :: _ => streq a (str "-i") || streq a (str "-o") || streq a (str "-d") = false | [] => False end ->
  length pat_args = length rep_args -> (length pat_args < BUF_SIZE)%nat -> files path = Some data ->
  exists fuel, forall fuel', (fuel <= fuel')%nat ->
    main fuel' files 121 true ([str "-i"; path; str "-o"; out] ++ pat_args ++ [str "--"] ++ rep_args) =
      Ok (0, Some (replace_n MAX_MATCHES pat rep data)).
Proof.
  intros pat rep Hdd Hopt Hlen Hsz Hfile.
  exists (work pat data 0 0 + length data + 2)%nat. intros fuel Hf.
  assert (Ho : parse_options ([str "-i"; path; str "-o"; out] ++ pat_args ++ [str "--"] ++ rep_args)
      (mk_options None None false) = (mk_options (Some path) (Some out) false, pat_args ++ [str "--"] ++ rep_args)).
  { destruct pat_args as [|a l]; [done|].
    destruct (streq a (str "-i")) eqn:E1, (streq a (str "-o")) eqn:E2, (streq a (str "-d")) eqn:E3; try done.
    cbn [app parse_options]. change (streq (str "-i") (str "-i")) with true.
    change (streq (str "-o") (str "-i")) with false. change (streq (str "-o") (str "-o")) with true.
    cbn iota. by rewrite E1, E2, E3. }
  assert (Hm : forall n, (length pat_args < n)%nat ->
    match_bytes n (pat_args ++ [str "--"] ++ rep_args) = (pat, [str "--"] ++ rep_args)).
  { unfold pat. clear - Hdd. induction Hdd as [|a l Ha Hl IH]; intros n Hn.
    - destruct n; [cbn in Hn; lia|]. cbn [app match_bytes map]. by change (streq (str "--") (str "--")) with true.
    - destruct n; [cbn in Hn; lia|]. cbn [app match_bytes map]. rewrite Ha. rewrite IH by (cbn in Hn; lia). done. }
  unfold main. rewrite Ho. cbn [in_file_path dry_run out_file_path]. rewrite Hm by done. cbn [tail app].
  assert (patch_bytes rep_args = rep) as -> by (unfold patch_bytes; by rewrite take_ge by lia).
  assert (Hl : length rep = length pat) by (unfold rep, pat; by rewrite !length_map).
  rewrite Hl, Nat.eqb_refl, Hfile. cbn [negb].
  assert (Hne : pat <> []) by (unfold pat; by destruct pat_args).
  assert (Hp : (0 < length pat)%nat) by (destruct pat; [done|cbn; lia]).
  pose proof (scan_ok pat data fuel 0 0 0 [] Hne Hp ltac:(lia)) as Hscan. cbn [Nat.add length app] in Hscan.
  rewrite Hscan; [|split; [done|lia]|unfold MAX_MATCHES; lia|lia]. rewrite res_bind_ok, Nat.sub_0_r.
  change (121 =? 121) with true. cbn [negb]. rewrite (patch_ok pat) by (done || lia). by rewrite drop_0.
Qed.

Definition demo_files (p : list Z) : option (list Z) := Some (str "aaabaab").

Lemma binpatch_correct_witness : exists fuel, forall fuel', (fuel <= fuel')%nat ->
  main fuel' demo_files 121 true
    ([str "-i"; str "in"; str "-o"; str "out"] ++ [str "97"; str "0x61"; str "98"] ++ [str "--"] ++ [str "120"; str "121"; str "122"]) =
    Ok (0, Some (str "axyzxyz")).
Proof.
  apply (binpatch_correct demo_files (str "in") (str "aaabaab") (str "out") [str "97"; str "0x61"; str "98"] [str "120"; str "121"; str "122"]);
    [repeat constructor|reflexivity|reflexivity|unfold BUF_SIZE; cbn; lia|reflexivity].
Defined.
