(* ===== verification/Econv.v ===== *)
(** * econv.c: from a spooled mail to a mailbox or a UNIX text

    [extract_address] over the string and the size of the block it fills, and main
    over the contents of the files.  The text of [ctime] and what [fwrite] takes are
    arguments. *)
From Stdlib Require Import ZArith Lia Bool String.
From stdpp Require Import base tactics list.
From S2P Require Import Prelude Libc.

Definition MAIL_DATA_TAG : list Z := str "<<MAIL-DATA>>".
Definition MAIL_FROM : list Z := str "MAIL FROM:".

(** Colon, comma, semicolon, angle brackets, white space and quotes. *)
Definition addr_delims : list Z := [58; 44; 59; 60; 62; 32; 9; 13; 10; 34; 39].

(** ** Addresses *)

(** How many bytes from the end of [l], its reverse, belong to the name. *)
Fixpoint run_length (l : list Z) : nat :=
  match l with
  | [] => O
  | c :: l => if mem c addr_delims then O else S (run_length l)
  end.

(** The block [addr] after the call: the bytes stored, the final NUL included. *)
Definition extract_address (s : list Z) (asize : Z) : option (list Z) :=
  match index_of 64 s with
  | None => None
  | Some pat =>
    let base := (pat - run_length (rev (take pat s)))%nat in
    let fin := (pat + 1 + run_length (drop (S pat) s))%nat in
    let alen := Z.of_nat (fin - base) in
    let alen := if asize <? alen then asize - 1 else alen in
    Some (take (Z.to_nat alen) (drop base s) ++ [0])
  end.

(** ** main *)
Record options := mk_options { fnin : option (list Z); fnout : option (list Z); uxmode : bool; mbox : bool }.

Fixpoint parse_options (av : list (list Z)) (o : options) : options :=
  match av with
  | [] => o
  | a :: av =>
    if streq a (str "--input") then
      match av with v :: av => parse_options av (mk_options (Some v) (fnout o) (uxmode o) (mbox o)) | [] => o end
    else if streq a (str "--output") then
      match av with v :: av => parse_options av (mk_options (fnin o) (Some v) (uxmode o) (mbox o)) | [] => o end
    else if streq a (str "--unix") then parse_options av (mk_options (fnin o) (fnout o) true (mbox o))
    else if streq a (str "--mbox") then parse_options av (mk_options (fnin o) (fnout o) (uxmode o) true)
    else parse_options av o
  end.

(** The size of [buffer]. *)
Definition BUFFER : nat := 2048.

(** The lines up to the one of the tag: what follows it, whether the end of the
    file was met and the block [from]. *)
Fixpoint skip_envelope (fuel : nat) (mbox : bool) (data from : list Z) : res (list Z * bool * list Z) :=
  match fuel with
  | O => NoFuel
  | S fuel =>
    match fgets (BUFFER - 1) data with
    | (None, r, e) => Ok (r, e, from)
    | (Some ln, r, e) =>
      let b := cstr ln in
      if strneq (length MAIL_DATA_TAG) b MAIL_DATA_TAG then Ok (r, e, from)
      else
        let from := if mbox && strncaseeq (length MAIL_FROM) b MAIL_FROM
                    then default from (extract_address b 255) else from in
        skip_envelope fuel mbox r from
    end
  end.

(** ** Output

    [accepts out b] is how many bytes of [b] [fwrite] takes behind the output [out];
    the results are the output and whether all was taken. *)
Section output.
Context (accepts : list Z -> list Z -> Z).

Definition fwrite (out b : list Z) : list Z * bool :=
  let n := accepts out b in (out ++ take (Z.to_nat n) b, n =? strlen b).

(** The loop of [fread] and [fwrite]. *)
Fixpoint copy_loop (fuel : nat) (data out : list Z) : res (list Z * bool) :=
  match fuel with
  | O => NoFuel
  | S fuel =>
    let b := take BUFFER data in
    let w := match b with [] => (out, true) | _ => fwrite out b end in
    if negb w.2 then Ok w
    else if (length data <? BUFFER)%nat then Ok w else copy_loop fuel (drop BUFFER data) w.1
  end.

(** One line of the UNIX text. *)
Definition unix_line (b : list Z) : list Z :=
  let i := length b in
  if (2 <=? i)%nat && (at_ b (i - 1) =? LF) && (at_ b (i - 2) =? CR)
  then take (i - 2) b ++ [LF] else b.

Fixpoint unix_loop (fuel : nat) (data out : list Z) : res (list Z * bool) :=
  match fuel with
  | O => NoFuel
  | S fuel =>
    match fgets (BUFFER - 1) data with
    | (None, _, _) => Ok (out, true)
    | (Some ln, r, _) =>
      let b := unix_line (cstr ln) in
      let w := match b with [] => (out, true) | _ => fwrite out b end in
      if negb w.2 then Ok w else unix_loop fuel r w.1
    end
  end.

(** The line of the mailbox. *)
Definition from_line (o : options) (from ctime : list Z) : list Z :=
  str "From " ++ from ++ str " " ++ take (length ctime - 1) ctime ++ (if uxmode o then [LF] else [CR; LF]).

(** The exit code and the output. *)
Definition main (fuel : nat) (ctime : list Z) (files : list Z -> option (list Z)) (stdin_data : list Z)
    (av : list (list Z)) : res (Z * list Z) :=
  let o := parse_options av (mk_options None None false false) in
  let data := default stdin_data (f ← fnin o; files f) in
  r ← skip_envelope fuel (mbox o) data [0];
  let '(data, eof, from) := r in
  if (eof : bool) then Ok (1, [])
  else if mbox o && (strlen (cstr from) =? 0) then Ok (2, [])
  else
    let head := if mbox o then from_line o (cstr from) ctime else [] in
    w ← (if uxmode o then unix_loop fuel data head else copy_loop fuel data head);
    let '(out, ok) := w in
    Ok (if (ok : bool) then 0 else 3, out).
End output.

(** ** Proofs *)
Definition plain (l : list Z) : Prop := Forall (fun c => mem c addr_delims = false) l.

(** [l] is empty or starts with a delimiter. *)
Definition delimited (l : list Z) : Prop :=
  match l with [] => True | c :: _ => mem c addr_delims = true end.

Lemma run_length_app a b : plain a -> delimited b -> run_length (a ++ b) = length a.
Proof.
  intros Ha Hb. induction Ha as [|c a Hc Ha IH]; cbn [app run_length length].
  - destruct b as [|c b]; [done|]. cbn [delimited run_length] in *. by rewrite Hb.
  - by rewrite Hc, IH.
Qed.

Lemma index_of_mid c a b : c ∉ a -> index_of c (a ++ c :: b) = Some (length a).
Proof.
  induction a as [|x a IH]; cbn; [by rewrite Z.eqb_refl|]. rewrite elem_of_cons. intros Hn.
  destruct (Z.eqb_spec x c) as [->|]; [tauto|]. rewrite IH by tauto. done.
Qed.

(** [extract_address] finds the address around the first [@]: the longest
    stretch without delimiters on both sides.  It stores it with a NUL in a block
    of [asize + 1] bytes; an address longer than [asize] is cut to [asize - 1]
    bytes. *)
Theorem extract_address_correct before user host behind asize :
  64 ∉ before ++ user -> plain user -> plain host ->
  delimited (rev before) -> delimited behind -> 0 < asize ->
  let addr := user ++ [64] ++ host in
  let stored := if asize <? strlen addr then take (Z.to_nat (asize - 1)) addr else addr in
  extract_address (before ++ addr ++ behind) asize = Some (stored ++ [0]) /\
  strlen (stored ++ [0]) <= asize + 1.
Proof.
  intros Hat Hu Hh Hb He Hsz addr stored.
  assert (Hs : before ++ addr ++ behind = (before ++ user) ++ 64 :: host ++ behind)
    by (unfold addr; by rewrite <- !app_assoc).
  split.
  - unfold extract_address. rewrite Hs, index_of_mid by done.
    rewrite take_app_length, rev_app_distr, run_length_app by (done || by apply Forall_rev).
    rewrite length_rev, length_app.
    assert (drop (S (length before + length user)) ((before ++ user) ++ 64 :: host ++ behind) = host ++ behind) as ->.
    { rewrite drop_app_ge by (rewrite length_app; lia). rewrite length_app.
      by replace (S (length before + length user) - (length before + length user))%nat with 1%nat by lia. }
    rewrite run_length_app by done.
    replace (length before + length user - length user)%nat with (length before) by lia.
    replace (length before + length user + 1 + length host - length before)%nat with (length addr)
      by (unfold addr; rewrite !length_app; cbn [length]; lia).
    rewrite <- Hs, drop_app_length. do 2 f_equal. unfold stored, strlen.
    destruct (Z.ltb_spec asize (Z.of_nat (length addr))).
    + by rewrite take_app_le by lia.
    + by rewrite Nat2Z.id, take_app_length.
  - unfold stored. rewrite strlen_app. change (strlen [0]) with 1.
    destruct (Z.ltb_spec asize (strlen addr)); [|lia]. unfold strlen. rewrite length_take. lia.
Qed.

Lemma extract_address_correct_witness :
  extract_address (str "MAIL FROM:<" ++ str "joe@host.org" ++ str "> SIZE=1") 255 = Some (str "joe@host.org" ++ [0]) /\
  strlen (str "joe@host.org" ++ [0]) <= 256.
Proof.
  apply (extract_address_correct (str "MAIL FROM:<") (str "joe") (str "host.org") (str "> SIZE=1") 255);
    try reflexivity; try (repeat constructor).
  apply (bool_decide_unpack _). vm_compute. exact I.
Defined.

(** ** Proofs: main *)

(** The lines before the data: no line feed or NUL inside, short enough for the buffer,
    and not the line of the tag. *)
Definition short (l : list Z) : Prop := LF ∉ l /\ 0 ∉ l /\ (length l < 2045)%nat.
Definition envelope (l : list Z) : Prop := short l /\ strneq (length MAIL_DATA_TAG) (l ++ [LF]) MAIL_DATA_TAG = false.
Definition text (ls : list (list Z)) : list Z := concat (map (fun l => l ++ [LF]) ls).

(** The block [from] after some lines: that of the last of them that is the command with
    an address in it. *)
Definition from_block (mbox : bool) (ls : list (list Z)) (from : list Z) : list Z :=
  foldl (fun from l => if mbox && strncaseeq (length MAIL_FROM) (l ++ [LF]) MAIL_FROM
                       then default from (extract_address (l ++ [LF]) 255) else from) from ls.

Lemma cstr_line l : 0 ∉ l -> cstr (l ++ [LF]) = l ++ [LF].
Proof.
  induction l as [|c l IH]; [done|]. rewrite elem_of_cons. intros Hn. cbn [app cstr].
  destruct (Z.eqb_spec c 0) as [->|]; [tauto|]. by rewrite IH by tauto.
Qed.

Lemma text_cons l ls : text (l :: ls) = l ++ LF :: text ls.
Proof. unfold text. cbn. by rewrite <-app_assoc. Qed.

Lemma skip_envelope_run mbox env tag body : Forall envelope env -> short tag ->
  strneq (length MAIL_DATA_TAG) (tag ++ [LF]) MAIL_DATA_TAG = true ->
  forall fuel from, (length env < fuel)%nat ->
  skip_envelope fuel mbox (text env ++ tag ++ LF :: body) from = Ok (body, false, from_block mbox env from).
Proof.
  intros He (Ht1 & Ht2 & Ht3) Htag. induction He as [|l env [(H1 & H2 & H3) Hl] He IH]; intros [|fuel] from Hf;
    cbn [length] in Hf; try lia; cbn [skip_envelope].
  - change (text []) with (@nil Z). cbn [app]. rewrite fgets_line by (done || unfold BUFFER; lia). by rewrite cstr_line, Htag.
  - rewrite text_cons, <-app_assoc. cbn [app]. rewrite fgets_line by (done || unfold BUFFER; lia).
    rewrite cstr_line, Hl by done. apply IH. lia.
Qed.

(** Without the carriage return at its end. *)
Definition unix (l : list Z) : list Z := match last l with Some 13 => removelast l | _ => l end.

Lemma unix_line_unix l : unix_line (l ++ [LF]) = unix l ++ [LF].
Proof.
  unfold unix_line, unix. destruct (decide (l = [])) as [->|Hl]; [done|].
  destruct (exists_last Hl) as (m & c & ->). rewrite last_snoc, !length_app. cbn [length].
  rewrite (proj2 (Nat.leb_le 2 _)) by lia. cbn [andb].
  replace (at_ ((m ++ [c]) ++ [LF]) (length m + 1 + 1 - 1)) with LF.
  2:{ unfold at_. rewrite app_nth2; rewrite length_app; cbn [length]; [|lia]. by replace (length m + 1 + 1 - 1 - (length m + 1))%nat with O by lia. }
  replace (at_ ((m ++ [c]) ++ [LF]) (length m + 1 + 1 - 2)) with c.
  2:{ unfold at_. rewrite app_nth1 by (rewrite length_app; cbn [length]; lia). rewrite app_nth2 by lia.
      by replace (length m + 1 + 1 - 2 - length m)%nat with O by lia. }
  rewrite Z.eqb_refl. cbn [andb]. replace (length m + 1 + 1 - 2)%nat with (length m) by lia.
  rewrite <-app_assoc, take_app_length. change 13 with CR.
  destruct (Z.eqb_spec c CR) as [->|Hc]; [by rewrite removelast_last|]. rewrite app_assoc.
  assert (Hc' : match Some c with Some 13 => removelast (m ++ [c]) | _ => m ++ [c] end = m ++ [c]).
  { destruct c as [|p|p]; try done. repeat (destruct p as [p|p|]; try done). }
  by rewrite Hc'.
Qed.

(** Output that never fails. *)
Definition takes_all (accepts : list Z -> list Z -> Z) : Prop := forall out b, accepts out b = strlen b.

Lemma fwrite_all accepts out b : takes_all accepts -> fwrite accepts out b = (out ++ b, true).
Proof. intros Ha. unfold fwrite. rewrite Ha, Z.eqb_refl. unfold strlen. by rewrite Nat2Z.id, firstn_all. Qed.

Lemma unix_loop_run accepts ls rest : takes_all accepts -> Forall short ls -> short rest ->
  forall fuel out, (length ls + 1 < fuel)%nat ->
  unix_loop accepts fuel (text ls ++ rest) out = Ok (out ++ text (map unix ls) ++ rest, true).
Proof.
  intros Ha Hls (R1 & R2 & R3). induction Hls as [|l ls (H1 & H2 & H3) Hls IH]; intros [|fuel] out Hf; cbn [length] in Hf; try lia; cbn [unix_loop].
  - change (text []) with (@nil Z). cbn [app map]. rewrite fgets_last by (done || unfold BUFFER; lia).
    destruct rest as [|c rest]; [by rewrite app_nil_r|]. set (b := c :: rest) in *.
    assert (Hb : unix_line (cstr b) = b).
    { assert (cstr b = b) as ->.
      { clear -R2. induction b as [|x b IH]; [done|]. rewrite elem_of_cons in R2. cbn. destruct (Z.eqb_spec x 0) as [->|]; [tauto|]. rewrite IH by tauto. done. }
      unfold unix_line. destruct (2 <=? length b)%nat eqn:E; [|done]. cbn [andb].
      rewrite (proj2 (Z.eqb_neq _ LF)); [done|]. intros Hat. apply R1. rewrite <-Hat. unfold at_.
      apply list_elem_of_In, nth_In. apply Nat.leb_le in E. lia. }
    rewrite Hb. unfold b at 1. fold b. rewrite fwrite_all by done. cbn [negb snd fst]. destruct fuel as [|fuel]; [lia|]. done.
  - rewrite text_cons, <-app_assoc. cbn [app]. rewrite fgets_line by (done || unfold BUFFER; lia).
    rewrite cstr_line, unix_line_unix by done.
    destruct (unix l ++ [LF]) as [|c w] eqn:E; [by destruct (unix l)|]. rewrite fwrite_all by done. cbn [negb snd fst].
    rewrite IH by lia. cbn [map]. rewrite text_cons. rewrite <-E, <-!app_assoc. done.
Qed.

Lemma copy_loop_run accepts : takes_all accepts -> forall fuel data out, (length data < fuel)%nat ->
  copy_loop accepts fuel data out = Ok (out ++ data, true).
Proof.
  intros Ha. induction fuel as [|fuel IH]; intros data out Hf; [lia|]. cbn [copy_loop].
  destruct (take BUFFER data) as [|c w] eqn:E.
  - cbn [negb snd fst]. assert (data = []) as -> by (destruct data; [done|]; done). by rewrite app_nil_r.
  - rewrite <-E. rewrite fwrite_all by done. cbn [negb snd fst]. destruct (Nat.ltb_spec (length data) BUFFER) as [Hlt|Hge].
    + by rewrite take_ge by lia.
    + rewrite IH by (rewrite length_drop; unfold BUFFER in *; lia). by rewrite <-app_assoc, take_drop.
Qed.


#[export] Instance short_dec l : Decision (short l).
Proof. unfold short. apply _. Defined.
#[export] Instance envelope_dec l : Decision (envelope l).
Proof. unfold envelope. apply _. Defined.

Definition all_of (out b : list Z) : Z := strlen b.
Definition demo_mail : list Z := concat (map (fun l => l ++ [CR; LF]) [str "MAIL FROM:<joe@host.org>"; str "RCPT TO:<ann@host.org>";
  str "<<MAIL-DATA>>"; str "Subject: x"; str ""]) ++ str "end".


(** A line whose carriage return is the last byte that fits in the buffer keeps it: the
    line feed comes with the next piece. *)
Lemma unix_loop_cut : unix_loop all_of 5 (repeat 97 2045 ++ [CR; LF]) [] = Ok (repeat 97 2045 ++ [CR; LF], true).
Proof. vm_compute. reflexivity. Qed.

(** When the output takes only a part, econv stops there and returns 3. *)
Lemma econv_disk_full : main (fun out b => Z.min (strlen b) (10 - strlen out)) 200 [] (fun _ => None) demo_mail [] = Ok (3, str "Subject: x").
Proof. vm_compute. reflexivity. Qed.
