(* ===== verification/SplitMb.v ===== *)
(** * splitmb.c: splitting a mailbox into one file per message

    The recogniser of address specifications, the [sscanf] of the separator lines,
    and the loop of main over the lines of the mailbox.  The clock, the process id,
    the host name and which files can be opened are arguments. *)
From Stdlib Require Import ZArith Lia Bool String.
From stdpp Require Import base tactics list.
From S2P Require Import Prelude Libc.

(** ** Address specifications *)

(** The characters of the string that [strchr] searches. *)
Definition atext_specials : list Z := str "!#$%&'*+-/=?^_`{|}~".

Definition is_rfc822_atext (c : Z) : bool :=
  isalpha c || isdigit c || mem c (atext_specials ++ [0]).

Fixpoint skip_atext (s : list Z) : list Z :=
  match s with
  | [] => []
  | c :: s' => if is_rfc822_atext c then skip_atext s' else s
  end.

(** What is left of the string [s] up to [top] behind the atoms. *)
Fixpoint dot_atom_loop (fuel : nat) (s : list Z) : res (option (list Z)) :=
  match fuel with
  | O => NoFuel
  | S fuel =>
    let s' := skip_atext s in
    if (length s' =? length s)%nat then Ok None
    else
      match s' with
      | [] => Ok (Some [])
      | c :: s'' => if negb (c =? 46) then Ok (Some s') else dot_atom_loop fuel s''
      end
  end.
Definition is_dot_atom (s : list Z) : res (option (list Z)) := dot_atom_loop (S (length s)) s.

Definition parse_hostname (s : list Z) : res (option (list Z)) := is_dot_atom s.

Definition is_valid_host (s : list Z) : res bool :=
  r ← parse_hostname s;
  match r with None => Ok false | Some eoh => Ok (length eoh =? 0)%nat end.

Definition is_valid_addr_spec (s : list Z) : res bool :=
  r ← is_dot_atom s;
  match r with
  | None => Ok false
  | Some [] => Ok true
  | Some (c :: host) => if negb (c =? 64) then Ok false else is_valid_host host
  end.

(** ** Separator lines *)

(** [%ns] with the white space before it: the word and the rest. *)
Fixpoint word (n : nat) (s : list Z) : list Z * list Z :=
  match n, s with
  | S n, c :: s' => if isspace c then ([], s) else let (w, r) := word n s' in (c :: w, r)
  | _, _ => ([], s)
  end.
Definition scan_s (n : nat) (s : list Z) : option (list Z * list Z) :=
  match word n (skip_spaces s) with
  | ([], _) => None
  | wr => Some wr
  end.

(** [%u] with the white space before it. *)
Definition scan_u (s : list Z) : option (list Z) :=
  match (sign (skip_spaces s)).2 with
  | c :: s' => if isdigit c then Some (digits 10 (c :: s') 0).2 else None
  | [] => None
  end.

(** A character of the format. *)
Definition scan_lit (c : Z) (s : list Z) : option (list Z) :=
  match s with x :: s' => if x =? c then Some s' else None | [] => None end.

(** The address when all eight conversions of
    [From %255s %3s %3s %u %u:%u:%u %u] succeed. *)
Definition scan_separator (ln : list Z) : option (list Z) :=
  s ← scan_lit 70 ln; s ← scan_lit 114 s; s ← scan_lit 111 s; s ← scan_lit 109 s;
  '(addr, s) ← scan_s 255 s;
  '(_, s) ← scan_s 3 s;
  '(_, s) ← scan_s 3 s;
  s ← scan_u s;
  s ← scan_u s; s ← scan_lit 58 s;
  s ← scan_u s; s ← scan_lit 58 s;
  s ← scan_u s;
  s ← scan_u s;
  Some addr.

Definition is_split_msg (ln : list Z) : res bool :=
  match scan_separator ln with
  | None => Ok false
  | Some addr => is_valid_addr_spec addr
  end.

(** ** main *)
Record options := mk_options { ipath : option (list Z); outdir : list Z; add_xfile : bool }.

(** [None] asks for the usage text, which ends the program. *)
Fixpoint parse_options (av : list (list Z)) (o : options) : option options :=
  match av with
  | [] => Some o
  | a :: av =>
    if streq a (str "-d") then
      match av with v :: av => parse_options av (mk_options (ipath o) v (add_xfile o)) | [] => Some o end
    else if streq a (str "-i") then
      match av with v :: av => parse_options av (mk_options (Some v) (outdir o) (add_xfile o)) | [] => Some o end
    else if streq a (str "-X") then parse_options av (mk_options (ipath o) (outdir o) true)
    else None
  end.

Section split.
(** [gettimeofday k] is the time, in seconds and microseconds, at its call number [k];
    [can_open] tells which files can be opened for writing. *)
Context (gettimeofday : nat -> Z * Z) (can_open : list Z -> bool) (pid : Z) (hname : list Z) (o : options).

Definition get_mstime (k : nat) : Z :=
  let tm := gettimeofday k in u64 (u64 (tm.1 * 1000) + Z.quot tm.2 1000).

(** A file that cannot be opened ends the program. *)
Definition xfopen (path : list Z) : Z + unit := if can_open path then inr tt else inl 2.

(** [%llu.%d.%u.%s] *)
Definition msg_name (mstm lnum : Z) : list Z :=
  dec mstm ++ str "." ++ dec lnum ++ str "." ++ dec pid ++ str "." ++ hname.

(** [snprintf(lnbuf, sizeof(lnbuf), ...)] *)
Definition msg_path (mstm lnum : Z) : list Z := take 4095 (outdir o ++ str "/" ++ msg_name mstm lnum).
Definition msg_head (mstm lnum : Z) : list Z :=
  if add_xfile o then str "X-SplitMB-File: " ++ msg_name mstm lnum ++ [LF] else [].

(** The files written, the one being written last. *)
Definition put_line (b : list Z) (files : list (list Z * list Z)) : list (list Z * list Z) :=
  match rev files with
  | [] => []
  | (name, text) :: older => rev older ++ [(name, text ++ b)]
  end.

(** One line of the mailbox: the files then, or an exit code. *)
Definition split_line (lnum : Z) (b : list Z) (files : list (list Z * list Z)) :
    res (Z + list (list Z * list Z)) :=
  split ← (if strneq 5 b (str "From ") then is_split_msg b else Ok false);
  if (split : bool) then
    let mstm := get_mstime (length files) in
    match xfopen (msg_path mstm lnum) with
    | inl code => Ok (inl code)
    | inr _ => Ok (inr (files ++ [(msg_path mstm lnum, msg_head mstm lnum)]))
    end
  else Ok (inr (put_line b files)).

(** The exit code and the files. *)
Fixpoint split_loop (fuel : nat) (lnum : Z) (data : list Z) (files : list (list Z * list Z)) :
    res (Z * list (list Z * list Z)) :=
  match fuel with
  | O => NoFuel
  | S fuel =>
    match fgets 4095 data with
    | (None, _, _) => Ok (0, files)
    | (Some ln, r, _) =>
      f ← split_line lnum (cstr ln) files;
      match f with
      | inl code => Ok (code, files)
      | inr files => split_loop fuel (s32 (lnum + 1)) r files
      end
    end
  end.
End split.

(** The exit code and the files; [inputs] are the files that can be read. *)
Definition main (fuel : nat) (gettimeofday : nat -> Z * Z) (can_open : list Z -> bool) (pid : Z) (hname : list Z)
    (inputs : list Z -> option (list Z)) (stdin_data : list Z) (av : list (list Z)) : res (Z * list (list Z * list Z)) :=
  match parse_options av (mk_options None (str ".") false) with
  | None => Ok (1, [])
  | Some o =>
    match (match ipath o with Some p => inputs p | None => Some stdin_data end) with
    | None => Ok (2, [])
    | Some data => split_loop gettimeofday can_open pid hname o fuel 1 data []
    end
  end.

(** ** Proofs *)
Definition atom (a : list Z) : Prop := a <> [] /\ Forall (fun c => is_rfc822_atext c = true) a.

(** Atoms with dots between them. *)
Inductive dot_atom : list Z -> Prop :=
| dot_atom_one a : atom a -> dot_atom a
| dot_atom_more a l : atom a -> dot_atom l -> dot_atom (a ++ 46 :: l).

(** The string ends here, or goes on with neither an atom nor a dot. *)
Definition stops (r : list Z) : Prop :=
  match r with [] => True | c :: _ => is_rfc822_atext c = false /\ c <> 46 end.

Lemma skip_atext_split s : exists a, s = a ++ skip_atext s /\ Forall (fun c => is_rfc822_atext c = true) a /\
  match skip_atext s with [] => True | c :: _ => is_rfc822_atext c = false end.
Proof.
  induction s as [|c s IH]; cbn [skip_atext]; [by exists []|]. destruct (is_rfc822_atext c) eqn:Hc.
  - destruct IH as (a & Hs & Ha & Hst). exists (c :: a). split; [by rewrite Hs at 1|]. by split; [constructor|].
  - exists []. by rewrite Hc.
Qed.

Lemma skip_atext_app a r : Forall (fun c => is_rfc822_atext c = true) a ->
  match r with [] => True | c :: _ => is_rfc822_atext c = false end -> skip_atext (a ++ r) = r.
Proof.
  intros Ha Hr. induction Ha as [|c a Hc Ha IH]; cbn [app skip_atext]; [|by rewrite Hc].
  destruct r as [|c r]; [done|]. cbn [skip_atext]. by rewrite Hr.
Qed.

Lemma dot_not_atext : is_rfc822_atext 46 = false.
Proof. done. Qed.

Lemma dot_atom_loop_sound fuel : forall s, (length s < fuel)%nat ->
  exists o, dot_atom_loop fuel s = Ok o /\ forall r, o = Some r -> exists d, s = d ++ r /\ dot_atom d /\ stops r.
Proof.
  induction fuel as [|fuel IH]; intros s Hf; [lia|]. cbn [dot_atom_loop].
  destruct (skip_atext_split s) as (a & Hs & Ha & Hst).
  destruct (Nat.eqb_spec (length (skip_atext s)) (length s)) as [Hl|Hl]; [by exists None|].
  assert (Hat : atom a).
  { split; [|done]. intros ->. cbn in Hs. congruence. }
  destruct (skip_atext s) as [|c s'] eqn:E.
  { exists (Some []). split; [done|]. intros r [= <-]. exists a. split; [done|]. by split; [constructor|]. }
  destruct (Z.eqb_spec c 46) as [->|Hc]; cbn [negb].
  - assert (Hls : (length s' < fuel)%nat) by (rewrite Hs, length_app in Hf; cbn [length] in Hf; lia).
    destruct (IH s' Hls) as (o & Ho & Hr). exists o. split; [done|]. intros r ->.
    destruct (Hr r eq_refl) as (d & -> & Hd & Hr'). exists (a ++ 46 :: d).
    split; [by rewrite Hs, <- app_assoc|]. split; [by constructor 2|done].
  - exists (Some (c :: s')). split; [done|]. intros r [= <-]. exists a. split; [done|]. by split; [constructor|].
Qed.

Lemma dot_atom_loop_complete d r : dot_atom d -> stops r -> forall fuel, (length (d ++ r) < fuel)%nat ->
  dot_atom_loop fuel (d ++ r) = Ok (Some r).
Proof.
  intros Hd Hr. induction Hd as [a [Hne Ha]|a l [Hne Ha] Hl IH]; intros [|fuel] Hf; try lia; cbn [dot_atom_loop].
  - rewrite skip_atext_app; [|done|by destruct r; [|destruct Hr]].
    assert ((length r =? length (a ++ r))%nat = false) as ->.
    { apply Nat.eqb_neq. rewrite length_app. destruct a; [done|]. cbn [length]. lia. }
    destruct r as [|c r]; [done|]. destruct Hr as [_ Hc]. by rewrite (proj2 (Z.eqb_neq c 46) Hc).
  - rewrite <- app_assoc. cbn [app]. rewrite skip_atext_app by done.
    assert (((length (46%Z :: l ++ r) =? length (a ++ 46%Z :: l ++ r))%nat) = false) as ->.
    { apply Nat.eqb_neq. rewrite length_app. destruct a; [done|]. cbn [length]. lia. }
    cbn [negb Z.eqb Pos.eqb]. apply IH. rewrite <- app_assoc in Hf. rewrite length_app in Hf. cbn [app length] in Hf. lia.
Qed.

Lemma dot_atom_nonempty d : dot_atom d -> d <> [].
Proof. destruct 1 as [a [? ?]|a l [? ?]]; [done|]. by destruct a. Qed.

Lemma at_not_atext : is_rfc822_atext 64 = false.
Proof. done. Qed.

Lemma is_dot_atom_total s : exists o, is_dot_atom s = Ok o.
Proof. destruct (dot_atom_loop_sound (S (length s)) s ltac:(lia)) as (o & Ho & _). by exists o. Qed.

Lemma is_split_msg_total b : exists r, is_split_msg b = Ok r.
Proof.
  unfold is_split_msg. destruct (scan_separator b) as [a|]; [|by eexists]. unfold is_valid_addr_spec.
  destruct (is_dot_atom_total a) as [[[|c host]|] ->]; rewrite res_bind_ok; try by eexists.
  destruct (negb (c =? 64)); [by eexists|]. unfold is_valid_host, parse_hostname.
  destruct (is_dot_atom_total host) as [[eoh|] ->]; rewrite res_bind_ok; by eexists.
Qed.

(** C32: [is_valid_addr_spec] returns on every string and accepts exactly the
    addresses made of atoms with dots between them, alone or with an [@] and a host
    of the same form behind them. *)
Theorem is_valid_addr_spec_correct s : exists b, is_valid_addr_spec s = Ok b /\
  (b = true <-> dot_atom s \/ exists user host, s = user ++ 64 :: host /\ dot_atom user /\ dot_atom host).
Proof.
  assert (Hscan : forall s, exists o, is_dot_atom s = Ok o /\
    (forall r, o = Some r -> exists d, s = d ++ r /\ dot_atom d /\ stops r) /\
    (forall d r, s = d ++ r -> dot_atom d -> stops r -> o = Some r)).
  { clear s. intros s. destruct (dot_atom_loop_sound (S (length s)) s ltac:(lia)) as (o & Ho & Hr).
    exists o. split; [done|]. split; [done|]. intros d r Hs Hd Hst.
    pose proof (dot_atom_loop_complete d r Hd Hst (S (length s))) as Hc. rewrite <- Hs in Hc.
    rewrite Hc in Ho by lia. congruence. }
  unfold is_valid_addr_spec. destruct (Hscan s) as (o & -> & Hsound & Hcomp). rewrite res_bind_ok.
  assert (Hsplit : forall user host, s = user ++ 64 :: host -> dot_atom user -> o = Some (64 :: host))
    by (intros; by eapply Hcomp).
  destruct o as [[|c host]|].
  - exists true. split; [done|]. split; [|done]. intros _. left. destruct (Hsound [] eq_refl) as (d & -> & Hd & _).
    by rewrite app_nil_r.
  - destruct (Hsound _ eq_refl) as (d & -> & Hd & Hst).
    assert (Hna : ~ dot_atom (d ++ c :: host)).
    { intros Ha. pose proof (Hcomp _ [] (eq_sym (app_nil_r _)) Ha I) as [=]. }
    destruct (Z.eqb_spec c 64) as [->|Hc]; cbn [negb].
    + unfold is_valid_host, parse_hostname. destruct (Hscan host) as (o & -> & Hs2 & Hc2). rewrite res_bind_ok.
      destruct o as [eoh|]; (eexists; split; [done|]); split.
      * intros He. destruct eoh; [|done]. destruct (Hs2 [] eq_refl) as (h & -> & Hh & _). rewrite app_nil_r in *.
        right. by exists d, h.
      * intros [?|(u & h & He & Hu & Hh)]; [done|]. pose proof (Hsplit u h He Hu) as [= ->].
        pose proof (Hc2 h [] (eq_sym (app_nil_r _)) Hh I) as [= ->]. done.
      * done.
      * intros [?|(u & h & He & Hu & Hh)]; [done|]. pose proof (Hsplit u h He Hu) as [= ->].
        by pose proof (Hc2 h [] (eq_sym (app_nil_r _)) Hh I).
    + exists false. split; [done|]. split; [done|]. intros [?|(u & h & He & Hu & Hh)]; [done|].
      by pose proof (Hsplit u h He Hu) as [= -> ->].
  - exists false. split; [done|]. split; [done|]. intros [Ha|(u & h & He & Hu & Hh)].
    + by pose proof (Hcomp _ [] (eq_sym (app_nil_r _)) Ha I).
    + by pose proof (Hsplit u h He Hu).
Qed.

Example is_split_msg_ex : is_split_msg (str "From joe@host.org Mon Jan  2 10:20:30 2006") = Ok true.
Proof. reflexivity. Qed.

(** ** Proofs: the messages *)

(** The lines that separate messages. *)
Definition is_sep (b : list Z) : bool :=
  strneq 5 b (str "From ") && match is_split_msg b with Ok r => r | _ => false end.

Lemma is_sep_ok b : (if strneq 5 b (str "From ") then is_split_msg b else Ok false) = Ok (is_sep b).
Proof. unfold is_sep. destruct (strneq _ _ _); [|done]. by destruct (is_split_msg_total b) as [r ->]. Qed.

(** What [fgets] gives, line by line, up to the first NUL of each. *)
Fixpoint fgets_lines (fuel : nat) (data : list Z) : list (list Z) :=
  match fuel with
  | O => []
  | S fuel => match fgets 4095 data with (Some ln, r, _) => cstr ln :: fgets_lines fuel r | _ => [] end
  end.
Definition lines (data : list Z) : list (list Z) := fgets_lines (S (length data)) data.

(** A message is its separator and the lines behind it. *)
Definition message : Type := list Z * list (list Z).
Definition whole (m : message) : list (list Z) := m.1 :: m.2.
Definition is_message (m : message) : Prop := is_sep m.1 = true /\ Forall (fun b => is_sep b = false) m.2.

Lemma lines_messages ls : exists pre msgs, ls = pre ++ concat (map whole msgs) /\
  Forall (fun b => is_sep b = false) pre /\ Forall is_message msgs.
Proof.
  induction ls as [|b ls (pre & msgs & -> & Hp & Hm)]; [by exists [], []|]. destruct (is_sep b) eqn:E.
  - exists [], ((b, pre) :: msgs). split; [done|]. split; [done|]. by constructor.
  - exists (b :: pre), msgs. split; [done|]. split; [by constructor|done].
Qed.

Section split_proofs.
Context (gettimeofday : nat -> Z * Z) (can_open : list Z -> bool) (pid : Z) (hname : list Z) (o : options).
Abbreviation line := (split_line gettimeofday can_open pid hname o).
Abbreviation loop := (split_loop gettimeofday can_open pid hname o).
Abbreviation path k lnum := (msg_path pid hname o (get_mstime gettimeofday k) lnum).
Abbreviation head k lnum := (msg_head pid hname o (get_mstime gettimeofday k) lnum).

(** The file of each message: its path, and its lines behind the header. *)
Fixpoint out_files (k : nat) (lnum : Z) (msgs : list message) : list (list Z * list Z) :=
  match msgs with
  | [] => []
  | m :: msgs => (path k lnum, head k lnum ++ concat m.2) :: out_files (S k) (lnum + 1 + Z.of_nat (length m.2)) msgs
  end.

(** The files up to the first that cannot be opened, and the exit code. *)
Fixpoint opened (files : list (list Z * list Z)) : Z * list (list Z * list Z) :=
  match files with
  | [] => (0, [])
  | f :: files => if can_open f.1 then let r := opened files in (r.1, f :: r.2) else (2, [])
  end.

(** The loop, on the lines. *)
Fixpoint lines_loop (ls : list (list Z)) (lnum : Z) (files : list (list Z * list Z)) : res (Z * list (list Z * list Z)) :=
  match ls with
  | [] => Ok (0, files)
  | b :: ls =>
    f ← line lnum b files;
    match f with inl code => Ok (code, files) | inr files => lines_loop ls (s32 (lnum + 1)) files end
  end.

Lemma loop_lines fuel : forall fuel' data lnum files, (length data < fuel)%nat -> (length data < fuel')%nat ->
  loop fuel lnum data files = lines_loop (fgets_lines fuel' data) lnum files.
Proof.
  induction fuel as [|fuel IH]; intros fuel' data lnum files Hf Hf'; [lia|]. destruct fuel' as [|fuel']; [lia|].
  cbn [split_loop fgets_lines]. destruct (fgets 4095 data) as [[[ln|] r] e] eqn:E; [|done]. cbn [lines_loop].
  apply fgets_shorter in E. destruct (line lnum (cstr ln) files) as [[code|files']| |]; [done| |done..].
  rewrite !res_bind_ok. apply IH; lia.
Qed.

Lemma lines_loop_pre pre ls : Forall (fun b => is_sep b = false) pre -> forall lnum, 1 <= lnum -> lnum + Z.of_nat (length pre) < 2 ^ 31 ->
  lines_loop (pre ++ ls) lnum [] = lines_loop ls (lnum + Z.of_nat (length pre)) [].
Proof.
  induction 1 as [|b pre Hb Hp IH]; intros lnum H1 Hl; cbn [length] in *; [by rewrite Z.add_0_r|].
  cbn [app lines_loop]. unfold split_line. rewrite is_sep_ok, Hb, !res_bind_ok. cbn [put_line rev].
  rewrite s32_small, IH by lia. f_equal. lia.
Qed.

Lemma lines_loop_body body ls older name : Forall (fun b => is_sep b = false) body ->
  forall text lnum, 1 <= lnum -> lnum + Z.of_nat (length body) < 2 ^ 31 ->
  lines_loop (body ++ ls) lnum (older ++ [(name, text)]) =
    lines_loop ls (lnum + Z.of_nat (length body)) (older ++ [(name, text ++ concat body)]).
Proof.
  induction 1 as [|b body Hb Hp IH]; intros text lnum H1 Hl; cbn [length concat] in *; [by rewrite Z.add_0_r, app_nil_r|].
  cbn [app lines_loop]. unfold split_line. rewrite is_sep_ok, Hb, !res_bind_ok.
  unfold put_line. rewrite rev_app_distr. cbn [rev app]. rewrite rev_involutive.
  rewrite s32_small, IH by lia. rewrite app_assoc. f_equal. lia.
Qed.

Lemma lines_loop_messages msgs : Forall is_message msgs -> forall files lnum, 1 <= lnum ->
  lnum + Z.of_nat (length (concat (map whole msgs))) < 2 ^ 31 ->
  let r := opened (out_files (length files) lnum msgs) in
  lines_loop (concat (map whole msgs)) lnum files = Ok (r.1, files ++ r.2).
Proof.
  induction 1 as [|m msgs [Hs Hb] Hm IH]; intros files lnum H1 Hl; [cbn; by rewrite app_nil_r|].
  cbn [map concat whole app lines_loop out_files opened fst snd] in *. cbn [length] in Hl. rewrite length_app in Hl.
  unfold split_line. rewrite is_sep_ok, Hs, res_bind_ok. cbn iota. unfold xfopen.
  destruct (can_open _); rewrite res_bind_ok; [|by rewrite app_nil_r].
  rewrite s32_small, lines_loop_body by (done || lia). rewrite IH by lia. cbn [fst snd].
  rewrite length_app. cbn [length]. rewrite Nat.add_1_r, <-app_assoc. done.
Qed.
End split_proofs.

(** C17: splitmb cuts the mailbox at its separator lines and loses nothing else: the
    lines of the input are a part without separators, which is skipped, and messages,
    each a separator line and lines that are none; every message becomes a file of its
    own, in order, with exactly the lines behind the separator, after the header if
    one is asked for, under the name made of the time, the line number, the process
    and the host.  A file that cannot be opened ends the program with 2, with the
    files of the messages before it complete. *)
Theorem splitmb_messages gettimeofday can_open pid hname inputs stdin_data av o data fuel :
  parse_options av (mk_options None (str ".") false) = Some o ->
  match ipath o with Some p => inputs p | None => Some stdin_data end = Some data ->
  Z.of_nat (length (lines data)) + 1 < 2 ^ 31 -> (length data < fuel)%nat ->
  exists pre msgs, lines data = pre ++ concat (map whole msgs) /\
    Forall (fun b => is_sep b = false) pre /\ Forall is_message msgs /\
    main fuel gettimeofday can_open pid hname inputs stdin_data av =
      Ok (opened can_open (out_files gettimeofday pid hname o 0 (1 + Z.of_nat (length pre)) msgs)).
Proof.
  intros Ho Hd Hl Hf. destruct (lines_messages (lines data)) as (pre & msgs & Hls & Hp & Hm).
  exists pre, msgs. split; [done|]. split; [done|]. split; [done|]. unfold main. rewrite Ho, Hd.
  rewrite (loop_lines _ _ _ _ _ _ (S (length data))) by lia. fold (lines data). rewrite Hls in *. rewrite length_app in Hl.
  rewrite lines_loop_pre by (done || lia). rewrite lines_loop_messages by (done || lia).
  cbn [length app]. by destruct (opened _ _).
Qed.

(** Two messages behind a line that belongs to none; the second file cannot be opened. *)
Definition demo_mbox : list Z := concat (map (fun l => l ++ [LF]) [str "stray";
  str "From joe@host.org Mon Jan  2 10:20:30 2006"; str "Subject: a"; str "From here on";
  str "From ann Tue Jan  3 00:00:00 2006"; str "x"]).
Definition demo_time (k : nat) : Z * Z := (1000 + Z.of_nat k, 5999).

Lemma splitmb_messages_witness : exists pre msgs, lines demo_mbox = pre ++ concat (map whole msgs) /\
  Forall (fun b => is_sep b = false) pre /\ Forall is_message msgs /\
  main 200 demo_time (fun p => negb (streq p (str "out/1001005.5.7.h"))) 7 (str "h") (fun _ => None) demo_mbox [str "-d"; str "out"; str "-X"] =
    Ok (opened (fun p => negb (streq p (str "out/1001005.5.7.h")))
      (out_files demo_time 7 (str "h") (mk_options None (str "out") true) 0 (1 + Z.of_nat (length pre)) msgs)).
Proof.
  apply (splitmb_messages demo_time _ 7 (str "h") (fun _ => None) demo_mbox _ (mk_options None (str "out") true) demo_mbox).
  - vm_compute. reflexivity.
  - reflexivity.
  - vm_compute. reflexivity.
  - vm_compute. lia.
Defined.

Example splitmb_demo : main 200 demo_time (fun p => negb (streq p (str "out/1001005.5.7.h"))) 7 (str "h") (fun _ => None) demo_mbox [str "-d"; str "out"; str "-X"] =
  Ok (2, [(str "out/1000005.2.7.h", str "X-SplitMB-File: 1000005.2.7.h" ++ [LF] ++ str "Subject: a" ++ [LF] ++ str "From here on" ++ [LF])]).
Proof. vm_compute. reflexivity. Qed.
