(* ===== verification/SymLookup.v ===== *)
(** * nma2n.c and ka2n.c: from addresses to symbols

    Both programs read a list of symbols line by line and keep the one with the
    greatest address that is not above the one asked for.  The options that getopt
    returns are an argument. *)
From Stdlib Require Import ZArith Lia Bool String.
From stdpp Require Import base tactics list.
From S2P Require Import Prelude Libc.

Definition LN : nat := 1024.

(** [%llx] *)
Fixpoint hex_loop (fuel : nat) (n : Z) (acc : list Z) : list Z :=
  match fuel with
  | O => acc
  | S fuel =>
    let acc := hex_digit (n mod 16) :: acc in
    if n / 16 =? 0 then acc else hex_loop fuel (n / 16) acc
  end.
Definition hex (n : Z) : list Z := hex_loop 16 n [].

(** The better of the symbol kept and a new one. *)
Definition better (addr caddr : Z) (csym : list Z) (best : Z * list Z) : Z * list Z :=
  if (caddr <=? addr) && (best.1 <? caddr) then (caddr, csym) else best.

Module nma2n.

Definition SYMOUT_NO_OFFSET : Z := 1.

Definition blanks : list Z := [32; 9; CR; LF].

(** The address and the name on a line of nm. *)
Definition parse_line (ln : list Z) : option (Z * list Z) :=
  if negb (isxdigit (at_ ln 0)) then None else
  '(taddr, r) ← strtok_r blanks ln;
  '(ttype, r) ← strtok_r blanks r;
  '(tsym, _) ← strtok_r [9; CR; LF] r;
  Some ((strtoull 16 taddr).1, tsym).

(** What [csym] then holds. *)
Definition symbol_text (n : nat) (flags addr caddr : Z) (tsym : list Z) : list Z :=
  take (n - 1)
    (if negb (Z.land flags SYMOUT_NO_OFFSET =? 0) then tsym
     else tsym ++ str " (+ " ++ dec (u64 (addr - caddr)) ++ str ")").

Fixpoint find_loop (fuel : nat) (n : nat) (flags addr : Z) (data : list Z) (best : Z * list Z) : res (Z * list Z) :=
  match fuel with
  | O => NoFuel
  | S fuel =>
    match fgets LN data with
    | (None, _, _) => Ok best
    | (Some ln, r, _) =>
      match parse_line (cstr ln) with
      | None => find_loop fuel n flags addr r best
      | Some (caddr, tsym) =>
        find_loop fuel n flags addr r (better addr caddr (symbol_text n flags addr caddr tsym) best)
      end
    end
  end.

(** The symbol kept in [csym], when there is one. *)
Definition find_symbol (fuel : nat) (data : list Z) (addr : Z) (n : nat) (flags : Z) : res (option (list Z)) :=
  best ← find_loop fuel n flags addr data (0, []);
  Ok (if negb (best.1 =? 0) then Some best.2 else None).

Record options := mk_options { nmfile : option (list Z); diff : Z; flags : Z }.

(** One result of getopt; [None] ends the program with the usage text. *)
Definition main_option (opt : Z * list Z) (o : options) : option options :=
  let (c, optarg) := opt in
  if c =? 102 then Some (mk_options (Some optarg) (diff o) (flags o))
  else if c =? 100 then Some (mk_options (nmfile o) (strtol 16 optarg).1 (flags o))
  else if c =? 79 then Some (mk_options (nmfile o) (diff o) (Z.lor (flags o) SYMOUT_NO_OFFSET))
  else if (c =? 63) || (c =? 104) then None
  else Some o.

Fixpoint main_options (opts : list (Z * list Z)) (o : options) : option options :=
  match opts with
  | [] => Some o
  | opt :: opts => o ← main_option opt o; main_options opts o
  end.

Fixpoint main_loop (fuel : nat) (data : list Z) (o : options) (args : list (list Z)) : res (list Z) :=
  match args with
  | [] => Ok []
  | a :: args =>
    let addr := u64 ((strtoull 16 a).1 + diff o) in
    sym ← find_symbol fuel data addr 512 (flags o);
    out ← main_loop fuel data o args;
    Ok (str "0x" ++ hex addr ++ [9] ++ default (str "????") sym ++ [LF] ++ out)
  end.

(** The exit code and the output. *)
Definition main (fuel : nat) (files : list Z -> option (list Z)) (opts : list (Z * list Z)) (args : list (list Z)) :
    res (Z * list Z) :=
  match main_options opts (mk_options None 0 0) with
  | None => Ok (1, [])
  | Some o =>
    match nmfile o, args with
    | Some f, _ :: _ =>
      match files f with
      | None => Ok (2, [])
      | Some data => out ← main_loop fuel data o args; Ok (0, out)
      end
    | _, _ => Ok (1, [])
    end
  end.
End nma2n.

Module ka2n.

Fixpoint find_loop (fuel : nat) (addr : Z) (data : list Z) (best : Z * list Z) : res (Z * list Z) :=
  match fuel with
  | O => NoFuel
  | S fuel =>
    match fgets LN data with
    | (None, _, _) => Ok best
    | (Some ln, r, _) => find_loop fuel addr r (better addr (strtoull 16 (cstr ln)).1 (cstr ln) best)
    end
  end.

(** What is printed for an address. *)
Definition find_symbol (fuel : nat) (ksyms : option (list Z)) (addr : Z) : res (Z * list Z) :=
  match ksyms with
  | None => Ok (-1, [])
  | Some data =>
    best ← find_loop fuel addr data (0, []);
    Ok (0, if negb (best.1 =? 0) then best.2 else [])
  end.

Fixpoint main (fuel : nat) (ksyms : option (list Z)) (args : list (list Z)) : res (list Z) :=
  match args with
  | [] => Ok []
  | a :: args =>
    r ← find_symbol fuel ksyms (strtoull 16 a).1; out ← main fuel ksyms args; Ok (r.2 ++ out)
  end.
End ka2n.

(** ** Proofs *)

(** The entries that a file is read as. *)
Fixpoint entries {A} (fuel : nat) (parse : list Z -> option A) (data : list Z) : list A :=
  match fuel with
  | O => []
  | S fuel =>
    match fgets LN data with
    | (None, _, _) => []
    | (Some ln, r, _) => option_list (parse (cstr ln)) ++ entries fuel parse r
    end
  end.

(** [e] is the first entry of the greatest address from 1 to [addr]; there is none
    when no entry has such an address. *)
Definition is_best (addr : Z) (es : list (Z * list Z)) (e : option (Z * list Z)) : Prop :=
  match e with
  | None => Forall (fun x => ~ 0 < x.1 <= addr) es
  | Some e => exists l1 l2, es = l1 ++ e :: l2 /\ 0 < e.1 <= addr /\
      Forall (fun x => x.1 <= addr -> x.1 < e.1) l1 /\ Forall (fun x => x.1 <= addr -> x.1 <= e.1) l2
  end.

(** There is only one such entry. *)
Lemma is_best_unique addr es e e' : is_best addr es e -> is_best addr es e' -> e = e'.
Proof.
  assert (Hnone : forall x, is_best addr es (Some x) -> is_best addr es None -> False).
  { intros x (l1 & l2 & -> & Hr & _) Hn. cbn in Hn. apply Forall_app in Hn as [_ Hn].
    by apply Forall_cons in Hn as [Hn _]. }
  assert (Hle : forall x y l1 l2 k1 k2, es = l1 ++ x :: l2 -> l1 ++ x :: l2 = k1 ++ y :: k2 ->
    0 < x.1 <= addr -> 0 < y.1 <= addr -> Forall (fun z => z.1 <= addr -> z.1 <= x.1) l2 ->
    Forall (fun z => z.1 <= addr -> z.1 < y.1) k1 -> forall k, k1 = l1 ++ k -> k = []).
  { intros x y l1 l2 k1 k2 _ Heq Hx Hy H2 K1 k ->. rewrite <- app_assoc in Heq. apply app_inv_head in Heq.
    destruct k as [|z k]; [done|exfalso]. injection Heq as -> ->.
    apply Forall_app in K1 as [_ K1]. apply Forall_cons in K1 as [K1 _].
    apply Forall_app in H2 as [_ H2]. apply Forall_cons in H2 as [H2 _]. lia. }
  destruct e as [e|], e' as [e'|]; [|intros H H'; by destruct (Hnone e)|intros H H'; by destruct (Hnone e')|done].
  intros (l1 & l2 & Hes & Hr & H1 & H2) (k1 & k2 & Hes' & Hr' & K1 & K2). f_equal. rewrite Hes in Hes'.
  destruct (app_eq_inv _ _ _ _ Hes') as [(k & Hk & _)|(k & Hk & _)].
  - rewrite (Hle e' e k1 k2 l1 l2 (eq_trans Hes Hes') (eq_sym Hes') Hr' Hr K2 H1 k Hk), app_nil_r in Hk. subst l1. by apply app_inv_head in Hes' as [= -> _].
  - rewrite (Hle e e' l1 l2 k1 k2 Hes Hes' Hr Hr' H2 K1 k Hk), app_nil_r in Hk. subst k1. by apply app_inv_head in Hes' as [= -> _].
Qed.

Definition choose (addr : Z) (f : Z -> list Z -> list Z) (es : list (Z * list Z)) (best : Z * list Z) : Z * list Z :=
  fold_left (fun best x => better addr x.1 (f x.1 x.2) best) es best.

(** The state of the loop after the entries [es]. *)
Definition kept (f : Z -> list Z -> list Z) (e : option (Z * list Z)) : Z * list Z :=
  match e with None => (0, []) | Some e => (e.1, f e.1 e.2) end.

Lemma choose_best addr f es : Forall (fun x => 0 <= x.1) es ->
  exists e, choose addr f es (0, []) = kept f e /\ is_best addr es e.
Proof.
  induction es as [|x es IH] using rev_ind; intros Hpos.
  { exists None. split; [done|constructor]. }
  apply Forall_app in Hpos as [Hpos Hx]. apply Forall_cons in Hx as [Hx _].
  destruct (IH Hpos) as (e & He & Hb). unfold choose in *. rewrite fold_left_app, He. cbn [fold_left]. unfold better.
  destruct e as [e|]; cbn [kept fst].
  - destruct Hb as (l1 & l2 & -> & Hr & H1 & H2).
    destruct (Z.leb_spec x.1 addr), (Z.ltb_spec e.1 x.1); cbn [andb].
    + exists (Some x). split; [done|]. exists (l1 ++ e :: l2), []. split; [done|]. split; [lia|]. split; [|done].
      apply Forall_app. split; [eapply Forall_impl; [exact H1|]; cbn; lia|].
      constructor; [lia|]. eapply Forall_impl; [exact H2|]. cbn. lia.
    + exists (Some e). split; [done|]. exists l1, (l2 ++ [x]). split; [by rewrite <- app_assoc|].
      split; [done|]. split; [done|]. apply Forall_app. split; [done|]. constructor; [lia|constructor].
    + exists (Some e). split; [done|]. exists l1, (l2 ++ [x]). split; [by rewrite <- app_assoc|].
      split; [done|]. split; [done|]. apply Forall_app. split; [done|]. constructor; [lia|constructor].
    + exists (Some e). split; [done|]. exists l1, (l2 ++ [x]). split; [by rewrite <- app_assoc|].
      split; [done|]. split; [done|]. apply Forall_app. split; [done|]. constructor; [lia|constructor].
  - cbn [is_best] in Hb. destruct (Z.leb_spec x.1 addr), (Z.ltb_spec 0 x.1); cbn [andb].
    + exists (Some x). split; [done|]. exists es, []. split; [done|]. split; [lia|]. split; [|done].
      apply Forall_forall. intros y Hy. rewrite Forall_forall in Hb, Hpos.
      specialize (Hb y Hy). specialize (Hpos y Hy). lia.
    + exists None. split; [done|]. apply Forall_app. split; [done|]. constructor; [lia|constructor].
    + exists None. split; [done|]. apply Forall_app. split; [done|]. constructor; [lia|constructor].
    + exists None. split; [done|]. apply Forall_app. split; [done|]. constructor; [lia|constructor].
Qed.

Lemma digits_nonneg b s acc : 0 <= b -> 0 <= acc -> 0 <= (digits b s acc).1.
Proof.
  intros Hb. revert acc. induction s as [|c s IH]; intros acc Ha; cbn [digits]; [done|].
  destruct (digit_val c <? b); [|done]. apply IH.
  assert (0 <= digit_val c); [|nia]. unfold digit_val, isdigit, isupper, islower.
  destruct ((48 <=? c) && (c <=? 57)) eqn:E1; [lia|]. destruct ((65 <=? c) && (c <=? 90)) eqn:E2; [lia|].
  destruct ((97 <=? c) && (c <=? 122)) eqn:E3; lia.
Qed.

Lemma base_prefix_nonneg b s : 0 <= b -> 0 <= (base_prefix b s).1.
Proof. intros Hb. unfold base_prefix. repeat case_match; cbn; lia. Qed.

Lemma strtoull_nonneg b s : 0 <= b -> 0 <= (strtoull b s).1.
Proof.
  intros Hb. unfold strtoull. destruct (sign _) as [neg s1]. pose proof (base_prefix_nonneg b s1 Hb) as Hbase.
  destruct (base_prefix b s1) as [base s2]. cbn in Hbase. destruct s2 as [|c s2]; [done|].
  destruct (digit_val c <? base); [|done]. pose proof (digits_nonneg base (c :: s2) 0 Hbase ltac:(lia)) as Hd.
  destruct (digits _ _ _) as [v e]. cbn in *. destruct (2 ^ 64 <=? v); [lia|]. destruct neg; [|done].
  apply u64_range.
Qed.

Lemma entries_forall {A} (P : A -> Prop) parse fuel : forall data, (forall ln x, parse ln = Some x -> P x) ->
  Forall P (entries fuel parse data).
Proof.
  induction fuel as [|fuel IH]; intros data Hp; cbn [entries]; [constructor|].
  destruct (fgets LN data) as [[[ln|] r] e]; [|constructor]. apply Forall_app. split; [|by apply IH].
  destruct (parse (cstr ln)) as [x|] eqn:E; cbn; [|constructor]. constructor; [by eapply Hp|constructor].
Qed.

Module nma2n_proofs.
Import nma2n.

Lemma find_loop_choose n flags addr fuel : forall data best, (length data < fuel)%nat ->
  find_loop fuel n flags addr data best =
    Ok (choose addr (symbol_text n flags addr) (entries fuel parse_line data) best).
Proof.
  induction fuel as [|fuel IH]; intros data best Hf; [lia|]. cbn [find_loop entries].
  destruct (fgets LN data) as [[[ln|] r] e] eqn:E; [|done]. apply fgets_shorter in E.
  destruct (parse_line (cstr ln)) as [[caddr tsym]|]; cbn [option_list app]; by rewrite IH by lia.
Qed.

(** [find_symbol] of nma2n prints the symbol whose address is the greatest that
    is not zero and not above the one asked for, the first of them in the file, and
    finds none exactly when there is no such address; lines that are not symbol
    lines are passed over. *)
Lemma find_symbol_best data addr n flags fuel : (length data < fuel)%nat ->
  exists e, is_best addr (entries fuel parse_line data) e /\
    find_symbol fuel data addr n flags = Ok ((fun e => symbol_text n flags addr e.1 e.2) <$> e).
Proof.
  intros Hf. destruct (choose_best addr (symbol_text n flags addr) (entries fuel parse_line data)) as (e & He & Hb).
  { apply entries_forall. intros ln [c s]. unfold parse_line.
    destruct (negb _); [done|]. destruct (strtok_r _ _) as [[? r]|]; [|done]. cbn.
    destruct (strtok_r _ r) as [[? r']|]; [|done]. cbn. destruct (strtok_r _ r') as [[? ?]|]; [|done]. cbn.
    intros [= <- <-]. by apply strtoull_nonneg. }
  exists e. split; [done|]. unfold find_symbol. rewrite find_loop_choose, res_bind_ok, He by done.
  destruct e as [e|]; cbn [kept fst snd fmap option_fmap option_map]; [|done].
  destruct Hb as (? & ? & _ & Hr & _). by rewrite (proj2 (Z.eqb_neq e.1 0)) by lia.
Qed.
(** The address asked for with an argument, and its line of the output. *)
Definition address (o : options) (a : list Z) : Z := u64 ((strtoull 16 a).1 + diff o).
Definition output_line (o : options) (a : list Z) (e : option (Z * list Z)) : list Z :=
  str "0x" ++ hex (address o a) ++ [9] ++
  match e with Some e => symbol_text 512 (flags o) (address o a) e.1 e.2 | None => str "????" end ++ [LF].

Lemma main_loop_lines fuel data o : (length data < fuel)%nat -> forall args, exists es,
  Forall2 (fun a e => is_best (address o a) (entries fuel parse_line data) e) args es /\
  main_loop fuel data o args = Ok (concat (zip_with (output_line o) args es)).
Proof.
  intros Hf. induction args as [|a args (es & Hes & IH)]; [by exists []|].
  destruct (find_symbol_best data (address o a) 512 (flags o) fuel Hf) as (e & He & Hs).
  exists (e :: es). split; [by constructor|]. cbn [main_loop]. fold (address o a). rewrite Hs, res_bind_ok, IH, res_bind_ok.
  assert (Hl : forall rest, output_line o a e ++ rest = str "0x" ++ hex (address o a) ++ [9] ++
    default (str "????") ((fun e => symbol_text 512 (flags o) (address o a) e.1 e.2) <$> e) ++ [LF] ++ rest).
  { intros rest. unfold output_line. rewrite <- !app_assoc. by destruct e. }
  cbn [zip_with concat]. by rewrite Hl.
Qed.

(** C33: nma2n prints, for every address of its command line, a line with the symbol of
    the symbol file whose address is the greatest that is not zero and not above it, the
    first such, or with ???? exactly when there is none; it prints nothing and ends with
    1 without a file or an address, or with 2 when the file cannot be read. *)
Theorem nma2n_main fuel files opts args :
  (forall f data, files f = Some data -> (length data < fuel)%nat) ->
  match main_options opts (mk_options None 0 0) with
  | Some o =>
    match nmfile o, args with
    | Some f, _ :: _ =>
      match files f with
      | Some data => exists es, main fuel files opts args = Ok (0, concat (zip_with (output_line o) args es)) /\
          Forall2 (fun a e => is_best (address o a) (entries fuel parse_line data) e) args es
      | None => main fuel files opts args = Ok (2, [])
      end
    | _, _ => main fuel files opts args = Ok (1, [])
    end
  | None => main fuel files opts args = Ok (1, [])
  end.
Proof.
  intros Hf. unfold main. destruct (main_options _ _) as [o|]; [|done].
  destruct (nmfile o) as [f|]; [|done]. destruct args as [|a args]; [done|].
  destruct (files f) as [data|] eqn:E; [|done].
  destruct (main_loop_lines fuel data o (Hf f data E) (a :: args)) as (es & Hes & ->). by exists es.
Qed.

Definition demo_nm : list Z :=
  str "0000000000001000 T start" ++ [LF] ++ str "                 U exit" ++ [LF] ++ str "0000000000001040 t main" ++ [LF].

Example find_symbol_demo : find_symbol 100 demo_nm 4176 512 0 = Ok (Some (str "main (+ 16)")).
Proof. vm_compute. reflexivity. Qed.

Definition demo_files (f : list Z) : option (list Z) := if bool_decide (f = str "nm") then Some demo_nm else None.

Lemma nma2n_main_witness : exists es,
  main 200 demo_files [(102, str "nm")] [str "0x1050"; str "800"] =
    Ok (0, concat (zip_with (output_line (mk_options (Some (str "nm")) 0 0)) [str "0x1050"; str "800"] es)) /\
  Forall2 (fun a e => is_best (address (mk_options (Some (str "nm")) 0 0) a) (entries 200 parse_line demo_nm) e)
    [str "0x1050"; str "800"] es.
Proof.
  apply (nma2n_main 200 demo_files [(102, str "nm")] [str "0x1050"; str "800"]).
  intros f data. unfold demo_files. destruct (bool_decide _); [|done]. intros [= <-]. cbn. lia.
Defined.

Example nma2n_demo : main 200 demo_files [(102, str "nm")] [str "0x1050"; str "800"] =
  Ok (0, str "0x1050" ++ [9] ++ str "main (+ 16)" ++ [LF] ++ str "0x800" ++ [9] ++ str "????" ++ [LF]).
Proof. vm_compute. reflexivity. Qed.
End nma2n_proofs.

Lemma ka2n_find_loop_choose addr fuel : forall data best, (length data < fuel)%nat ->
  ka2n.find_loop fuel addr data best =
    Ok (choose addr (fun _ ln => ln) (entries fuel (fun ln => Some ((strtoull 16 ln).1, ln)) data) best).
Proof.
  induction fuel as [|fuel IH]; intros data best Hf; [lia|]. cbn [ka2n.find_loop entries].
  destruct (fgets LN data) as [[[ln|] r] e] eqn:E; [|done]. apply fgets_shorter in E.
  cbn [option_list app]. by rewrite IH by lia.
Qed.

(** [find_symbol] of ka2n prints the line of the kernel's symbol list whose
    address is the greatest that is not zero and not above the one asked for, the
    first of them, and nothing when there is none. *)
Theorem ka2n_find_symbol_best data addr fuel : (length data < fuel)%nat ->
  exists e, is_best addr (entries fuel (fun ln => Some ((strtoull 16 ln).1, ln)) data) e /\
    ka2n.find_symbol fuel (Some data) addr = Ok (0, from_option snd [] e).
Proof.
  intros Hf. destruct (choose_best addr (fun _ ln => ln)
    (entries fuel (fun ln => Some ((strtoull 16 ln).1, ln)) data)) as (e & He & Hb).
  { apply entries_forall. intros ln x [= <-]. by apply strtoull_nonneg. }
  exists e. split; [done|]. unfold ka2n.find_symbol. rewrite ka2n_find_loop_choose, res_bind_ok, He by done.
  destruct e as [e|]; cbn [kept fst snd from_option]; [|done].
  destruct Hb as (? & ? & _ & Hr & _). by rewrite (proj2 (Z.eqb_neq e.1 0)) by lia.
Qed.

Lemma ka2n_find_symbol_best_witness :
  exists e, is_best 17 (entries 50 (fun ln => Some ((strtoull 16 ln).1, ln)) (str "10 T a" ++ [LF])) e /\
    ka2n.find_symbol 50 (Some (str "10 T a" ++ [LF])) 17 = Ok (0, from_option snd [] e).
Proof. apply (ka2n_find_symbol_best (str "10 T a" ++ [LF]) 17 50). cbn. lia. Defined.

(** main of ka2n prints for its arguments, in order, the line of the greatest address
    that is not above each, and nothing for one below all of them or without the list. *)
Theorem ka2n_main fuel ksyms args : (forall data, ksyms = Some data -> (length data < fuel)%nat) -> exists es,
  ka2n.main fuel ksyms args = Ok (concat (map (from_option snd []) es)) /\
  Forall2 (fun a e => match ksyms with
    | None => e = None
    | Some data => is_best (strtoull 16 a).1 (entries fuel (fun ln => Some ((strtoull 16 ln).1, ln)) data) e
    end) args es.
Proof.
  intros Hf. induction args as [|a args (es & Hm & Hes)]; [by exists []|]. cbn [ka2n.main].
  destruct ksyms as [data|].
  - destruct (ka2n_find_symbol_best data (strtoull 16 a).1 fuel (Hf data eq_refl)) as (e & He & ->).
    exists (e :: es). split; [|by constructor]. by rewrite res_bind_ok, Hm, res_bind_ok.
  - exists (None :: es). split; [|by constructor]. cbn [ka2n.find_symbol]. by rewrite res_bind_ok, Hm, res_bind_ok.
Qed.
