(* ===== verification/SpinLocks.v ===== *)
(** * qspins.c: ticket locks and spin locks

    The two locks on their machine words, with the instructions of their assembler
    as the atomic steps of any number of threads; the order of the locks that a test
    thread takes, whose code is in [QspinsThreads]; the comparison of samples and the options of main, the rest of which
    is in [QspinsMain]. *)
From Stdlib Require Import ZArith Lia Bool String.
From stdpp Require Import base tactics list sets.
From S2P Require Import Prelude Libc.

(** ** The locks *)
Record tspinlock_t := mk_tspinlock { qhead : Z; qtail : Z }.
Record spinlock_t := mk_spinlock { slock : Z }.

Definition tspin_lock_init : tspinlock_t := mk_tspinlock 0 0.

(** [lock; xaddw]: the ticket and the lock. *)
Definition tspin_xadd (l : tspinlock_t) : Z * tspinlock_t :=
  (qhead l, mk_tspinlock (u16 (qhead l + 1)) (qtail l)).

(** The test of the waiting loop of [tspin_lock]. *)
Definition tspin_served (pos : Z) (l : tspinlock_t) : bool := pos =? qtail l.

Definition tspin_unlock (l : tspinlock_t) : tspinlock_t := mk_tspinlock (qhead l) (u16 (qtail l + 1)).

Definition spin_lock_init : spinlock_t := mk_spinlock 1.

(** [lock; decl], and whether [jns] is taken. *)
Definition spin_decl (l : spinlock_t) : bool * spinlock_t :=
  let v := u32 (slock l - 1) in (0 <=? s32 v, mk_spinlock v).

(** [cmpl $0] and [jle]: whether the loop goes back to the decrement. *)
Definition spin_seen (l : spinlock_t) : bool := 0 <? s32 (slock l).

Definition spin_unlock (l : spinlock_t) : spinlock_t := mk_spinlock 1.

(** ** Threads at one lock *)
Module ticket.
Inductive thread := TIdle | TWait (pos : Z) | THeld.

(** [taken] are the threads in the order of their tickets, [released] those that
    unlocked again, in order. *)
Record state := mk_state {
  lock : tspinlock_t; threads : list thread; taken : list nat; released : list nat
}.

Inductive step : state -> state -> Prop :=
| step_xadd i s pos l : threads s !! i = Some TIdle -> tspin_xadd (lock s) = (pos, l) ->
    step s (mk_state l (<[i := TWait pos]> (threads s)) (taken s ++ [i]) (released s))
| step_served i pos s : threads s !! i = Some (TWait pos) -> tspin_served pos (lock s) = true ->
    step s (mk_state (lock s) (<[i := THeld]> (threads s)) (taken s) (released s))
| step_unlock i s : threads s !! i = Some THeld ->
    step s (mk_state (tspin_unlock (lock s)) (<[i := TIdle]> (threads s)) (taken s) (released s ++ [i])).

Inductive reach (n : nat) : state -> Prop :=
| reach0 : reach n (mk_state tspin_lock_init (replicate n TIdle) [] [])
| reach_step s s' : reach n s -> step s s' -> reach n s'.
End ticket.

Module spin.
Inductive thread := SIdle | STry | SSpin | SHeld.

#[export] Instance thread_eq_dec : EqDecision thread.
Proof. solve_decision. Defined.

Record state := mk_state { lock : spinlock_t; threads : list thread }.

Inductive step : state -> state -> Prop :=
| step_call i s : threads s !! i = Some SIdle -> step s (mk_state (lock s) (<[i := STry]> (threads s)))
| step_decl i s ok l : threads s !! i = Some STry -> spin_decl (lock s) = (ok, l) ->
    step s (mk_state l (<[i := if (ok : bool) then SHeld else SSpin]> (threads s)))
| step_seen i s : threads s !! i = Some SSpin -> spin_seen (lock s) = true ->
    step s (mk_state (lock s) (<[i := STry]> (threads s)))
| step_unlock i s : threads s !! i = Some SHeld ->
    step s (mk_state (spin_unlock (lock s)) (<[i := SIdle]> (threads s))).

Inductive reach (n : nat) : state -> Prop :=
| reach0 : reach n (mk_state spin_lock_init (replicate n SIdle))
| reach_step s s' : reach n s -> step s s' -> reach n s'.
End spin.
#[export] Existing Instance spin.thread_eq_dec.

(** ** The test threads *)
Definition MAX_SAMPLES : nat := 32.
Definition NR_ITERS : nat := 100.

Inductive op := Lock (k : Z) | Unlock (k : Z).

(** The next lock of the ring. *)
Definition next_lock (num_threads k : Z) : Z := if num_threads <=? k + 1 then 0 else k + 1.

Fixpoint iterations (n : nat) (num_threads k : Z) : list op * Z :=
  match n with
  | O => ([], k)
  | S n =>
    let k' := next_lock num_threads k in
    let (ops, k2) := iterations n num_threads k' in (Unlock k :: Lock k' :: ops, k2)
  end.

(** The calls of a test thread, of either kind ([QspinsThreads]). *)
Definition thread_ops (num_threads cpu : Z) : list op :=
  let (ops, k) := iterations (MAX_SAMPLES * NR_ITERS) num_threads cpu in Lock cpu :: ops ++ [Unlock k].

Definition cmp_ull (d1 d2 : Z) : Z := if d2 <? d1 then 1 else if d1 <? d2 then -1 else 0.

(** ** Options *)
Inductive test_desc := TICKLOCK | SPINLOCK.
Inductive policy := SCHED_FIFO | SCHED_OTHER | SCHED_RR.
Record options := mk_options { num_threads : Z; sched_prio : Z; sched_policy : policy; tdesc : test_desc }.
Definition options0 : options := mk_options 1 90 SCHED_FIFO TICKLOCK.

Fixpoint parse_options (av : list (list Z)) (o : options) : options :=
  match av with
  | [] => o
  | a :: av =>
    if streq a (str "-n") then
      match av with
      | v :: av => parse_options av (mk_options (atoi v) (sched_prio o) (sched_policy o) (tdesc o))
      | [] => o
      end
    else if streq a (str "-p") then
      match av with
      | v :: av => parse_options av (mk_options (num_threads o) (atoi v) (sched_policy o) (tdesc o))
      | [] => o
      end
    else if streq a (str "-s") then parse_options av (mk_options (num_threads o) (sched_prio o) (sched_policy o) SPINLOCK)
    else if streq a (str "-F") then parse_options av (mk_options (num_threads o) (sched_prio o) SCHED_FIFO (tdesc o))
    else if streq a (str "-O") then parse_options av (mk_options (num_threads o) (sched_prio o) SCHED_OTHER (tdesc o))
    else if streq a (str "-R") then parse_options av (mk_options (num_threads o) (sched_prio o) SCHED_RR (tdesc o))
    else parse_options av o
  end.

(** The number of threads on [ncpus] processors. *)
Definition clamp_threads (ncpus : Z) (o : options) : options :=
  if ncpus <? num_threads o then mk_options ncpus (sched_prio o) (sched_policy o) (tdesc o) else o.

(** ** Proofs: the ticket lock *)
Section ticket_proofs.
Import ticket.

(** The threads between their ticket and their unlock, in order. *)
Record inv (n : nat) (s : state) (q : list nat) : Prop := {
  inv_len : length (threads s) = n;
  inv_tail : 0 <= qtail (lock s) < 2 ^ 16;
  inv_head : qhead (lock s) = u16 (qtail (lock s) + Z.of_nat (length q));
  inv_taken : taken s = released s ++ q;
  inv_nodup : NoDup q;
  inv_wait : forall j i, q !! j = Some i ->
    threads s !! i = Some (TWait (u16 (qtail (lock s) + Z.of_nat j))) \/ (j = O /\ threads s !! i = Some THeld);
  inv_idle : forall i t, threads s !! i = Some t -> t <> TIdle -> i ∈ q
}.

Lemma inv_queue_length n s q : inv n s q -> (length q <= n)%nat.
Proof.
  intros []. rewrite <- inv_len0, <- (length_seq (length (threads s)) 0). apply submseteq_length, NoDup_submseteq; [done|].
  intros i [j Hj]%list_elem_of_lookup. apply elem_of_seq.
  destruct (inv_wait0 j i Hj) as [Hi|[_ Hi]]; apply lookup_lt_Some in Hi; lia.
Qed.

Lemma u16_shift t j : 0 <= t < 2 ^ 16 -> 0 <= j < 2 ^ 16 -> u16 (t + j) = t -> j = 0.
Proof.
  unfold u16. intros Ht Hj He. pose proof (Z.div_mod (t + j) (2 ^ 16) ltac:(lia)).
  assert ((t + j) / 2 ^ 16 < 2) by (apply Z.div_lt_upper_bound; lia).
  assert (0 <= (t + j) / 2 ^ 16) by (apply Z.div_pos; lia).
  assert ((t + j) / 2 ^ 16 = 0 \/ (t + j) / 2 ^ 16 = 1) as [E|E] by lia; rewrite E in *; lia.
Qed.

Lemma ticket_inv_step n s s' q : Z.of_nat n <= 2 ^ 16 -> inv n s q -> step s s' -> exists q', inv n s' q'.
Proof.
  intros Hn Hinv Hst. pose proof (inv_queue_length _ _ _ Hinv) as Hql. pose proof Hinv as [].
  destruct Hst as [i s pos l Hi Hx|i pos s Hi Hs|i s Hi].
  - injection Hx as <- <-. assert (Hiq : i ∉ q).
    { intros [j Hj]%list_elem_of_lookup. destruct (inv_wait0 j i Hj) as [?|[_ ?]]; congruence. }
    exists (q ++ [i]). split; cbn [threads lock taken released qhead qtail]; try done.
    + by rewrite length_insert.
    + rewrite inv_head0, length_app. cbn [length]. unfold u16. rewrite Z.add_mod_idemp_l by lia. f_equal. lia.
    + by rewrite inv_taken0, app_assoc.
    + apply NoDup_app. split; [done|]. split; [|apply NoDup_singleton]. intros x Hx. rewrite list_elem_of_singleton. congruence.
    + intros j x Hx. apply lookup_app_Some in Hx as [Hx|[Hle Hx]].
      * assert (x <> i) by (intros ->; apply Hiq, list_elem_of_lookup; by exists j).
        rewrite list_lookup_insert_ne by done. by apply inv_wait0.
      * apply list_lookup_singleton_Some in Hx as [Hj ->]. left.
        rewrite list_lookup_insert_eq by (by eapply lookup_lt_Some). rewrite inv_head0. do 4 f_equal. lia.
    + intros x t Hx Ht. apply elem_of_app. destruct (decide (x = i)) as [->|]; [right; by left|].
      rewrite list_lookup_insert_ne in Hx by done. left. by eapply inv_idle0.
  - apply Z.eqb_eq in Hs. exists q. split; cbn [threads lock taken released]; try done.
    + by rewrite length_insert.
    + intros j x Hx. destruct (decide (x = i)) as [->|].
      * right. rewrite list_lookup_insert_eq by (by eapply lookup_lt_Some). split; [|done].
        destruct (inv_wait0 j i Hx) as [Hw|[? ?]]; [|done]. rewrite Hi in Hw. injection Hw as Hp.
        rewrite Hs in Hp. symmetry in Hp. apply u16_shift in Hp; [lia|done|]. apply lookup_lt_Some in Hx. lia.
      * rewrite list_lookup_insert_ne by done. by apply inv_wait0.
    + intros x t Hx Ht. destruct (decide (x = i)) as [->|]; [by eapply inv_idle0|].
      rewrite list_lookup_insert_ne in Hx by done. by eapply inv_idle0.
  - destruct q as [|i0 q]; [apply (inv_idle0 _ _) in Hi; [set_solver|done]|].
    assert (i0 = i) as ->.
    { assert (i ∈ i0 :: q) as [j Hj]%list_elem_of_lookup by (by eapply inv_idle0).
      destruct (inv_wait0 j i Hj) as [?|[-> _]]; [congruence|]. by injection Hj. }
    apply NoDup_cons in inv_nodup0 as [Hiq Hnd].
    exists q. split; cbn [threads lock taken released qtail qhead tspin_unlock]; try done.
    + by rewrite length_insert.
    + apply Z.mod_pos_bound. lia.
    + rewrite inv_head0. cbn [length]. unfold u16. rewrite Z.add_mod_idemp_l by lia. f_equal. lia.
    + by rewrite inv_taken0, <- app_assoc.
    + intros j x Hx. assert (x <> i) by (intros ->; apply Hiq, list_elem_of_lookup; by exists j).
      rewrite list_lookup_insert_ne by done. left. destruct (inv_wait0 (S j) x Hx) as [Hw|[? _]]; [|done].
      rewrite Hw. unfold u16. rewrite Z.add_mod_idemp_l by lia. do 3 f_equal. lia.
    + intros x t Hx Ht. destruct (decide (x = i)) as [->|].
      * rewrite list_lookup_insert_eq in Hx by (by eapply lookup_lt_Some). congruence.
      * rewrite list_lookup_insert_ne in Hx by done. specialize (inv_idle0 _ _ Hx Ht). set_solver.
Qed.
End ticket_proofs.

Lemma ticket_reach_inv n s : Z.of_nat n <= 2 ^ 16 -> ticket.reach n s -> exists q, inv n s q.
Proof.
  intros Hn. induction 1 as [|s s' Hr [q IH] Hst]; [|by eapply ticket_inv_step].
  exists []. split; cbn; try done.
  - by rewrite length_replicate.
  - constructor.
  - intros i t [-> _]%lookup_replicate Hne. done.
Qed.

(** C14: With at most 2^16 threads the ticket lock is fair and exclusive however its
    16-bit counters wrap: the threads unlock in the order in which they took their
    tickets, only the oldest of those that did not unlock yet can hold the lock,
    and when it waits its test succeeds. *)
Theorem tspin_fifo n (s : ticket.state) : Z.of_nat n <= 2 ^ 16 -> ticket.reach n s ->
  exists q, ticket.taken s = ticket.released s ++ q /\
    (forall i, ticket.threads s !! i = Some ticket.THeld -> head q = Some i) /\
    (forall i pos, head q = Some i -> ticket.threads s !! i = Some (ticket.TWait pos) ->
       tspin_served pos (ticket.lock s) = true).
Proof.
  intros Hn Hr. destruct (ticket_reach_inv n s Hn Hr) as [q []]. exists q. split; [done|]. split.
  - intros i Hi. assert (i ∈ q) as [j Hj]%list_elem_of_lookup by (by eapply inv_idle0).
    destruct (inv_wait0 j i Hj) as [?|[-> _]]; [congruence|]. by destruct q.
  - intros i pos Hq Hi. assert (Hj : q !! O = Some i) by (by destruct q).
    destruct (inv_wait0 O i Hj) as [Hw|[_ ?]]; [|congruence]. rewrite Hi in Hw. injection Hw as ->.
    apply Z.eqb_eq. rewrite Z.add_0_r. unfold u16. by apply Z.mod_small.
Qed.

(** Two threads: the first holds the lock, the second waits. *)
Definition demo_ticket : ticket.state :=
  ticket.mk_state (mk_tspinlock 2 0) [ticket.TWait 1; ticket.THeld] [1%nat; 0%nat] [].

Lemma demo_ticket_reach : ticket.reach 2 demo_ticket.
Proof.
  set (s0 := ticket.mk_state tspin_lock_init (replicate 2 ticket.TIdle) [] []).
  set (s1 := ticket.mk_state (mk_tspinlock 1 0) [ticket.TIdle; ticket.TWait 0] [1%nat] []).
  set (s2 := ticket.mk_state (mk_tspinlock 1 0) [ticket.TIdle; ticket.THeld] [1%nat] []).
  assert (H1 : ticket.step s0 s1) by (by apply (ticket.step_xadd 1 s0 0 (mk_tspinlock 1 0))).
  assert (H2 : ticket.step s1 s2) by (by apply (ticket.step_served 1 0 s1)).
  assert (H3 : ticket.step s2 demo_ticket) by (by apply (ticket.step_xadd 0 s2 1 (mk_tspinlock 2 0))).
  repeat (eapply ticket.reach_step; [|eassumption]). constructor.
Qed.

Lemma tspin_fifo_witness : exists q, ticket.taken demo_ticket = ticket.released demo_ticket ++ q /\
    (forall i, ticket.threads demo_ticket !! i = Some ticket.THeld -> head q = Some i) /\
    (forall i pos, head q = Some i -> ticket.threads demo_ticket !! i = Some (ticket.TWait pos) ->
       tspin_served pos (ticket.lock demo_ticket) = true).
Proof. apply (tspin_fifo 2 demo_ticket); [lia|exact demo_ticket_reach]. Defined.

(** ** Proofs: the spin lock *)
Section spin_proofs.
Import spin.

Lemma thread_counts l : count SSpin l + count SHeld l + count STry l <= Z.of_nat (length l).
Proof.
  unfold count. induction l as [|[] l IH]; [done|..]; rewrite !filter_cons; cbn [length decide thread_eq_dec];
    repeat (case_decide; try done); cbn [length]; lia.
Qed.

Lemma s32_u32 w : - 2 ^ 31 <= w < 2 ^ 31 -> s32 (u32 w) = w.
Proof.
  intros Hw. unfold s32, u32. rewrite Z.add_mod_idemp_l by lia. rewrite Z.mod_small by lia. lia.
Qed.

(** The value of the lock word as a signed number: 1 for a free lock, less for one
    that is held, and lower by at most one for each thread that waits. *)
Record spin_inv (n : nat) (s : state) (v : Z) : Prop := {
  si_len : length (threads s) = n;
  si_word : slock (lock s) = u32 v;
  si_held : (v = 1 /\ count SHeld (threads s) = 0) \/ (v <= 0 /\ count SHeld (threads s) = 1);
  si_low : 1 - (count SSpin (threads s) + count SHeld (threads s)) <= v
}.

Lemma spin_inv_step n s s' v : Z.of_nat n <= 2 ^ 31 -> spin_inv n s v -> step s s' -> exists v', spin_inv n s' v'.
Proof.
  intros Hn [Hlen Hw Hh Hlow] Hst.
  pose proof (count_nonneg SSpin (threads s)). pose proof (thread_counts (threads s)) as Hd.
  pose proof (count_nonneg STry (threads s)).
  destruct Hst as [i s Hi|i s ok l Hi He|i s Hi Hs|i s Hi]; pose proof (count_pos _ _ _ Hi) as Hp.
  - exists v. split; cbn [threads lock]; rewrite ?length_insert, ?(count_insert _ _ _ _ _ Hi); try done;
      repeat (case_decide; try done); try lia.
  - injection He as <- <-. rewrite Hw.
    assert (u32 (u32 v - 1) = u32 (v - 1)) as -> by (unfold u32; by rewrite Zminus_mod_idemp_l).
    rewrite s32_u32 by lia. destruct (Z.leb_spec 0 (v - 1)).
    + exists (v - 1). split; cbn [threads lock]; rewrite ?length_insert, ?(count_insert _ _ _ _ _ Hi); try done;
        repeat (case_decide; try done); lia.
    + exists (v - 1). split; cbn [threads lock]; rewrite ?length_insert, ?(count_insert _ _ _ _ _ Hi); try done;
        repeat (case_decide; try done); lia.
  - unfold spin_seen in Hs. rewrite Hw, s32_u32 in Hs by lia. apply Z.ltb_lt in Hs.
    exists v. split; cbn [threads lock]; rewrite ?length_insert, ?(count_insert _ _ _ _ _ Hi); try done;
      repeat (case_decide; try done); lia.
  - exists 1. split; cbn [threads lock]; rewrite ?length_insert, ?(count_insert _ _ _ _ _ Hi); try done;
      repeat (case_decide; try done); lia.
Qed.

Lemma spin_reach_inv n s : Z.of_nat n <= 2 ^ 31 -> reach n s -> exists v, spin_inv n s v.
Proof.
  intros Hn. induction 1 as [|s s' Hr [v IH] Hst]; [|by eapply spin_inv_step].
  exists 1.
  split; cbn [threads lock]; [by rewrite length_replicate|done|left; by rewrite count_replicate|rewrite !count_replicate by done; lia].
Qed.
End spin_proofs.

(** With at most 2^31 threads at most one holds the spin lock, and its word is 1
    exactly when nobody does: neither the decrements of the threads that wait nor
    the store of the unlock let a second thread in or lose the lock. *)
Theorem spin_mutex n (s : spin.state) : Z.of_nat n <= 2 ^ 31 -> spin.reach n s ->
  count spin.SHeld (spin.threads s) <= 1 /\
  (count spin.SHeld (spin.threads s) = 0 <-> slock (spin.lock s) = 1).
Proof.
  intros Hn Hr. destruct (spin_reach_inv n s Hn Hr) as [v [Hl Hw Hh Hlow]].
  pose proof (thread_counts (spin.threads s)). pose proof (count_nonneg spin.STry (spin.threads s)).
  split; [lia|]. rewrite Hw. destruct Hh as [[-> Hh]|[Hv Hh]]; [done|]. rewrite Hh. split; [done|].
  intros H1. apply (f_equal s32) in H1. rewrite s32_u32 in H1 by lia. change (s32 1) with 1 in H1. lia.
Qed.

(** One thread holds the lock, the other failed its decrement. *)
Definition demo_spin : spin.state := spin.mk_state (mk_spinlock (2 ^ 32 - 1)) [spin.SSpin; spin.SHeld].

Lemma demo_spin_reach : spin.reach 2 demo_spin.
Proof.
  set (s0 := spin.mk_state spin_lock_init (replicate 2 spin.SIdle)).
  set (s1 := spin.mk_state spin_lock_init [spin.SIdle; spin.STry]).
  set (s2 := spin.mk_state (mk_spinlock 0) [spin.SIdle; spin.SHeld]).
  set (s3 := spin.mk_state (mk_spinlock 0) [spin.STry; spin.SHeld]).
  assert (H1 : spin.step s0 s1) by (by apply (spin.step_call 1 s0)).
  assert (H2 : spin.step s1 s2) by (by apply (spin.step_decl 1 s1 true (mk_spinlock 0))).
  assert (H3 : spin.step s2 s3) by (by apply (spin.step_call 0 s2)).
  assert (H4 : spin.step s3 demo_spin) by (by apply (spin.step_decl 0 s3 false (mk_spinlock (2 ^ 32 - 1)))).
  repeat (eapply spin.reach_step; [|eassumption]). constructor.
Qed.

Lemma spin_mutex_witness : count spin.SHeld (spin.threads demo_spin) <= 1 /\
  (count spin.SHeld (spin.threads demo_spin) = 0 <-> slock (spin.lock demo_spin) = 1).
Proof. apply (spin_mutex 2 demo_spin); [lia|exact demo_spin_reach]. Defined.
