(* ===== verification/EthCat.v ===== *)
(** * ethcat.c: sending a packet read from stdin

    The reading of the packet into a block that grows, its change in place and the
    calls that send it.  The kernel's answers are a record; messages on stdout and
    stderr are left out, and the result of getopt is an argument. *)
From Stdlib Require Import ZArith Lia Bool String.
From stdpp Require Import base tactics list.
From S2P Require Import Prelude Libc.

Definition ETH_PKT_SIZE : Z := 2000.
Definition ETH_PKT_READ : Z := 500.
Definition IFNAMSIZ : nat := 16.
Definition INT_MAX : Z := 2 ^ 31 - 1.
(** [sizeof(struct ether_header)] *)
Definition ETHER_HDR : Z := 14.

(** ** Reading *)

(** [read] on a descriptor whose bytes arrive in the given pieces, [None] being an
    error: the result and the pieces left. *)
Definition read_fd (n : Z) (input : list (option (list Z))) : option (list Z) * list (option (list Z)) :=
  match input with
  | [] => (Some [], [])
  | None :: l => (None, l)
  | Some c :: l =>
    (Some (take (Z.to_nat n) c), match drop (Z.to_nat n) c with [] => l | b => Some b :: l end)
  end.

(** The loop: [size] is the size of the block and [pkt] the [count] bytes in it.
    Arithmetic beyond [INT_MAX] and a read past the block are faults. *)
Fixpoint read_loop (fuel : nat) (size : Z) (pkt : list Z) (input : list (option (list Z))) : res (option (list Z)) :=
  match fuel with
  | O => NoFuel
  | S fuel =>
    let count := strlen pkt in
    let size := if size - count <? ETH_PKT_READ then size + ETH_PKT_SIZE else size in
    if INT_MAX <? size then Fault
    else if size <? count + ETH_PKT_READ then Fault
    else
      match read_fd ETH_PKT_READ input with
      | (None, _) => Ok None
      | (Some [], _) => Ok (Some pkt)
      | (Some b, input) => read_loop fuel size (pkt ++ b) input
      end
  end.

Definition read_in_pkt (fuel : nat) (input : list (option (list Z))) : res (option (list Z)) :=
  read_loop fuel 0 [] input.

(** ** Sending *)
Record raw_socket := mk_raw_socket {
  rs_socket : bool;
  rs_hwaddr : list Z -> option (list Z);
  rs_ifindex : list Z -> option Z;
  rs_bind : Z -> bool;
  rs_write : list Z -> Z
}.

(** [b] over the bytes of [pkt] from [off] on. *)
Definition overwrite (off : nat) (b pkt : list Z) : list Z := take off pkt ++ b ++ drop (off + length b) pkt.

(** [strncpy(ifr.ifr_name, device, ...)] *)
Definition ifr_name (device : list Z) : list Z := take IFNAMSIZ device.

(** The result and the packet given to [write], if it came to that. *)
Definition raw_pkt_write (k : raw_socket) (device packet : list Z) : Z * option (list Z) :=
  if negb (rs_socket k) then (-1, None) else
  match rs_hwaddr k (ifr_name device) with
  | None => (-2, None)
  | Some enet_src =>
    let packet := overwrite 6 (take 6 enet_src) packet in
    match rs_ifindex k (ifr_name device) with
    | None => (-3, None)
    | Some idx =>
      if negb (rs_bind k idx) then (-4, None)
      else if negb (rs_write k packet =? strlen packet) then (-5, Some packet)
      else (0, Some packet)
    end
  end.

(** ** main *)
Record options := mk_options { if_src : option (list Z); if_dst : option (list Z); etype : Z }.

(** One result of getopt; [None] ends the program with the usage text. *)
Definition main_option (opt : Z * list Z) (o : options) : option options :=
  let (c, optarg) := opt in
  if c =? 115 then Some (mk_options (Some optarg) (if_dst o) (etype o))
  else if c =? 100 then Some (mk_options (if_src o) (Some optarg) (etype o))
  else if c =? 116 then Some (mk_options (if_src o) (if_dst o) (atoi optarg))
  else if c =? 104 then None
  else Some o.

Fixpoint main_options (opts : list (Z * list Z)) (o : options) : option options :=
  match opts with
  | [] => Some o
  | opt :: opts => o ← main_option opt o; main_options opts o
  end.

(** [%hhx]: the byte and what follows it. *)
Definition scan_hhx (s : list Z) : option (Z * list Z) :=
  let (neg, s1) := sign (skip_spaces s) in
  let s2 := match s1 with 48 :: x :: s' => if (x =? 120) || (x =? 88) then s' else s1 | _ => s1 end in
  match s2 with
  | c :: _ =>
    if isxdigit c then let (v, r) := digits 16 s2 0 in Some (u8 (if (neg : bool) then - v else v), r) else None
  | [] => None
  end.

(** The rest of the format: a colon and a byte, [n] times. *)
Fixpoint scan_bytes (n : nat) (s : list Z) : option (list Z) :=
  match n with
  | O => Some []
  | S n =>
    match s with
    | 58 :: s => '(b, s) ← scan_hhx s; l ← scan_bytes n s; Some (b :: l)
    | _ => None
    end
  end.

(** [sscanf] of an ethernet address. *)
Definition scan_address (s : list Z) : option (list Z) :=
  '(b, s) ← scan_hhx s; l ← scan_bytes 5 s; Some (b :: l).

(** The bytes of [htons(v)] in memory. *)
Definition htons (v : Z) : list Z := [u8 (Z.shiftr v 8); u8 v].

(** The exit code and the packet written. *)
Definition main (fuel : nat) (k : raw_socket) (input : list (option (list Z))) (opts : list (Z * list Z)) :
    res (Z * option (list Z)) :=
  match main_options opts (mk_options None None (-1)) with
  | None => Ok (1, None)
  | Some o =>
    match if_src o with
    | None => Ok (1, None)
    | Some src =>
      r ← read_in_pkt fuel input;
      match r with
      | None => Ok (2, None)
      | Some packet =>
        if strlen packet <? ETHER_HDR then Ok (2, None) else
        let packet := if 0 <=? etype o then overwrite 12 (htons (etype o)) packet else packet in
        match (match if_dst o with
               | None => Some packet
               | Some d => enet_dst ← scan_address d; Some (overwrite 0 enet_dst packet)
               end) with
        | None => Ok (2, None)
        | Some packet =>
          let (e, w) := raw_pkt_write k src packet in
          Ok (if e <? 0 then 2 else 0, w)
        end
      end
    end
  end.

(** ** Proofs *)
Lemma read_fd_piece (c : list Z) (ch : list (list Z)) : c <> [] -> Forall (fun c => c <> []) ch ->
  exists b ch', read_fd ETH_PKT_READ (map Some (c :: ch)) = (Some b, map Some ch') /\ b <> [] /\
    strlen b <= ETH_PKT_READ /\ Forall (fun c => c <> []) ch' /\ b ++ concat ch' = concat (c :: ch).
Proof.
  intros Hc Hch. cbn [read_fd map]. set (b := take (Z.to_nat ETH_PKT_READ) c).
  assert (Hb : b <> []) by (unfold b; by destruct c).
  assert (Hl : strlen b <= ETH_PKT_READ) by (unfold b, strlen, ETH_PKT_READ; rewrite length_take; lia).
  pose proof (take_drop (Z.to_nat ETH_PKT_READ) c) as Htd. fold b in Htd.
  destruct (drop (Z.to_nat ETH_PKT_READ) c) as [|x r] eqn:E.
  - exists b, ch. rewrite app_nil_r in Htd. repeat split; try done. cbn [concat]. by rewrite Htd.
  - exists b, ((x :: r) :: ch). repeat split; try done; [by constructor|].
    cbn [concat]. rewrite <- Htd at 1. by rewrite <- app_assoc.
Qed.

Lemma read_loop_all fuel : forall size pkt ch,
  Forall (fun c => c <> []) ch -> strlen pkt <= size -> size <= strlen pkt + ETH_PKT_SIZE + ETH_PKT_READ ->
  strlen pkt + strlen (concat ch) + 5000 <= INT_MAX -> (length (concat ch) < fuel)%nat ->
  read_loop fuel size pkt (map Some ch) = Ok (Some (pkt ++ concat ch)).
Proof.
  induction fuel as [|fuel IH]; intros size pkt ch Hne H0 Hs Hi Hf; [lia|]. cbn [read_loop].
  pose proof (strlen_nonneg (concat ch)). unfold ETH_PKT_SIZE, ETH_PKT_READ in *.
  set (size' := if size - strlen pkt <? 500 then size + 2000 else size).
  assert (Hs' : strlen pkt + 500 <= size' <= strlen pkt + 2500)
    by (unfold size'; destruct (Z.ltb_spec (size - strlen pkt) 500); lia).
  rewrite (proj2 (Z.ltb_ge INT_MAX size')), (proj2 (Z.ltb_ge size' (strlen pkt + 500))) by lia.
  destruct ch as [|c ch]; [cbn; by rewrite app_nil_r|]. apply Forall_cons in Hne as [Hc Hne].
  destruct (read_fd_piece c ch Hc Hne) as (b & ch' & Hr & Hb & Hbl & Hne' & Hcat).
  unfold ETH_PKT_READ in *. rewrite Hr. destruct b as [|x b]; [done|].
  rewrite <- Hcat in *. unfold strlen in *. rewrite !length_app in *. cbn [length] in *.
  rewrite IH; [by rewrite <- app_assoc|done|..]; unfold strlen; rewrite ?length_app; cbn [length]; lia.
Qed.

(** C34: Whatever the pieces in which a packet of 14 bytes or more arrives, ethcat
    sends exactly its bytes, with the source address of the interface in bytes 6 to
    11, the given type in bytes 12 and 13 and the given destination in bytes 0 to 5,
    and exits with 0; the block it reads into is never left. *)
Theorem ethcat_frame fuel (k : raw_socket) chunks opts src dst type_ hw idx :
  let p := concat chunks in
  main_options opts (mk_options None None (-1)) = Some (mk_options (Some src) (Some dst) type_) ->
  Forall (fun c => c <> []) chunks -> 14 <= strlen p -> strlen p + 5000 <= INT_MAX -> (length p < fuel)%nat ->
  0 <= type_ -> rs_socket k = true -> rs_hwaddr k (ifr_name src) = Some hw -> length hw = 6%nat ->
  rs_ifindex k (ifr_name src) = Some idx -> rs_bind k idx = true -> (forall b, rs_write k b = strlen b) ->
  main fuel k (map Some chunks) opts =
    Ok match scan_address dst with
       | Some enet_dst => (0, Some (enet_dst ++ hw ++ htons type_ ++ drop 14 p))
       | None => (2, None)
       end.
Proof.
  intros p Ho Hne Hp Hi Hf Ht Hsk Hhw Hhl Hidx Hb Hw. unfold main. rewrite Ho. cbn [if_src if_dst etype].
  unfold read_in_pkt. rewrite (read_loop_all fuel 0 [] chunks Hne) by (cbn [app]; fold p; unfold ETH_PKT_SIZE, ETH_PKT_READ; rewrite ?strlen_nil; lia || done).
  cbn [app]. fold p. rewrite res_bind_ok, (proj2 (Z.ltb_ge (strlen p) ETHER_HDR)) by (unfold ETHER_HDR; lia).
  rewrite (proj2 (Z.leb_le 0 type_)) by done.
  assert (Hlen : forall s l n, scan_bytes n s = Some l -> length l = n).
  { intros s l n. revert s l. induction n as [|n IH]; intros s l; cbn [scan_bytes]; [by intros [= <-]|].
    repeat case_match; try done. destruct (scan_hhx _) as [[b s']|]; [|done]. cbn.
    destruct (scan_bytes n s') as [l'|] eqn:E; [|done]. cbn. intros [= <-]. cbn. by rewrite (IH _ _ E). }
  unfold scan_address. destruct (scan_hhx dst) as [[b s]|]; [|done]. cbn [mbind option_bind].
  destruct (scan_bytes 5 s) as [l|] eqn:E; [|done]. cbn [mbind option_bind]. specialize (Hlen _ _ _ E).
  unfold raw_pkt_write. rewrite Hsk, Hhw, Hidx, Hb, Hw, Z.eqb_refl. cbn [negb Z.ltb Z.compare].
  do 3 f_equal. unfold overwrite. rewrite (take_ge hw) by lia. unfold strlen in Hp.
  do 6 (destruct hw as [|? hw]; [done|]). destruct hw; [|done]. do 5 (destruct l as [|? l]; [done|]). destruct l; [|done].
  do 14 (destruct p as [|? p]; [cbn [length] in Hp; lia|]). cbn. done.
Qed.

Definition demo_socket : raw_socket :=
  mk_raw_socket true (fun _ => Some [2; 0; 0; 0; 0; 9]) (fun _ => Some 3) (fun _ => true) strlen.

Lemma ethcat_frame_witness :
  main 30 demo_socket (map Some [repeat 7 10; repeat 8 6])
    [(115, str "eth0"); (100, str "ff:ff:ff:0:1:2"); (116, str "2048")] =
    Ok (0, Some ([255; 255; 255; 0; 1; 2] ++ [2; 0; 0; 0; 0; 9] ++ [8; 0] ++ [8; 8])).
Proof.
  apply (ethcat_frame 30 demo_socket [repeat 7 10; repeat 8 6]
    [(115, str "eth0"); (100, str "ff:ff:ff:0:1:2"); (116, str "2048")]
    (str "eth0") (str "ff:ff:ff:0:1:2") 2048 [2; 0; 0; 0; 0; 9] 3);
    try reflexivity; try (repeat constructor; discriminate); try (vm_compute; congruence); try (cbn; lia).
Defined.
