(* ===== verification/Sload.v ===== *)
(** * sload.c: synthetic loads

    The jitter of the times with its random numbers, the table of tasks that the
    options build, the loop of a child over its clock, and the sums of the parent.
    The clock, the burning of time and the signals are the class [Kernel]; the
    result of getopt and which sizes [malloc] grants are arguments; the table of tasks is
    granted.  What a child does in all its rounds, and the loop it
    burns, are in [SloadChild]; the calibration, the processes and the pipes in [SloadMain]. *)
From Stdlib Require Import ZArith Lia Bool String.
From stdpp Require Import base tactics list.
From S2P Require Import Prelude Libc.

(** ** Jitter *)

(** [myrand(&sval)] and [myrand(NULL)] on the static [next]: the new value. *)
Definition myrand (sval : option Z) (next : Z) : Z :=
  match sval with Some v => v | None => u64 (next * 1103515245 + 12345) end.

Fixpoint ilog2_loop (fuel : nat) (v l : Z) : res Z :=
  match fuel with
  | O => NoFuel
  | S fuel => if v =? 0 then Ok l else ilog2_loop fuel (Z.shiftr v 1) (l + 1)
  end.
Definition ilog2 (v : Z) : res Z := ilog2_loop 65 v 0.

(** The value and the random state; a shift count that runs below zero and a division
    by zero are faults. *)
Definition jval (v jitter next : Z) : res (Z * Z) :=
  if 0 <? jitter then
    let b := if jitter <? v then v - jitter else 0 in
    let r := myrand None next in
    l ← ilog2 (u64 (2 * jitter));
    let sh := 64 - l - 1 in
    if (sh <? 0) || (u64 (2 * jitter) =? 0) then Fault else
    Ok (u64 (b + Z.shiftr r sh mod u64 (2 * jitter)), r)
  else Ok (v, next).

(** ** Tasks *)
Record sltask := mk_sltask {
  name : list Z; nice : Z;
  bus : Z; sus : Z; wus : Z; jbus : Z; jsus : Z; jwus : Z;
  count : Z
}.
Definition task0 : sltask := mk_sltask [] 0 0 0 0 0 0 0 0.

(** The table, of the size of the argument vector, and [n]; what else main keeps. *)
Record options := mk_options { tasks : list sltask; n : Z; runfor : Z; cpu_bind : Z; debug : bool }.

Definition set_task (f : sltask -> sltask) (o : options) : res options :=
  if n o <? 0 then Fault else
  match tasks o !! Z.to_nat (n o) with
  | None => Fault
  | Some t => Ok (mk_options (<[Z.to_nat (n o) := f t]> (tasks o)) (n o) (runfor o) (cpu_bind o) (debug o))
  end.

Section options.
Context (malloc : Z -> bool).

(** The number of the next task, after the blocks of the one before were granted:
    4 bytes for a process, 16 for a report and 4 for a descriptor; [inl] is a call
    of [exit]. *)
Definition next_task (ts : list sltask) (k : Z) : res (Z + Z) :=
  if 0 <=? k then
    match ts !! Z.to_nat k with
    | None => Fault
    | Some t =>
      if malloc (u64 (count t * 4)) && malloc (u64 (count t * 16)) && malloc (u64 (s32 (2 * count t) * 4))
      then Ok (inr (k + 1)) else Ok (inl 1)
    end
  else Ok (inr (k + 1)).

(** A time and its jitter: [atol(optarg)] and, behind a colon, [atol(jptr + 1)]. *)
Definition time_arg (optarg : list Z) (j : Z) : Z * Z :=
  (u64 (atol optarg),
   match index_of 58 optarg with Some i => u64 (atol (drop (S i) optarg)) | None => j end).

(** One result of getopt; [inl] ends the program with that exit code. *)
Definition main_option (opt : Z * list Z) (o : options) : res (Z + options) :=
  let (c, optarg) := opt in
  let ok (r : res options) : res (Z + options) := o ← r; Ok (inr o) in
  if c =? 84 then
    r ← next_task (tasks o) (n o);
    match r with
    | inl code => Ok (inl code)
    | inr k =>
      ok (set_task (fun t => mk_sltask optarg (nice t) (bus t) (sus t) (wus t) (jbus t) (jsus t) (jwus t) 1)
            (mk_options (tasks o) k (runfor o) (cpu_bind o) (debug o)))
    end
  else if c =? 98 then
    ok (set_task (fun t => let (v, j) := time_arg optarg (jbus t) in
          mk_sltask (name t) (nice t) v (sus t) (wus t) j (jsus t) (jwus t) (count t)) o)
  else if c =? 115 then
    ok (set_task (fun t => let (v, j) := time_arg optarg (jsus t) in
          mk_sltask (name t) (nice t) (bus t) v (wus t) (jbus t) j (jwus t) (count t)) o)
  else if c =? 119 then
    ok (set_task (fun t => let (v, j) := time_arg optarg (jwus t) in
          mk_sltask (name t) (nice t) (bus t) (sus t) v (jbus t) (jsus t) j (count t)) o)
  else if c =? 110 then
    ok (set_task (fun t => mk_sltask (name t) (atoi optarg) (bus t) (sus t) (wus t) (jbus t) (jsus t) (jwus t) (count t)) o)
  else if c =? 78 then
    ok (set_task (fun t => mk_sltask (name t) (nice t) (bus t) (sus t) (wus t) (jbus t) (jsus t) (jwus t) (atoi optarg)) o)
  else if c =? 82 then Ok (inr (mk_options (tasks o) (n o) (atoi optarg) (cpu_bind o) (debug o)))
  else if c =? 66 then Ok (inr (mk_options (tasks o) (n o) (runfor o) (s32 (atol optarg)) (debug o)))
  else if c =? 68 then Ok (inr (mk_options (tasks o) (n o) (runfor o) (cpu_bind o) true))
  else if c =? 104 then Ok (inl 1)
  else Ok (inr o).

Fixpoint options_loop (opts : list (Z * list Z)) (o : options) : res (Z + options) :=
  match opts with
  | [] => Ok (inr o)
  | opt :: opts =>
    r ← main_option opt o;
    match r with inl code => Ok (inl code) | inr o => options_loop opts o end
  end.

(** The tasks of a command line of [ac] words. *)
Definition main_options (ac : nat) (opts : list (Z * list Z)) : res (Z + options) :=
  r ← options_loop opts (mk_options (replicate ac task0) (-1) 0 (-1) false);
  match r with
  | inl code => Ok (inl code)
  | inr o =>
    if n o <? 0 then Ok (inl 1)
    else
      r ← next_task (tasks o) (n o);
      match r with
      | inl code => Ok (inl code)
      | inr k => Ok (inr (mk_options (take (Z.to_nat k) (tasks o)) k (runfor o) (cpu_bind o) (debug o)))
      end
  end.
End options.

(** ** A child *)
Class Kernel (W : Type) := {
  k_time : W -> Z * W;               (* getustime *)
  k_burn : Z -> W -> W;
  k_usleep : Z -> W -> W;
  k_stopped : W -> bool              (* stop_test *)
}.

Record slreport := mk_slreport { missd : Z; time : Z }.

Section child.
Context {W : Type} `{!Kernel W} (t : sltask).

Record child := mk_child { world : W; rand : Z; rep : slreport }.

Definition timed (v j : Z) : M child Z := fun c =>
  match jval v j (rand c) with
  | Ok (r, next) => Ok (r, mk_child (world c) next (rep c))
  | Fault => Fault
  | NoFuel => NoFuel
  end.
Definition now : M child Z := fun c =>
  let (v, w) := k_time (world c) in Ok (v, mk_child w (rand c) (rep c)).
Definition act (f : W -> W) : M child unit := puts (fun c => mk_child (f (world c)) (rand c) (rep c)).
Definition report (f : slreport -> slreport) : M child unit :=
  puts (fun c => mk_child (world c) (rand c) (f (rep c))).

Definition burn_part : M child unit :=
  if bus t =? 0 then mret tt else
  b ← timed (bus t) (jbus t);
  act (k_burn b);;
  report (fun r => mk_slreport (missd r) (u64 (time r + b))).

Definition sleep_part : M child unit :=
  if sus t =? 0 then mret tt else s ← timed (sus t) (jsus t); act (k_usleep s).

Definition wait_part (ts : Z) : M child unit :=
  if wus t =? 0 then mret tt else
  w ← timed (wus t) (jwus t);
  tn ← now;
  if tn <? u64 (ts + w) then act (k_usleep (u64 (ts + w - tn)))
  else report (fun r => mk_slreport (u64 (missd r + 1)) (time r)).

Fixpoint child_loop (fuel : nat) : M child unit :=
  match fuel with
  | O => nofuel
  | S fuel =>
    c ← gets id;
    if k_stopped (world c) then mret tt else
    ts ← now;
    burn_part;;
    sleep_part;;
    wait_part ts;;
    child_loop fuel
  end.
End child.

(** ** The parent: the total of the reports *)
Fixpoint totcpu (reps : list slreport) (acc : Z) : Z :=
  match reps with [] => acc | r :: reps => totcpu reps (u64 (acc + time r)) end.

(** ** Proofs *)
Lemma ilog2_loop_ok fuel : forall v l, 0 <= v < 2 ^ (Z.of_nat fuel - 1) ->
  ilog2_loop fuel v l = Ok (if v =? 0 then l else l + Z.log2 v + 1).
Proof.
  induction fuel as [|fuel IH]; intros v l Hv; [change (2 ^ (Z.of_nat 0 - 1)) with 0 in Hv; lia|]. cbn [ilog2_loop].
  destruct (Z.eqb_spec v 0) as [->|Hne]; [done|].
  assert (Hf : 1 <= Z.of_nat fuel).
  { destruct fuel; [|lia]. change (2 ^ (Z.of_nat 1 - 1)) with 1 in Hv. lia. }
  replace (Z.of_nat (S fuel) - 1) with (Z.succ (Z.of_nat fuel - 1)) in Hv by lia.
  rewrite Z.pow_succ_r in Hv by lia. rewrite Z.shiftr_div_pow2 by lia. change (2 ^ 1) with 2.
  rewrite IH by (split; [apply Z.div_pos; lia|apply Z.div_lt_upper_bound; lia]).
  destruct (Z.eqb_spec (v / 2) 0) as [H0|H0].
  - apply Z.div_small_iff in H0; [|lia]. assert (v = 1) as -> by lia.
    change (Z.log2 1) with 0. f_equal. lia.
  - pose proof (Z.mod_pos_bound v 2 ltac:(lia)) as Hm. pose proof (Z.div_mod v 2 ltac:(lia)) as Hdm.
    assert (0 < v / 2) by (pose proof (Z.div_pos v 2); lia).
    assert (Z.log2 v = Z.log2 (v / 2) + 1) as ->; [|f_equal; lia].
    destruct (Z.eq_dec (v mod 2) 0) as [E|E].
    + rewrite Hdm at 1. rewrite E, Z.add_0_r, Z.log2_double by done. lia.
    + assert (v mod 2 = 1) as E1 by lia. rewrite Hdm at 1. rewrite E1, Z.log2_succ_double by done. lia.
Qed.

(** [x] is the time [v] within the jitter [j]. *)
Definition near (v j x : Z) : Prop :=
  (j = 0 -> x = v) /\ (0 < j < v -> v - j <= x < v + j) /\ (0 < j -> v <= j -> 0 <= x < 2 * j).

Lemma jval_near v jitter next : 0 <= v < 2 ^ 63 -> 0 <= next < 2 ^ 64 -> 0 <= jitter < 2 ^ 62 ->
  exists v', jval v jitter next = Ok (v', if 0 <? jitter then myrand None next else next) /\ near v jitter v'.
Proof.
  intros Hv Hn Hj. unfold jval, near. destruct (Z.ltb_spec 0 jitter) as [H0|H0].
  2:{ exists v. split; [done|]. lia. }
  rewrite (u64_small (2 * jitter)) by lia. unfold ilog2.
  rewrite ilog2_loop_ok by (change (Z.of_nat 65 - 1) with 64; lia).
  rewrite (proj2 (Z.eqb_neq (2 * jitter) 0)) by lia. rewrite res_bind_ok.
  assert (Z.log2 (2 * jitter) < 63) by (apply Z.log2_lt_pow2; lia).
  rewrite (proj2 (Z.ltb_ge (64 - (0 + Z.log2 (2 * jitter) + 1) - 1) 0)) by lia. cbn [orb].
  set (r := Z.shiftr _ _ mod (2 * jitter)). assert (Hr : 0 <= r < 2 * jitter) by (apply Z.mod_pos_bound; lia).
  eexists. split; [done|]. split; [lia|]. split.
  - intros Hjv. rewrite (proj2 (Z.ltb_lt jitter v)) by lia. rewrite u64_small by lia. lia.
  - intros _ Hvj. rewrite (proj2 (Z.ltb_ge jitter v)) by lia. rewrite u64_small by lia. lia.
Qed.



(** An option of a task before the first [-T] is written in front of the table. *)
Lemma option_before_task malloc ac c optarg opts : c = 98 \/ c = 115 \/ c = 119 \/ c = 110 \/ c = 78 ->
  main_options malloc ac ((c, optarg) :: opts) = Fault.
Proof. by intros [->|[->|[->|[->| ->]]]]. Qed.
