(* ===== verification/StackPool.v ===== *)
(** * pth-stk-test.c: threads on stacks of the program

    Main starts [nt] threads on stacks it mapped, waits for threads that finish,
    unmaps their stacks and starts others in their place until [nt_total] were
    started.  The steps are those of main and of the threads under the mutex; a wait
    may end for no reason, as POSIX allows.  A stack that cannot be mapped or a thread
    that cannot be created ends the program; the mapped stacks are the slots that are not
    free. *)
From Stdlib Require Import ZArith Lia Bool.
From stdpp Require Import base tactics list sets.
From S2P Require Import Prelude Steps.

Definition NT_MAX : Z := 400.
Definition NT_TOTAL : Z := 1200.

(** The slots of [tt]: no thread; a thread in [thread_proc]; one that is in [tlst]. *)
Inductive slot := Free | Running | Finished.
#[export] Instance slot_eq_dec : EqDecision slot.
Proof. solve_decision. Defined.

(** Where main is: creating the first threads; in [pthread_cond_wait]; woken, to take
    the mutex; in the inner loop; behind the outer loop; in [exit(1)]. *)
Inductive phase := Creating (i : nat) | Waiting | Woken | Draining | Done | Failed.

Record state := mk_state {
  tt : list slot; tlst : list nat; completed : Z; running : Z; main : phase
}.

(** The number of first threads, as main bounds it. *)
Definition first_threads (nt : Z) : Z := if NT_MAX <? nt then NT_MAX else nt.

Definition set_main (p : phase) (s : state) : state := mk_state (tt s) (tlst s) (completed s) (running s) p.

(** The test of the outer loop. *)
Definition outer_loop (s : state) : state := set_main (if 0 <? running s then Waiting else Done) s.

(** The list gets a thread, and [cnd] is signalled. *)
Definition thread_proc (i : nat) (s : state) : state :=
  mk_state (<[i := Finished]> (tt s)) (i :: tlst s) (completed s) (running s)
    (match main s with Waiting => Woken | p => p end).

(** A turn of the inner loop for the thread [th]; [can] tells whether another can be
    created in its place. *)
Definition drain (nt_total : Z) (th : nat) (rest : list nat) (can : bool) (s : state) : state :=
  let completed := completed s + 1 in
  let running := running s - 1 in
  if nt_total <=? completed + running
  then mk_state (<[th := Free]> (tt s)) rest completed running Draining
  else if can then mk_state (<[th := Running]> (tt s)) rest completed (running + 1) Draining
  else mk_state (<[th := Free]> (tt s)) rest completed running Failed.

Section pool.
Context (nt : nat) (nt_total : Z).

Inductive step : state -> state -> Prop :=
| step_create i s : main s = Creating i -> (i < nt)%nat ->
    step s (mk_state (<[i := Running]> (tt s)) (tlst s) (completed s) (running s + 1) (Creating (S i)))
| step_cannot i s : main s = Creating i -> (i < nt)%nat -> step s (set_main Failed s)
| step_created s : main s = Creating nt -> step s (outer_loop s)
| step_thread i s : tt s !! i = Some Running -> main s <> Draining -> main s <> Failed -> step s (thread_proc i s)
| step_woken s : main s = Woken -> step s (set_main Draining s)
| step_drain th rest can s : main s = Draining -> tlst s = th :: rest -> step s (drain nt_total th rest can s)
| step_drained s : main s = Draining -> tlst s = [] -> step s (outer_loop s).

Definition spurious (s s' : state) : Prop := main s = Waiting /\ s' = set_main Woken s.

Definition state0 : state := mk_state (replicate nt Free) [] 0 0 (Creating 0).

Inductive reach : state -> Prop :=
| reach0 : reach state0
| reach_step s s' : reach s -> step s s' -> reach s'
| reach_spurious s s' : reach s -> spurious s s' -> reach s'.

(** ** The invariant *)
(** How many threads of the first ones are created. *)
Definition started (s : state) : nat := match main s with Creating i => i | _ => nt end.

Record inv (s : state) : Prop := {
  inv_len : length (tt s) = nt;
  inv_started : (started s <= nt)%nat;
  inv_nodup : NoDup (tlst s);
  inv_tlst : forall i, i ∈ tlst s <-> tt s !! i = Some Finished;
  inv_fresh : forall i, (started s <= i < nt)%nat -> tt s !! i = Some Free;
  inv_running : running s = count Running (tt s) + count Finished (tt s);
  inv_completed : match main s with Creating i => completed s = 0 /\ running s = Z.of_nat i | _ => True end;
  inv_sum : match main s with
            | Creating _ => True
            | Failed => completed s + running s <= nt_total
            | _ => Z.of_nat nt <= completed s + running s <= nt_total /\ 0 <= completed s /\
                   (running s < Z.of_nat nt -> completed s + running s = nt_total)
            end;
  inv_done : main s = Done -> running s = 0
}.

Lemma inv_outer s : inv s -> (forall i, main s = Creating i -> i = nt) -> main s <> Failed -> Z.of_nat nt <= nt_total -> inv (outer_loop s).
Proof.
  intros [] Hm Hnf Hle. unfold outer_loop, set_main. pose proof (count_nonneg Running (tt s)). pose proof (count_nonneg Finished (tt s)).
  assert (Hst : started s = nt) by (unfold started; destruct (main s) eqn:E; [by apply Hm|done..]).
  assert (Hsum : Z.of_nat nt <= completed s + running s <= nt_total /\ 0 <= completed s /\
                   (running s < Z.of_nat nt -> completed s + running s = nt_total)).
  { destruct (main s) as [i| | | | |] eqn:E; try done. destruct inv_completed0 as [-> Hr].
    rewrite (Hm i eq_refl) in Hr. rewrite Hr. lia. }
  destruct (Z.ltb_spec 0 (running s)); split; try done; cbn [tt tlst completed running main started];
    try (by intros i Hi; lia); lia.
Qed.
Lemma inv_create i s : inv s -> main s = Creating i -> (i < nt)%nat ->
  inv (mk_state (<[i := Running]> (tt s)) (tlst s) (completed s) (running s + 1) (Creating (S i))).
Proof.
  intros [] Hm Hi. unfold started in *. rewrite Hm in *. destruct inv_completed0 as [Hc Hr].
  assert (Hf : tt s !! i = Some Free) by (apply inv_fresh0; lia).
  split; unfold started; cbn [tt tlst completed running main]; try done; try lia.
  - by rewrite length_insert.
  - intros j. rewrite inv_tlst0. destruct (decide (j = i)) as [->|].
    + rewrite list_lookup_insert_eq by lia. rewrite Hf. done.
    + by rewrite list_lookup_insert_ne.
  - intros j Hj. rewrite list_lookup_insert_ne by lia. apply inv_fresh0. lia.
  - rewrite !(count_insert _ _ _ _ _ Hf). repeat (case_decide; try done). lia.
Qed.

Lemma inv_thread i s : inv s -> tt s !! i = Some Running -> main s <> Draining -> inv (thread_proc i s).
Proof.
  intros [] Hi Hm. unfold thread_proc. assert (Hni : i ∉ tlst s) by (rewrite inv_tlst0; congruence).
  assert (Hst : started (mk_state (<[i:=Finished]> (tt s)) (i :: tlst s) (completed s) (running s)
    (match main s with Waiting => Woken | p => p end)) = started s) by (unfold started; cbn; by destruct (main s)).
  split; rewrite ?Hst; cbn [tt tlst completed running main]; try done.
  - by rewrite length_insert.
  - by constructor.
  - intros j. rewrite elem_of_cons, inv_tlst0. destruct (decide (j = i)) as [->|].
    + rewrite list_lookup_insert_eq by (by eapply lookup_lt_Some). naive_solver.
    + rewrite list_lookup_insert_ne by done. naive_solver.
  - intros j Hj. rewrite list_lookup_insert_ne; [by apply inv_fresh0|]. intros ->.
    specialize (inv_fresh0 j Hj). congruence.
  - rewrite !(count_insert _ _ _ _ _ Hi). repeat (case_decide; try done). lia.
  - by destruct (main s).
  - by destruct (main s).
  - intros Hd. apply inv_done0. by destruct (main s).
Qed.

Lemma inv_drain th rest can s : inv s -> main s = Draining -> tlst s = th :: rest -> inv (drain nt_total th rest can s).
Proof.
  intros [] Hm Hl. unfold started in *. rewrite Hm, Hl in *. destruct inv_sum0 as (Hs & Hc & Hfull).
  apply NoDup_cons in inv_nodup0 as [Hni Hnd].
  assert (Hth : tt s !! th = Some Finished) by (apply inv_tlst0; by left).
  assert (Hlist : forall x, x <> Finished -> forall j, j ∈ rest <-> <[th := x]> (tt s) !! j = Some Finished).
  { intros x Hx j. destruct (decide (j = th)) as [->|].
    - rewrite list_lookup_insert_eq by (by eapply lookup_lt_Some). split; [done|congruence].
    - rewrite list_lookup_insert_ne, <- inv_tlst0 by done. set_solver. }
  unfold drain. destruct (Z.leb_spec nt_total (completed s + 1 + (running s - 1))); [|destruct can];
    (split; unfold started; cbn [tt tlst completed running main]; try done; try lia;
     [by rewrite length_insert|by apply Hlist|
      rewrite !(count_insert _ _ _ _ _ Hth); repeat (case_decide; try done); lia]).
Qed.

Lemma inv_set_main p s : inv s -> (main s = Woken /\ p = Draining \/ main s = Waiting /\ p = Woken) -> inv (set_main p s).
Proof. intros [] Hp. unfold started in *. by destruct Hp as [[Hm ->]|[Hm ->]]; rewrite Hm in *; split. Qed.

Lemma inv_cannot i s : inv s -> main s = Creating i -> (i < nt)%nat -> Z.of_nat nt <= nt_total -> inv (set_main Failed s).
Proof.
  intros [] Hm Hi Hle. unfold started in *. rewrite Hm in *. destruct inv_completed0 as [Hc Hr].
  split; unfold started; cbn [set_main tt tlst completed running main]; try done; try lia.
Qed.

Lemma inv_step s s' : Z.of_nat nt <= nt_total -> inv s -> step s s' -> inv s'.
Proof.
  intros Hle Hs Hst. destruct Hst as [i s Hm Hi|i s Hm Hi|s Hm|i s Hi Hm Hf|s Hm|th rest can s Hm Hl|s Hm Hl].
  - by apply inv_create.
  - by apply (inv_cannot i).
  - apply inv_outer; [done| | |done]; [intros i Hi|]; congruence.
  - by apply inv_thread.
  - apply inv_set_main; [done|by left].
  - by apply inv_drain.
  - apply inv_outer; [done| | |done]; [intros i Hi|]; congruence.
Qed.

Lemma inv_state0 : Z.of_nat nt <= nt_total -> inv state0.
Proof.
  intros Hle.
  split; cbn [state0 tt tlst completed running main started]; try done; try lia.
  - by rewrite length_replicate.
  - constructor.
  - intros i. split; [by intros ?%elem_of_nil|]. by intros [? _]%lookup_replicate.
  - intros i Hi. apply lookup_replicate. split; [done|lia].
  - by rewrite !count_replicate.
Qed.

Lemma stack_reach_inv s : Z.of_nat nt <= nt_total -> reach s -> inv s.
Proof.
  intros Hle. induction 1 as [|s s' Hr IH Hst|s s' Hr IH [Hm ->]]; [by apply inv_state0| |].
  - by apply (inv_step s).
  - apply inv_set_main; [done|by right].
Qed.

End pool.

(** ** Ending *)
Section ending.
Context (nt : nat) (nt_total : Z) (Hnt : Z.of_nat nt <= nt_total).
Abbreviation reach := (reach nt nt_total).

(** All first threads were done before main waited. *)
Definition hangs (s : state) : Prop := main s = Waiting /\ completed s = 0 /\ Forall (fun x => x = Finished) (tt s).

Lemma hangs_stuck s s' : hangs s -> ~ step nt nt_total s s'.
Proof.
  intros (Hm & _ & Hf) Hst. inversion Hst as [? ? Hm'|? ? Hm'|? Hm'|i ? Hi|? Hm'|? ? ? ? Hm'|? Hm']; subst; try congruence.
  rewrite Forall_lookup in Hf. by specialize (Hf i Running Hi).
Qed.

(** Main is behind its loop, or has given up. *)
Definition ended (s : state) : Prop := main s = Done \/ main s = Failed.

(** A thread that has not finished, or none is left and [Q]. *)
Definition wakeable (Q : state -> Prop) (s : state) : Prop := main s = Waiting -> Running ∈ tt s \/ Q s.

Definition phase_weight (p : phase) : Z := match p with Creating _ => 3 | Woken => 2 | Draining => 1 | Waiting | Done | Failed => 0 end.
Definition rank (s : state) : Z :=
  5 * (nt_total - (completed s + running s)) + 4 * count Running (tt s) + count Finished (tt s) + phase_weight (main s).

Lemma inv_counted s : inv nt nt_total s -> completed s + running s <= nt_total.
Proof.
  intros Hs. pose proof (inv_sum _ _ _ Hs) as H1. pose proof (inv_completed _ _ _ Hs) as H2. pose proof (inv_started _ _ _ Hs) as H3.
  unfold started in H3. destruct (main s); lia.
Qed.

Lemma rank_nonneg s : inv nt nt_total s -> 0 <= rank s.
Proof.
  intros Hs. pose proof (inv_counted s Hs). pose proof (count_nonneg Running (tt s)). pose proof (count_nonneg Finished (tt s)).
  unfold rank, phase_weight. destruct (main s); lia.
Qed.

Lemma rank_step s s' : inv nt nt_total s -> step nt nt_total s s' -> rank s' < rank s.
Proof.
  intros Hs Hst. destruct Hst as [i x Hm Hi|i x Hm Hi|x Hm|i x Hi Hm _|x Hm|th rest can x Hm Hl|x Hm Hl]; unfold rank.
  - pose proof (inv_fresh _ _ _ Hs i) as Hf. unfold started in Hf. rewrite Hm in Hf. specialize (Hf ltac:(lia)).
    cbn [tt completed running main]. rewrite Hm, !(count_insert _ _ _ _ _ Hf). repeat (case_decide; try done). cbn [phase_weight]. lia.
  - unfold set_main. cbn [tt completed running main]. rewrite Hm. cbn [phase_weight]. lia.
  - unfold outer_loop, set_main. cbn [tt completed running main]. rewrite Hm. destruct (0 <? running x); cbn [phase_weight]; lia.
  - unfold thread_proc. cbn [tt completed running main]. rewrite !(count_insert _ _ _ _ _ Hi). repeat (case_decide; try done).
    destruct (main x); cbn [phase_weight]; lia.
  - unfold set_main. cbn [tt completed running main]. rewrite Hm. cbn [phase_weight]. lia.
  - assert (Hth : tt x !! th = Some Finished) by (apply (inv_tlst _ _ _ Hs); rewrite Hl; by left).
    unfold drain. destruct (nt_total <=? _); [|destruct can]; cbn [tt completed running main]; rewrite Hm, !(count_insert _ _ _ _ _ Hth);
      repeat (case_decide; try done); cbn [phase_weight]; lia.
  - unfold outer_loop, set_main. cbn [tt completed running main]. rewrite Hm. destruct (0 <? running x); cbn [phase_weight]; lia.
Qed.

(** Only the first wait can be in vain. *)
Lemma wakeable_step Q s s' : inv nt nt_total s -> step nt nt_total s s' -> wakeable Q s ->
  ((forall i, main s <> Creating i) \/ (forall x, hangs x -> Q x)) -> wakeable Q s'.
Proof.
  intros Hs Hst Hw Hq. destruct Hst as [i x Hm Hi|i x Hm Hi|x Hm|i x Hi Hm _|x Hm|th rest can x Hm Hl|x Hm Hl]; unfold wakeable; cbn [main].
  - done.
  - done.
  - destruct Hq as [Hq|Hq]; [by destruct (Hq nt)|]. unfold outer_loop, set_main. cbn [main tt].
    destruct (0 <? running x) eqn:Hr; [|done]. intros _.
    destruct (decide (Running ∈ tt x)) as [Hin|Hin]; [by left|right]. apply Hq. split; [done|]. cbn [completed tt].
    pose proof (inv_completed _ _ _ Hs) as Hc. rewrite Hm in Hc. destruct Hc as [Hc Hrun]. split; [done|].
    apply count_all. rewrite (inv_len _ _ _ Hs). pose proof (inv_running _ _ _ Hs) as Hsum. apply count_absent in Hin. lia.
  - unfold thread_proc. cbn [main]. by destruct (main x).
  - done.
  - unfold drain. by destruct (nt_total <=? _), can.
  - unfold outer_loop, set_main. cbn [main tt]. destruct (Z.ltb_spec 0 (running x)); [|done]. intros _. left.
    destruct (decide (Running ∈ tt x)) as [Hin|Hin]; [done|exfalso]. pose proof (inv_running _ _ _ Hs) as Hsum. apply count_absent in Hin.
    assert (count Finished (tt x) = 0); [|lia]. apply count_absent. intros [i Hi]%list_elem_of_lookup.
    apply (inv_tlst _ _ _ Hs) in Hi. rewrite Hl in Hi. by apply elem_of_nil in Hi.
Qed.

Lemma pool_progress Q s : inv nt nt_total s -> wakeable Q s -> ended s \/ Q s \/ exists s', step nt nt_total s s'.
Proof.
  intros Hs Hw. unfold ended. destruct (main s) as [i| | | | |] eqn:Hm; [| | | |by left; left|by left; right]; right.
  - right. destruct (decide (i = nt)) as [->|Hi]; [by eexists; apply step_created|].
    pose proof (inv_started _ _ _ Hs) as Hst. unfold started in Hst. rewrite Hm in Hst. eexists. apply (step_create _ _ i); [done|lia].
  - destruct (Hw Hm) as [[i Hi]%list_elem_of_lookup|Hq]; [|by left]. right. eexists. apply (step_thread _ _ i); congruence.
  - right. eexists. by apply step_woken.
  - right. destruct (tlst s) as [|th rest] eqn:Hl; eexists; [by apply step_drained|by eapply (step_drain _ _ _ _ true)].
Qed.

Lemma pool_inevitable Q s : inv nt nt_total s -> wakeable Q s -> ((forall i, main s <> Creating i) \/ (forall x, hangs x -> Q x)) ->
  inevitable (step nt nt_total) (fun x => ended x \/ Q x) s.
Proof.
  intros Hs Hw Hq.
  apply (inevitable_measure (step nt nt_total) (fun x => inv nt nt_total x /\ wakeable Q x /\
    ((forall i, main x <> Creating i) \/ (forall y, hangs y -> Q y))) (fun x => Z.to_nat (rank x))); [| |done].
  - intros x x' (Hx & Hwx & Hqx) Hst. pose proof (inv_step _ _ x x' Hnt Hx Hst) as Hx'. split; [split; [done|split]|].
    + by apply (wakeable_step Q x).
    + destruct Hqx as [Hn|]; [left|by right]. intros i.
      destruct Hst as [j y Hm ?|j y Hm ?|y Hm|j y ? Hm _|y Hm|th rest can y Hm ?|y Hm ?]; cbn [main set_main outer_loop];
        [by destruct (Hn j)|done| |cbn; specialize (Hn i); by destruct (main y)|done|unfold drain; by destruct (nt_total <=? _), can|];
        by destruct (0 <? running y).
    + pose proof (rank_step x x' Hx Hst). pose proof (rank_nonneg x' Hx'). lia.
  - intros x (Hx & Hwx & _). destruct (pool_progress Q x Hx Hwx) as [?|[?|?]]; auto.
Qed.
End ending.

(** When main of pth-stk-test is behind its loop, exactly [nt_total] threads
    were completed, no thread runs and no stack is mapped any more; on the way the
    number of threads started never exceeds [nt_total], no thread is joined twice
    and [running] counts the threads that run or wait to be joined. *)
Theorem pool_total nt nt_total s : (0 < nt)%nat -> Z.of_nat nt <= nt_total -> reach nt nt_total s ->
  NoDup (tlst s) /\ running s = count Running (tt s) + count Finished (tt s) /\
  completed s + running s <= nt_total /\
  (main s = Done -> completed s = nt_total /\ Forall (fun x => x = Free) (tt s)).
Proof.
  intros Hnt Hle Hr. pose proof (stack_reach_inv _ _ _ Hle Hr) as []. split; [done|]. split; [done|]. split.
  - unfold started in *. destruct (main s); lia.
  - intros Hd. specialize (inv_done0 Hd). rewrite Hd in inv_sum0. split; [lia|].
    pose proof (count_nonneg Running (tt s)). pose proof (count_nonneg Finished (tt s)).
    assert (Hr0 : Running ∉ tt s) by (apply count_zero; lia).
    assert (Hf0 : Finished ∉ tt s) by (apply count_zero; lia).
    apply Forall_forall. intros [] Hx; [done|by destruct Hr0|by destruct Hf0].
Qed.

(** One thread, started once and joined. *)
Definition demo_end : state := mk_state [Free] [] 1 0 Done.

Lemma demo_end_reach : reach 1 1 demo_end.
Proof.
  set (s1 := mk_state [Running] [] 0 1 (Creating 1)). set (s2 := mk_state [Running] [] 0 1 Waiting).
  set (s3 := mk_state [Finished] [0%nat] 0 1 Woken). set (s4 := mk_state [Finished] [0%nat] 0 1 Draining).
  set (s5 := mk_state [Free] [] 1 0 Draining).
  assert (H1 : step 1 1 (state0 1) s1) by (apply (step_create 1 1 0 (state0 1)); [done|lia]).
  assert (H2 : step 1 1 s1 s2) by (by apply (step_created 1 1 s1)).
  assert (H3 : step 1 1 s2 s3) by (by apply (step_thread 1 1 0 s2)).
  assert (H4 : step 1 1 s3 s4) by (by apply (step_woken 1 1 s3)).
  assert (H5 : step 1 1 s4 s5) by (by apply (step_drain 1 1 0 [] true s4)).
  assert (H6 : step 1 1 s5 demo_end) by (by apply (step_drained 1 1 s5)).
  repeat (eapply reach_step; [|eassumption]). constructor.
Qed.

Lemma pool_total_witness : completed demo_end = 1 /\ Forall (fun x => x = Free) (tt demo_end).
Proof.
  destruct (pool_total 1 1 demo_end) as (_ & _ & _ & H); [lia|lia|exact demo_end_reach|].
  apply H. reflexivity.
Defined.


(** Main waits for its only thread. *)
Definition demo_waiting : state := mk_state [Running] [] 0 1 Waiting.

Lemma demo_waiting_reach : reach 1 1 demo_waiting.
Proof.
  apply (reach_step 1 1 (mk_state [Running] [] 0 1 (Creating 1))); [|by apply (step_created 1 1 (mk_state [Running] [] 0 1 (Creating 1)))].
  apply (reach_step 1 1 (state0 1)); [constructor|]. apply (step_create 1 1 0 (state0 1)); [done|lia].
Qed.


(** Main waits without looking at the list: threads that all finish before it takes
    the mutex wake nobody, and no step is left. *)
Lemma first_wakeup_lost : let s := mk_state [Finished] [0%nat] 0 1 Waiting in
  reach 1 1 s /\ forall s', ~ step 1 1 s s'.
Proof.
  intros s. split.
  - set (s1 := mk_state [Running] [] 0 1 (Creating 1)). set (s2 := mk_state [Finished] [0%nat] 0 1 (Creating 1)).
    assert (H1 : step 1 1 (state0 1) s1) by (apply (step_create 1 1 0 (state0 1)); [done|lia]).
    assert (H2 : step 1 1 s1 s2) by (by apply (step_thread 1 1 0 s1)).
    assert (H3 : step 1 1 s2 s) by (by apply (step_created 1 1 s2)).
    repeat (eapply reach_step; [|eassumption]). constructor.
  - intros s' Hst. inversion Hst as [i ? Hm|i ? Hm|? Hm|i ? Hi Hm|? Hm|? ? ? ? Hm|? Hm]; subst; try done.
    destruct i; done.
Qed.
