(* ===== verification/TokenRing.v ===== *)
(** * pipetest-4.c and eventfd-bench.c: tokens going round a ring of descriptors

    Both programs put [num_active] tokens into a ring of [num] non-blocking
    descriptors watched edge-triggered by epoll; for each descriptor reported,
    [read_cb] takes the token out and puts another in [num_active + 1] places on,
    [num_writes] times in all, and a run ends when as many tokens were read as
    written.  The descriptors are pipes in the Module [pipetest] and event counters
    in [evbench].  The kernel is a class of each Module, with an instance that does
    what pipe(7), eventfd(2) and epoll(7) say; in what order it reports the
    descriptors that are ready is an argument of the instance.  The averages of
    the samples are in [Stats]; what is printed about them is left out. *)
From Stdlib Require Import ZArith Lia Bool.
From stdpp Require Import base tactics list numbers sets strings.
From S2P Require Import Prelude Libc.

(** ** What the two programs share *)

(** Reading an array of int. *)
Definition get_at {S} (l : list Z) (i : Z) : M S Z :=
  match (if i <? 0 then None else l !! Z.to_nat i) with
  | Some x => mret x
  | None => fault
  end.

Lemma wp_get_at {S} (l : list Z) i x (s : S) (Q : Z -> S -> Prop) :
  0 <= i -> l !! Z.to_nat i = Some x -> Q x s -> wp (get_at l i) s Q.
Proof.
  intros Hi Hl HQ. unfold get_at. destruct (Z.ltb_spec i 0); [lia|]. rewrite Hl. by apply wp_ret.
Qed.

(** The number of runs. *)
Definition RUNTIMES : Z := 16.

(** A descriptor of the kernels below: bytes in the pipe or value of the counter,
    the data it is watched with, and whether its reads do not block. *)
Record chan := mk_chan { bytes : Z; data : option Z; nb : bool }.

(** The kernel: its descriptors in the order of their creation, those that became
    readable since epoll last reported them, the limit on descriptors and a clock. *)
Record sim := mk_sim { chans : list chan; armed : list nat; limit : Z; now : Z }.

Definition set_chans (l : list chan) (k : sim) : sim := mk_sim l (armed k) (limit k) (now k).
Definition arm (i : nat) (k : sim) : sim :=
  mk_sim (chans k) (if decide (i ∈ armed k) then armed k else armed k ++ [i]) (limit k) (now k).

Definition set_chan (i : nat) (c : chan) (k : sim) : sim := set_chans (<[i := c]> (chans k)) k.
Definition set_bytes (x : Z) (c : chan) : chan := mk_chan x (data c) (nb c).

Section simulation.
Context (hard : Z) (order : list nat -> list nat).

(** The calls that do not depend on what the descriptors are. *)
Definition sim_setrlimit (n : Z) : M sim Z := fun k =>
  if n <=? hard then Ok (0, mk_sim (chans k) (armed k) n (now k)) else Ok (-1, k).

Definition sim_epoll_create (n : Z) : M sim Z := fun k => Ok (if 0 <? n then 3 else -1, k).

Definition sim_nonblock (i : nat) : M sim unit := fun k =>
  match chans k !! i with
  | Some c => Ok (tt, set_chan i (mk_chan (bytes c) (data c) true) k)
  | None => Ok (tt, k)
  end.

Definition sim_add (i : nat) (d : Z) : M sim Z := fun k =>
  match chans k !! i with
  | Some c => let k := set_chan i (mk_chan (bytes c) (Some d) (nb c)) k in
              Ok (0, if 0 <? bytes c then arm i k else k)
  | None => Ok (-1, k)
  end.

Definition readable (k : sim) (i : nat) : bool :=
  match chans k !! i with Some c => (0 <? bytes c) | None => false end.

Definition sim_epoll_wait (maxevents : Z) : M sim (list Z) := fun k =>
  let rd := order (filter (fun i => readable k i = true) (armed k)) in
  let m := Z.to_nat maxevents in
  Ok (omap (fun i => chans k !! i ≫= data) (take m rd), mk_sim (chans k) (drop m rd) (limit k) (now k)).

Definition sim_gettimeofday : M sim (Z * Z) := fun k =>
  Ok ((now k / 1000000, now k mod 1000000), mk_sim (chans k) (armed k) (limit k) (now k + 1)).
End simulation.

(** A descriptor with [x] in it becomes readable when something is written. *)
Definition sim_put (i : nat) (c : chan) (x : Z) (k : sim) : sim :=
  let k := set_chan i (set_bytes x c) k in match data c with Some _ => arm i k | None => k end.

Definition sim0 : sim := mk_sim [] [] 0 0.

(** Where the token of the descriptor [i] goes. *)
Definition tgt (n a i : nat) : nat := ((i + a + 1) mod n)%nat.

(** ** pipetest-4.c *)
Module pipetest.

Class Kernel (K : Type) := {
  setrlimit : Z -> M K Z;
  epoll_create : Z -> M K Z;
  pipe : M K (option (Z * Z));
  set_nonblock : Z -> M K unit;
  epoll_ctl_add : Z -> Z -> Z -> M K Z;
  epoll_wait : Z -> Z -> M K (list Z);
  read1 : Z -> M K Z;
  write1 : Z -> M K Z;
  gettimeofday : M K (Z * Z)
}.

(** The globals that change during a run; [errs] is what goes to stderr. *)
Record state (K : Type) := mk_state {
  kern : K; count : Z; writes : Z; fired : Z; errs : list (Z * Z)
}.
Arguments mk_state {K}.
Arguments kern {K}.
Arguments count {K}.
Arguments writes {K}.
Arguments fired {K}.
Arguments errs {K}.

Section program.
Context {K : Type} `{!Kernel K}.

Definition sys {A} (m : M K A) : M (state K) A := fun s =>
  match m (kern s) with
  | Ok (a, k) => Ok (a, mk_state k (count s) (writes s) (fired s) (errs s))
  | Fault => Fault
  | NoFuel => NoFuel
  end.

Definition set_count (z : Z) : M (state K) unit :=
  puts (fun s => mk_state (kern s) z (writes s) (fired s) (errs s)).
Definition set_writes (z : Z) : M (state K) unit :=
  puts (fun s => mk_state (kern s) (count s) z (fired s) (errs s)).
Definition set_fired (z : Z) : M (state K) unit :=
  puts (fun s => mk_state (kern s) (count s) (writes s) z (errs s)).
Definition false_event (fd idx : Z) : M (state K) unit :=
  puts (fun s => mk_state (kern s) (count s) (writes s) (fired s) (errs s ++ [(fd, idx)])).

Definition getustime : M (state K) Z :=
  tm ← sys gettimeofday; mret (u64 (u64 (tm.1 * 1000000) + tm.2)).

Section run.
Context (pipes : list Z) (num_pipes num_active num_writes epfd : Z).

Definition read_cb (fd idx : Z) : M (state K) unit :=
  let widx := s32 (s32 (idx + num_active) + 1) in
  r ← sys (read1 fd);
  (if negb (r =? 0) then s ← gets id; set_count (s32 (count s + 1)) else false_event fd idx);;
  s ← gets id;
  if negb (writes s =? 0) then
    let widx := if num_pipes <=? widx then s32 (widx - num_pipes) else widx in
    wfd ← get_at pipes (s32 (s32 (2 * widx) + 1));
    sys (write1 wfd);;
    s ← gets id;
    set_writes (s32 (writes s - 1));;
    set_fired (s32 (fired s + 1))
  else mret tt.

(** What is done with the events of one [epoll_wait]. *)
Definition dispatch (evs : list Z) : M (state K) unit :=
  for_each evs (fun d => fd ← get_at pipes (u32 (2 * d)); read_cb fd (s32 d)).

(** The loop of [run_once]. *)
Fixpoint wait_loop (fuel : nat) : M (state K) unit :=
  match fuel with
  | O => nofuel
  | S fuel =>
    evs ← sys (epoll_wait epfd num_pipes);
    dispatch evs;;
    s ← gets id;
    if negb (count s =? fired s) then wait_loop fuel else mret tt
  end.

(** The results are [*work] and [*tr]. *)
Definition run_once (fuel : nat) : M (state K) (Z * Z) :=
  set_fired 0;;
  for_each (seqZ 0 num_active) (fun i =>
    wfd ← get_at pipes (s32 (s32 (i * 2) + 1));
    sys (write1 wfd);;
    s ← gets id; set_fired (s32 (fired s + 1)));;
  set_count 0;;
  set_writes num_writes;;
  ts ← getustime;
  wait_loop fuel;;
  te ← getustime;
  s ← gets id;
  mret (count s, u64 (te - ts)).
End run.

(** The options: [-n], [-a], [-w]; [None] asks for the usage text. *)
Record options := mk_options { o_pipes : Z; o_active : Z; o_writes : Z }.

Fixpoint main_options (opts : list (Z * list Z)) (o : options) : option options :=
  match opts with
  | [] => Some o
  | (c, optarg) :: opts =>
    if c =? 110 then main_options opts (mk_options (atoi optarg) (o_active o) (o_writes o))
    else if c =? 97 then main_options opts (mk_options (o_pipes o) (atoi optarg) (o_writes o))
    else if c =? 119 then main_options opts (mk_options (o_pipes o) (o_active o) (atoi optarg))
    else if c =? 113 then main_options opts o
    else None
  end.

(** The pipes are stored in [pipes] in the order of their creation. *)
Fixpoint open_pipes (n : nat) (pipes : list Z) : M (state K) (option (list Z)) :=
  match n with
  | O => mret (Some pipes)
  | S n =>
    p ← sys pipe;
    match p with
    | None => mret None
    | Some (r, w) => sys (set_nonblock r);; open_pipes n (pipes ++ [r; w])
    end
  end.

Fixpoint add_pipes (epfd : Z) (pipes : list Z) (l : list Z) : M (state K) bool :=
  match l with
  | [] => mret true
  | i :: l =>
    fd ← get_at pipes (2 * i);
    r ← sys (epoll_ctl_add epfd fd (u32 i));
    if r <? 0 then mret false else add_pipes epfd pipes l
  end.

(** The measuring loop; [inl] is an exit code. *)
Fixpoint samples (n : nat) (run : M (state K) (Z * Z)) : M (state K) (Z + list (Z * Z)) :=
  match n with
  | O => mret (inr [])
  | S n =>
    x ← run;
    if x.1 =? 0 then mret (inl 7)
    else r ← samples n run; mret (match r with inl e => inl e | inr l => inr (x :: l) end)
  end.

(** main returns its exit code and the samples taken; [calloc] says which blocks
    (number and size of the elements) are granted. *)
Definition main (fuel : nat) (calloc : Z -> Z -> bool) (opts : list (Z * list Z)) : M (state K) (Z * list (Z * Z)) :=
  match main_options opts (mk_options 200 1 50000) with
  | None => mret (1, [])
  | Some o =>
    let num_pipes := o_pipes o in
    let num_active := if num_pipes <=? o_active o then s32 (num_pipes - 1) else o_active o in
    r ← sys (setrlimit (u64 (s32 (s32 (num_pipes * 2) + 50))));
    if r =? -1 then mret (2, []) else
    if negb (calloc (u64 num_pipes) 12 && calloc (u64 (s32 (num_pipes * 2))) 4) then mret (3, []) else
    epfd ← sys (epoll_create num_pipes);
    if epfd =? -1 then mret (4, []) else
    p ← open_pipes (Z.to_nat num_pipes) [];
    match p with
    | None => mret (5, [])
    | Some pipes =>
      ok ← add_pipes epfd pipes (seqZ 0 num_pipes);
      if negb ok then mret (6, []) else
      r ← samples (Z.to_nat RUNTIMES) (run_once pipes num_pipes num_active (o_writes o) epfd fuel);
      mret (match r with inl e => (e, []) | inr l => (0, l) end)
    end
  end.
End program.

(** The kernel with pipes: the first [pipe] is 4 and 5, the next 6 and 7. *)
Definition PIPE_BUFFER : Z := 65536.
Definition reader (fd : Z) : option nat := if (4 <=? fd) && Z.even fd then Some (Z.to_nat ((fd - 4) / 2)) else None.
Definition writer (fd : Z) : option nat := if (5 <=? fd) && Z.odd fd then Some (Z.to_nat ((fd - 5) / 2)) else None.

Definition sim_pipe : M sim (option (Z * Z)) := fun k =>
  let n := Z.of_nat (length (chans k)) in
  if 6 + 2 * n <=? limit k
  then Ok (Some (4 + 2 * n, 5 + 2 * n), set_chans (chans k ++ [mk_chan 0 None false]) k)
  else Ok (None, k).

(** Reading a byte: nothing there is an error, or a wait without end. *)
Definition sim_read (fd : Z) : M sim Z := fun k =>
  match reader fd with
  | None => Ok (-1, k)
  | Some i =>
    match chans k !! i with
    | None => Ok (-1, k)
    | Some c =>
      if 0 <? bytes c then Ok (1, set_chan i (set_bytes (bytes c - 1) c) k)
      else if nb c then Ok (-1, k) else NoFuel
    end
  end.

Definition sim_write (fd : Z) : M sim Z := fun k =>
  match writer fd with
  | None => Ok (-1, k)
  | Some i =>
    match chans k !! i with
    | None => Ok (-1, k)
    | Some c => if bytes c <? PIPE_BUFFER then Ok (1, sim_put i c (bytes c + 1) k) else NoFuel
    end
  end.

#[export] Instance sim_kernel (hard : Z) (order : list nat -> list nat) : Kernel sim := {
  setrlimit := sim_setrlimit hard;
  epoll_create := sim_epoll_create;
  pipe := sim_pipe;
  set_nonblock fd := match reader fd with Some i => sim_nonblock i | None => mret tt end;
  epoll_ctl_add epfd fd d := match reader fd with Some i => sim_add i d | None => mret (-1) end;
  epoll_wait epfd n := sim_epoll_wait order n;
  read1 := sim_read;
  write1 := sim_write;
  gettimeofday := sim_gettimeofday
}.

Definition state0 : state sim := mk_state sim0 0 0 0 [].
End pipetest.


(** ** eventfd-bench.c *)
Module evbench.

Class Kernel (K : Type) := {
  setrlimit : Z -> M K Z;
  epoll_create : Z -> M K Z;
  eventfd : Z -> M K Z;
  set_nonblock : Z -> M K unit;
  epoll_ctl_add : Z -> Z -> Z -> M K Z;
  epoll_wait : Z -> Z -> M K (list Z);
  read8 : Z -> M K (Z * Z);
  write8 : Z -> Z -> M K Z;
  gettimeofday : M K (Z * Z)
}.

(** The globals that change during a run; [errs] is what goes to stderr. *)
Record state (K : Type) := mk_state {
  kern : K; count : Z; writes : Z; fired : Z; errs : list (Z * Z)
}.
Arguments mk_state {K}.
Arguments kern {K}.
Arguments count {K}.
Arguments writes {K}.
Arguments fired {K}.
Arguments errs {K}.

Section program.
Context {K : Type} `{!Kernel K}.

Definition sys {A} (m : M K A) : M (state K) A := fun s =>
  match m (kern s) with
  | Ok (a, k) => Ok (a, mk_state k (count s) (writes s) (fired s) (errs s))
  | Fault => Fault
  | NoFuel => NoFuel
  end.

Definition set_count (z : Z) : M (state K) unit :=
  puts (fun s => mk_state (kern s) z (writes s) (fired s) (errs s)).
Definition set_writes (z : Z) : M (state K) unit :=
  puts (fun s => mk_state (kern s) (count s) z (fired s) (errs s)).
Definition set_fired (z : Z) : M (state K) unit :=
  puts (fun s => mk_state (kern s) (count s) (writes s) z (errs s)).
Definition false_event (fd idx : Z) : M (state K) unit :=
  puts (fun s => mk_state (kern s) (count s) (writes s) (fired s) (errs s ++ [(fd, idx)])).

Definition getustime : M (state K) Z :=
  tm ← sys gettimeofday; mret (u64 (u64 (tm.1 * 1000000) + tm.2)).

Section run.
Context (evfds : list Z) (num_evfds num_active num_writes epfd : Z).

Definition read_cb (fd idx : Z) : M (state K) unit :=
  let widx := s32 (s32 (idx + num_active) + 1) in
  r ← sys (read8 fd);
  (if r.1 =? 8 then s ← gets id; set_count (s32 (count s + 1)) else false_event fd idx);;
  s ← gets id;
  if negb (writes s =? 0) then
    let widx := if num_evfds <=? widx then s32 (widx - num_evfds) else widx in
    wfd ← get_at evfds widx;
    sys (write8 wfd 1);;
    s ← gets id;
    set_writes (s32 (writes s - 1));;
    set_fired (s32 (fired s + 1))
  else mret tt.

(** What is done with the events of one [epoll_wait]. *)
Definition dispatch (evs : list Z) : M (state K) unit :=
  for_each evs (fun d => fd ← get_at evfds d; read_cb fd (s32 d)).

(** The loop of [run_once]. *)
Fixpoint wait_loop (fuel : nat) : M (state K) unit :=
  match fuel with
  | O => nofuel
  | S fuel =>
    evs ← sys (epoll_wait epfd num_evfds);
    dispatch evs;;
    s ← gets id;
    if negb (count s =? fired s) then wait_loop fuel else mret tt
  end.

(** The results are [*work] and [*tr]. *)
Definition run_once (fuel : nat) : M (state K) (Z * Z) :=
  set_fired 0;;
  for_each (seqZ 0 num_active) (fun i =>
    fd ← get_at evfds i;
    sys (write8 fd 1);;
    s ← gets id; set_fired (s32 (fired s + 1)));;
  set_count 0;;
  set_writes num_writes;;
  ts ← getustime;
  wait_loop fuel;;
  te ← getustime;
  s ← gets id;
  mret (count s, u64 (te - ts)).
End run.

(** The options: [-n], [-a], [-w]; [None] asks for the usage text. *)
Record options := mk_options { o_evfds : Z; o_active : Z; o_writes : Z }.

Fixpoint main_options (opts : list (Z * list Z)) (o : options) : option options :=
  match opts with
  | [] => Some o
  | (c, optarg) :: opts =>
    if c =? 110 then main_options opts (mk_options (atoi optarg) (o_active o) (o_writes o))
    else if c =? 97 then main_options opts (mk_options (o_evfds o) (atoi optarg) (o_writes o))
    else if c =? 119 then main_options opts (mk_options (o_evfds o) (o_active o) (atoi optarg))
    else if c =? 113 then main_options opts o
    else None
  end.

(** The counters are stored in [evfds] in the order of their creation. *)
Fixpoint open_evfds (n : nat) (evfds : list Z) : M (state K) (option (list Z)) :=
  match n with
  | O => mret (Some evfds)
  | S n =>
    fd ← sys (eventfd 0);
    if fd =? -1 then mret None
    else sys (set_nonblock fd);; open_evfds n (evfds ++ [fd])
  end.

Fixpoint add_evfds (epfd : Z) (evfds : list Z) (l : list Z) : M (state K) bool :=
  match l with
  | [] => mret true
  | i :: l =>
    fd ← get_at evfds i;
    r ← sys (epoll_ctl_add epfd fd (u32 i));
    if r <? 0 then mret false else add_evfds epfd evfds l
  end.

(** The measuring loop; [inl] is an exit code. *)
Fixpoint samples (n : nat) (run : M (state K) (Z * Z)) : M (state K) (Z + list (Z * Z)) :=
  match n with
  | O => mret (inr [])
  | S n =>
    x ← run;
    if x.1 =? 0 then mret (inl 7)
    else r ← samples n run; mret (match r with inl e => inl e | inr l => inr (x :: l) end)
  end.

(** main returns its exit code and the samples taken; [calloc] says which blocks
    (number and size of the elements) are granted. *)
Definition main (fuel : nat) (calloc : Z -> Z -> bool) (opts : list (Z * list Z)) : M (state K) (Z * list (Z * Z)) :=
  match main_options opts (mk_options 200 1 50000) with
  | None => mret (1, [])
  | Some o =>
    let num_evfds := o_evfds o in
    let num_active := if num_evfds <=? o_active o then s32 (num_evfds - 1) else o_active o in
    r ← sys (setrlimit (u64 (s32 (s32 (num_evfds * 2) + 50))));
    if r =? -1 then mret (2, []) else
    if negb (calloc (u64 num_evfds) 12 && calloc (u64 num_evfds) 4) then mret (3, []) else
    epfd ← sys (epoll_create num_evfds);
    if epfd =? -1 then mret (4, []) else
    p ← open_evfds (Z.to_nat num_evfds) [];
    match p with
    | None => mret (5, [])
    | Some evfds =>
      ok ← add_evfds epfd evfds (seqZ 0 num_evfds);
      if negb ok then mret (6, []) else
      r ← samples (Z.to_nat RUNTIMES) (run_once evfds num_evfds num_active (o_writes o) epfd fuel);
      mret (match r with inl e => (e, []) | inr l => (0, l) end)
    end
  end.
End program.

(** The kernel with event counters: the first is 4, the next 5. *)
Definition EVENTFD_MAX : Z := 2 ^ 64 - 2.
Definition evfd (fd : Z) : option nat := if 4 <=? fd then Some (Z.to_nat (fd - 4)) else None.

Definition sim_eventfd (x : Z) : M sim Z := fun k =>
  let n := Z.of_nat (length (chans k)) in
  if 5 + n <=? limit k then Ok (4 + n, set_chans (chans k ++ [mk_chan x None false]) k) else Ok (-1, k).

(** Reading gives the value and leaves zero; with no value it is an error, or a wait
    without end. *)
Definition sim_read (fd : Z) : M sim (Z * Z) := fun k =>
  match evfd fd with
  | None => Ok ((-1, 0), k)
  | Some i =>
    match chans k !! i with
    | None => Ok ((-1, 0), k)
    | Some c =>
      if 0 <? bytes c then Ok ((8, bytes c), set_chan i (set_bytes 0 c) k)
      else if nb c then Ok ((-1, 0), k) else NoFuel
    end
  end.

(** Writing adds to the value. *)
Definition sim_write (fd v : Z) : M sim Z := fun k =>
  match evfd fd with
  | None => Ok (-1, k)
  | Some i =>
    match chans k !! i with
    | None => Ok (-1, k)
    | Some c =>
      if bytes c + v <=? EVENTFD_MAX then Ok (8, sim_put i c (bytes c + v) k)
      else if nb c then Ok (-1, k) else NoFuel
    end
  end.

#[export] Instance sim_kernel (hard : Z) (order : list nat -> list nat) : Kernel sim := {
  setrlimit := sim_setrlimit hard;
  epoll_create := sim_epoll_create;
  eventfd := sim_eventfd;
  set_nonblock fd := match evfd fd with Some i => sim_nonblock i | None => mret tt end;
  epoll_ctl_add epfd fd d := match evfd fd with Some i => sim_add i d | None => mret (-1) end;
  epoll_wait epfd n := sim_epoll_wait order n;
  read8 := sim_read;
  write8 := sim_write;
  gettimeofday := sim_gettimeofday
}.

Definition state0 : state sim := mk_state sim0 0 0 0 [].
End evbench.

(** ** The ring *)

(** How many times [i] is in [l], for lists without repetition. *)
Definition ind (i : nat) (l : list nat) : Z := if decide (i ∈ l) then 1 else 0.

Lemma ind_in i l : i ∈ l -> ind i l = 1.
Proof. intros. unfold ind. by rewrite decide_True. Qed.
Lemma ind_out i l : i ∉ l -> ind i l = 0.
Proof. intros. unfold ind. by rewrite decide_False. Qed.
Lemma ind_ext i l l' : (i ∈ l <-> i ∈ l') -> ind i l = ind i l'.
Proof. intros H. unfold ind. repeat case_decide; tauto. Qed.
Lemma ind_range i l : 0 <= ind i l <= 1.
Proof. unfold ind. case_decide; lia. Qed.

(** A prefix of a [seqZ] fixes the element behind it. *)
Lemma seqZ_split lo n l1 x l2 : seqZ lo n = (l1 ++ x :: l2)%list ->
  x = lo + Z.of_nat (length l1) /\ Z.of_nat (length l1) < n.
Proof.
  intros H. assert (Hx : seqZ lo n !! length l1 = Some x) by (rewrite H; by apply list_lookup_middle).
  apply lookup_seqZ in Hx. lia.
Qed.

Lemma seq_snoc a n : (seq a n ++ [a + n])%nat%list = seq a (S n).
Proof. rewrite seq_S. done. Qed.

(** The places reached from different places are different. *)
Lemma tgt_lt n a i : (0 < n)%nat -> (tgt n a i < n)%nat.
Proof. intros. unfold tgt. apply Nat.mod_upper_bound. lia. Qed.

Lemma tgt_widx n a i : (i < n)%nat -> (a < n)%nat ->
  Z.of_nat (tgt n a i) = let w := Z.of_nat i + Z.of_nat a + 1 in if Z.of_nat n <=? w then w - Z.of_nat n else w.
Proof.
  intros. unfold tgt. cbn zeta. destruct (Z.leb_spec (Z.of_nat n) (Z.of_nat i + Z.of_nat a + 1)).
  - replace ((i + a + 1) mod n)%nat with (i + a + 1 - n)%nat; [lia|].
    apply (Nat.mod_unique _ _ 1); nia.
  - rewrite Nat.mod_small; lia.
Qed.

Lemma tgt_inj n a i j : (i < n)%nat -> (j < n)%nat -> (a < n)%nat -> tgt n a i = tgt n a j -> i = j.
Proof.
  intros Hi Hj Ha He. apply (f_equal Z.of_nat) in He. rewrite !tgt_widx in He by done. cbn zeta in He.
  revert He. destruct (Z.leb_spec (Z.of_nat n) (Z.of_nat i + Z.of_nat a + 1)), (Z.leb_spec (Z.of_nat n) (Z.of_nat j + Z.of_nat a + 1)); lia.
Qed.

(** A kernel in the middle of a batch of events: the descriptors [es] are still to be
    read and the tokens of this batch were put into those of [fresh]. *)
Record batch (n : nat) (k : sim) (es fresh : list nat) : Prop := {
  batch_len : length (chans k) = n;
  batch_chans : forall i, (i < n)%nat -> chans k !! i = Some (mk_chan (ind i es + ind i fresh) (Some (Z.of_nat i)) true);
  batch_armed : armed k = fresh
}.

(** What is known of the lists: [done] are the descriptors already read. *)
Record turn (n a : nat) (done es fresh : list nat) : Prop := {
  turn_nodup : NoDup (done ++ es);
  turn_lt : Forall (fun i => i < n)%nat (done ++ es);
  turn_fresh : NoDup fresh;
  turn_from : forall t, t ∈ fresh -> exists i, i ∈ done /\ t = tgt n a i
}.

Lemma turn_fresh_lt n a done es fresh : turn n a done es fresh -> Forall (fun i => i < n)%nat fresh.
Proof.
  intros [_ Hlt _ Hf]. apply Forall_forall. intros t (i & Hi & ->)%Hf. apply tgt_lt.
  rewrite Forall_app, Forall_forall in Hlt. destruct Hlt as [Hd _]. specialize (Hd i Hi). lia.
Qed.

Lemma turn_next n a done i es fresh : turn n a done (i :: es) fresh -> (a < n)%nat ->
  turn n a (done ++ [i]) es fresh /\ tgt n a i ∉ fresh /\ turn n a (done ++ [i]) es (fresh ++ [tgt n a i]).
Proof.
  intros [Hnd Hlt Hf Hfrom] Ha.
  assert (Hni : tgt n a i ∉ fresh).
  { intros (j & Hj & He)%Hfrom. rewrite Forall_forall in Hlt.
    apply tgt_inj in He as ->; [|apply Hlt; set_solver..|done].
    apply NoDup_app in Hnd as (_ & Hn & _). apply (Hn j Hj). by left. }
  assert (Hl : turn n a (done ++ [i]) es fresh).
  { split; rewrite <- ?app_assoc; try done. intros t (j & Hj & ->)%Hfrom. exists j. set_solver. }
  split; [done|]. split; [done|]. destruct Hl as [H1 H2 H3 H4]. split; [done|done| |].
  - apply NoDup_app. split_and!; [done|set_solver|apply NoDup_singleton].
  - intros t [Ht|Ht]%elem_of_app; [by apply H4|]. apply list_elem_of_singleton in Ht as ->.
    exists i. set_solver.
Qed.

(** The first tokens lie as if a batch had put them there. *)
Lemma turn_seeds n a : (a < n)%nat -> turn n a (seq (n - a - 1) a) [] (seq 0 a).
Proof.
  intros Ha. split; rewrite ?app_nil_r; try apply NoDup_seq.
  - apply Forall_forall. intros i Hi%list_elem_of_In%in_seq. lia.
  - intros t Ht%list_elem_of_In%in_seq. exists (n - a - 1 + t)%nat. split.
    + apply list_elem_of_In, in_seq. lia.
    + unfold tgt. replace (n - a - 1 + t + a + 1)%nat with (t + 1 * n)%nat by lia.
      rewrite Nat.Div0.mod_add, Nat.mod_small; lia.
Qed.

(** The tokens of a batch lie in a window of [a] places from [w] on; those they are
    replaced by lie in another, apart from the first if the ring is long enough. *)
Definition win (n a w i : nat) : Prop := exists x, (x < a)%nat /\ i = ((w + x) mod n)%nat.

Lemma win_tgt n a w i : win n a w i -> win n a (tgt n a w) (tgt n a i).
Proof.
  intros (x & Hx & ->). exists x. split; [done|]. unfold tgt. rewrite <- Nat.add_assoc, !Nat.Div0.add_mod_idemp_l.
  f_equal. lia.
Qed.

Lemma win_disjoint n a w i : (2 * a < n)%nat -> win n a w i -> ~ win n a (tgt n a w) i.
Proof.
  intros Hn (x & Hx & Hi) (y & Hy & Hi'). rewrite Hi in Hi'. unfold tgt in Hi'. rewrite Nat.Div0.add_mod_idemp_l in Hi'.
  pose proof (Nat.div_mod_eq (w + x) n) as E1. pose proof (Nat.div_mod_eq (w + a + 1 + y) n) as E2.
  rewrite Hi' in E1. set (q1 := ((w + x) / n)%nat) in *. set (q2 := ((w + a + 1 + y) / n)%nat) in *.
  destruct (Nat.le_gt_cases q2 q1); nia.
Qed.

Lemma turn_apart n a w done es fresh i : (2 * a < n)%nat -> turn n a done es fresh ->
  Forall (win n a w) (done ++ es) -> i ∈ es -> i ∉ fresh.
Proof.
  intros Hn Ht Hw Hi (j & Hj & ->)%(turn_from _ _ _ _ _ Ht). rewrite Forall_forall in Hw.
  eapply (win_disjoint n a w (tgt n a j) Hn); [apply Hw; set_solver|apply win_tgt, Hw; set_solver].
Qed.

Lemma turn_window n a w done es fresh : turn n a done es fresh -> Forall (win n a w) (done ++ es) ->
  Forall (win n a (tgt n a w)) fresh.
Proof.
  intros Ht Hw. apply Forall_forall. intros t (j & Hj & ->)%(turn_from _ _ _ _ _ Ht).
  rewrite Forall_forall in Hw. apply win_tgt, Hw. set_solver.
Qed.

Lemma win_seeds n a : (a < n)%nat -> Forall (win n a (n - a - 1)) (seq (n - a - 1) a).
Proof.
  intros Ha. apply Forall_forall. intros i Hi%list_elem_of_In%in_seq. exists (i - (n - a - 1))%nat.
  rewrite Nat.mod_small; lia.
Qed.

(** Taking the token out of the next descriptor, when nothing else is in it or one
    byte is taken at a time. *)
Lemma batch_read n k i es fresh x : batch n k (i :: es) fresh -> NoDup (i :: es) -> (i < n)%nat ->
  x = ind i fresh ->
  batch n (set_chan i (set_bytes x (mk_chan (1 + ind i fresh) (Some (Z.of_nat i)) true)) k) es fresh.
Proof.
  intros [Hl Hc Ha] [Hni Hnd]%NoDup_cons Hi ->. split; cbn [set_chan set_chans chans armed].
  - by rewrite length_insert.
  - intros j Hj. destruct (decide (j = i)) as [->|Hne].
    + rewrite list_lookup_insert_eq by lia. unfold set_bytes; cbn. by rewrite (ind_out i es).
    + rewrite list_lookup_insert_ne by done. rewrite (Hc j Hj). do 2 f_equal. f_equal. apply ind_ext. set_solver.
  - done.
Qed.

Lemma batch_write n k es fresh t : batch n k es fresh -> (t < n)%nat -> t ∉ fresh ->
  batch n (sim_put t (mk_chan (ind t es + ind t fresh) (Some (Z.of_nat t)) true) (ind t es + ind t fresh + 1) k) es (fresh ++ [t]).
Proof.
  intros [Hl Hc Ha] Ht Hnf. unfold sim_put. cbn [data].
  split; cbn [set_chan set_chans arm chans armed].
  - by rewrite length_insert.
  - intros j Hj. destruct (decide (j = t)) as [->|Hne].
    + rewrite list_lookup_insert_eq by lia. unfold set_bytes; cbn. rewrite (ind_out t fresh), (ind_in t (fresh ++ [t])) by set_solver.
      do 2 f_equal. lia.
    + rewrite list_lookup_insert_ne by done. rewrite (Hc j Hj). do 2 f_equal. f_equal. apply ind_ext. set_solver.
  - rewrite Ha. by rewrite decide_False.
Qed.

(** The next batch has the tokens of the last one, in the order of the kernel. *)
Lemma batch_wait order n k fresh m : (forall l, order l ≡ₚ l) -> batch n k [] fresh -> NoDup fresh ->
  Forall (fun i => i < n)%nat fresh -> Z.of_nat n <= m -> exists k',
  sim_epoll_wait order m k = Ok (Z.of_nat <$> order fresh, k') /\ batch n k' (order fresh) [] /\
  NoDup (order fresh) /\ Forall (fun i => i < n)%nat (order fresh) /\ length (order fresh) = length fresh.
Proof.
  intros Ho [Hl Hc Ha] Hnd Hlt Hm.
  assert (Hf : filter (fun i => readable k i = true) (armed k) = fresh).
  { rewrite Ha. apply filter_all. intros x Hx.
    rewrite Forall_forall in Hlt. unfold readable. rewrite Hc by auto. cbn. rewrite (ind_in x fresh), ind_out by set_solver. done. }
  assert (Hp : order fresh ≡ₚ fresh) by apply Ho.
  assert (Hlen : length (order fresh) = length fresh) by (by rewrite Hp).
  assert (Hn : (length fresh <= n)%nat).
  { rewrite <- (length_seq n 0). apply NoDup_incl_length; [by apply NoDup_ListNoDup|].
    intros i Hi%list_elem_of_In. apply in_seq. rewrite Forall_forall in Hlt. specialize (Hlt i Hi). lia. }
  assert (Hlt' : Forall (fun i => i < n)%nat (order fresh)) by (by rewrite Hp).
  unfold sim_epoll_wait. rewrite Hf. rewrite take_ge, drop_ge by lia. eexists. split.
  { do 2 f_equal. clear -Hc Hlt'. induction Hlt' as [|i l Hi Hl IH]; [done|].
    cbn [omap list_omap fmap list_fmap]. rewrite Hc by done. cbn. f_equal. exact IH. }
  split; [|split; [by rewrite Hp|by split]]. split; [done| |done].
  intros i Hi. cbn [chans]. rewrite Hc by done. do 2 f_equal. rewrite !(ind_out i []) by set_solver.
  rewrite (ind_ext i (order fresh) fresh) by (by rewrite Hp). lia.
Qed.

(** ** Proofs: pipetest-4.c *)
Module pipetest_proofs.
Import pipetest.

Section runs.
Context (hard : Z) (order : list nat -> list nat) (order_perm : forall l, order l ≡ₚ l).
#[local] Existing Instance sim_kernel.
#[local] Instance the_kernel : Kernel sim := sim_kernel hard order.

Lemma pt_wp_sys {A} (m : M sim A) (s : state sim) a k (Q : A -> state sim -> Prop) :
  m (kern s) = Ok (a, k) -> Q a (mk_state k (count s) (writes s) (fired s) (errs s)) -> wp (sys m) s Q.
Proof. intros Hm HQ. unfold wp, sys. by rewrite Hm. Qed.

Lemma reader_at (i : nat) : reader (4 + 2 * Z.of_nat i) = Some i.
Proof.
  unfold reader. replace (Z.even _) with true by (rewrite Z.even_add, Z.even_mul; done).
  rewrite (proj2 (Z.leb_le 4 (4 + 2 * Z.of_nat i))) by lia. cbn [andb]. f_equal.
  replace (4 + 2 * Z.of_nat i - 4) with (Z.of_nat i * 2) by lia. rewrite Z.div_mul by lia. lia.
Qed.

Lemma writer_at (i : nat) : writer (5 + 2 * Z.of_nat i) = Some i.
Proof.
  unfold writer. replace (Z.odd _) with true by (rewrite Z.odd_add, Z.odd_mul; done).
  rewrite (proj2 (Z.leb_le 5 (5 + 2 * Z.of_nat i))) by lia. cbn [andb]. f_equal.
  replace (5 + 2 * Z.of_nat i - 5) with (Z.of_nat i * 2) by lia. rewrite Z.div_mul by lia. lia.
Qed.

Lemma pt_sim_read_ok n k i es fresh : batch n k (i :: es) fresh -> NoDup (i :: es) -> (i < n)%nat ->
  exists k', sim_read (4 + 2 * Z.of_nat i) k = Ok (1, k') /\ batch n k' es fresh.
Proof.
  intros Hb Hnd Hi. pose proof (batch_chans _ _ _ _ Hb i Hi) as Hc. rewrite (ind_in i (i :: es)) in Hc by (by left).
  pose proof (ind_range i fresh). eexists. unfold sim_read. rewrite reader_at, Hc. cbn [bytes nb].
  rewrite (proj2 (Z.ltb_lt 0 (1 + ind i fresh))) by lia. split; [done|]. apply batch_read; try done. lia.
Qed.

Lemma pt_sim_write_ok n k t es fresh : batch n k es fresh -> (t < n)%nat -> t ∉ fresh ->
  exists k', sim_write (5 + 2 * Z.of_nat t) k = Ok (1, k') /\ batch n k' es (fresh ++ [t]).
Proof.
  intros Hb Ht Hnf. pose proof (batch_chans _ _ _ _ Hb t Ht) as Hc.
  pose proof (ind_range t es). pose proof (ind_range t fresh). eexists. unfold sim_write. rewrite writer_at, Hc. cbn [bytes].
  rewrite (proj2 (Z.ltb_lt (ind t es + ind t fresh) PIPE_BUFFER)) by (unfold PIPE_BUFFER; lia).
  split; [done|]. by apply batch_write.
Qed.

Context (n a : nat) (num_writes : Z).
Hypothesis a_lt : (a < n)%nat.
Hypothesis n_small : 2 * Z.of_nat n + 50 < 2 ^ 31.
Hypothesis writes_nonneg : 0 <= num_writes.
Hypothesis total_small : Z.of_nat a + num_writes < 2 ^ 31.

Let pipes : list Z := seqZ 4 (2 * Z.of_nat n).

Lemma pipes_at i (s : state sim) (Q : Z -> state sim -> Prop) : 0 <= i < 2 * Z.of_nat n -> Q (4 + i) s -> wp (get_at pipes i) s Q.
Proof.
  intros Hi HQ. apply (wp_get_at _ _ (4 + i)); [lia| |done]. apply lookup_seqZ. lia.
Qed.

(** The counters of the program during a batch. *)
Record counters (total : Z) (s : state sim) (done es fresh : list nat) : Prop := {
  c_batch : batch n (kern s) es fresh;
  c_turn : turn n a done es fresh;
  c_writes : 0 <= writes s;
  c_count : 0 <= count s;
  c_fired : fired s = count s + Z.of_nat (length es) + Z.of_nat (length fresh);
  c_total : fired s + writes s = total;
  c_fresh : writes s = 0 \/ length fresh = length done;
  c_errs : errs s = []
}.

Lemma pt_wp_read_cb total s done i es fresh : total < 2 ^ 31 -> counters total s done (i :: es) fresh ->
  wp (read_cb pipes (Z.of_nat n) (Z.of_nat a) (4 + 2 * Z.of_nat i) (Z.of_nat i)) s (fun _ s' =>
    exists fresh', counters total s' (done ++ [i]) es fresh' /\ count s' = count s + 1).
Proof.
  intros Ht [Hb Htu Hw Hc Hf Htot Hfr He]. assert (Hi : (i < n)%nat).
  { pose proof (turn_lt _ _ _ _ _ Htu) as Hl. rewrite Forall_forall in Hl. apply Hl. set_solver. }
  pose proof (turn_nodup _ _ _ _ _ Htu) as (_ & _ & Hnd)%NoDup_app.
  destruct (turn_next _ _ _ _ _ _ Htu a_lt) as (Ht1 & Hni & Ht2).
  destruct (pt_sim_read_ok _ _ _ _ _ Hb Hnd Hi) as (k & Hr & Hb1). cbn [length] in Hf.
  unfold read_cb. apply wp_bind. eapply pt_wp_sys; [exact Hr|]. cbn [Z.eqb negb].
  apply wp_bind, wp_bind, wp_get, wp_puts. apply wp_bind, wp_get. cbn [writes count kern fired errs].
  rewrite (s32_small (count s + 1)) by lia.
  destruct (Z.eqb_spec (writes s) 0) as [H0|H0]; cbn [negb].
  - apply wp_ret. exists fresh. split; [|done]. split; cbn [writes count kern fired errs]; try done; try lia; by left.
  - destruct (pt_sim_write_ok _ _ (tgt n a i) _ _ Hb1 (tgt_lt n a i ltac:(lia)) Hni) as (k' & Hwr & Hb2).
    pose proof (tgt_widx n a i Hi a_lt) as Hwx. cbn zeta in Hwx.
    rewrite (s32_small (Z.of_nat i + Z.of_nat a)), (s32_small (Z.of_nat i + Z.of_nat a + 1)) by lia.
    rewrite (s32_small (Z.of_nat i + Z.of_nat a + 1 - Z.of_nat n)) by lia. rewrite <- Hwx.
    pose proof (tgt_lt n a i ltac:(lia)) as Htl. 
    rewrite (s32_small (2 * Z.of_nat (tgt n a i))), (s32_small (2 * Z.of_nat (tgt n a i) + 1)) by lia.
    apply wp_bind, pipes_at; [lia|]. replace (4 + (2 * Z.of_nat (tgt n a i) + 1)) with (5 + 2 * Z.of_nat (tgt n a i)) by lia.
    apply wp_bind. eapply pt_wp_sys; [exact Hwr|]. cbn [writes count kern fired errs].
    apply wp_bind, wp_get, wp_bind, wp_puts, wp_puts. cbn [writes count kern fired errs].
    rewrite (s32_small (writes s - 1)), (s32_small (fired s + 1)) by lia.
    exists (fresh ++ [tgt n a i]). split; [|done]. cbn [length] in Hfr.
    split; cbn [writes count kern fired errs]; rewrite ?length_app; cbn [length]; try done; lia.
Qed.

Lemma pt_wp_dispatch total es : forall s done fresh, total < 2 ^ 31 -> counters total s done es fresh ->
  wp (dispatch pipes (Z.of_nat n) (Z.of_nat a) (Z.of_nat <$> es)) s (fun _ s' =>
    exists fresh', counters total s' (done ++ es) [] fresh' /\ count s' = count s + Z.of_nat (length es)).
Proof.
  unfold dispatch. induction es as [|i es IH]; intros s done fresh Ht Hc; cbn [fmap list_fmap for_each].
  { apply wp_ret. exists fresh. rewrite app_nil_r. cbn [length]. split; [done|lia]. }
  assert (Hi : (i < n)%nat).
  { pose proof (turn_lt _ _ _ _ _ (c_turn _ _ _ _ _ Hc)) as Hl. rewrite Forall_forall in Hl. apply Hl. set_solver. }
  apply wp_bind, wp_bind. rewrite u32_small by lia. apply pipes_at; [lia|]. rewrite s32_small by lia.
  eapply wp_mono; [by eapply pt_wp_read_cb|]. intros [] s1 (fr1 & Hc1 & Hn1).
  eapply wp_mono; [by eapply IH|]. intros [] s2 (fr2 & Hc2 & Hn2). exists fr2.
  rewrite <- app_assoc in Hc2. split; [done|]. cbn [length]. lia.
Qed.

(** Between two batches: nothing is in the hands of the program. *)
Lemma pt_counters_next total s done fresh : counters total s done [] fresh ->
  exists k', sim_epoll_wait order (Z.of_nat n) (kern s) = Ok (Z.of_nat <$> order fresh, k') /\
    length (order fresh) = length fresh /\
    counters total (mk_state k' (count s) (writes s) (fired s) (errs s)) [] (order fresh) [].
Proof.
  intros [Hb Htu Hw Hc Hf Htot Hfr He]. pose proof (turn_fresh_lt _ _ _ _ _ Htu) as Hlt.
  destruct (batch_wait order n (kern s) fresh (Z.of_nat n) order_perm Hb (turn_fresh _ _ _ _ _ Htu) Hlt)
    as (k' & Hw' & Hb' & Hnd' & Hlt' & Hlen); [lia|].
  exists k'. split; [done|]. split; [done|]. split; cbn [writes count kern fired errs]; try done.
  - split; [done|done|constructor|by intros t ?%elem_of_nil].
  - cbn [length] in *. lia.
  - by right.
Qed.

(** The loop ends, after one batch more than there are batches with a token. *)
Lemma pt_wp_wait_loop total fuel : forall s done fresh, total < 2 ^ 31 -> counters total s done [] fresh ->
  total - count s + 1 <= Z.of_nat fuel ->
  wp (wait_loop pipes (Z.of_nat n) (Z.of_nat a) 3 fuel) s (fun _ s' =>
    counters total s' [] [] [] /\ count s' = (if decide (fresh = []) then count s else total)).
Proof.
  induction fuel as [|fuel IH]; intros s done fresh Ht Hc Hfuel.
  { destruct Hc. cbn [length] in *. lia. }
  destruct (pt_counters_next _ _ _ _ Hc) as (k' & Hw & Hlen & Hc0).
  cbn [wait_loop]. apply wp_bind. eapply pt_wp_sys; [exact Hw|].
  apply wp_bind. eapply wp_mono; [by apply (pt_wp_dispatch _ _ _ _ _ Ht Hc0)|].
  intros [] s1 (fr & Hc1 & Hn1). cbn [count] in Hn1. cbn [app] in Hc1. apply wp_bind, wp_get.
  pose proof (c_fired _ _ _ _ _ Hc1) as Hf1. cbn [length] in Hf1.
  destruct (Z.eqb_spec (count s1) (fired s1)) as [Heq|Hne]; cbn [negb].
  - apply wp_ret. assert (fr = []) as -> by (destruct fr; [done|cbn [length] in *; lia]).
    split.
    + destruct Hc1 as [Hb Htu Hw1 Hc' Hf Htot Hfr He]. split; cbn [length] in *; try done; try lia.
      split; [constructor..|by intros t ?%elem_of_nil].
    + case_decide as Hd; [subst fresh; cbn [length] in *; lia|].
      destruct (c_fresh _ _ _ _ _ Hc1) as [H0|H0]; [pose proof (c_total _ _ _ _ _ Hc1); lia|].
      destruct fresh; [done|]. cbn [length] in *. lia.
  - assert (Hfr : fresh <> []).
    { intros ->. cbn [length] in *. destruct (c_fresh _ _ _ _ _ Hc1) as [H0|H0];
        assert (order [] = []) as Ho by (apply Permutation_nil, symmetry, order_perm); rewrite Ho in *;
        (destruct fr as [|t fr]; [cbn [length] in *; lia|]);
        destruct (turn_from _ _ _ _ _ (c_turn _ _ _ _ _ Hc1) t) as (j & Hj & _); [by left|set_solver|by left|set_solver]. }
    assert (1 <= Z.of_nat (length fresh)) by (destruct fresh; [done|cbn [length]; lia]).
    eapply wp_mono; [by eapply IH; [done|exact Hc1|lia]|]. intros [] s2 [Hc2 Hn2]. split; [done|]. rewrite Hn2.
    rewrite (decide_False (P := fresh = [])) by done. case_decide as Hd; [|done]. subst fr. cbn [length] in Hf1. lia.
Qed.

(** The seeds of the ring. *)
Lemma pt_wp_seeds s : batch n (kern s) [] [] -> fired s = 0 ->
  wp (for_each (seqZ 0 (Z.of_nat a)) (fun i =>
    wfd ← get_at pipes (s32 (s32 (i * 2) + 1)); sys (write1 wfd);;
    s ← gets id; set_fired (s32 (fired s + 1)))) s
  (fun _ s' => batch n (kern s') [] (seq 0 a) /\ fired s' = Z.of_nat a /\ errs s' = errs s).
Proof.
  intros Hb Hf.
  apply (wp_for_each (fun l s' => batch n (kern s') [] (seq 0 (length l)) /\ fired s' = Z.of_nat (length l) /\ errs s' = errs s)).
  - intros l1 x l2 s' Hl (Hb' & Hf' & He'). apply seqZ_split in Hl as [-> Hlt]. set (i := length l1) in *.
    rewrite Z.add_0_l, (s32_small (Z.of_nat i * 2)), (s32_small (Z.of_nat i * 2 + 1)) by lia.
    apply wp_bind, pipes_at; [lia|]. replace (4 + (Z.of_nat i * 2 + 1)) with (5 + 2 * Z.of_nat i) by lia.
    destruct (pt_sim_write_ok n (kern s') i [] (seq 0 i) Hb') as (k & Hw & Hb2); [lia| |].
    { intros Hi%list_elem_of_In%in_seq. lia. }
    apply wp_bind. eapply pt_wp_sys; [exact Hw|]. apply wp_bind, wp_get, wp_puts. cbn [writes count kern fired errs].
    rewrite length_app. cbn [length]. rewrite Nat.add_1_r, seq_S, Hf', s32_small by lia. cbn [Nat.add]. split; [done|]. split; [lia|done].
  - by rewrite Hf.
  - intros s' (Hb' & Hf' & He'). rewrite length_seqZ, Nat2Z.id in *. done.
Qed.

Lemma pt_wp_getustime s (Q : Z -> state sim -> Prop) :
  (forall t k', chans k' = chans (kern s) -> armed k' = armed (kern s) -> limit k' = limit (kern s) ->
     Q t (mk_state k' (count s) (writes s) (fired s) (errs s))) -> wp getustime s Q.
Proof. intros HQ. unfold getustime. apply wp_bind. eapply pt_wp_sys; [reflexivity|]. by apply wp_ret, HQ. Qed.

Lemma pt_batch_clock k k' es fresh : batch n k es fresh -> chans k' = chans k -> armed k' = armed k -> batch n k' es fresh.
Proof. intros [H1 H2 H3] E1 E2. split; by rewrite ?E1, ?E2. Qed.

(** What a run does to a ring without tokens: it leaves one, with all tokens counted. *)
Lemma pt_wp_run_once fuel s : batch n (kern s) [] [] -> errs s = [] ->
  Z.of_nat a + num_writes + 1 <= Z.of_nat fuel ->
  wp (run_once pipes (Z.of_nat n) (Z.of_nat a) num_writes 3 fuel) s (fun r s' =>
    r.1 = (if decide (a = 0%nat) then 0 else Z.of_nat a + num_writes) /\ batch n (kern s') [] [] /\ errs s' = []).
Proof.
  intros Hb He Hfuel. unfold run_once. apply wp_bind, wp_puts. apply wp_bind.
  eapply wp_mono; [by apply pt_wp_seeds|]. intros [] s1 (Hb1 & Hf1 & He1). cbn [errs] in He1.
  apply wp_bind, wp_puts, wp_bind, wp_puts, wp_bind, pt_wp_getustime. intros ts k1 Ec Ea _.
  cbn [writes count kern fired errs] in *. apply wp_bind.
  eapply wp_mono; [apply (pt_wp_wait_loop (Z.of_nat a + num_writes) fuel _ (seq (n - a - 1) a) (seq 0 a))|]; [done| |cbn [count]; lia|].
  - split; cbn [writes count kern fired errs length]; rewrite ?length_seq; try done; try lia; [by eapply pt_batch_clock| |congruence].
    by apply turn_seeds.
  - intros [] s2 [Hc2 Hn2]. apply wp_bind, pt_wp_getustime. intros te k2 Ec2 Ea2 _. apply wp_bind, wp_get, wp_ret. cbn [fst count kern errs] in *.
    split; [|split; [|by destruct Hc2]].
    + rewrite Hn2. destruct a; [done|]. by rewrite decide_False.
    + eapply pt_batch_clock; [by destruct Hc2|done|done].
Qed.

(** Setting up the ring. *)
Definition idle : chan := mk_chan 0 None true.

Lemma wp_open_pipes m : forall i s, (i + m = n)%nat ->
  chans (kern s) = replicate i idle -> armed (kern s) = [] -> 2 * Z.of_nat n + 4 <= limit (kern s) -> errs s = [] ->
  wp (open_pipes m (seqZ 4 (2 * Z.of_nat i))) s (fun r s' => r = Some pipes /\
    chans (kern s') = replicate n idle /\ armed (kern s') = [] /\ errs s' = []).
Proof.
  induction m as [|m IH]; intros i s Hi Hc Ha Hl He; cbn [open_pipes].
  { rewrite Nat.add_0_r in Hi. subst i. by apply wp_ret. }
  apply wp_bind. eapply pt_wp_sys.
  { cbn [pipe the_kernel sim_kernel]. unfold sim_pipe. rewrite Hc, length_replicate, (proj2 (Z.leb_le (6 + 2 * Z.of_nat i) (limit (kern s)))) by lia. reflexivity. }
  cbn [writes count kern fired errs]. apply wp_bind. eapply pt_wp_sys.
  { cbn [set_nonblock the_kernel sim_kernel kern]. rewrite reader_at. unfold sim_nonblock, set_chans. cbn [chans].
    rewrite (lookup_app_r (replicate i idle)), length_replicate, Nat.sub_diag by (by rewrite length_replicate).
    reflexivity. }
  replace (seqZ 4 (2 * Z.of_nat i) ++ [4 + 2 * Z.of_nat i; 5 + 2 * Z.of_nat i]) with (seqZ 4 (2 * Z.of_nat (S i))).
  - apply IH; cbn [writes count kern fired errs set_chan set_chans chans armed limit bytes data]; try done; [lia|].
    rewrite insert_app_r_alt, length_replicate, Nat.sub_diag by (by rewrite length_replicate).
    by rewrite replicate_S_end.
  - replace (2 * Z.of_nat (S i)) with (2 * Z.of_nat i + 2) by lia. rewrite seqZ_app by lia. f_equal.
    change (seqZ (4 + 2 * Z.of_nat i) 2) with [4 + 2 * Z.of_nat i + 0; 4 + 2 * Z.of_nat i + 1] || idtac.
    rewrite seqZ_cons, seqZ_cons, seqZ_nil by lia. do 2 (f_equal; try lia).
Qed.

Lemma wp_add_pipes m : forall i s, (i + m = n)%nat -> length (chans (kern s)) = n -> armed (kern s) = [] -> errs s = [] ->
  (forall j, (j < n)%nat -> chans (kern s) !! j = Some (if decide (j < i)%nat then mk_chan 0 (Some (Z.of_nat j)) true else idle)) ->
  wp (add_pipes 3 pipes (seqZ (Z.of_nat i) (Z.of_nat m))) s (fun ok s' => ok = true /\ batch n (kern s') [] [] /\ errs s' = []).
Proof.
  induction m as [|m IH]; intros i s Hi Hl Ha He Hc.
  - cbn. apply wp_ret. split; [done|]. split; [|done]. split; [done| |done].
    intros j Hj. rewrite Hc, decide_True by lia. by rewrite !ind_out by set_solver.
  - rewrite seqZ_cons by lia. cbn [add_pipes]. apply wp_bind, pipes_at; [lia|]. apply wp_bind. eapply pt_wp_sys.
    { cbn [epoll_ctl_add the_kernel sim_kernel]. rewrite reader_at. unfold sim_add. rewrite Hc, decide_False by lia. reflexivity. }
    cbn [Z.ltb Z.compare idle bytes nb]. replace (Z.succ (Z.of_nat i)) with (Z.of_nat (S i)) by lia.
    replace (Z.pred (Z.of_nat (S m))) with (Z.of_nat m) by lia.
    apply IH; cbn [writes count kern fired errs set_chan set_chans chans armed limit bytes data]; try done; [lia|by rewrite length_insert|].
    intros j Hj. rewrite u32_small by lia. destruct (decide (j = i)) as [->|].
    + rewrite list_lookup_insert_eq, decide_True by lia. done.
    + rewrite list_lookup_insert_ne, Hc by done. repeat case_decide; try done; lia.
Qed.

(** The measuring loop. *)
Lemma pt_wp_samples m fuel : (0 < a)%nat -> 0 < Z.of_nat a + num_writes + 1 <= Z.of_nat fuel ->
  forall s, batch n (kern s) [] [] -> errs s = [] ->
  wp (samples m (run_once pipes (Z.of_nat n) (Z.of_nat a) num_writes 3 fuel)) s (fun r s' =>
    exists l, r = inr l /\ length l = m /\ Forall (fun x => x.1 = Z.of_nat a + num_writes) l /\ errs s' = []).
Proof.
  intros Ha Hfuel. induction m as [|m IH]; intros s Hb He; cbn [samples].
  { apply wp_ret. by exists []. }
  apply wp_bind. eapply wp_mono; [apply pt_wp_run_once; [done|done|lia]|]. intros x s1 (Hx & Hb1 & He1).
  rewrite decide_False in Hx by lia. rewrite (proj2 (Z.eqb_neq x.1 0)) by lia.
  apply wp_bind. eapply wp_mono; [by apply IH|]. intros r s2 (l & -> & Hl & Hf & He2). apply wp_ret.
  exists (x :: l). cbn [length]. rewrite Hl. split_and!; try done. by constructor.
Qed.
End runs.
End pipetest_proofs.

(** pipetest-4 with any options for at least two pipes, a positive number of
    tokens (at most one less than there are pipes is used) and a number of writes
    ends with success: each of its 16 runs returns having counted every token put in
    at the start and every one of the writes, reads nothing else, and no event is
    false, whatever the order in which epoll reports the pipes. *)
Theorem pipetest_main hard order calloc opts o fuel :
  (forall l, order l ≡ₚ l) ->
  pipetest.main_options opts (pipetest.mk_options 200 1 50000) = Some o ->
  let n := pipetest.o_pipes o in
  let a := Z.min (pipetest.o_active o) (n - 1) in
  0 < a -> 2 * n + 50 < 2 ^ 31 -> 2 * n + 50 <= hard -> (forall c z, calloc c z = true) ->
  0 <= pipetest.o_writes o -> a + pipetest.o_writes o < 2 ^ 31 -> a + pipetest.o_writes o < Z.of_nat fuel ->
  exists l s', pipetest.main (Kernel0 := pipetest.sim_kernel hard order) fuel calloc opts pipetest.state0 = Ok ((0, l), s') /\
    length l = 16%nat /\ Forall (fun x => x.1 = a + pipetest.o_writes o) l /\ pipetest.errs s' = [].
Proof.
  intros Ho Hopt n a Ha Hn Hhard Hcalloc Hw Hsum Hfuel.
  enough (wp (pipetest.main (Kernel0 := pipetest.sim_kernel hard order) fuel calloc opts) pipetest.state0 (fun r s' =>
    r.1 = 0 /\ length r.2 = 16%nat /\ Forall (fun x => x.1 = a + pipetest.o_writes o) r.2 /\ pipetest.errs s' = [])) as Hwp.
  { apply wp_run in Hwp as ([c l] & s' & Hm & Hc & Hl & Hf & He). cbn [fst snd] in *. subst c. by exists l, s'. }
  unfold pipetest.main. rewrite Hopt. fold n.
  assert (Hact : (if n <=? pipetest.o_active o then s32 (n - 1) else pipetest.o_active o) = Z.of_nat (Z.to_nat a)).
  { destruct (Z.leb_spec n (pipetest.o_active o)); [rewrite s32_small|]; lia. }
  rewrite Hact. rewrite (s32_small (n * 2)), (s32_small (n * 2 + 50)), (u64_small (n * 2 + 50)) by lia.
  apply wp_bind. eapply pipetest_proofs.pt_wp_sys.
  { cbn [pipetest.setrlimit pipetest.sim_kernel]. unfold sim_setrlimit. rewrite (proj2 (Z.leb_le (n * 2 + 50) hard)) by lia. reflexivity. }
  cbn [Z.eqb]. rewrite !Hcalloc. cbn [andb negb]. apply wp_bind. eapply pipetest_proofs.pt_wp_sys.
  { cbn [pipetest.epoll_create pipetest.sim_kernel]. unfold sim_epoll_create. rewrite (proj2 (Z.ltb_lt 0 n)) by lia. reflexivity. }
  cbn [Z.eqb]. set (N := Z.to_nat n). set (A := Z.to_nat a). assert (Hn' : n = Z.of_nat N) by lia. rewrite Hn'.
  apply wp_bind. eapply wp_mono.
  { apply (pipetest_proofs.wp_open_pipes hard order N A ltac:(lia)) with (i := 0%nat); cbn; try done; lia. }
  intros p s1 (-> & Hc1 & Ha1 & He1). apply wp_bind. eapply wp_mono.
  { apply (pipetest_proofs.wp_add_pipes hard order Ho N A (pipetest.o_writes o)) with (m := N) (i := 0%nat); try done; [lia..|by rewrite Hc1, length_replicate|].
    intros j Hj. rewrite Hc1, decide_False by lia. by apply lookup_replicate. }
  intros ok s2 (-> & Hb2 & He2). cbn [negb]. apply wp_bind. eapply wp_mono.
  { apply (pipetest_proofs.pt_wp_samples hard order Ho N A (pipetest.o_writes o)); try done; lia. }
  intros r s3 (l & -> & Hl & Hf & He3). apply wp_ret. cbn [fst snd]. rewrite Hl. split_and!; try done.
  eapply Forall_impl; [exact Hf|]. intros x ->. lia.
Qed.

Lemma pipetest_main_witness : exists l s',
  pipetest.main (Kernel0 := pipetest.sim_kernel 1000 reverse) 20 (fun _ _ => true)
    [(110, str "5"%string); (97, str "9"%string); (119, str "7"%string)] pipetest.state0 = Ok ((0, l), s') /\
  length l = 16%nat /\ Forall (fun x => x.1 = 11) l /\ pipetest.errs s' = [].
Proof.
  apply (pipetest_main 1000 reverse (fun _ _ => true) _ (pipetest.mk_options 5 9 7) 20); cbn; try done; try lia.
  intros l. apply reverse_Permutation.
Defined.

(** ** Proofs: eventfd-bench.c *)
Module evbench_proofs.
Import evbench.

Section runs.
Context (hard : Z) (order : list nat -> list nat) (order_perm : forall l, order l ≡ₚ l).
#[local] Existing Instance sim_kernel.
#[local] Instance the_kernel : Kernel sim := sim_kernel hard order.

Lemma ev_wp_sys {A} (m : M sim A) (s : state sim) a k (Q : A -> state sim -> Prop) :
  m (kern s) = Ok (a, k) -> Q a (mk_state k (count s) (writes s) (fired s) (errs s)) -> wp (sys m) s Q.
Proof. intros Hm HQ. unfold wp, sys. by rewrite Hm. Qed.

Lemma evfd_at (i : nat) : evfd (4 + Z.of_nat i) = Some i.
Proof. unfold evfd. rewrite (proj2 (Z.leb_le 4 (4 + Z.of_nat i))) by lia. f_equal. lia. Qed.

Lemma ev_sim_read_ok n k i es fresh : batch n k (i :: es) fresh -> NoDup (i :: es) -> (i < n)%nat -> i ∉ fresh ->
  exists k', sim_read (4 + Z.of_nat i) k = Ok ((8, 1), k') /\ batch n k' es fresh.
Proof.
  intros Hb Hnd Hi Hni. pose proof (batch_chans _ _ _ _ Hb i Hi) as Hc. rewrite (ind_in i (i :: es)) in Hc by (by left).
  pose proof (ind_out i fresh Hni) as H0. eexists. unfold sim_read. rewrite evfd_at, Hc, H0. cbn [bytes nb].
  split; [done|]. rewrite <- H0 at 2. by apply batch_read.
Qed.

Lemma ev_sim_write_ok n k t es fresh : batch n k es fresh -> (t < n)%nat -> t ∉ fresh ->
  exists k', sim_write (4 + Z.of_nat t) 1 k = Ok (8, k') /\ batch n k' es (fresh ++ [t]).
Proof.
  intros Hb Ht Hnf. pose proof (batch_chans _ _ _ _ Hb t Ht) as Hc.
  pose proof (ind_range t es). pose proof (ind_range t fresh). eexists. unfold sim_write. rewrite evfd_at, Hc. cbn [bytes].
  rewrite (proj2 (Z.leb_le (ind t es + ind t fresh + 1) EVENTFD_MAX)) by (unfold EVENTFD_MAX; lia).
  split; [done|]. by apply batch_write.
Qed.

Context (n a : nat) (num_writes : Z).
Hypothesis a_half : (2 * a < n)%nat.
Hypothesis n_small : 2 * Z.of_nat n + 50 < 2 ^ 31.
Hypothesis writes_nonneg : 0 <= num_writes.
Hypothesis total_small : Z.of_nat a + num_writes < 2 ^ 31.

Lemma a_lt : (a < n)%nat.
Proof. lia. Qed.

Let evfds : list Z := seqZ 4 (Z.of_nat n).

Lemma evfds_at i (s : state sim) (Q : Z -> state sim -> Prop) : 0 <= i < Z.of_nat n -> Q (4 + i) s -> wp (get_at evfds i) s Q.
Proof.
  intros Hi HQ. apply (wp_get_at _ _ (4 + i)); [lia| |done]. apply lookup_seqZ. lia.
Qed.

(** The counters of the program during a batch. *)
Record counters (total : Z) (s : state sim) (w : nat) (done es fresh : list nat) : Prop := {
  c_batch : batch n (kern s) es fresh;
  c_turn : turn n a done es fresh;
  c_win : Forall (win n a w) (done ++ es);
  c_writes : 0 <= writes s;
  c_count : 0 <= count s;
  c_fired : fired s = count s + Z.of_nat (length es) + Z.of_nat (length fresh);
  c_total : fired s + writes s = total;
  c_fresh : writes s = 0 \/ length fresh = length done;
  c_errs : errs s = []
}.

Lemma ev_wp_read_cb total s w done i es fresh : total < 2 ^ 31 -> counters total s w done (i :: es) fresh ->
  wp (read_cb evfds (Z.of_nat n) (Z.of_nat a) (4 + Z.of_nat i) (Z.of_nat i)) s (fun _ s' =>
    exists fresh', counters total s' w (done ++ [i]) es fresh' /\ count s' = count s + 1).
Proof.
  intros Ht [Hb Htu Hwin Hw Hc Hf Htot Hfr He]. assert (Hi : (i < n)%nat).
  { pose proof (turn_lt _ _ _ _ _ Htu) as Hl. rewrite Forall_forall in Hl. apply Hl. set_solver. }
  pose proof (turn_nodup _ _ _ _ _ Htu) as (_ & _ & Hnd)%NoDup_app.
  destruct (turn_next _ _ _ _ _ _ Htu a_lt) as (Ht1 & Hni & Ht2).
  assert (Hap : i ∉ fresh) by (apply (turn_apart n a w done (i :: es) fresh i a_half); [done|done|by left]).
  destruct (ev_sim_read_ok _ _ _ _ _ Hb Hnd Hi Hap) as (k & Hr & Hb1). cbn [length] in Hf.
  unfold read_cb. apply wp_bind. eapply ev_wp_sys; [exact Hr|]. cbn [fst]. cbn [Z.eqb Pos.eqb].
  apply wp_bind, wp_bind, wp_get, wp_puts. apply wp_bind, wp_get. cbn [writes count kern fired errs].
  rewrite (s32_small (count s + 1)) by lia.
  destruct (Z.eqb_spec (writes s) 0) as [H0|H0]; cbn [negb].
  - apply wp_ret. exists fresh. split; [|done]. split; cbn [writes count kern fired errs]; rewrite <- ?app_assoc; try done; try lia; by left.
  - destruct (ev_sim_write_ok _ _ (tgt n a i) _ _ Hb1 (tgt_lt n a i ltac:(lia)) Hni) as (k' & Hwr & Hb2).
    pose proof (tgt_widx n a i Hi a_lt) as Hwx. cbn zeta in Hwx.
    rewrite (s32_small (Z.of_nat i + Z.of_nat a)), (s32_small (Z.of_nat i + Z.of_nat a + 1)) by lia.
    rewrite (s32_small (Z.of_nat i + Z.of_nat a + 1 - Z.of_nat n)) by lia. rewrite <- Hwx.
    pose proof (tgt_lt n a i ltac:(lia)) as Htl. apply wp_bind, evfds_at; [lia|].
    apply wp_bind. eapply ev_wp_sys; [exact Hwr|]. cbn [writes count kern fired errs].
    apply wp_bind, wp_get, wp_bind, wp_puts, wp_puts. cbn [writes count kern fired errs].
    rewrite (s32_small (writes s - 1)), (s32_small (fired s + 1)) by lia.
    exists (fresh ++ [tgt n a i]). split; [|done]. cbn [length] in Hfr.
    split; cbn [writes count kern fired errs]; rewrite ?length_app, <- ?app_assoc; cbn [length]; try done; lia.
Qed.

Lemma ev_wp_dispatch total w es : forall s done fresh, total < 2 ^ 31 -> counters total s w done es fresh ->
  wp (dispatch evfds (Z.of_nat n) (Z.of_nat a) (Z.of_nat <$> es)) s (fun _ s' =>
    exists fresh', counters total s' w (done ++ es) [] fresh' /\ count s' = count s + Z.of_nat (length es)).
Proof.
  unfold dispatch. induction es as [|i es IH]; intros s done fresh Ht Hc; cbn [fmap list_fmap for_each].
  { apply wp_ret. exists fresh. rewrite app_nil_r. cbn [length]. split; [done|lia]. }
  assert (Hi : (i < n)%nat).
  { pose proof (turn_lt _ _ _ _ _ (c_turn _ _ _ _ _ _ Hc)) as Hl. rewrite Forall_forall in Hl. apply Hl. set_solver. }
  apply wp_bind, wp_bind, evfds_at; [lia|]. rewrite s32_small by lia.
  eapply wp_mono; [by eapply ev_wp_read_cb|]. intros [] s1 (fr1 & Hc1 & Hn1).
  eapply wp_mono; [by eapply IH|]. intros [] s2 (fr2 & Hc2 & Hn2). exists fr2.
  rewrite <- app_assoc in Hc2. split; [done|]. cbn [length]. lia.
Qed.

(** Between two batches: nothing is in the hands of the program. *)
Lemma ev_counters_next total s w done fresh : counters total s w done [] fresh ->
  exists k', sim_epoll_wait order (Z.of_nat n) (kern s) = Ok (Z.of_nat <$> order fresh, k') /\
    length (order fresh) = length fresh /\
    counters total (mk_state k' (count s) (writes s) (fired s) (errs s)) (tgt n a w) [] (order fresh) [].
Proof.
  intros [Hb Htu Hwin Hw Hc Hf Htot Hfr He]. pose proof (turn_fresh_lt _ _ _ _ _ Htu) as Hlt.
  destruct (batch_wait order n (kern s) fresh (Z.of_nat n) order_perm Hb (turn_fresh _ _ _ _ _ Htu) Hlt)
    as (k' & Hw' & Hb' & Hnd' & Hlt' & Hlen); [lia|].
  exists k'. split; [done|]. split; [done|]. split; cbn [writes count kern fired errs]; try done.
  - split; [done|done|constructor|by intros t ?%elem_of_nil].
  - cbn [app]. rewrite order_perm. by eapply turn_window.
  - cbn [length] in *. lia.
  - by right.
Qed.

(** The loop ends, after one batch more than there are batches with a token. *)
Lemma ev_wp_wait_loop total fuel : forall s w done fresh, total < 2 ^ 31 -> counters total s w done [] fresh ->
  total - count s + 1 <= Z.of_nat fuel ->
  wp (wait_loop evfds (Z.of_nat n) (Z.of_nat a) 3 fuel) s (fun _ s' =>
    (exists w', counters total s' w' [] [] []) /\ count s' = (if decide (fresh = []) then count s else total)).
Proof.
  induction fuel as [|fuel IH]; intros s w done fresh Ht Hc Hfuel.
  { destruct Hc. cbn [length] in *. lia. }
  destruct (ev_counters_next _ _ _ _ _ Hc) as (k' & Hw & Hlen & Hc0).
  cbn [wait_loop]. apply wp_bind. eapply ev_wp_sys; [exact Hw|].
  apply wp_bind. eapply wp_mono; [by apply (ev_wp_dispatch _ _ _ _ _ _ Ht Hc0)|].
  intros [] s1 (fr & Hc1 & Hn1). cbn [count] in Hn1. cbn [app] in Hc1. apply wp_bind, wp_get.
  pose proof (c_fired _ _ _ _ _ _ Hc1) as Hf1. cbn [length] in Hf1.
  destruct (Z.eqb_spec (count s1) (fired s1)) as [Heq|Hne]; cbn [negb].
  - apply wp_ret. assert (fr = []) as -> by (destruct fr; [done|cbn [length] in *; lia]).
    split.
    + exists w. destruct Hc1 as [Hb Htu Hwin Hw1 Hc' Hf Htot Hfr He]. split; cbn [length] in *; try done; try lia.
      split; [constructor..|by intros t ?%elem_of_nil].
    + case_decide as Hd; [subst fresh; cbn [length] in *; lia|].
      destruct (c_fresh _ _ _ _ _ _ Hc1) as [H0|H0]; [pose proof (c_total _ _ _ _ _ _ Hc1); lia|].
      destruct fresh; [done|]. cbn [length] in *. lia.
  - assert (Hfr : fresh <> []).
    { intros ->. cbn [length] in *. destruct (c_fresh _ _ _ _ _ _ Hc1) as [H0|H0];
        assert (order [] = []) as Ho by (apply Permutation_nil, symmetry, order_perm); rewrite Ho in *;
        (destruct fr as [|t fr]; [cbn [length] in *; lia|]);
        destruct (turn_from _ _ _ _ _ (c_turn _ _ _ _ _ _ Hc1) t) as (j & Hj & _); [by left|set_solver|by left|set_solver]. }
    assert (1 <= Z.of_nat (length fresh)) by (destruct fresh; [done|cbn [length]; lia]).
    eapply wp_mono; [by eapply IH; [done|exact Hc1|lia]|]. intros [] s2 [Hc2 Hn2]. split; [done|]. rewrite Hn2.
    rewrite (decide_False (P := fresh = [])) by done. case_decide as Hd; [|done]. subst fr. cbn [length] in Hf1. lia.
Qed.

(** The seeds of the ring. *)
Lemma ev_wp_seeds s : batch n (kern s) [] [] -> fired s = 0 ->
  wp (for_each (seqZ 0 (Z.of_nat a)) (fun i =>
    fd ← get_at evfds i; sys (write8 fd 1);;
    s ← gets id; set_fired (s32 (fired s + 1)))) s
  (fun _ s' => batch n (kern s') [] (seq 0 a) /\ fired s' = Z.of_nat a /\ errs s' = errs s).
Proof.
  intros Hb Hf.
  apply (wp_for_each (fun l s' => batch n (kern s') [] (seq 0 (length l)) /\ fired s' = Z.of_nat (length l) /\ errs s' = errs s)).
  - intros l1 x l2 s' Hl (Hb' & Hf' & He'). apply seqZ_split in Hl as [-> Hlt]. set (i := length l1) in *.
    rewrite Z.add_0_l.
    apply wp_bind, evfds_at; [lia|].
    destruct (ev_sim_write_ok n (kern s') i [] (seq 0 i) Hb') as (k & Hw & Hb2); [lia| |].
    { intros Hi%list_elem_of_In%in_seq. lia. }
    apply wp_bind. eapply ev_wp_sys; [exact Hw|]. apply wp_bind, wp_get, wp_puts. cbn [writes count kern fired errs].
    rewrite length_app. cbn [length]. rewrite Nat.add_1_r, seq_S, Hf', s32_small by lia. cbn [Nat.add]. split; [done|]. split; [lia|done].
  - by rewrite Hf.
  - intros s' (Hb' & Hf' & He'). rewrite length_seqZ, Nat2Z.id in *. done.
Qed.

Lemma ev_wp_getustime s (Q : Z -> state sim -> Prop) :
  (forall t k', chans k' = chans (kern s) -> armed k' = armed (kern s) -> limit k' = limit (kern s) ->
     Q t (mk_state k' (count s) (writes s) (fired s) (errs s))) -> wp getustime s Q.
Proof. intros HQ. unfold getustime. apply wp_bind. eapply ev_wp_sys; [reflexivity|]. by apply wp_ret, HQ. Qed.

Lemma ev_batch_clock k k' es fresh : batch n k es fresh -> chans k' = chans k -> armed k' = armed k -> batch n k' es fresh.
Proof. intros [H1 H2 H3] E1 E2. split; by rewrite ?E1, ?E2. Qed.

(** What a run does to a ring without tokens: it leaves one, with all tokens counted. *)
Lemma ev_wp_run_once fuel s : batch n (kern s) [] [] -> errs s = [] ->
  Z.of_nat a + num_writes + 1 <= Z.of_nat fuel ->
  wp (run_once evfds (Z.of_nat n) (Z.of_nat a) num_writes 3 fuel) s (fun r s' =>
    r.1 = (if decide (a = 0%nat) then 0 else Z.of_nat a + num_writes) /\ batch n (kern s') [] [] /\ errs s' = []).
Proof.
  intros Hb He Hfuel. unfold run_once. apply wp_bind, wp_puts. apply wp_bind.
  eapply wp_mono; [by apply ev_wp_seeds|]. intros [] s1 (Hb1 & Hf1 & He1). cbn [errs] in He1.
  apply wp_bind, wp_puts, wp_bind, wp_puts, wp_bind, ev_wp_getustime. intros ts k1 Ec Ea _.
  cbn [writes count kern fired errs] in *. apply wp_bind.
  eapply wp_mono; [apply (ev_wp_wait_loop (Z.of_nat a + num_writes) fuel _ (n - a - 1) (seq (n - a - 1) a) (seq 0 a))|]; [done| |cbn [count]; lia|].
  - split; cbn [writes count kern fired errs length]; rewrite ?length_seq; try done; try lia; [by eapply ev_batch_clock| | |congruence].
    + by apply turn_seeds, a_lt.
    + rewrite app_nil_r. by apply win_seeds, a_lt.
  - intros [] s2 [[w' Hc2] Hn2]. apply wp_bind, ev_wp_getustime. intros te k2 Ec2 Ea2 _. apply wp_bind, wp_get, wp_ret. cbn [fst count kern errs] in *.
    split; [|split; [|by destruct Hc2]].
    + rewrite Hn2. destruct a; [done|]. by rewrite decide_False.
    + eapply ev_batch_clock; [by destruct Hc2|done|done].
Qed.

(** Setting up the ring. *)
Definition idle : chan := mk_chan 0 None true.

Lemma wp_open_evfds m : forall i s, (i + m = n)%nat ->
  chans (kern s) = replicate i idle -> armed (kern s) = [] -> Z.of_nat n + 4 <= limit (kern s) -> errs s = [] ->
  wp (open_evfds m (seqZ 4 (Z.of_nat i))) s (fun r s' => r = Some evfds /\
    chans (kern s') = replicate n idle /\ armed (kern s') = [] /\ errs s' = []).
Proof.
  induction m as [|m IH]; intros i s Hi Hc Ha Hl He; cbn [open_evfds].
  { rewrite Nat.add_0_r in Hi. subst i. by apply wp_ret. }
  apply wp_bind. eapply ev_wp_sys.
  { cbn [eventfd the_kernel sim_kernel]. unfold sim_eventfd. rewrite Hc, length_replicate, (proj2 (Z.leb_le (5 + Z.of_nat i) (limit (kern s)))) by lia. reflexivity. }
  cbn [writes count kern fired errs]. rewrite (proj2 (Z.eqb_neq (4 + Z.of_nat i) (-1))) by lia. apply wp_bind. eapply ev_wp_sys.
  { cbn [set_nonblock the_kernel sim_kernel kern]. rewrite evfd_at. unfold sim_nonblock, set_chans. cbn [chans].
    rewrite (lookup_app_r (replicate i idle)), length_replicate, Nat.sub_diag by (by rewrite length_replicate).
    reflexivity. }
  replace (seqZ 4 (Z.of_nat i) ++ [4 + Z.of_nat i]) with (seqZ 4 (Z.of_nat (S i))).
  - apply IH; cbn [writes count kern fired errs set_chan set_chans chans armed limit bytes data]; try done; [lia|].
    rewrite insert_app_r_alt, length_replicate, Nat.sub_diag by (by rewrite length_replicate).
    by rewrite replicate_S_end.
  - replace (Z.of_nat (S i)) with (Z.of_nat i + 1) by lia. by rewrite seqZ_app by lia.
Qed.

Lemma wp_add_evfds m : forall i s, (i + m = n)%nat -> length (chans (kern s)) = n -> armed (kern s) = [] -> errs s = [] ->
  (forall j, (j < n)%nat -> chans (kern s) !! j = Some (if decide (j < i)%nat then mk_chan 0 (Some (Z.of_nat j)) true else idle)) ->
  wp (add_evfds 3 evfds (seqZ (Z.of_nat i) (Z.of_nat m))) s (fun ok s' => ok = true /\ batch n (kern s') [] [] /\ errs s' = []).
Proof.
  induction m as [|m IH]; intros i s Hi Hl Ha He Hc.
  - cbn. apply wp_ret. split; [done|]. split; [|done]. split; [done| |done].
    intros j Hj. rewrite Hc, decide_True by lia. by rewrite !ind_out by set_solver.
  - rewrite seqZ_cons by lia. cbn [add_evfds]. apply wp_bind, evfds_at; [lia|]. apply wp_bind. eapply ev_wp_sys.
    { cbn [epoll_ctl_add the_kernel sim_kernel]. rewrite evfd_at. unfold sim_add. rewrite Hc, decide_False by lia. reflexivity. }
    cbn [Z.ltb Z.compare idle bytes nb]. replace (Z.succ (Z.of_nat i)) with (Z.of_nat (S i)) by lia.
    replace (Z.pred (Z.of_nat (S m))) with (Z.of_nat m) by lia.
    apply IH; cbn [writes count kern fired errs set_chan set_chans chans armed limit bytes data]; try done; [lia|by rewrite length_insert|].
    intros j Hj. rewrite u32_small by lia. destruct (decide (j = i)) as [->|].
    + rewrite list_lookup_insert_eq, decide_True by lia. done.
    + rewrite list_lookup_insert_ne, Hc by done. repeat case_decide; try done; lia.
Qed.

(** The measuring loop. *)
Lemma ev_wp_samples m fuel : (0 < a)%nat -> 0 < Z.of_nat a + num_writes + 1 <= Z.of_nat fuel ->
  forall s, batch n (kern s) [] [] -> errs s = [] ->
  wp (samples m (run_once evfds (Z.of_nat n) (Z.of_nat a) num_writes 3 fuel)) s (fun r s' =>
    exists l, r = inr l /\ length l = m /\ Forall (fun x => x.1 = Z.of_nat a + num_writes) l /\ errs s' = []).
Proof.
  intros Ha Hfuel. induction m as [|m IH]; intros s Hb He; cbn [samples].
  { apply wp_ret. by exists []. }
  apply wp_bind. eapply wp_mono; [apply ev_wp_run_once; [done|done|lia]|]. intros x s1 (Hx & Hb1 & He1).
  rewrite decide_False in Hx by lia. rewrite (proj2 (Z.eqb_neq x.1 0)) by lia.
  apply wp_bind. eapply wp_mono; [by apply IH|]. intros r s2 (l & -> & Hl & Hf & He2). apply wp_ret.
  exists (x :: l). cbn [length]. rewrite Hl. split_and!; try done. by constructor.
Qed.
End runs.
End evbench_proofs.

(** C21: eventfd-bench with any options for more than twice as many event counters as
    tokens, at least one token, ends with success: each of its 16 runs returns having
    counted every token put in at the start and every one of the writes, whatever the
    order in which epoll reports the counters. *)
Theorem evbench_main hard order calloc opts o fuel :
  (forall l, order l ≡ₚ l) ->
  evbench.main_options opts (evbench.mk_options 200 1 50000) = Some o ->
  let n := evbench.o_evfds o in
  let a := evbench.o_active o in
  0 < a -> 2 * a < n -> 2 * n + 50 < 2 ^ 31 -> 2 * n + 50 <= hard -> (forall c z, calloc c z = true) ->
  0 <= evbench.o_writes o -> a + evbench.o_writes o < 2 ^ 31 -> a + evbench.o_writes o < Z.of_nat fuel ->
  exists l s', evbench.main (Kernel0 := evbench.sim_kernel hard order) fuel calloc opts evbench.state0 = Ok ((0, l), s') /\
    length l = 16%nat /\ Forall (fun x => x.1 = a + evbench.o_writes o) l /\ evbench.errs s' = [].
Proof.
  intros Ho Hopt n a Ha Hhalf Hn Hhard Hcalloc Hw Hsum Hfuel.
  enough (wp (evbench.main (Kernel0 := evbench.sim_kernel hard order) fuel calloc opts) evbench.state0 (fun r s' =>
    r.1 = 0 /\ length r.2 = 16%nat /\ Forall (fun x => x.1 = a + evbench.o_writes o) r.2 /\ evbench.errs s' = [])) as Hwp.
  { apply wp_run in Hwp as ([c l] & s' & Hm & Hc & Hl & Hf & He). cbn [fst snd] in *. subst c. by exists l, s'. }
  unfold evbench.main. rewrite Hopt. fold n.
  assert (Hact : (if n <=? evbench.o_active o then s32 (n - 1) else evbench.o_active o) = Z.of_nat (Z.to_nat a)).
  { destruct (Z.leb_spec n (evbench.o_active o)); lia. }
  rewrite Hact. rewrite (s32_small (n * 2)), (s32_small (n * 2 + 50)), (u64_small (n * 2 + 50)) by lia.
  apply wp_bind. eapply evbench_proofs.ev_wp_sys.
  { cbn [evbench.setrlimit evbench.sim_kernel]. unfold sim_setrlimit. rewrite (proj2 (Z.leb_le (n * 2 + 50) hard)) by lia. reflexivity. }
  cbn [Z.eqb]. rewrite !Hcalloc. cbn [andb negb]. apply wp_bind. eapply evbench_proofs.ev_wp_sys.
  { cbn [evbench.epoll_create evbench.sim_kernel]. unfold sim_epoll_create. rewrite (proj2 (Z.ltb_lt 0 n)) by lia. reflexivity. }
  cbn [Z.eqb]. set (N := Z.to_nat n). set (A := Z.to_nat a). assert (Hn' : n = Z.of_nat N) by lia. rewrite Hn'.
  apply wp_bind. eapply wp_mono.
  { apply (evbench_proofs.wp_open_evfds hard order N A ltac:(lia)) with (i := 0%nat); cbn; try done; lia. }
  intros p s1 (-> & Hc1 & Ha1 & He1). apply wp_bind. eapply wp_mono.
  { apply (evbench_proofs.wp_add_evfds hard order Ho N A (evbench.o_writes o)) with (m := N) (i := 0%nat); try done; [lia..|by rewrite Hc1, length_replicate|].
    intros j Hj. rewrite Hc1, decide_False by lia. by apply lookup_replicate. }
  intros ok s2 (-> & Hb2 & He2). cbn [negb]. apply wp_bind. eapply wp_mono.
  { apply (evbench_proofs.ev_wp_samples hard order Ho N A (evbench.o_writes o)); try done; lia. }
  intros r s3 (l & -> & Hl & Hf & He3). apply wp_ret. cbn [fst snd]. rewrite Hl. split_and!; try done.
  eapply Forall_impl; [exact Hf|]. intros x ->. lia.
Qed.

Lemma evbench_main_witness : exists l s',
  evbench.main (Kernel0 := evbench.sim_kernel 1000 reverse) 20 (fun _ _ => true)
    [(110, str "7"%string); (97, str "3"%string); (119, str "9"%string)] evbench.state0 = Ok ((0, l), s') /\
  length l = 16%nat /\ Forall (fun x => x.1 = 12) l /\ evbench.errs s' = [].
Proof.
  apply (evbench_main 1000 reverse (fun _ _ => true) _ (evbench.mk_options 7 3 9) 20); cbn; try done; try lia.
  intros l. apply reverse_Permutation.
Defined.

(** With half as many tokens as counters or more, an order of reporting in which a
    counter gets a token before its own was read makes one value of two tokens: the
    loop of [run_once] then waits for an event that never comes. *)
Section stall.
#[local] Instance stall_kernel : evbench.Kernel sim := evbench.sim_kernel 1000 reverse.

Lemma bind_nofuel {S A B} (m : M S A) (k : A -> M S B) s : m s = NoFuel -> (m ≫= k) s = NoFuel.
Proof. unfold mbind, M_bind. by intros ->. Qed.

Lemma wait_loop_stuck evfds n a fuel : forall s, armed (evbench.kern s) = [] -> evbench.count s <> evbench.fired s ->
  evbench.wait_loop evfds n a 3 fuel s = NoFuel.
Proof.
  induction fuel as [|fuel IH]; intros s Ha Hne; [done|]. cbn [evbench.wait_loop].
  erewrite run_bind; [|unfold evbench.sys; cbn; unfold sim_epoll_wait; rewrite Ha; cbn; rewrite take_nil, drop_nil; reflexivity].
  cbn -[evbench.wait_loop]. unfold mbind, M_bind; cbn -[evbench.wait_loop].
  rewrite (proj2 (Z.eqb_neq _ _) Hne). cbn -[evbench.wait_loop]. by apply IH.
Qed.

Lemma evbench_stalls fuel :
  evbench.main fuel (fun _ _ => true) [(110, str "4"%string); (97, str "2"%string); (119, str "1"%string)] evbench.state0 = NoFuel.
Proof.
  unfold evbench.main. change (evbench.main_options _ _) with (Some (evbench.mk_options 4 2 1)).
  cbv beta iota zeta. do 4 (erewrite run_bind by (vm_compute; reflexivity); cbv beta iota zeta; cbn [Z.eqb Pos.eqb andb negb]).
  apply bind_nofuel. change (Z.to_nat RUNTIMES) with 16%nat. cbn [evbench.samples]. apply bind_nofuel.
  unfold evbench.run_once. do 5 (erewrite run_bind by (vm_compute; reflexivity)). apply bind_nofuel.
  do 2 (destruct fuel as [|fuel]; [reflexivity|]; cbn [evbench.wait_loop]; do 2 (erewrite run_bind by (vm_compute; reflexivity));
    erewrite run_bind by (vm_compute; reflexivity); cbn [evbench.count evbench.fired Z.eqb Pos.eqb negb]).
  by apply wait_loop_stuck.
Qed.
End stall.
