(* ===== verification/Peers.v ===== *)
(** * eventfd-sem.c and pthread-lat-ctx.c: two peers that wait for each other

    A parent starts two processes (or threads), each of which puts tokens into a
    channel of its own and takes tokens out of the other's, and waits for both.  In
    eventfd-sem the channels are eventfd semaphores, in pthread-lat-ctx pipes that
    are read and written a byte at a time.  What a peer does is a list of calls; the
    interleavings are the steps of a relation.  A call that cannot go on (nothing to
    take, no room to put) has no step.  System calls do not fail here; the output is
    left out.  The mains with their wrappers are in [EvSemMain] and [LatctxMain]. *)
From Stdlib Require Import ZArith Lia Bool.
From stdpp Require Import base tactics list.
From S2P Require Import Prelude Steps.

(** The calls of a peer, on one of two channels. *)
Inductive act := Put (ch : bool) (n : Z) | Get (ch : bool).

(** Where the parent is. *)
Inductive phase := Start0 | Start1 | Join0 | Join1 | Exit.

Record state := mk_state {
  parent : phase;
  peer0 : list act;    (* what the first peer has still to do *)
  peer1 : list act;
  level : bool -> Z    (* what is in the channels *)
}.

Definition upd (ch : bool) (x : Z) (f : bool -> Z) : bool -> Z := fun c => if Bool.eqb c ch then x else f c.

(** A call that can go on: [cap] bounds what a channel holds. *)
Definition perform (cap : Z) (a : act) (f : bool -> Z) : option (bool -> Z) :=
  match a with
  | Put ch n => if f ch + n <=? cap then Some (upd ch (f ch + n) f) else None
  | Get ch => if 0 <? f ch then Some (upd ch (f ch - 1) f) else None
  end.

Section peers.
Context (cap : Z) (P0 P1 : list act).

Inductive step : state -> state -> Prop :=
| step_start0 f p : step (mk_state Start0 [] p f) (mk_state Start1 P0 p f)
| step_start1 f p : step (mk_state Start1 p [] f) (mk_state Join0 p P1 f)
| step_peer0 m a p q f f' : perform cap a f = Some f' -> step (mk_state m (a :: p) q f) (mk_state m p q f')
| step_peer1 m a p q f f' : perform cap a f = Some f' -> step (mk_state m p (a :: q) f) (mk_state m p q f')
| step_join0 q f : step (mk_state Join0 [] q f) (mk_state Join1 [] q f)
| step_join1 p f : step (mk_state Join1 p [] f) (mk_state Exit p [] f).

Definition start : state := mk_state Start0 [] [] (fun _ => 0).

(** The parent and the peers are through and nothing is left in the channels. *)
Definition finished (s : state) : Prop :=
  parent s = Exit /\ peer0 s = [] /\ peer1 s = [] /\ level s false = 0 /\ level s true = 0.

End peers.

(** ** eventfd-sem.c *)
Module evsem.
Definition xsem_post (fd : bool) (count : Z) : list act := [Put fd (u64 count)].
Definition xsem_wait (fd : bool) : list act := [Get fd].

Definition sem_player (fd1 fd2 : bool) : list act :=
  xsem_post fd1 1 ++ xsem_wait fd2 ++
  xsem_post fd1 1 ++ xsem_wait fd2 ++
  xsem_post fd1 5 ++
  xsem_wait fd2 ++ xsem_wait fd2 ++ xsem_wait fd2 ++ xsem_wait fd2 ++ xsem_wait fd2.

(** The greatest value of an event counter. *)
Definition EVENTFD_MAX : Z := 2 ^ 64 - 2.

(** main with no option: the two players and its two [waitpid]. *)
Definition step : state -> state -> Prop := Peers.step EVENTFD_MAX (sem_player false true) (sem_player true false).
End evsem.

(** ** pthread-lat-ctx.c *)
Module latctx.
Definition MIN_TEST_TIME_US : Z := 2000000.

(** The loop of [get_base_switch_time]: its result is the time taken and [*pcount];
    [clock] are the results of [getustime], and a write and a read of one byte by the
    same thread leave the pipe as it was. *)
Fixpoint base_loop (clock : list Z) (ts count : Z) : option (Z * Z) :=
  match clock with
  | [] => None
  | te :: clock =>
    let count := u64 (count + 10000) in
    if u64 (te - ts) <? MIN_TEST_TIME_US then base_loop clock ts count else Some (u64 (te - ts), count)
  end.

Definition get_base_switch_time (clock : list Z) : option (Z * Z) :=
  match clock with [] => None | ts :: clock => base_loop clock ts 0 end.

(** The loops of [tproc]: the channel [false] is [pd.p1] and [true] is [pd.p2]. *)
Fixpoint tproc_loop (thid : Z) (count : nat) : list act :=
  match count with
  | O => []
  | S count =>
    if thid =? 0 then Put false 1 :: Get true :: tproc_loop thid count
    else Put true 1 :: Get false :: tproc_loop thid count
  end.

Definition tproc (swcount thid : Z) : list act := tproc_loop thid (Z.to_nat swcount).

Definition PIPE_BUFFER : Z := 65536.

(** main behind the measurement of the base time. *)
Definition step (swcount : Z) : state -> state -> Prop := Peers.step PIPE_BUFFER (tproc swcount 0) (tproc swcount 1).
End latctx.

(** ** Proofs *)

(** What the calls put into a channel and take from it. *)
Fixpoint puts (ch : bool) (l : list act) : Z :=
  match l with
  | [] => 0
  | Put c n :: l => (if Bool.eqb c ch then n else 0) + puts ch l
  | Get _ :: l => puts ch l
  end.

Fixpoint gets (ch : bool) (l : list act) : Z :=
  match l with
  | [] => 0
  | Put _ _ :: l => gets ch l
  | Get c :: l => (if Bool.eqb c ch then 1 else 0) + gets ch l
  end.

Lemma puts_app ch l l' : puts ch (l ++ l') = puts ch l + puts ch l'.
Proof. induction l as [|[c n|c] l IH]; cbn [puts app]; [done|rewrite IH; lia|done]. Qed.
Lemma gets_app ch l l' : gets ch (l ++ l') = gets ch l + gets ch l'.
Proof. induction l as [|[c n|c] l IH]; cbn [gets app]; [done|done|rewrite IH; lia]. Qed.

Lemma gets_nonneg ch l : 0 <= gets ch l.
Proof. induction l as [|[c n|c] l IH]; cbn [gets]; [lia|done|destruct (Bool.eqb c ch); lia]. Qed.

(** A call of the peer whose channel is [b]. *)
Definition own (b : bool) (a : act) : Prop :=
  match a with Put c n => c = b /\ 0 < n | Get c => c = negb b end.

Lemma own_others b l : Forall (own b) l -> puts (negb b) l = 0 /\ gets b l = 0.
Proof.
  induction 1 as [|[c n|c] l Ha _ [IHp IHg]]; [done| |]; cbn [puts gets own] in *.
  - destruct Ha as [-> _]. by rewrite eqb_negb2.
  - subst c. by rewrite eqb_negb1.
Qed.

(** A peer with the channel [b] of its own takes from the other one no more than it
    has put into its own, puts at most [L] more than it took, and puts and takes [T]
    in all. *)
Record fair (b : bool) (L T : Z) (P : list act) : Prop := {
  fair_own : Forall (own b) P;
  fair_lead : forall d r, P = (d ++ r)%list -> gets (negb b) d <= puts b d <= gets (negb b) d + L;
  fair_all : puts b P = T /\ gets (negb b) P = T
}.

(** What a fair peer has done up to some point, and its next call. *)
Lemma fair_done b L T P d r : fair b L T P -> P = (d ++ r)%list ->
  puts (negb b) d = 0 /\ gets b d = 0 /\ gets (negb b) d <= puts b d <= gets (negb b) d + L /\
  (r = [] -> puts b d = T /\ gets (negb b) d = T).
Proof.
  intros [Ho Hl Ha] HP. pose proof (Hl _ _ HP). rewrite HP, Forall_app in Ho.
  destruct (own_others b d) as [H1 H2]; [tauto|]. split_and!; try done; try lia.
  intros ->. rewrite app_nil_r in HP. by subst d.
Qed.

Lemma fair_next b L T P d a r : fair b L T P -> P = (d ++ a :: r)%list ->
  (exists n, a = Put b n /\ 0 < n /\ puts b d + n <= gets (negb b) d + L) \/
  (a = Get (negb b) /\ gets (negb b) d + 1 <= puts b d /\ gets (negb b) d + 1 <= T).
Proof.
  intros Hf HP. assert (HP' : P = ((d ++ [a]) ++ r)%list) by (by rewrite <- app_assoc).
  pose proof (fair_lead _ _ _ _ Hf _ _ HP') as H5. destruct (fair_all _ _ _ _ Hf) as [_ H6].
  pose proof (fair_own _ _ _ _ Hf) as Ho. pose proof (gets_nonneg (negb b) r) as H7.
  rewrite HP' in H6, Ho. rewrite !gets_app in H6. rewrite puts_app, gets_app in H5.
  apply Forall_app in Ho as [[_ [Ha _]%Forall_cons]%Forall_app _].
  destruct a as [c n|c]; cbn [own puts gets] in *.
  - left. exists n. destruct Ha as [-> ?]. rewrite eqb_reflx in *. split; [done|]. lia.
  - right. subst c. rewrite eqb_reflx in *. split; [done|]. lia.
Qed.

Section fair_peers.
Context (cap L T : Z) (P0 P1 : list act).
Hypothesis fair0 : fair false L T P0.
Hypothesis fair1 : fair true L T P1.
Hypothesis room : 2 * L <= cap.

(** The channels hold what was put less what was taken; [d0] and [d1] is what the
    peers did. *)
Record inv (s : state) (d0 d1 : list act) : Prop := {
  inv_peer0 : match parent s with Start0 => d0 = [] /\ peer0 s = [] | _ => P0 = (d0 ++ peer0 s)%list end;
  inv_peer1 : match parent s with Start0 | Start1 => d1 = [] /\ peer1 s = [] | _ => P1 = (d1 ++ peer1 s)%list end;
  inv_false : level s false = puts false d0 - gets false d1;
  inv_true : level s true = puts true d1 - gets true d0;
  inv_levels : 0 <= level s false /\ 0 <= level s true;
  inv_join1 : parent s = Join1 \/ parent s = Exit -> peer0 s = [];
  inv_exit : parent s = Exit -> peer1 s = []
}.

(** The leads of both peers bound each other. *)
Lemma inv_bounds s d0 d1 : inv s d0 d1 ->
  gets true d0 <= puts false d0 <= gets true d0 + L /\ gets false d1 <= puts true d1 <= gets false d1 + L /\
  level s false <= 2 * L /\ level s true <= 2 * L.
Proof.
  intros [Hp0 Hp1 Hf Ht [Hl0 Hl1] _ _].
  assert (0 <= L) by (pose proof (fair_lead _ _ _ _ fair0 [] P0 eq_refl) as Hl; cbn in Hl; lia).
  assert (gets true d0 <= puts false d0 <= gets true d0 + L)
    by (destruct (parent s); try apply (fair_lead _ _ _ _ fair0 _ _ Hp0); destruct Hp0 as [-> _]; cbn; lia).
  assert (gets false d1 <= puts true d1 <= gets false d1 + L)
    by (destruct (parent s); try apply (fair_lead _ _ _ _ fair1 _ _ Hp1); destruct Hp1 as [-> _]; cbn; lia).
  lia.
Qed.

Lemma peers_inv_start : inv start [] [].
Proof. split; cbn; try done; try lia; by intros [?|?]. Qed.

Lemma perform_own b a f f' : own b a -> perform cap a f = Some f' -> 0 <= f b -> 0 <= f (negb b) ->
  f' b = f b + puts b [a] /\ f' (negb b) = f (negb b) - gets (negb b) [a] /\ 0 <= f' b /\ 0 <= f' (negb b).
Proof.
  intros Ha Hp H0 H1. destruct a as [c n|c]; cbn [own perform puts gets] in *.
  - destruct Ha as [-> Hn]. destruct (_ <=? _); [|done]. injection Hp as <-. unfold upd.
    rewrite !eqb_reflx, eqb_negb1. lia.
  - subst c. destruct (Z.ltb_spec 0 (f (negb b))); [|done]. injection Hp as <-. unfold upd.
    rewrite !eqb_reflx. rewrite eqb_negb2. lia.
Qed.

Lemma own_next b Q d a r : fair b L T Q -> Q = (d ++ a :: r)%list -> own b a.
Proof. intros [Ho _ _] ->. by apply Forall_app in Ho as [_ [Ha _]%Forall_cons]. Qed.

(** The own channel of a peer is not changed in the other direction. *)
Lemma own_zero b a : own b a -> puts (negb b) [a] = 0 /\ gets b [a] = 0.
Proof. intros Ha. apply own_others. by constructor. Qed.

Lemma peers_inv_step s s' d0 d1 : inv s d0 d1 -> step cap P0 P1 s s' -> exists d0' d1', inv s' d0' d1'.
Proof.
  intros [Hp0 Hp1 Hf Ht Hl Hj He] Hs.
  destruct Hs as [f p|f p|m a p q f f' Hp|m a p q f f' Hp|q f|p f]; cbn [parent peer0 peer1 level] in *.
  - exists [], d1. destruct Hp0 as [-> _]. split; cbn [parent peer0 peer1 level]; try done. by intros [?|?].
  - exists d0, []. destruct Hp1 as [-> _]. split; cbn [parent peer0 peer1 level]; try done. by intros [?|?].
  - assert (HP : P0 = (d0 ++ a :: p)%list) by (destruct m; first [exact Hp0|by destruct Hp0]).
    pose proof (own_next _ _ _ _ _ fair0 HP) as Ho. destruct (own_zero _ _ Ho) as [Z1 Z2].
    destruct (perform_own false a f f' Ho Hp) as (E1 & E2 & E3 & E4); [tauto..|].
    exists (d0 ++ [a]), d1. split; cbn [parent peer0 peer1 level]; rewrite ?puts_app, ?gets_app; try done; cbn [negb] in *; try lia.
    + rewrite <- app_assoc. destruct m; first [exact Hp0|by destruct Hp0].
    + intros Hm. by specialize (Hj Hm).
  - assert (HP : P1 = (d1 ++ a :: q)%list) by (destruct m; first [exact Hp1|by destruct Hp1]).
    pose proof (own_next _ _ _ _ _ fair1 HP) as Ho. destruct (own_zero _ _ Ho) as [Z1 Z2].
    destruct (perform_own true a f f' Ho Hp) as (E1 & E2 & E3 & E4); [tauto..|].
    exists d0, (d1 ++ [a]). split; cbn [parent peer0 peer1 level]; rewrite ?puts_app, ?gets_app; try done; cbn [negb] in *; try lia.
    + rewrite <- app_assoc. destruct m; first [exact Hp1|by destruct Hp1].
    + intros Hm. by specialize (He Hm).
  - by exists d0, d1.
  - exists d0, d1. split; cbn [parent peer0 peer1 level]; try done. intros _. apply Hj. by left.
Qed.

(** A peer that cannot go on waits for the other. *)
Lemma peer_acts b d a r f Q : fair b L T Q -> Q = (d ++ a :: r)%list -> f b - puts b d + gets (negb b) d + L <= cap ->
  (exists f', perform cap a f = Some f') \/
  (f (negb b) <= 0 /\ gets (negb b) d + 1 <= puts b d /\ gets (negb b) d + 1 <= T).
Proof.
  intros Hf HQ Hroom. destruct (fair_next _ _ _ _ _ _ _ Hf HQ) as [(n & -> & Hn & Hle)|(-> & H1 & H2)]; cbn [perform].
  - left. rewrite (proj2 (Z.leb_le (f b + n) cap)) by lia. eauto.
  - destruct (Z.ltb_spec 0 (f (negb b))); [left; eauto|by right].
Qed.

Lemma peers_progress s d0 d1 : inv s d0 d1 -> finished s \/ exists s', step cap P0 P1 s s'.
Proof.
  intros Hi. destruct (inv_bounds _ _ _ Hi) as (B0 & B1 & _). destruct Hi as [Hp0 Hp1 Hf Ht [Hl0 Hl1] Hj He].
  destruct s as [m p q f]. cbn [parent peer0 peer1 level] in *.
  assert (Hc0 : P0 = (d0 ++ p)%list -> (p = [] /\ puts false d0 = T /\ gets true d0 = T) \/ (exists s', step cap P0 P1 (mk_state m p q f) s') \/
    (f true <= 0 /\ gets true d0 + 1 <= puts false d0 /\ gets true d0 + 1 <= T)).
  { intros HP. destruct p as [|a p]; [left; split; [done|by apply (fair_done _ _ _ _ _ _ fair0 HP)]|right].
    destruct (peer_acts false d0 a p f P0 fair0 HP) as [[f' Hf']|?]; cbn [negb] in *; [lia| |by right].
    left. eexists. by apply step_peer0. }
  assert (Hc1 : P1 = (d1 ++ q)%list -> (q = [] /\ puts true d1 = T /\ gets false d1 = T) \/ (exists s', step cap P0 P1 (mk_state m p q f) s') \/
    (f false <= 0 /\ gets false d1 + 1 <= puts true d1 /\ gets false d1 + 1 <= T)).
  { intros HP. destruct q as [|a q]; [left; split; [done|by apply (fair_done _ _ _ _ _ _ fair1 HP)]|right].
    destruct (peer_acts true d1 a q f P1 fair1 HP) as [[f' Hf']|?]; cbn [negb] in *; [lia| |by right].
    left. eexists. by apply step_peer1. }
  destruct m.
  1: destruct Hp0 as [_ ->]; right; eexists; constructor.
  1: destruct Hp1 as [_ ->]; right; eexists; constructor.
  all: destruct (Hc0 Hp0) as [(-> & X1 & X2)|[?|(X1 & X2 & X3)]]; [|by right|].
  all: destruct (Hc1 Hp1) as [(-> & Y1 & Y2)|[?|(Y1 & Y2 & Y3)]]; [|by right|].
  all: try (exfalso; lia).
  - right. eexists. constructor.
  - right. eexists. constructor.
  - left. split_and!; cbn; lia || done.
Qed.

(** The steps left. *)
Definition rank (s : state) : nat :=
  (match parent s with
   | Start0 => 4 + length P0 + length P1
   | Start1 => 3 + length P1
   | Join0 => 2 | Join1 => 1 | Exit => 0
   end + length (peer0 s) + length (peer1 s))%nat.

Lemma step_rank s s' : step cap P0 P1 s s' -> (rank s' < rank s)%nat.
Proof. destruct 1; unfold rank; cbn [parent peer0 peer1 length]; try destruct m; lia. Qed.

(** Two fair peers always end. *)
Lemma fair_end : inevitable (step cap P0 P1) finished start.
Proof.
  apply (inevitable_measure _ (fun s => exists d0 d1, inv s d0 d1) rank).
  - intros s s' (d0 & d1 & Hi) Hs. split; [by eapply peers_inv_step|by apply step_rank].
  - intros s (d0 & d1 & Hi). by eapply peers_progress.
  - exists [], []. apply peers_inv_start.
Qed.

Lemma fair_reach s : reach (step cap P0 P1) start s -> exists d0 d1, inv s d0 d1.
Proof.
  apply (reach_invariant _ (fun s => exists d0 d1, inv s d0 d1)); [exists [], []; apply peers_inv_start|].
  intros s1 s2 (d0 & d1 & Hi) Hs. by eapply peers_inv_step.
Qed.
End fair_peers.

(** A way to see that a list of calls is fair: [x] is the lead so far. *)
Fixpoint leads (b : bool) (L x : Z) (l : list act) : Prop :=
  0 <= x <= L /\
  match l with
  | [] => True
  | Put c n :: l => c = b /\ 0 < n /\ leads b L (x + n) l
  | Get c :: l => c = negb b /\ leads b L (x - 1) l
  end.

Lemma leads_fair b L x l : leads b L x l ->
  Forall (own b) l /\ (forall d r, l = (d ++ r)%list -> 0 <= x + puts b d - gets (negb b) d <= L).
Proof.
  revert x. induction l as [|a l IH]; intros x [Hx Hl].
  - split; [constructor|]. intros [|? ?] r; [cbn; lia|done].
  - destruct a as [c n|c].
    + destruct Hl as (-> & Hn & [Ho Hd]%IH). split; [by constructor|].
      intros [|a d] r; [cbn; lia|]. intros [= <- Hr]. specialize (Hd _ _ Hr). cbn [puts gets]. rewrite eqb_reflx. lia.
    + destruct Hl as (-> & [Ho Hd]%IH). split; [by constructor|].
      intros [|a d] r; [cbn; lia|]. intros [= <- Hr]. specialize (Hd _ _ Hr). cbn [puts gets]. rewrite eqb_reflx. lia.
Qed.

Lemma fair_leads b L T l : leads b L 0 l -> puts b l = T -> gets (negb b) l = T -> fair b L T l.
Proof.
  intros Hl Hp Hg. destruct (leads_fair _ _ _ _ Hl) as [Ho Hd]. split; [done| |done].
  intros d r Hr. specialize (Hd d r Hr). lia.
Qed.

Lemma sem_player_fair b : fair b 5 7 (evsem.sem_player b (negb b)).
Proof. apply fair_leads; destruct b; cbn; try done; repeat split; lia. Qed.

(** eventfd-sem always ends: whatever the interleaving of the parent and the two
    players, no state on the way is stuck, every run reaches the exit of the parent
    with both players through, and no unit is left in either semaphore. *)
Theorem evsem_ends : inevitable evsem.step finished start.
Proof.
  by eapply fair_end; [apply (sem_player_fair false)|apply (sem_player_fair true)|].
Qed.

Lemma tproc_fair (b : bool) swcount : fair b 1 (Z.of_nat (Z.to_nat swcount)) (latctx.tproc swcount (if b then 1 else 0)).
Proof.
  unfold latctx.tproc. generalize (Z.to_nat swcount) as n. intros n.
  apply fair_leads; destruct b; induction n as [|n IH]; cbn -[Z.of_nat] in *; try done; try lia;
    repeat split; try lia; exact IH.
Qed.

(** The measured part of pthread-lat-ctx always ends, for any count: whatever the
    interleaving, no state is stuck until both threads are joined and both pipes are
    empty, and on the way no pipe ever holds more than two bytes. *)
Theorem latctx_ends swcount : inevitable (latctx.step swcount) finished start /\
  (forall s, reach (latctx.step swcount) start s -> 0 <= level s false <= 2 /\ 0 <= level s true <= 2).
Proof.
  pose proof (tproc_fair false swcount) as F0. pose proof (tproc_fair true swcount) as F1. split.
  - by eapply fair_end; [exact F0|exact F1|].
  - intros s (d0 & d1 & Hi)%(fair_reach latctx.PIPE_BUFFER 1 _ _ _ F0 F1).
    destruct (inv_bounds _ _ _ _ F0 F1 _ _ _ Hi) as (_ & _ & B0 & B1).
    pose proof (inv_levels _ _ _ _ _ Hi). lia.
Qed.

(** The count it is run with is that of the base measurement: ten thousand turns for
    every look at the clock, until two seconds have passed. *)
Lemma base_loop_count clock : forall ts count t c, latctx.base_loop clock ts count = Some (t, c) ->
  0 <= count -> count + 10000 * Z.of_nat (length clock) < 2 ^ 64 ->
  latctx.MIN_TEST_TIME_US <= t /\ exists k, 0 < k <= Z.of_nat (length clock) /\ c = count + 10000 * k.
Proof.
  induction clock as [|te clock IH]; intros ts count t c Hb H0 Hs; [done|]. cbn [latctx.base_loop length] in *.
  rewrite (u64_small (count + 10000)) in Hb by lia. destruct (Z.ltb_spec (u64 (te - ts)) latctx.MIN_TEST_TIME_US).
  - destruct (IH _ _ _ _ Hb) as (Ht & k & Hk & ->); [lia..|]. split; [done|]. exists (k + 1). lia.
  - injection Hb as <- <-. split; [done|]. exists 1. lia.
Qed.
