(* ===== verification/Timers.v ===== *)
(** * timerfd-test.c and timerfd-test2.c: programs that try the timer descriptors

    Both set a timer four times on each of two clocks (relative, absolute, periodic,
    and once more to try a read that does not block) and print what they see.  The
    first uses the single call [timerfd] of an old interface, the second the three
    calls of the present one.  The kernel is a class; its instance [clock_kernel] has
    a virtual clock that only advances while the program waits.  Headings of the
    output are left out. *)
From Stdlib Require Import ZArith Lia Bool.
From stdpp Require Import base tactics list.
From S2P Require Import Prelude Exits.

(** struct timespec and struct itimerspec. *)
Record timespec := mk_timespec { tv_sec : Z; tv_nsec : Z }.
Record itimerspec := mk_itimerspec { it_value : timespec; it_interval : timespec }.

Definition CLOCK_REALTIME : Z := 0.
Definition CLOCK_MONOTONIC : Z := 1.
Definition TFD_TIMER_ABSTIME : Z := Z.shiftl 1 0.
Definition EAGAIN : Z := 11.

(** What the programs ask of the kernel; results below zero are errors. *)
Class Kernel (K : Type) := {
  clock_gettime : Z -> M K (Z * timespec);
  timerfd : Z -> Z -> Z -> itimerspec -> M K Z;
  timerfd_create : Z -> Z -> M K Z;
  timerfd_settime : Z -> Z -> itimerspec -> M K Z;
  timerfd_gettime : Z -> M K (Z * itimerspec);
  poll_in : Z -> Z -> M K (Z * bool);
  read_ticks : Z -> Z -> M K (Z * Z);
  errno : M K Z;
  sleep : Z -> M K unit;
  set_nonblock : Z -> bool -> M K unit;
  close : Z -> M K unit
}.

(** The lines of the output. *)
Inductive line :=
| Testing (clock : Z)
| Descriptor (fd : Z)
| NoTicksHappened
| NoTimer
| GotTicks (ticks ms : Z)
| Remaining (t : itimerspec)
| TicksNotZero
| BadErrno (e : Z)
| Success.

Record state (K : Type) := mk_state { kern : K; out : list line }.
Arguments mk_state {K}.
Arguments kern {K}.
Arguments out {K}.

Section common.
Context {K : Type} `{!Kernel K}.

Definition sys {A} (m : M K A) : M (state K) A := fun s =>
  match m (kern s) with Ok (a, k) => Ok (a, mk_state k (out s)) | Fault => Fault | NoFuel => NoFuel end.
Definition print (l : line) : M (state K) unit := puts (fun s => mk_state (kern s) (out s ++ [l])).

Definition getustime (clockid : Z) : M (state K) Z :=
  r ← sys (clock_gettime clockid);
  if negb (r.1 =? 0) then mret 0
  else mret (u64 (u64 (1000000 * tv_sec r.2) + Z.quot (tv_nsec r.2) 1000)).

Definition set_timespec (ustime : Z) : timespec :=
  mk_timespec (ustime / 1000000) (1000 * (ustime mod 1000000)).

(** [size] is that of the counter read: 4 in timerfd-test, 8 in timerfd-test2. *)
Definition waittmr (size tfd timeo : Z) : M (state K) Z :=
  p ← sys (poll_in tfd timeo);
  if p.1 <? 0 then mret (-1)
  else if negb p.2 then print NoTicksHappened;; mret (-1)
  else
    r ← sys (read_ticks tfd size);
    if negb (r.1 =? size) then mret (-1) else mret (s64 r.2).

(** Waiting for a timer and telling what came; [tnow] is when it was set. *)
Definition wait_report (size clock tfd tnow : Z) : M (state K) unit :=
  ticks ← waittmr size tfd (-1);
  ttmr ← getustime clock;
  print (if ticks <=? 0 then NoTimer else GotTicks ticks (u64 (ttmr - tnow) / 1000)).

(** The read of a timer that has nothing to give. *)
Definition nonblock_read (size tfd : Z) : M (state K) unit :=
  sys (set_nonblock tfd true);;
  r ← sys (read_ticks tfd size);
  (if 0 <? r.1 then print TicksNotZero
   else e ← sys errno; print (if negb (e =? EAGAIN) then BadErrno e else Success));;
  sys (set_nonblock tfd false).
End common.

(** ** timerfd-test.c *)
Module timerfd_test.
Section program.
Context {K : Type} `{!Kernel K}.

(** The functions of timerfd-test.c that have the text of those above. *)
Definition getustime (clockid : Z) : M (state K) Z := getustime clockid.
Definition set_timespec (ustime : Z) : timespec := set_timespec ustime.
Definition waittmr (tfd timeo : Z) : M (state K) Z := waittmr 4 tfd timeo.
Definition wait_report (clock tfd tnow : Z) : M (state K) unit :=
  ticks ← waittmr tfd (-1);
  ttmr ← getustime clock;
  print (if ticks <=? 0 then NoTimer else GotTicks ticks (u64 (ttmr - tnow) / 1000)).

Definition ufd (ufc clockid flags : Z) (tmr : itimerspec) : E (state K) Z :=
  tfd <~ e_run (sys (timerfd ufc clockid flags tmr));
  if tfd =? -1 then e_exit 1 else _ <~ e_run (print (Descriptor tfd)); e_ret tfd.

Definition relative_test (clock : Z) : E (state K) Z :=
  tnow <~ e_run (getustime clock);
  tfd <~ ufd (-1) clock 0 (mk_itimerspec (set_timespec (500 * 1000)) (set_timespec 0));
  _ <~ e_run (wait_report clock tfd tnow); e_ret tfd.

Definition absolute_test (clock tfd : Z) : E (state K) Z :=
  tnow <~ e_run (getustime clock);
  tfd <~ ufd tfd clock TFD_TIMER_ABSTIME (mk_itimerspec (set_timespec (u64 (tnow + 500 * 1000))) (set_timespec 0));
  _ <~ e_run (wait_report clock tfd tnow); e_ret tfd.

Definition sequential_test (clock tfd : Z) : E (state K) Z :=
  tnow <~ e_run (getustime clock);
  tfd <~ ufd tfd clock TFD_TIMER_ABSTIME (mk_itimerspec (set_timespec (u64 (tnow + 100 * 1000))) (set_timespec (100 * 1000)));
  _ <~ e_run (sys (sleep 2));
  _ <~ e_run (wait_report clock tfd tnow); e_ret tfd.

Definition nonblock_test (clock tfd : Z) : E (state K) unit :=
  tnow <~ e_run (getustime clock);
  tfd <~ ufd tfd clock 0 (mk_itimerspec (set_timespec (100 * 1000)) (set_timespec 0));
  _ <~ e_run (wait_report clock tfd tnow);
  _ <~ e_run (nonblock_read 4 tfd);
  e_run (sys (close tfd)).

Definition test_clock (clock : Z) : E (state K) unit :=
  _ <~ e_run (print (Testing clock));
  tfd <~ relative_test clock;
  tfd <~ absolute_test clock tfd;
  tfd <~ sequential_test clock tfd;
  nonblock_test clock tfd.

Definition main : M (state K) Z :=
  e_main (_ <~ e_for_each [CLOCK_MONOTONIC; CLOCK_REALTIME] test_clock; e_ret 0).
End program.
End timerfd_test.

(** ** timerfd-test2.c *)
Module timerfd_test2.
Section program.
Context {K : Type} `{!Kernel K}.

Definition settime (tfd flags : Z) (tmr : itimerspec) : E (state K) unit :=
  r <~ e_run (sys (timerfd_settime tfd flags tmr));
  if negb (r =? 0) then e_exit 1 else e_ret tt.

Definition relative_test (clock : Z) : E (state K) Z :=
  tnow <~ e_run (getustime clock);
  tfd <~ e_run (sys (timerfd_create clock 0));
  if tfd =? -1 then e_exit 1 else
  _ <~ e_run (print (Descriptor tfd));
  _ <~ settime tfd 0 (mk_itimerspec (set_timespec (500 * 1000)) (set_timespec 0));
  _ <~ e_run (wait_report 8 clock tfd tnow); e_ret tfd.

Definition absolute_test (clock tfd : Z) : E (state K) unit :=
  tnow <~ e_run (getustime clock);
  _ <~ settime tfd TFD_TIMER_ABSTIME (mk_itimerspec (set_timespec (u64 (tnow + 500 * 1000))) (set_timespec 0));
  e_run (wait_report 8 clock tfd tnow).

Definition sequential_test (clock tfd : Z) : E (state K) unit :=
  tnow <~ e_run (getustime clock);
  _ <~ settime tfd TFD_TIMER_ABSTIME (mk_itimerspec (set_timespec (u64 (tnow + 100 * 1000))) (set_timespec (100 * 1000)));
  _ <~ e_run (sys (sleep 1));
  r <~ e_run (sys (timerfd_gettime tfd));
  if negb (r.1 =? 0) then e_exit 1 else
  _ <~ e_run (print (Remaining r.2));
  _ <~ e_run (sys (sleep 1));
  e_run (wait_report 8 clock tfd tnow).

Definition nonblock_test (clock tfd : Z) : E (state K) unit :=
  tnow <~ e_run (getustime clock);
  _ <~ settime tfd 0 (mk_itimerspec (set_timespec (100 * 1000)) (set_timespec 0));
  _ <~ e_run (print (Descriptor tfd));
  _ <~ e_run (wait_report 8 clock tfd tnow);
  _ <~ e_run (nonblock_read 8 tfd);
  e_run (sys (close tfd)).

Definition test_clock (clock : Z) : E (state K) unit :=
  _ <~ e_run (print (Testing clock));
  tfd <~ relative_test clock;
  _ <~ absolute_test clock tfd;
  _ <~ sequential_test clock tfd;
  nonblock_test clock tfd.

Definition main : M (state K) Z :=
  e_main (_ <~ e_for_each [CLOCK_MONOTONIC; CLOCK_REALTIME] test_clock; e_ret 0).
End program.
End timerfd_test2.

(** ** A kernel with a virtual clock

    Time is in microseconds; [base] is what a clock shows at time zero.  A timer has
    the time of its next expiry and its period, zero if it has none.  A process that
    waits runs again [delay] after it could. *)
Record timer := mk_timer { tclock : Z; expiry : option Z; period : Z; nonblock : bool }.
Record ksim := mk_ksim { now : Z; tmr : option timer; err : Z }.

Section clock_kernel.
Context (base : Z -> Z) (delay : Z).

Definition us_of (t : timespec) : Z := tv_sec t * 1000000 + tv_nsec t / 1000.
Definition of_us (us : Z) : timespec := mk_timespec (us / 1000000) (us mod 1000000 * 1000).

(** The descriptor of the only timer. *)
Definition TFD : Z := 3.

Definition k_clock_gettime (clock : Z) : M ksim (Z * timespec) := fun k => Ok ((0, of_us (now k + base clock)), k).

(** Arming: a zero value disarms. *)
Definition arm (clock flags : Z) (t : itimerspec) (nb : bool) (k : ksim) : ksim :=
  let v := us_of (it_value t) in
  let e := if v =? 0 then None
           else Some (if Z.land flags TFD_TIMER_ABSTIME =? 0 then now k + v else v - base clock) in
  mk_ksim (now k) (Some (mk_timer clock e (us_of (it_interval t)) nb)) (err k).

Definition k_timerfd (ufc clock flags : Z) (t : itimerspec) : M ksim Z := fun k =>
  match tmr k with
  | None => if ufc =? -1 then Ok (TFD, arm clock flags t false k) else Ok (-1, k)
  | Some tm => if ufc =? TFD then Ok (TFD, arm clock flags t (nonblock tm) k) else Ok (-1, k)
  end.

(** The expirations so far and the timer after they were read. *)
Definition ticks (k : ksim) (tm : timer) : Z :=
  match expiry tm with
  | Some e => if now k <? e then 0 else if period tm =? 0 then 1 else (now k - e) / period tm + 1
  | None => 0
  end.
Definition after_read (k : ksim) (tm : timer) : timer :=
  mk_timer (tclock tm) (match expiry tm with
            | Some e => if period tm =? 0 then None else Some (e + ticks k tm * period tm)
            | None => None
            end) (period tm) (nonblock tm).

Definition k_read_ticks (tfd size : Z) : M ksim (Z * Z) := fun k =>
  match tmr k with
  | None => Ok ((-1, 0), mk_ksim (now k) None 9)
  | Some tm =>
    if 0 <? ticks k tm then Ok ((size, ticks k tm), mk_ksim (now k) (Some (after_read k tm)) (err k))
    else if nonblock tm then Ok ((-1, 0), mk_ksim (now k) (tmr k) EAGAIN)
    else match expiry tm with
         | None => NoFuel
         | Some e => let k := mk_ksim (e + delay) (tmr k) (err k) in
                     Ok ((size, ticks k tm), mk_ksim (now k) (Some (after_read k tm)) (err k))
         end
  end.

(** Polling without a limit of time. *)
Definition k_poll_in (tfd timeo : Z) : M ksim (Z * bool) := fun k =>
  match tmr k with
  | None => Ok ((1, false), k)
  | Some tm =>
    if 0 <? ticks k tm then Ok ((1, true), k)
    else match expiry tm with
         | None => NoFuel
         | Some e => Ok ((1, true), mk_ksim (e + delay) (tmr k) (err k))
         end
  end.

Definition k_sleep (sec : Z) : M ksim unit := fun k => Ok (tt, mk_ksim (now k + sec * 1000000 + delay) (tmr k) (err k)).

Definition k_gettime (tfd : Z) : M ksim (Z * itimerspec) := fun k =>
  match tmr k with
  | None => Ok ((-1, mk_itimerspec (of_us 0) (of_us 0)), k)
  | Some tm =>
    let left := match expiry tm with
                | None => 0
                | Some e => if now k <? e then e - now k
                            else if period tm =? 0 then 0 else e + ticks k tm * period tm - now k
                end in
    Ok ((0, mk_itimerspec (of_us left) (of_us (period tm))), k)
  end.

#[export] Instance clock_kernel : Kernel ksim := {
  clock_gettime := k_clock_gettime;
  timerfd := k_timerfd;
  timerfd_create clock flags := fun k => Ok (TFD, mk_ksim (now k) (Some (mk_timer clock None 0 false)) (err k));
  timerfd_settime tfd flags t := fun k =>
    match tmr k with
    | None => Ok (-1, k)
    | Some tm => Ok (0, arm (tclock tm) flags t (nonblock tm) k)
    end;
  timerfd_gettime := k_gettime;
  poll_in := k_poll_in;
  read_ticks := k_read_ticks;
  errno := gets err;
  sleep := k_sleep;
  set_nonblock tfd b := fun k =>
    Ok (tt, mk_ksim (now k) (tm ← tmr k; Some (mk_timer (tclock tm) (expiry tm) (period tm) b)) (err k));
  close tfd := fun k => Ok (tt, mk_ksim (now k) None (err k))
}.
End clock_kernel.

(** ** Proofs *)

Lemma set_timespec_us u : us_of (set_timespec u) = u.
Proof.
  unfold us_of, set_timespec. cbn [tv_sec tv_nsec]. rewrite (Z.mul_comm 1000), Z.div_mul by lia.
  rewrite Z.mul_comm, <- Z.div_mod by lia. done.
Qed.

Lemma set_timespec_valid u : 0 <= tv_nsec (set_timespec u) < 10 ^ 9.
Proof. cbn [set_timespec tv_nsec]. pose proof (Z.mod_pos_bound u 1000000). lia. Qed.

Section runs.
Context (base : Z -> Z) (delay : Z).
#[local] Instance the_kernel : Kernel ksim := clock_kernel base delay.
#[local] Abbreviation st := (state ksim).

Lemma run_sys {A} (m : M ksim A) (s : st) a k : m (kern s) = Ok (a, k) -> sys m s = Ok (a, mk_state k (out s)).
Proof. intros Hm. unfold sys. by rewrite Hm. Qed.

(** [getustime] on the virtual clock. *)
Lemma run_getustime c (s : st) : 0 <= now (kern s) + base c < 2 ^ 62 -> getustime c s = Ok (now (kern s) + base c, s).
Proof.
  intros Ht. unfold getustime. erewrite run_bind by (apply run_sys; reflexivity). destruct s as [k o]. cbn [fst snd kern out Z.eqb negb] in *.
  unfold of_us. cbn [tv_sec tv_nsec]. set (t := now k + base c) in *.
  pose proof (Z.div_mod t 1000000 ltac:(lia)). pose proof (Z.mod_pos_bound t 1000000 ltac:(lia)).
  assert (0 <= t / 1000000) by (apply Z.div_pos; lia).
  rewrite Z.quot_mul by lia. rewrite (u64_small (1000000 * _)) by lia. rewrite u64_small by lia.
  unfold mret, M_ret. do 2 f_equal. lia.
Qed.

(** What has expired at a time. *)
Lemma ticks_before k tm e : expiry tm = Some e -> now k < e -> ticks k tm = 0.
Proof. intros He Hn. unfold ticks. rewrite He. by rewrite (proj2 (Z.ltb_lt (now k) e)). Qed.

Lemma ticks_after k tm e : expiry tm = Some e -> e <= now k ->
  ticks k tm = if period tm =? 0 then 1 else (now k - e) / period tm + 1.
Proof. intros He Hn. unfold ticks. rewrite He. destruct (Z.ltb_spec (now k) e); [lia|done]. Qed.

(** Reading a timer that has expired and telling it; [k] is the kernel behind poll. *)
Lemma run_report size c tfd tnow (s : st) k tm n : k_poll_in delay tfd (-1) (kern s) = Ok ((1, true), k) ->
  tmr k = Some tm -> ticks k tm = n -> 0 < n < 2 ^ 62 -> 0 <= tnow <= now k + base c -> now k + base c < 2 ^ 62 ->
  wait_report size c tfd tnow s = Ok (tt, mk_state (mk_ksim (now k) (Some (after_read k tm)) (err k))
    (out s ++ [GotTicks n ((now k + base c - tnow) / 1000)])).
Proof.
  intros Hpoll Htm Hn Hpos Ht0 Ht. unfold wait_report. erewrite run_bind.
  2: { unfold waittmr. erewrite run_bind by (apply run_sys; exact Hpoll).
       cbn [fst snd]. cbn [Z.ltb Z.compare negb]. erewrite run_bind.
       2: { apply run_sys. cbn [kern read_ticks the_kernel clock_kernel]. unfold k_read_ticks.
            rewrite Htm, Hn, (proj2 (Z.ltb_lt 0 n)) by lia. reflexivity. }
       cbn [fst snd]. rewrite Z.eqb_refl. reflexivity. }
  erewrite run_bind by (apply run_getustime; cbn; lia). cbn [kern now out]. rewrite s64_small by lia.
  rewrite (proj2 (Z.leb_gt n 0)) by lia. by rewrite u64_small by lia.
Qed.

Lemma poll_expired tfd k tm : tmr k = Some tm -> 0 < ticks k tm -> k_poll_in delay tfd (-1) k = Ok ((1, true), k).
Proof. intros Htm Ht. unfold k_poll_in. by rewrite Htm, (proj2 (Z.ltb_lt 0 (ticks k tm))). Qed.

Lemma poll_waits tfd k tm e : tmr k = Some tm -> expiry tm = Some e -> now k < e ->
  k_poll_in delay tfd (-1) k = Ok ((1, true), mk_ksim (e + delay) (tmr k) (err k)).
Proof. intros Htm He Hn. unfold k_poll_in. rewrite Htm, (ticks_before _ _ e), He by done. done. Qed.

(** A timer without a period that has not expired. *)
Lemma run_single size c tfd tnow (s : st) cl nb e : tmr (kern s) = Some (mk_timer cl (Some e) 0 nb) ->
  now (kern s) < e -> 0 <= delay -> 0 <= tnow <= e + delay + base c -> e + delay + base c < 2 ^ 62 ->
  wait_report size c tfd tnow s = Ok (tt, mk_state (mk_ksim (e + delay) (Some (mk_timer cl None 0 nb)) (err (kern s)))
    (out s ++ [GotTicks 1 ((e + delay + base c - tnow) / 1000)])).
Proof.
  intros Htm Hlt Hd Ht0 Ht. erewrite run_report; [|by eapply poll_waits|by cbn|by rewrite (ticks_after _ _ e); cbn; [|done|lia]|lia..|cbn; lia|cbn; lia].
  reflexivity.
Qed.

(** A periodic timer, some time after its first expiry. *)
Lemma run_periodic size c tfd tnow (s : st) cl nb e p : tmr (kern s) = Some (mk_timer cl (Some e) p nb) -> 0 < p ->
  e <= now (kern s) -> 0 <= tnow <= now (kern s) + base c -> now (kern s) + base c < 2 ^ 62 -> now (kern s) - e < 2 ^ 61 ->
  let n := (now (kern s) - e) / p + 1 in
  wait_report size c tfd tnow s = Ok (tt, mk_state (mk_ksim (now (kern s)) (Some (mk_timer cl (Some (e + n * p)) p nb)) (err (kern s)))
    (out s ++ [GotTicks n ((now (kern s) + base c - tnow) / 1000)])).
Proof.
  intros Htm Hp Hle Ht0 Ht Hb n. assert (Hn : ticks (kern s) (mk_timer cl (Some e) p nb) = n).
  { rewrite (ticks_after _ _ e) by done. cbn [period]. by rewrite (proj2 (Z.eqb_neq p 0)) by lia. }
  assert (0 <= (now (kern s) - e) / p) by (apply Z.div_pos; lia).
  assert ((now (kern s) - e) / p <= now (kern s) - e) by (apply Z.div_le_upper_bound; nia).
  erewrite run_report; [|eapply poll_expired; [exact Htm|lia]|exact Htm|exact Hn|lia..].
  unfold after_read. rewrite Hn. cbn [expiry period tclock nonblock]. by rewrite (proj2 (Z.eqb_neq p 0)) by lia.
Qed.

(** The read that does not block of a timer that is not armed. *)
Lemma run_nonblock_read size tfd (s : st) cl p nb : tmr (kern s) = Some (mk_timer cl None p nb) ->
  nonblock_read size tfd s = Ok (tt, mk_state (mk_ksim (now (kern s)) (Some (mk_timer cl None p false)) EAGAIN) (out s ++ [Success])).
Proof.
  intros Htm. destruct s as [k o]. cbn [kern out] in *. unfold nonblock_read.
  erewrite run_bind by (apply run_sys; cbn; rewrite Htm; reflexivity). cbn. reflexivity.
Qed.

Lemma arm_relative c x p nb k : 0 < x ->
  arm base c 0 (mk_itimerspec (set_timespec x) (set_timespec p)) nb k =
  mk_ksim (now k) (Some (mk_timer c (Some (now k + x)) p nb)) (err k).
Proof. intros Hx. unfold arm. cbn [it_value it_interval]. rewrite !set_timespec_us. by rewrite (proj2 (Z.eqb_neq x 0)) by lia. Qed.

Lemma arm_absolute c x p nb k : 0 < x ->
  arm base c TFD_TIMER_ABSTIME (mk_itimerspec (set_timespec x) (set_timespec p)) nb k =
  mk_ksim (now k) (Some (mk_timer c (Some (x - base c)) p nb)) (err k).
Proof. intros Hx. unfold arm. cbn [it_value it_interval]. rewrite !set_timespec_us. by rewrite (proj2 (Z.eqb_neq x 0)) by lia. Qed.

Hypothesis delay_ok : 0 <= delay < 50000.

(** The steps of the first program. *)
Lemma run_ufd1 c tfd0 flags t (s : st) k : k_timerfd base tfd0 c flags t (kern s) = Ok (TFD, k) ->
  timerfd_test.ufd tfd0 c flags t s = Ok (inr TFD, mk_state k (out s ++ [Descriptor TFD])).
Proof. intros Hk. unfold timerfd_test.ufd. erewrite run_e_bind by (apply run_e_run, run_sys; exact Hk). reflexivity. Qed.

Lemma test1_relative c t er o : 0 <= t + base c < 2 ^ 60 ->
  timerfd_test.relative_test c (mk_state (mk_ksim t None er) o) =
  Ok (inr TFD, mk_state (mk_ksim (t + 500000 + delay) (Some (mk_timer c None 0 false)) er) (o ++ [Descriptor TFD] ++ [GotTicks 1 ((500000 + delay) / 1000)])).
Proof.
  intros Ht. unfold timerfd_test.relative_test. erewrite run_e_bind by (apply run_e_run, run_getustime; cbn; lia).
  erewrite run_e_bind by (apply run_ufd1; cbn -[arm]; rewrite arm_relative by lia; reflexivity). cbn [kern now err out].
  erewrite run_e_bind by (apply run_e_run; eapply run_single; cbn; reflexivity || lia). cbn [kern now err out].
  unfold e_ret, mret, M_ret. rewrite <- app_assoc. repeat f_equal; lia.
Qed.

Ltac clock := erewrite run_e_bind by (apply run_e_run, run_getustime; cbn; lia); cbn [kern now err out].
Ltac ufd1 := erewrite run_e_bind by (apply run_ufd1; cbn -[arm]; rewrite ?u64_small by lia; first [rewrite arm_relative by lia|rewrite arm_absolute by lia]; reflexivity); cbn [kern now err out].
Ltac single := erewrite run_e_bind by (apply run_e_run; eapply run_single; cbn; reflexivity || lia); cbn [kern now err out].
Ltac finish := unfold e_ret, mret, M_ret; rewrite <- ?app_assoc; repeat f_equal; lia.

Lemma test1_absolute c t er o cl : 0 <= t -> 0 <= base c -> t + base c < 2 ^ 60 ->
  timerfd_test.absolute_test c TFD (mk_state (mk_ksim t (Some (mk_timer cl None 0 false)) er) o) =
  Ok (inr TFD, mk_state (mk_ksim (t + 500000 + delay) (Some (mk_timer c None 0 false)) er) (o ++ [Descriptor TFD] ++ [GotTicks 1 ((500000 + delay) / 1000)])).
Proof. intros Ht0 Hb Ht. unfold timerfd_test.absolute_test. clock. ufd1. single. finish. Qed.

Lemma twenty : (2000000 + delay - 100000) / 100000 = 19 /\ (2000000 + 2 * delay - 100000) / 100000 = 19.
Proof. split; symmetry; [apply (Z.div_unique _ _ _ delay)|apply (Z.div_unique _ _ _ (2 * delay))]; lia. Qed.

Lemma test1_sequential c t er o cl : 0 <= t -> 0 <= base c -> t + base c < 2 ^ 60 -> exists e,
  timerfd_test.sequential_test c TFD (mk_state (mk_ksim t (Some (mk_timer cl None 0 false)) er) o) =
  Ok (inr TFD, mk_state (mk_ksim (t + 2000000 + delay) (Some (mk_timer c (Some e) 100000 false)) er) (o ++ [Descriptor TFD] ++ [GotTicks 20 ((2000000 + delay) / 1000)])).
Proof.
  intros Ht0 Hb Ht. unfold timerfd_test.sequential_test. clock. ufd1.
  erewrite run_e_bind by (apply run_e_run, run_sys; reflexivity). cbn [kern now err out tmr].
  eexists. erewrite run_e_bind by (apply run_e_run; eapply run_periodic; cbn; reflexivity || lia). cbn [kern now err out].
  destruct twenty as [H20 _]. replace (t + 2 * 1000000 + delay - (t + base c + 100 * 1000 - base c)) with (2000000 + delay - 100000) by lia.
  change (100 * 1000) with 100000 in *. rewrite H20. unfold e_ret, mret, M_ret. rewrite <- app_assoc.
  replace (t + 2 * 1000000 + delay + base c - (t + base c)) with (2000000 + delay) by lia.
  replace (t + 2 * 1000000 + delay) with (t + 2000000 + delay) by lia. reflexivity.
Qed.

Lemma test1_nonblock c t er o cl e p : 0 <= t -> 0 <= base c -> t + base c < 2 ^ 60 ->
  timerfd_test.nonblock_test c TFD (mk_state (mk_ksim t (Some (mk_timer cl e p false)) er) o) =
  Ok (inr tt, mk_state (mk_ksim (t + 100000 + delay) None EAGAIN) (o ++ [Descriptor TFD] ++ [GotTicks 1 ((100000 + delay) / 1000)] ++ [Success])).
Proof.
  intros Ht0 Hb Ht. unfold timerfd_test.nonblock_test. clock. ufd1. single.
  erewrite run_e_bind by (apply run_e_run; eapply run_nonblock_read; reflexivity). cbn [kern now err out].
  unfold e_run. erewrite run_bind by (apply run_sys; reflexivity). cbn [kern now err out]. finish.
Qed.

(** What the programs print for a clock. *)
Definition report1 (c : Z) : list line :=
  [Testing c; Descriptor TFD; GotTicks 1 ((500000 + delay) / 1000); Descriptor TFD; GotTicks 1 ((500000 + delay) / 1000);
   Descriptor TFD; GotTicks 20 ((2000000 + delay) / 1000); Descriptor TFD; GotTicks 1 ((100000 + delay) / 1000); Success].

Lemma test1_clock c t er o : 0 <= t -> 0 <= base c -> t + base c < 2 ^ 59 -> 
  timerfd_test.test_clock c (mk_state (mk_ksim t None er) o) =
  Ok (inr tt, mk_state (mk_ksim (t + 3100000 + 4 * delay) None EAGAIN) (o ++ report1 c)).
Proof.
  intros Ht0 Hb Ht. unfold timerfd_test.test_clock. erewrite run_e_bind by reflexivity. cbn [kern out].
  erewrite run_e_bind by (apply test1_relative; lia). erewrite run_e_bind by (apply test1_absolute; lia).
  destruct (test1_sequential c (t + 500000 + delay + 500000 + delay) er ((((o ++ [Testing c]) ++ [Descriptor TFD] ++ [GotTicks 1 ((500000 + delay) / 1000)])
     ++ [Descriptor TFD] ++ [GotTicks 1 ((500000 + delay) / 1000)])) c) as [e He]; [lia..|].
  erewrite run_e_bind by exact He. rewrite test1_nonblock by lia. rewrite <- !app_assoc. cbn [app].
  by replace (t + 3100000 + 4 * delay) with (t + 500000 + delay + 500000 + delay + 2000000 + delay + 100000 + delay) by lia.
Qed.

(** The steps of the second program. *)
Lemma run_settime tfd flags t (s : st) tm : tmr (kern s) = Some tm ->
  timerfd_test2.settime tfd flags t s = Ok (inr tt, mk_state (arm base (tclock tm) flags t (nonblock tm) (kern s)) (out s)).
Proof.
  intros Hk. unfold timerfd_test2.settime. erewrite run_e_bind by (apply run_e_run, run_sys; cbn -[arm]; rewrite Hk; reflexivity). reflexivity.
Qed.

Ltac settime := erewrite run_e_bind by (rewrite ?u64_small by lia; eapply run_settime; reflexivity); cbn [kern now err out tclock nonblock];
  first [rewrite arm_relative by lia|rewrite arm_absolute by lia]; cbn [kern now err out].

Lemma test2_relative c t er o : 0 <= t -> 0 <= base c -> t + base c < 2 ^ 60 ->
  timerfd_test2.relative_test c (mk_state (mk_ksim t None er) o) =
  Ok (inr TFD, mk_state (mk_ksim (t + 500000 + delay) (Some (mk_timer c None 0 false)) er) (o ++ [Descriptor TFD] ++ [GotTicks 1 ((500000 + delay) / 1000)])).
Proof.
  intros Ht0 Hb Ht. unfold timerfd_test2.relative_test. clock.
  erewrite run_e_bind by (apply run_e_run, run_sys; reflexivity). cbn [Z.eqb TFD]. erewrite run_e_bind by reflexivity. cbn [kern now err out].
  settime. single. finish.
Qed.

Lemma test2_absolute c t er o : 0 <= t -> 0 <= base c -> t + base c < 2 ^ 60 ->
  timerfd_test2.absolute_test c TFD (mk_state (mk_ksim t (Some (mk_timer c None 0 false)) er) o) =
  Ok (inr tt, mk_state (mk_ksim (t + 500000 + delay) (Some (mk_timer c None 0 false)) er) (o ++ [GotTicks 1 ((500000 + delay) / 1000)])).
Proof.
  intros Ht0 Hb Ht. unfold timerfd_test2.absolute_test. clock. settime.
  unfold e_run. erewrite run_bind by (eapply run_single; cbn; reflexivity || lia). cbn [kern now err out]. finish.
Qed.

Lemma test2_sequential c t er o : 0 <= t -> 0 <= base c -> t + base c < 2 ^ 60 -> exists e,
  timerfd_test2.sequential_test c TFD (mk_state (mk_ksim t (Some (mk_timer c None 0 false)) er) o) =
  Ok (inr tt, mk_state (mk_ksim (t + 2000000 + 2 * delay) (Some (mk_timer c (Some e) 100000 false)) er)
    (o ++ [Remaining (mk_itimerspec (of_us (100000 - delay)) (of_us 100000))] ++ [GotTicks 20 ((2000000 + 2 * delay) / 1000)])).
Proof.
  intros Ht0 Hb Ht. unfold timerfd_test2.sequential_test. clock. settime.
  erewrite run_e_bind by (apply run_e_run, run_sys; reflexivity). cbn [kern now err out tmr].
  change (100 * 1000) with 100000. change (1 * 1000000) with 1000000.
  erewrite run_e_bind. 2: {
    apply run_e_run, run_sys. cbn -[of_us ticks Z.mul]. rewrite (proj2 (Z.ltb_ge (t + 1000000 + delay) (t + base c + 100000 - base c))) by lia.
    rewrite (ticks_after _ _ (t + base c + 100000 - base c)) by (cbn; done || lia). cbn -[of_us Z.mul].
    replace (t + 1000000 + delay - (t + base c + 100000 - base c)) with (delay + 9 * 100000) by lia.
    rewrite Z.div_add, (Z.div_small delay) by lia. reflexivity. }
  cbn -[of_us e_bind Z.mul]. erewrite run_e_bind by reflexivity. cbn [kern now err out tmr].
  erewrite run_e_bind by (apply run_e_run, run_sys; reflexivity). cbn [kern now err out tmr].
  change (1 * 1000000) with 1000000.
  eexists. unfold e_run. erewrite run_bind by (eapply run_periodic; cbn; reflexivity || lia). cbn [kern now err out].
  destruct twenty as [_ H20]. replace (t + 1000000 + delay + 1000000 + delay - (t + base c + 100000 - base c)) with (2000000 + 2 * delay - 100000) by lia.
  rewrite H20. unfold mret, M_ret. rewrite <- app_assoc.
  replace (t + 1000000 + delay + 1000000 + delay + base c - (t + base c)) with (2000000 + 2 * delay) by lia.
  replace (t + 1000000 + delay + 1000000 + delay) with (t + 2000000 + 2 * delay) by lia.
  replace (t + base c + 100000 - base c + (0 + 9 + 1) * 100000 - (t + 1000000 + delay)) with (100000 - delay) by lia. reflexivity.
Qed.

Lemma test2_nonblock c t er o e p : 0 <= t -> 0 <= base c -> t + base c < 2 ^ 60 ->
  timerfd_test2.nonblock_test c TFD (mk_state (mk_ksim t (Some (mk_timer c e p false)) er) o) =
  Ok (inr tt, mk_state (mk_ksim (t + 100000 + delay) None EAGAIN) (o ++ [Descriptor TFD] ++ [GotTicks 1 ((100000 + delay) / 1000)] ++ [Success])).
Proof.
  intros Ht0 Hb Ht. unfold timerfd_test2.nonblock_test. clock. settime. erewrite run_e_bind by reflexivity. cbn [kern now err out].
  single. erewrite run_e_bind by (apply run_e_run; eapply run_nonblock_read; reflexivity). cbn [kern now err out].
  unfold e_run. erewrite run_bind by (apply run_sys; reflexivity). cbn [kern now err out]. finish.
Qed.

Definition report2 (c : Z) : list line :=
  [Testing c; Descriptor TFD; GotTicks 1 ((500000 + delay) / 1000); GotTicks 1 ((500000 + delay) / 1000);
   Remaining (mk_itimerspec (of_us (100000 - delay)) (of_us 100000)); GotTicks 20 ((2000000 + 2 * delay) / 1000);
   Descriptor TFD; GotTicks 1 ((100000 + delay) / 1000); Success].

Lemma test2_clock c t er o : 0 <= t -> 0 <= base c -> t + base c < 2 ^ 59 ->
  timerfd_test2.test_clock c (mk_state (mk_ksim t None er) o) =
  Ok (inr tt, mk_state (mk_ksim (t + 3100000 + 5 * delay) None EAGAIN) (o ++ report2 c)).
Proof.
  intros Ht0 Hb Ht. unfold timerfd_test2.test_clock. erewrite run_e_bind by reflexivity. cbn [kern out].
  erewrite run_e_bind by (apply test2_relative; lia). erewrite run_e_bind by (apply test2_absolute; lia).
  destruct (test2_sequential c (t + 500000 + delay + 500000 + delay) er (((o ++ [Testing c]) ++ [Descriptor TFD] ++ [GotTicks 1 ((500000 + delay) / 1000)])
     ++ [GotTicks 1 ((500000 + delay) / 1000)])) as [e He]; [lia..|].
  erewrite run_e_bind by exact He. rewrite test2_nonblock by lia. rewrite <- !app_assoc. cbn [app].
  by replace (t + 3100000 + 5 * delay) with (t + 500000 + delay + 500000 + delay + 2000000 + 2 * delay + 100000 + delay) by lia.
Qed.
End runs.

(** Reading a clock that shows the time a timespec was made of gives that time: in
    [getustime] and in [set_timespec] nothing is lost. *)
Lemma timespec_roundtrip u : 0 <= u < 2 ^ 62 ->
  u64 (u64 (1000000 * tv_sec (set_timespec u)) + Z.quot (tv_nsec (set_timespec u)) 1000) = u /\ 0 <= tv_nsec (set_timespec u) < 10 ^ 9.
Proof.
  intros Hu. split; [|apply set_timespec_valid]. cbn [set_timespec tv_sec tv_nsec].
  pose proof (Z.div_mod u 1000000 ltac:(lia)). pose proof (Z.mod_pos_bound u 1000000 ltac:(lia)).
  assert (0 <= u / 1000000) by (apply Z.div_pos; lia).
  rewrite (Z.mul_comm 1000), Z.quot_mul by lia. rewrite (u64_small (1000000 * _)), u64_small; lia.
Qed.

(** C30: With clocks below 2^58 microseconds and a process that runs again less than
    50 ms after what it waits for, both timer programs end with success and print for
    either clock: one expiry after 500 ms for the relative and for the absolute timer,
    20 expiries after two seconds for the one of 100 ms, one after 100 ms for the last,
    and success of the read that does not block; the times are late by the delays of
    the process and by nothing else.  timerfd-test2 also sees, after a second, what is
    left of the running period. *)
Theorem timerfd_tests base delay t0 : 0 <= delay < 50000 -> 0 <= t0 < 2 ^ 57 ->
  (forall c, 0 <= base c < 2 ^ 57) ->
  let start := mk_state (mk_ksim t0 None 0) [] in
  (exists s, timerfd_test.main (Kernel0 := clock_kernel base delay) start = Ok (0, s) /\
    out s = report1 delay CLOCK_MONOTONIC ++ report1 delay CLOCK_REALTIME) /\
  (exists s, timerfd_test2.main (Kernel0 := clock_kernel base delay) start = Ok (0, s) /\
    out s = report2 delay CLOCK_MONOTONIC ++ report2 delay CLOCK_REALTIME).
Proof.
  intros Hd Ht Hb start. pose proof (Hb CLOCK_MONOTONIC). pose proof (Hb CLOCK_REALTIME). split.
  - eexists. unfold timerfd_test.main, e_main. cbn [e_for_each]. erewrite run_bind.
    2: { erewrite run_e_bind; [reflexivity|]. erewrite run_e_bind by (apply test1_clock; lia).
         erewrite run_e_bind by (apply test1_clock; lia). reflexivity. }
    split; [reflexivity|done].
  - eexists. unfold timerfd_test2.main, e_main. cbn [e_for_each]. erewrite run_bind.
    2: { erewrite run_e_bind; [reflexivity|]. erewrite run_e_bind by (apply test2_clock; lia).
         erewrite run_e_bind by (apply test2_clock; lia). reflexivity. }
    split; [reflexivity|done].
Qed.

Lemma timerfd_tests_witness : 
  let start := mk_state (mk_ksim 5 None 0) [] in
  (exists s, timerfd_test.main (Kernel0 := clock_kernel (fun c => if c =? 1 then 77 else 0) 120) start = Ok (0, s) /\
    out s = report1 120 CLOCK_MONOTONIC ++ report1 120 CLOCK_REALTIME) /\
  (exists s, timerfd_test2.main (Kernel0 := clock_kernel (fun c => if c =? 1 then 77 else 0) 120) start = Ok (0, s) /\
    out s = report2 120 CLOCK_MONOTONIC ++ report2 120 CLOCK_REALTIME).
Proof. apply (timerfd_tests (fun c => if c =? 1 then 77 else 0)); [lia|lia|]. intros c. destruct (c =? 1); lia. Defined.
