(* ===== verification/AioTest.v ===== *)
(** * eventfd-aio-test.c: asynchronous requests that report to an eventfd

    The program submits one write request for every block of a file, from the last
    to the first, waits until as many requests are reported as there are blocks, then
    does the same with read requests.  Each completed request adds one to an eventfd;
    the program polls it, reads how many there are and fetches that many results.

    The kernel is a class; [aio_kernel] is an instance with a file, a queue of
    requests and a schedule that says how many are completed whenever the program
    waits.  Messages are left out. *)
From Stdlib Require Import ZArith Lia Bool.
From stdpp Require Import base tactics list numbers sets.
From S2P Require Import Prelude Exits.

Definition TESTFILE_SIZE : Z := 4096 * 5200.
Definition IORTX_SIZE : Z := 1024 * 4.
Definition NUM_EVENTS : Z := 128.

Definition IOCB_CMD_PREAD : Z := 0.
Definition IOCB_CMD_PWRITE : Z := 1.
Definition IOCB_CMD_PREADV : Z := 7.
Definition IOCB_CMD_PWRITEV : Z := 8.
Definition IOCB_FLAG_RESFD : Z := Z.shiftl 1 0.

(** struct iocb; the two reserved fields, always zero, are left out. *)
Record iocb := mk_iocb {
  aio_data : Z; aio_lio_opcode : Z; aio_reqprio : Z; aio_fildes : Z;
  aio_buf : Z; aio_nbytes : Z; aio_offset : Z; aio_flags : Z; aio_resfd : Z
}.
Record io_event := mk_io_event { data : Z; res : Z }.

Definition asyio_prep_preadv (fd iov nr_segs offset afd : Z) : iocb :=
  mk_iocb 0 IOCB_CMD_PREADV 0 (u32 fd) (u64 iov) (u64 nr_segs) (s64 offset) IOCB_FLAG_RESFD (u32 afd).
Definition asyio_prep_pwritev (fd iov nr_segs offset afd : Z) : iocb :=
  mk_iocb 0 IOCB_CMD_PWRITEV 0 (u32 fd) (u64 iov) (u64 nr_segs) (s64 offset) IOCB_FLAG_RESFD (u32 afd).
Definition asyio_prep_pread (fd buf nr_segs offset afd : Z) : iocb :=
  mk_iocb 0 IOCB_CMD_PREAD 0 (u32 fd) (u64 buf) (u64 nr_segs) (s64 offset) IOCB_FLAG_RESFD (u32 afd).
Definition asyio_prep_pwrite (fd buf nr_segs offset afd : Z) : iocb :=
  mk_iocb 0 IOCB_CMD_PWRITE 0 (u32 fd) (u64 buf) (u64 nr_segs) (s64 offset) IOCB_FLAG_RESFD (u32 afd).

Definition set_data (d : Z) (c : iocb) : iocb :=
  mk_iocb d (aio_lio_opcode c) (aio_reqprio c) (aio_fildes c) (aio_buf c) (aio_nbytes c) (aio_offset c) (aio_flags c) (aio_resfd c).

(** What the program asks of the kernel.  [io_submit] is also given the bytes at
    [aio_buf]. *)
Class Kernel (K : Type) := {
  eventfd : Z -> M K Z;
  io_setup : Z -> M K (Z * Z);
  open : M K Z;
  ftruncate : Z -> Z -> M K unit;
  set_nonblock : Z -> M K unit;
  io_submit : Z -> list iocb -> list Z -> M K Z;
  poll_in : Z -> Z -> M K (Z * bool);
  read8 : Z -> M K (Z * Z);
  io_getevents : Z -> Z -> Z -> M K (Z * list io_event);
  io_destroy : Z -> M K unit;
  close : Z -> M K unit;
  remove : M K unit
}.

Section program.
Context {K : Type} `{!Kernel K} (malloc : Z -> bool) (buf_addr : Z).

Definition waitasync (afd timeo : Z) : M K Z :=
  p ← poll_in afd timeo;
  mret (if p.1 <? 0 then -1 else if (p.2 : bool) then 1 else 0).

(** The inner loop: [eval] results are to be fetched; the result is the new [i]. *)
Fixpoint harvest (fuel : nat) (ctx eval i : Z) : M K Z :=
  match fuel with
  | O => nofuel
  | S fuel =>
    if 0 <? eval then
      r ← io_getevents ctx 1 (if NUM_EVENTS <? eval then NUM_EVENTS else s64 eval);
      if 0 <? r.1 then harvest fuel ctx (u64 (eval - r.1)) (s64 (i + r.1)) else harvest fuel ctx eval i
    else mret i
  end.

(** The outer loop: until [n] results are there. *)
Fixpoint collect (fuel hfuel : nat) (ctx afd n i : Z) : M K unit :=
  match fuel with
  | O => nofuel
  | S fuel =>
    if i <? n then
      waitasync afd (-1);;
      r ← read8 afd;
      i ← harvest hfuel ctx (if r.1 =? 8 then r.2 else 0) i;
      collect fuel hfuel ctx afd n i
    else mret tt
  end.

(** The requests, the last block first. *)
Definition requests (prep : Z -> Z -> Z -> Z -> Z -> iocb) (fd afd n : Z) : list iocb :=
  (fun i => set_data (u64 (i + 1)) (prep fd buf_addr IORTX_SIZE ((n - i - 1) * IORTX_SIZE) afd)) <$> seqZ 0 n.

(** What both tests do behind filling the buffer. *)
Definition run_requests (fuel : nat) (prep : Z -> Z -> Z -> Z -> Z -> iocb) (buf : list Z) (ctx fd range afd : Z) : M K Z :=
  let n := Z.quot range IORTX_SIZE in
  if negb (malloc (u64 (n * 64)) && malloc (u64 (n * 8))) then mret (-1) else
  r ← io_submit ctx (requests prep fd afd n) buf;
  if r <=? 0 then mret (-1) else
  collect fuel fuel ctx afd n 0;; mret n.

Definition test_read (fuel : nat) (ctx fd range afd : Z) : M K Z :=
  run_requests fuel asyio_prep_pread (repeat 0 (Z.to_nat IORTX_SIZE)) ctx fd range afd.

Definition pattern : list Z := (fun i => Z.land i 255) <$> seqZ 0 IORTX_SIZE.

Definition test_write (fuel : nat) (ctx fd range afd : Z) : M K Z :=
  run_requests fuel asyio_prep_pwrite pattern ctx fd range afd.

Definition main (fuel : nat) : M K Z := e_main (
  afd <~ e_run (eventfd 0);
  if afd =? -1 then e_exit 2 else
  c <~ e_run (io_setup (TESTFILE_SIZE / IORTX_SIZE + 256));
  if negb (c.1 =? 0) then e_exit 3 else
  fd <~ e_run open;
  if fd =? -1 then e_exit 4 else
  _ <~ e_run (ftruncate fd TESTFILE_SIZE);
  _ <~ e_run (set_nonblock afd);
  _ <~ e_run (test_write fuel c.2 fd TESTFILE_SIZE afd);
  _ <~ e_run (test_read fuel c.2 fd TESTFILE_SIZE afd);
  _ <~ e_run (io_destroy c.2);
  _ <~ e_run (close fd);
  _ <~ e_run (close afd);
  _ <~ e_run remove;
  e_ret 0).
End program.

(** ** A kernel

    [file] gives the byte at an offset; [pending] are the requests accepted and
    [events] the results not fetched; [counter] is the value of the eventfd.  [sched]
    says how many requests are completed at the next waits, one at least. *)
Record ksim := mk_ksim {
  file : Z -> Z; counter : Z; pending : list iocb; events : list io_event; sched : list nat
}.

Section aio_kernel.
Context (accept : nat) (pick : list iocb -> list iocb).

Definition write_at (f : Z -> Z) (off : Z) (l : list Z) : Z -> Z :=
  fun o => if (off <=? o) && (o <? off + Z.of_nat (length l)) then nth (Z.to_nat (o - off)) l 0 else f o.

(** A request with the bytes its buffer holds when it is done. *)
Definition do_request (mem : list Z) (k : ksim) (c : iocb) : ksim :=
  let f := if aio_lio_opcode c =? IOCB_CMD_PWRITE
           then write_at (file k) (aio_offset c) (take (Z.to_nat (aio_nbytes c)) mem) else file k in
  mk_ksim f (counter k + 1) (pending k) (events k ++ [mk_io_event (aio_data c) (aio_nbytes c)]) (sched k).

(** The kernel keeps the bytes with the requests: the program does not change its
    buffer while there are any. *)
Record kernel := mk_kernel { sim : ksim; bytes : list Z }.

Definition complete (n : nat) (k : kernel) : kernel :=
  let s := sim k in
  mk_kernel (fold_left (do_request (bytes k)) (take n (pending s))
    (mk_ksim (file s) (counter s) (drop n (pending s)) (events s) (tail (sched s)))) (bytes k).

Definition k_submit (ctx : Z) (l : list iocb) (mem : list Z) : M kernel Z := fun k =>
  let s := sim k in
  let m := Nat.min accept (length l) in
  if (m =? 0)%nat then Ok (-1, k)
  else Ok (Z.of_nat m, mk_kernel (mk_ksim (file s) (counter s) (pick (take m l)) (events s) (sched s)) mem).

Definition k_poll (afd timeo : Z) : M kernel (Z * bool) := fun k =>
  if 0 <? counter (sim k) then Ok ((1, true), k)
  else match pending (sim k) with
       | [] => NoFuel
       | _ => Ok ((1, true), complete (Nat.max 1 (hd 1%nat (sched (sim k)))) k)
       end.

Definition k_read (afd : Z) : M kernel (Z * Z) := fun k =>
  let s := sim k in
  if 0 <? counter s then Ok ((8, counter s), mk_kernel (mk_ksim (file s) 0 (pending s) (events s) (sched s)) (bytes k))
  else Ok ((-1, 0), k).

Definition k_getevents (ctx lo hi : Z) : M kernel (Z * list io_event) := fun k =>
  let s := sim k in
  let l := take (Z.to_nat hi) (events s) in
  Ok ((Z.of_nat (length l), l), mk_kernel (mk_ksim (file s) (counter s) (pending s) (drop (Z.to_nat hi) (events s)) (sched s)) (bytes k)).

#[export] Instance aio_kernel : Kernel kernel := {
  eventfd n := fun k => Ok (4, mk_kernel (mk_ksim (file (sim k)) n (pending (sim k)) (events (sim k)) (sched (sim k))) (bytes k));
  io_setup n := fun k => Ok ((0, 1), k);
  open := fun k => Ok (5, k);
  ftruncate fd n := mret tt;
  set_nonblock fd := mret tt;
  io_submit := k_submit;
  poll_in := k_poll;
  read8 := k_read;
  io_getevents := k_getevents;
  io_destroy ctx := mret tt;
  close fd := mret tt;
  remove := mret tt
}.
End aio_kernel.

(** ** Proofs *)
Section proofs.
Context (accept : nat) (pick : list iocb -> list iocb) (malloc : Z -> bool) (buf_addr : Z).
Hypothesis pick_perm : forall l, pick l ≡ₚ l.
#[local] Instance the_kernel : Kernel kernel := aio_kernel accept pick.

(** A request for one block. *)
Definition block (op : Z) (c : iocb) : Prop :=
  aio_lio_opcode c = op /\ aio_nbytes c = IORTX_SIZE /\ exists j, 0 <= j /\ aio_offset c = j * IORTX_SIZE.

(** The block of [c] holds the bytes [mem] in the file. *)
Definition written (mem : list Z) (f : Z -> Z) (c : iocb) : Prop :=
  forall x, 0 <= x < IORTX_SIZE -> f (aio_offset c + x) = nth (Z.to_nat x) mem 0.

Lemma write_at_in f off l x : 0 <= x < Z.of_nat (length l) -> write_at f off l (off + x) = nth (Z.to_nat x) l 0.
Proof.
  intros Hx. unfold write_at. rewrite (proj2 (Z.leb_le off (off + x))), (proj2 (Z.ltb_lt (off + x) (off + Z.of_nat (length l)))) by lia.
  cbn [andb]. do 2 f_equal. lia.
Qed.

Lemma write_at_out f off l o : o < off \/ off + Z.of_nat (length l) <= o -> write_at f off l o = f o.
Proof.
  intros Ho. unfold write_at. destruct (Z.leb_spec off o), (Z.ltb_spec o (off + Z.of_nat (length l))); cbn [andb]; try done; lia.
Qed.

(** Writing one block keeps the others. *)
Lemma written_write mem f op c c' : length mem = Z.to_nat IORTX_SIZE -> block op c -> block op c' ->
  written mem f c' \/ aio_offset c' = aio_offset c -> written mem (write_at f (aio_offset c) mem) c'.
Proof.
  intros Hm (_ & _ & j & Hj & Ho) (_ & _ & j' & Hj' & Ho') Hw x Hx.
  destruct (decide (j = j')) as [<-|Hne].
  - rewrite Ho', <- Ho. apply write_at_in. rewrite Hm. lia.
  - destruct Hw as [Hw|He]; [|unfold IORTX_SIZE in *; nia].
    rewrite write_at_out; [by apply Hw|]. rewrite Hm, Z2Nat.id by (unfold IORTX_SIZE; lia). unfold IORTX_SIZE in *. nia.
Qed.

(** What is known between the calls, [eval] results being read off the counter and
    [i] fetched: [reqs] were submitted with the bytes [mem], [f0] was the file. *)
Record inv (op : Z) (reqs : list iocb) (mem : list Z) (f0 : Z -> Z) (done : list iocb) (k : kernel) (i eval : Z) : Prop := {
  inv_bytes : bytes k = mem;
  inv_reqs : done ++ pending (sim k) ≡ₚ reqs;
  inv_write : op = IOCB_CMD_PWRITE -> Forall (written mem (file (sim k))) done;
  inv_read : op <> IOCB_CMD_PWRITE -> file (sim k) = f0;
  inv_counter : 0 <= counter (sim k);
  inv_eval : 0 <= eval;
  inv_events : Z.of_nat (length (events (sim k))) = counter (sim k) + eval;
  inv_done : Z.of_nat (length done) = i + eval + counter (sim k)
}.

Lemma inv_done_one op reqs mem f0 dn c ps s i eval : length mem = Z.to_nat IORTX_SIZE -> Forall (block op) reqs ->
  inv op reqs mem f0 dn (mk_kernel (mk_ksim (file s) (counter s) (c :: ps) (events s) (sched s)) mem) i eval ->
  inv op reqs mem f0 (dn ++ [c]) (mk_kernel (do_request mem (mk_ksim (file s) (counter s) ps (events s) (sched s)) c) mem) i eval.
Proof.
  intros Hm Hb [_ Hr Hw Hf Hc He Hev Hd]. cbn [sim bytes file counter pending events sched] in *.
  assert (Hbc : block op c) by (rewrite Forall_forall in Hb; apply Hb; rewrite <- Hr; set_solver).
  destruct Hbc as (Hop & Hn & Ho). assert (Ht : take (Z.to_nat (aio_nbytes c)) mem = mem) by (rewrite Hn, take_ge; [done|lia]).
  unfold do_request. cbn [sim bytes file counter pending events sched]. rewrite Hop, Ht.
  split; cbn [sim bytes file counter pending events sched]; rewrite ?length_app; cbn [length]; try done; try lia.
  - by rewrite <- app_assoc.
  - intros ->. cbn [Z.eqb IOCB_CMD_PWRITE Pos.eqb]. apply Forall_app. split.
    + rewrite !Forall_forall in *. intros c' Hc'. apply (written_write _ _ IOCB_CMD_PWRITE); [done|by repeat split| |].
      * apply Hb. rewrite <- Hr. set_solver.
      * left. by apply (Hw eq_refl).
    + apply Forall_singleton, (written_write _ _ IOCB_CMD_PWRITE); [done|by repeat split|by repeat split|by right].
  - intros Hne. rewrite (proj2 (Z.eqb_neq op IOCB_CMD_PWRITE)) by done. by apply Hf.
Qed.

Lemma inv_complete op reqs mem f0 i eval ts : forall dn ps s, length mem = Z.to_nat IORTX_SIZE -> Forall (block op) reqs ->
  inv op reqs mem f0 dn (mk_kernel (mk_ksim (file s) (counter s) (ts ++ ps) (events s) (sched s)) mem) i eval ->
  inv op reqs mem f0 (dn ++ ts) (mk_kernel (fold_left (do_request mem) ts (mk_ksim (file s) (counter s) ps (events s) (sched s))) mem) i eval.
Proof.
  induction ts as [|c ts IH]; intros dn ps s Hm Hb Hi; cbn [fold_left app] in *; [by rewrite app_nil_r|].
  assert (Hp : forall s, pending (do_request mem s c) = pending s) by done.
  apply (inv_done_one _ _ _ _ _ _ _ _ _ _ Hm Hb) in Hi.
  specialize (IH (dn ++ [c]) ps (do_request mem (mk_ksim (file s) (counter s) (ts ++ ps) (events s) (sched s)) c) Hm Hb Hi).
  by rewrite <- app_assoc in IH.
Qed.

Lemma inv_total op reqs mem f0 dn k i eval : inv op reqs mem f0 dn k i eval ->
  length reqs = (length dn + length (pending (sim k)))%nat.
Proof. intros [_ Hr _ _ _ _ _ _]. by rewrite <- Hr, length_app. Qed.

(** Polling and reading the counter. *)
Lemma wp_wait op reqs mem f0 dn k i afd (Q : Z -> kernel -> Prop) : length mem = Z.to_nat IORTX_SIZE -> Forall (block op) reqs ->
  inv op reqs mem f0 dn k i 0 -> i < Z.of_nat (length reqs) ->
  (forall dn' k' eval, 0 < eval -> inv op reqs mem f0 dn' k' i eval -> Q eval k') ->
  wp (waitasync afd (-1);; r ← read8 afd; mret (if r.1 =? 8 then r.2 else 0)) k Q.
Proof.
  intros Hm Hb Hi Hlt HQ. pose proof (inv_total _ _ _ _ _ _ _ _ Hi) as Htot.
  assert (Hpoll : exists dn' k', k_poll afd (-1) k = Ok ((1, true), k') /\ inv op reqs mem f0 dn' k' i 0 /\ 0 < counter (sim k')).
  { unfold k_poll. destruct (Z.ltb_spec 0 (counter (sim k))); [by exists dn, k|].
    pose proof (inv_done _ _ _ _ _ _ _ _ Hi) as Hd. pose proof (inv_counter _ _ _ _ _ _ _ _ Hi) as Hc.
    destruct (pending (sim k)) as [|c ps] eqn:Hp; [cbn [length] in Htot; lia|].
    set (m := Nat.max 1 (hd 1%nat (sched (sim k)))).
    exists (dn ++ take m (c :: ps)), (complete m k). split; [done|].
    assert (Hinv : inv op reqs mem f0 (dn ++ take m (c :: ps)) (complete m k) i 0).
    { unfold complete. rewrite (inv_bytes _ _ _ _ _ _ _ _ Hi), Hp.
      apply (inv_complete op reqs mem f0 i 0 (take m (c :: ps)) dn (drop m (c :: ps)) (mk_ksim (file (sim k)) (counter (sim k)) [] (events (sim k)) (tail (sched (sim k)))) Hm Hb).
      cbn [file counter events sched]. rewrite take_drop, <- Hp. by destruct Hi. }
    split; [done|]. pose proof (inv_done _ _ _ _ _ _ _ _ Hinv) as Hd'. rewrite length_app, length_take in Hd'. cbn [length] in Hd'. lia. }
  destruct Hpoll as (dn' & k' & Hp & Hi' & Hc').
  apply wp_bind. apply wp_bind. unfold wp at 1. change (poll_in afd (-1) k) with (k_poll afd (-1) k). rewrite Hp. apply wp_ret.
  apply wp_bind. unfold wp at 1. change (read8 afd k') with (k_read afd k'). unfold k_read.
  rewrite (proj2 (Z.ltb_lt 0 (counter (sim k')))) by done. apply wp_ret. cbn [fst snd Z.eqb Pos.eqb].
  apply (HQ dn'); [done|]. destruct Hi'. split; cbn [sim bytes file counter pending events sched]; try done; lia.
Qed.

Lemma wp_harvest op reqs mem f0 dn fuel : forall k i eval ctx, Z.of_nat (length reqs) < 2 ^ 62 -> 0 <= i ->
  inv op reqs mem f0 dn k i eval -> eval < Z.of_nat fuel ->
  wp (harvest fuel ctx eval i) k (fun i' k' => i' = i + eval /\ inv op reqs mem f0 dn k' (i + eval) 0).
Proof.
  induction fuel as [|fuel IH]; intros k i eval ctx Hn H0 Hi Hf; [destruct Hi; lia|]. cbn [harvest].
  pose proof (inv_total _ _ _ _ _ _ _ _ Hi) as Htot. pose proof (inv_done _ _ _ _ _ _ _ _ Hi). pose proof (inv_counter _ _ _ _ _ _ _ _ Hi).
  pose proof (inv_events _ _ _ _ _ _ _ _ Hi) as Hev. pose proof (inv_eval _ _ _ _ _ _ _ _ Hi).
  destruct (Z.ltb_spec 0 eval).
  - set (hi := if NUM_EVENTS <? eval then NUM_EVENTS else s64 eval).
    assert (Hhi : 0 < hi <= eval) by (unfold hi, NUM_EVENTS; destruct (Z.ltb_spec 128 eval); [lia|rewrite s64_small; lia]).
    apply wp_bind. unfold wp at 1. change (io_getevents ctx 1 hi k) with (k_getevents ctx 1 hi k). unfold k_getevents. cbn [fst].
    rewrite length_take. replace (Z.of_nat (Z.to_nat hi `min` length (events (sim k)))) with hi by lia.
    rewrite (proj2 (Z.ltb_lt 0 hi)), u64_small, s64_small by lia.
    eapply wp_mono.
    + apply IH; [done|lia| |lia]. destruct Hi. split; cbn [sim bytes file counter pending events sched]; try done; try lia.
      rewrite length_drop. lia.
    + intros i' k' [-> Hi']. replace (i + hi + (eval - hi)) with (i + eval) in * by lia. done.
  - apply wp_ret. replace eval with 0 in * by lia. rewrite Z.add_0_r. done.
Qed.

Lemma wp_collect op reqs mem f0 hfuel ctx afd fuel : forall dn k i, length mem = Z.to_nat IORTX_SIZE -> Forall (block op) reqs ->
  Z.of_nat (length reqs) < 2 ^ 62 -> Z.of_nat (length reqs) < Z.of_nat hfuel -> 0 <= i ->
  inv op reqs mem f0 dn k i 0 -> Z.of_nat (length reqs) - i < Z.of_nat fuel ->
  wp (collect fuel hfuel ctx afd (Z.of_nat (length reqs)) i) k (fun _ k' => exists dn',
    inv op reqs mem f0 dn' k' (Z.of_nat (length reqs)) 0).
Proof.
  induction fuel as [|fuel IH]; intros dn k i Hm Hb Hn Hh H0 Hi Hf; pose proof (inv_total _ _ _ _ _ _ _ _ Hi) as Htot;
    pose proof (inv_done _ _ _ _ _ _ _ _ Hi) as Hd; pose proof (inv_counter _ _ _ _ _ _ _ _ Hi) as Hc; [lia|].
  cbn [collect]. destruct (Z.ltb_spec i (Z.of_nat (length reqs))) as [Hlt|Hge].
  - assert (Hw : wp (eval ← (waitasync afd (-1);; r ← read8 afd; mret (if r.1 =? 8 then r.2 else 0));
        i ← harvest hfuel ctx eval i; collect fuel hfuel ctx afd (Z.of_nat (length reqs)) i) k
        (fun _ k' => exists dn', inv op reqs mem f0 dn' k' (Z.of_nat (length reqs)) 0)).
    { apply wp_bind, (wp_wait op reqs mem f0 dn k i); try done. intros dn' k' eval He Hi'. apply wp_bind.
      pose proof (inv_total _ _ _ _ _ _ _ _ Hi'). pose proof (inv_done _ _ _ _ _ _ _ _ Hi'). pose proof (inv_counter _ _ _ _ _ _ _ _ Hi').
      eapply wp_mono; [eapply wp_harvest; [done|done|exact Hi'|lia]|]. intros i' k2 [-> Hi2].
      eapply IH; try done; lia. }
    revert Hw. unfold wp, mbind, M_bind. destruct (waitasync afd (-1) k) as [[? k1]| |]; try done.
    destruct (read8 afd k1) as [[r k2]| |]; done.
  - apply wp_ret. exists dn. replace (Z.of_nat (length reqs)) with i by lia. done.
Qed.

(** No request is under way. *)
Definition idle (k : kernel) : Prop := pending (sim k) = [] /\ events (sim k) = [] /\ counter (sim k) = 0.

Lemma wp_run_requests op prep buf fuel ctx fd range afd k : (forall z, malloc z = true) ->
  (forall off : Z, aio_lio_opcode (prep fd buf_addr IORTX_SIZE off afd) = op /\
     aio_nbytes (prep fd buf_addr IORTX_SIZE off afd) = IORTX_SIZE /\ aio_offset (prep fd buf_addr IORTX_SIZE off afd) = s64 off) ->
  length buf = Z.to_nat IORTX_SIZE -> IORTX_SIZE <= range < 2 ^ 62 ->
  Z.of_nat accept >= range / IORTX_SIZE -> range / IORTX_SIZE < Z.of_nat fuel -> idle k ->
  wp (run_requests malloc buf_addr fuel prep buf ctx fd range afd) k (fun r k' =>
    r = range / IORTX_SIZE /\ idle k' /\
    (op <> IOCB_CMD_PWRITE -> file (sim k') = file (sim k)) /\
    (op = IOCB_CMD_PWRITE -> Forall (written buf (file (sim k'))) (requests buf_addr prep fd afd r))).
Proof.
  intros Hm Hprep Hbuf Hr Hacc Hfuel (Hp & He & Hc). unfold run_requests. rewrite Z.quot_div_nonneg by (unfold IORTX_SIZE in *; lia).
  set (n := range / IORTX_SIZE) in *. assert (Hn : 1 <= n /\ n * IORTX_SIZE <= range).
  { unfold n. split; [apply Z.div_le_lower_bound; unfold IORTX_SIZE in *; lia|]. rewrite Z.mul_comm. apply Z.mul_div_le. unfold IORTX_SIZE; lia. }
  rewrite !Hm. cbn [andb negb]. set (reqs := requests buf_addr prep fd afd n).
  assert (Hlen : Z.of_nat (length reqs) = n) by (unfold reqs, requests; rewrite length_fmap, length_seqZ; lia).
  assert (Hb : Forall (block op) reqs).
  { apply Forall_fmap, Forall_forall. intros i Hi%elem_of_seqZ. cbn [compose]. destruct (Hprep ((n - i - 1) * IORTX_SIZE)) as (H1 & H2 & H3).
    split; [done|]. split; [done|]. exists (n - i - 1). split; [lia|]. cbn [set_data aio_offset]. rewrite H3. apply s64_small. unfold IORTX_SIZE in *; nia. }
  apply wp_bind. unfold wp at 1. change (io_submit ctx reqs buf k) with (k_submit pick accept ctx reqs buf k) || idtac.
  cbn [io_submit the_kernel aio_kernel]. unfold k_submit.
  replace (Nat.min accept (length reqs)) with (length reqs) by lia. rewrite (proj2 (Nat.eqb_neq (length reqs) 0)) by lia.
  rewrite (proj2 (Z.leb_gt (Z.of_nat (length reqs)) 0)) by lia. rewrite firstn_all. apply wp_bind. rewrite <- Hlen at 1.
  eapply wp_mono.
  - apply (wp_collect op reqs buf (file (sim k)) fuel ctx afd fuel []); try done; try (unfold IORTX_SIZE in *; lia).
    split; cbn [sim bytes file counter pending events sched length]; try done; try (rewrite ?Hc, ?He; cbn; lia). apply pick_perm.
  - intros [] k' [dn Hi]. apply wp_ret. split; [done|]. pose proof (inv_total _ _ _ _ _ _ _ _ Hi) as Htot.
    destruct Hi as [Hby Hre Hw Hf Hco _ Hev Hd]. assert (Hpe : pending (sim k') = []) by (destruct (pending (sim k')); [done|cbn [length] in *; lia]).
    split; [|split].
    + split; [done|]. split; [|lia]. destruct (events (sim k')); [done|cbn [length] in *; lia].
    + done.
    + intros Hop. rewrite Hpe, app_nil_r in Hre. fold reqs. rewrite <- Hre. by apply Hw.
Qed.

(** Every byte of the file is that of the pattern for its place in its block. *)
Definition patterned (n : Z) (f : Z -> Z) : Prop := forall o, 0 <= o < n * IORTX_SIZE -> f o = Z.land (o mod IORTX_SIZE) 255.

Lemma pattern_nth x : 0 <= x < IORTX_SIZE -> nth (Z.to_nat x) pattern 0 = Z.land x 255.
Proof.
  intros Hx. apply nth_lookup_Some. unfold pattern. rewrite list_lookup_fmap, lookup_seqZ_lt by lia. cbn. do 2 f_equal. lia.
Qed.

Lemma requests_patterned fd afd n f : 0 <= n -> n * IORTX_SIZE < 2 ^ 62 ->
  Forall (written pattern f) (requests buf_addr asyio_prep_pwrite fd afd n) -> patterned n f.
Proof.
  intros Hn Hs Hw o Ho. set (j := o / IORTX_SIZE). assert (HS : 0 < IORTX_SIZE) by (unfold IORTX_SIZE; lia).
  pose proof (Z.div_mod o IORTX_SIZE ltac:(lia)) as Hdm. pose proof (Z.mod_pos_bound o IORTX_SIZE HS) as Hmod. fold j in Hdm.
  assert (Hj : 0 <= j < n) by (unfold j; split; [apply Z.div_pos; lia|apply Z.div_lt_upper_bound; lia]).
  rewrite Forall_forall in Hw. specialize (Hw (set_data (u64 (n - 1 - j + 1)) (asyio_prep_pwrite fd buf_addr IORTX_SIZE ((n - (n - 1 - j) - 1) * IORTX_SIZE) afd))).
  rewrite <- pattern_nth by done. rewrite <- Hw; [|apply list_elem_of_fmap; exists (n - 1 - j); split; [done|apply elem_of_seqZ; lia]|done].
  f_equal. cbn [set_data asyio_prep_pwrite aio_offset]. rewrite s64_small by (unfold IORTX_SIZE in *; nia). lia.
Qed.

Lemma length_pattern : length pattern = Z.to_nat IORTX_SIZE.
Proof. unfold pattern. by rewrite length_fmap, length_seqZ. Qed.

Lemma wp_test_write fuel ctx fd range afd k : (forall z, malloc z = true) -> IORTX_SIZE <= range < 2 ^ 62 ->
  Z.of_nat accept >= range / IORTX_SIZE -> range / IORTX_SIZE < Z.of_nat fuel -> idle k ->
  wp (test_write malloc buf_addr fuel ctx fd range afd) k (fun r k' =>
    r = range / IORTX_SIZE /\ idle k' /\ patterned r (file (sim k'))).
Proof.
  intros Hm Hr Ha Hf Hi. eapply wp_mono.
  - by apply (wp_run_requests IOCB_CMD_PWRITE).
  - intros r k' (-> & Hi' & _ & Hw). split; [done|]. split; [done|].
    assert (range / IORTX_SIZE * IORTX_SIZE <= range) by (rewrite Z.mul_comm; apply Z.mul_div_le; unfold IORTX_SIZE; lia).
    eapply requests_patterned; [apply Z.div_pos; unfold IORTX_SIZE in *; lia|lia|by apply Hw].
Qed.

Lemma wp_test_read fuel ctx fd range afd k : (forall z, malloc z = true) -> IORTX_SIZE <= range < 2 ^ 62 ->
  Z.of_nat accept >= range / IORTX_SIZE -> range / IORTX_SIZE < Z.of_nat fuel -> idle k ->
  wp (test_read malloc buf_addr fuel ctx fd range afd) k (fun r k' =>
    r = range / IORTX_SIZE /\ idle k' /\ file (sim k') = file (sim k)).
Proof.
  intros Hm Hr Ha Hf Hi. eapply wp_mono.
  - by apply (wp_run_requests IOCB_CMD_PREAD).
  - intros r k' (-> & Hi' & Hw & _). split; [done|]. split; [done|by apply Hw].
Qed.
End proofs.


