(* ===== verification/SignalFd.v ===== *)
(** * signalfd-test.c: signals read from descriptors

    The functions that read signals ([waitsig], [xepoll_wait_sigs]), those that set
    descriptors up, and the tests of main that run in one process are modelled over a
    class of kernels; [signal_kernel] is an instance with the pending signals and a
    table of descriptors.  The test with eight threads is a step relation (Module
    [threads]), for threads that share the signals of their process.  The tests that
    send signals between processes are in [SignalProcs], the wrappers of pthreads and of
    clone in [SigThreads]. *)
From Stdlib Require Import ZArith Lia Bool.
From stdpp Require Import base tactics list sets.
From S2P Require Import Prelude Exits Steps.

Definition SIGINT : Z := 2.
Definition SIGUSR1 : Z := 10.
Definition SIGUSR2 : Z := 12.
Definition TEST_SIG : Z := SIGUSR2.
Definition SIGNALFDS_X_EPOLLFD : Z := 10.
Definition SIGNALFD_CREATE_COUNT : Z := 1000000.
Definition EAGAIN : Z := 11.

(** sizeof(struct signalfd_siginfo), and the size of the array of events. *)
Definition SIGINFO_SIZE : Z := 128.
Definition EVENTS_MAX : Z := 16.

(** sigset_t. *)
Definition sigset : Type := Z -> bool.
Definition sigfillset : sigset := fun _ => true.
Definition sigdelset (s : sigset) (sig : Z) : sigset := fun x => s x && negb (x =? sig).

(** What the program asks of the kernel.  [epoll_wait] returns the data of the events
    reported, none on an error. *)
Class Kernel (K : Type) := {
  signalfd : Z -> sigset -> M K Z;
  set_nonblock : Z -> bool -> M K unit;
  epoll_create : Z -> M K Z;
  epoll_ctl_add : Z -> Z -> Z -> M K Z;
  epoll_wait : Z -> Z -> Z -> M K (list Z);
  poll_in : Z -> Z -> M K (Z * bool);
  read_siginfo : Z -> M K (Z * Z);
  errno : M K Z;
  kill : Z -> Z -> M K unit;
  close : Z -> M K unit
}.

(** The lines of the output. *)
Inductive line :=
| Descriptor (fd : Z)
| SignalRead (sig fd : Z)
| Stolen (fd : Z)
| Timeout
| NoSignals
| Detached
| WhoopsSignal (sig : Z)
| NoSignalCorrect
| GotOn (which : nat) (sig : Z)
| WhoopsTwo
| WhoopsRead
| BadErrno (e : Z)
| Success
| GotSig (sig : Z)
| GotExpect (sig expect : Z)
| Sending (sig : Z)
| FailedWait (pid : Z)
| Flushed (sig : Z).

Record state (K : Type) := mk_state { kern : K; out : list line }.
Arguments mk_state {K}.
Arguments kern {K}.
Arguments out {K}.

Section program.
Context {K : Type} `{!Kernel K}.

Definition sys {A} (m : M K A) : M (state K) A := fun s =>
  match m (kern s) with Ok (a, k) => Ok (a, mk_state k (out s)) | Fault => Fault | NoFuel => NoFuel end.
Definition print (l : line) : M (state K) unit := puts (fun s => mk_state (kern s) (out s ++ [l])).

Definition xsignalfd (ufc : Z) (mask : sigset) : E (state K) Z :=
  fd <~ e_run (sys (signalfd ufc mask));
  if fd =? -1 then e_exit 1 else e_ret fd.

Definition xsignalfd_nb (ufc : Z) (mask : sigset) : E (state K) Z :=
  fd <~ xsignalfd ufc mask;
  _ <~ e_run (sys (set_nonblock fd true)); e_ret fd.

Definition xepollfd : E (state K) Z :=
  fd <~ e_run (sys (epoll_create 1));
  if fd =? -1 then e_exit 1 else e_ret fd.

Definition xepoll_add (efd fd data : Z) : E (state K) unit :=
  r <~ e_run (sys (epoll_ctl_add efd fd data));
  if r =? -1 then e_exit 1 else e_ret tt.

(** An event of [xepoll_wait_sigs]. *)
Definition read_event (verbose : bool) (data : Z) : M (state K) unit :=
  let fd := s32 data in
  r ← sys (read_siginfo fd);
  if negb (r.1 =? SIGINFO_SIZE) then (if verbose then print (Stolen fd) else mret tt)
  else (if verbose then print (SignalRead (s32 r.2) fd) else mret tt).

Fixpoint wait_sigs_loop (fuel : nat) (efd timeo : Z) (verbose : bool) (count : Z) : M (state K) Z :=
  match fuel with
  | O => nofuel
  | S fuel =>
    evs ← sys (epoll_wait efd EVENTS_MAX timeo);
    match evs with
    | [] => mret count
    | _ => for_each evs (read_event verbose);; wait_sigs_loop fuel efd timeo verbose (s32 (count + Z.of_nat (length evs)))
    end
  end.

Definition xepoll_wait_sigs (fuel : nat) (efd timeo : Z) (verbose : bool) : M (state K) unit :=
  count ← wait_sigs_loop fuel efd timeo verbose 0;
  if verbose && (count =? 0) then print Timeout else mret tt.

Definition waitsig (sfd timeo : Z) : M (state K) Z :=
  p ← sys (poll_in sfd timeo);
  if p.1 <? 0 then mret (-1)
  else if negb p.2 then print NoSignals;; mret (-1)
  else
    r ← sys (read_siginfo sfd);
    if r.1 <? 0 then mret (-1)
    else if r.1 =? 0 then print Detached;; mret 0
    else mret (u32 r.2).

(** The descriptors are also stored in [sfds]: they are the second result. *)
Fixpoint add_signalfds (n : nat) (efd : Z) (sset : sigset) (verbose : bool) (sfds : list Z) : E (state K) (list Z) :=
  match n with
  | O => e_ret sfds
  | S n =>
    fd <~ xsignalfd_nb (-1) sset;
    _ <~ e_run (if verbose then print (Descriptor fd) else mret tt);
    _ <~ xepoll_add efd fd (u64 fd);
    add_signalfds n efd sset verbose (sfds ++ [fd])
  end.

Definition xcreate_epoll_signalfds (n : Z) (verbose : bool) : E (state K) (Z * list Z) :=
  efd <~ xepollfd;
  sfds <~ add_signalfds (Z.to_nat n) efd (sigdelset sigfillset SIGINT) verbose [];
  e_ret (efd, sfds).

Definition epoll_test_1 (fuel : nat) : E (state K) unit :=
  e <~ xcreate_epoll_signalfds SIGNALFDS_X_EPOLLFD true;
  _ <~ e_run (sys (kill 0 SIGUSR1));
  e_run (xepoll_wait_sigs fuel e.1 250 true).

Fixpoint create_loop (n : nat) (sset : sigset) : E (state K) unit :=
  match n with
  | O => e_ret tt
  | S n => fd <~ xsignalfd (-1) sset; _ <~ e_run (sys (close fd)); create_loop n sset
  end.

Definition signalfd_create_thproc (n : Z) : E (state K) unit :=
  create_loop (Z.to_nat (s32 n)) (sigdelset sigfillset SIGINT).

(** The parts of main behind its forks. *)
Definition mask_test (sfd : Z) : E (state K) Z :=
  sfd <~ xsignalfd sfd (sigdelset sigfillset SIGUSR1);
  _ <~ e_run (print (Descriptor sfd));
  _ <~ e_run (sys (kill 0 SIGUSR1));
  lsig <~ e_run (waitsig sfd 0);
  _ <~ e_run (print (if 0 <? lsig then WhoopsSignal lsig else NoSignalCorrect));
  e_ret sfd.

Definition two_fds_test (sfd : Z) : E (state K) Z :=
  sfd <~ xsignalfd sfd sigfillset;
  _ <~ e_run (print (Descriptor sfd));
  sfd2 <~ e_run (sys (signalfd (-1) sigfillset));
  if sfd2 =? -1 then e_exit 1 else
  _ <~ e_run (print (Descriptor sfd2));
  _ <~ e_run (sys (kill 0 SIGUSR1));
  lsig1 <~ e_run (waitsig sfd 0);
  _ <~ e_run (print (GotOn 1 lsig1));
  lsig2 <~ e_run (waitsig sfd2 0);
  _ <~ e_run (print (GotOn 2 lsig2));
  let sigs := (if 0 <? lsig1 then 1 else 0) + (if 0 <? lsig2 then 1 else 0) in
  _ <~ e_run (if 1 <? sigs then print WhoopsTwo else mret tt);
  _ <~ e_run (sys (close sfd2));
  e_ret sfd.

Fixpoint flush_signals (fuel : nat) (sfd : Z) : M (state K) unit :=
  match fuel with
  | O => nofuel
  | S fuel => i ← waitsig sfd 0; if 0 <? s32 i then print (Flushed (s32 i));; flush_signals fuel sfd else mret tt
  end.

Definition nonblock_test (sfd : Z) : E (state K) unit :=
  _ <~ e_run (sys (set_nonblock sfd true));
  r <~ e_run (sys (read_siginfo sfd));
  _ <~ (if 0 <? r.1 then e_run (print WhoopsRead)
        else e <~ e_run (sys errno); e_run (print (if negb (e =? EAGAIN) then BadErrno e else Success)));
  _ <~ e_run (sys (set_nonblock sfd false));
  e_run (sys (close sfd)).

(** These parts in the order of main, the flushing behind the threads included. *)
Definition main_tests (fuel : nat) (sfd : Z) : E (state K) unit :=
  sfd <~ mask_test sfd;
  sfd <~ two_fds_test sfd;
  _ <~ e_run (flush_signals fuel sfd);
  nonblock_test sfd.
End program.

(** ** A kernel

    [pending] are the pending signals, the lowest first; the descriptor of number
    [n + 3] is the [n]-th of [descs]. *)
Inductive desc := Sig (mask : sigset) (nb : bool) | Epoll (watch : list (Z * Z)) | Closed.
Record ksim := mk_ksim { pending : list Z; descs : list desc; err : Z }.

Definition desc_of (k : ksim) (fd : Z) : desc := if fd <? 3 then Closed else nth (Z.to_nat (fd - 3)) (descs k) Closed.
Definition set_desc (fd : Z) (d : desc) (k : ksim) : ksim := mk_ksim (pending k) (<[Z.to_nat (fd - 3) := d]> (descs k)) (err k).
Definition new_desc (d : desc) : M ksim Z := fun k =>
  Ok (3 + Z.of_nat (length (descs k)), mk_ksim (pending k) (descs k ++ [d]) (err k)).

(** The pending signals that a mask selects. *)
Definition selected (mask : sigset) (k : ksim) : list Z := filter (fun x => mask x = true) (pending k).

Fixpoint insert_sig (sig : Z) (l : list Z) : list Z :=
  match l with
  | [] => [sig]
  | x :: l' => if sig <? x then sig :: l else if sig =? x then l else x :: insert_sig sig l'
  end.

Definition k_signalfd (ufc : Z) (mask : sigset) : M ksim Z := fun k =>
  if ufc =? -1 then new_desc (Sig mask false) k
  else match desc_of k ufc with
       | Sig _ nb => Ok (ufc, set_desc ufc (Sig mask nb) k)
       | _ => Ok (-1, k)
       end.

Definition k_set_nonblock (fd : Z) (b : bool) : M ksim unit := fun k =>
  match desc_of k fd with Sig mask _ => Ok (tt, set_desc fd (Sig mask b) k) | _ => Ok (tt, k) end.

Definition k_add (efd fd data : Z) : M ksim Z := fun k =>
  match desc_of k efd with Epoll w => Ok (0, set_desc efd (Epoll (w ++ [(fd, data)])) k) | _ => Ok (-1, k) end.

Definition ready (k : ksim) (fd : Z) : bool :=
  match desc_of k fd with Sig mask _ => negb (bool_decide (selected mask k = [])) | _ => false end.

Definition k_epoll_wait (efd m timeo : Z) : M ksim (list Z) := fun k =>
  match desc_of k efd with
  | Epoll w =>
    match filter (fun p => ready k p.1 = true) w with
    | [] => if timeo <? 0 then NoFuel else Ok ([], k)
    | l => Ok (take (Z.to_nat m) (snd <$> l), k)
    end
  | _ => Ok ([], k)
  end.

Definition k_poll (fd timeo : Z) : M ksim (Z * bool) := fun k =>
  if ready k fd then Ok ((1, true), k) else if timeo <? 0 then NoFuel else Ok ((0, false), k).

Definition k_read (fd : Z) : M ksim (Z * Z) := fun k =>
  match desc_of k fd with
  | Sig mask nb =>
    match selected mask k with
    | sig :: _ => Ok ((SIGINFO_SIZE, sig), mk_ksim (filter (fun x => x <> sig) (pending k)) (descs k) (err k))
    | [] => if nb then Ok ((-1, 0), mk_ksim (pending k) (descs k) EAGAIN) else NoFuel
    end
  | _ => Ok ((-1, 0), mk_ksim (pending k) (descs k) 9)
  end.

#[export] Instance signal_kernel : Kernel ksim := {
  signalfd := k_signalfd;
  set_nonblock := k_set_nonblock;
  epoll_create n := new_desc (Epoll []);
  epoll_ctl_add := k_add;
  epoll_wait := k_epoll_wait;
  poll_in := k_poll;
  read_siginfo := k_read;
  errno := gets err;
  kill pid sig := fun k => Ok (tt, mk_ksim (insert_sig sig (pending k)) (descs k) (err k));
  close fd := fun k => Ok (tt, set_desc fd Closed k)
}.

(** ** Proofs *)
Lemma run_siginfo_sys {A} (m : M ksim A) (s : state ksim) a k : m (kern s) = Ok (a, k) -> sys m s = Ok (a, mk_state k (out s)).
Proof. intros Hm. unfold sys. by rewrite Hm. Qed.

Lemma wp_siginfo_sys {A} (m : M ksim A) (s : state ksim) a k (Q : A -> state ksim -> Prop) :
  m (kern s) = Ok (a, k) -> Q a (mk_state k (out s)) -> wp (sys m) s Q.
Proof. intros Hm HQ. unfold wp. by rewrite (run_siginfo_sys _ _ _ _ Hm). Qed.

(** Taking the first selected signal out of the pending ones. *)
Lemma filter_remove (P : Z -> bool) (l : list Z) x r : NoDup l -> filter (fun y => P y = true) l = x :: r ->
  filter (fun y => P y = true) (filter (fun y => y <> x) l) = r /\
  filter (fun y => P y = false) (filter (fun y => y <> x) l) = filter (fun y => P y = false) l /\
  NoDup (filter (fun y => y <> x) l).
Proof.
  intros Hnd Hf. assert (Hx : P x = true /\ x ∈ l).
  { assert (x ∈ filter (fun y => P y = true) l) as [? ?]%list_elem_of_filter by (rewrite Hf; by left). done. }
  split; [|split].
  - revert Hf. induction Hnd as [|y l Hy Hnd IH]; [done|]. rewrite !filter_cons. destruct (decide (P y = true)) as [HP|HP].
    + intros [= -> <-]. rewrite decide_False by (intros Hn; by apply Hn). f_equal. apply filter_all. intros z Hz ->. done.
    + intros Hf. rewrite decide_True by (intros ->; apply HP, Hx). rewrite filter_cons, decide_False by done.
      destruct Hx as [Hx [->|?]%elem_of_cons]; [by destruct HP|]. by apply IH.
  - clear -Hx. destruct Hx as [Hx _]. induction l as [|y l IH]; [done|]. rewrite !filter_cons.
    destruct (decide (y <> x)) as [Hy|Hy]; rewrite ?filter_cons, IH; [done|].
    rewrite (decide_False (P := P y = false)); [done|]. intros HP. apply Hy. intros ->. congruence.
  - by apply NoDup_filter.
Qed.

Section wait_sigs.
Context (mask : sigset) (efd : Z) (watch : list (Z * Z)).

(** An epoll descriptor that watches descriptors of one mask. *)
Record watching (k : ksim) : Prop := {
  w_efd : desc_of k efd = Epoll watch;
  w_fds : Forall (fun p => p.2 = p.1 /\ s32 p.1 = p.1 /\ desc_of k p.1 = Sig mask true) watch;
  w_some : watch <> [];
  w_few : (length watch <= 16)%nat;
  w_nodup : NoDup (pending k)
}.

(** The signals and the thefts that reading [n] descriptors shows. *)
Definition shown (l : list Z) (fds : list Z) : list line :=
  (zip_with SignalRead l fds ++ (Stolen <$> drop (length l) fds))%list.

Definition signals (o : list line) : list Z := omap (fun x => match x with SignalRead sig _ => Some sig | _ => None end) o.

Lemma signals_app o o' : signals (o ++ o') = (signals o ++ signals o')%list.
Proof. apply omap_app. Qed.

Lemma watching_read k x r : watching k -> selected mask k = x :: r ->
  watching (mk_ksim (filter (fun y => y <> x) (pending k)) (descs k) (err k)) /\
  selected mask (mk_ksim (filter (fun y => y <> x) (pending k)) (descs k) (err k)) = r /\
  selected (negb ∘ mask) (mk_ksim (filter (fun y => y <> x) (pending k)) (descs k) (err k)) = selected (negb ∘ mask) k.
Proof.
  intros [H1 H2 H3 H4 H5] Hs. destruct (filter_remove mask (pending k) x r H5 Hs) as (F1 & F2 & F3). split; [by split|].
  split; [exact F1|]. unfold selected. cbn [pending]. 
  assert (HF : forall l : list Z, filter (fun y => (negb ∘ mask) y = true) l = filter (fun y => mask y = false) l).
  { intros l. apply list_filter_iff. intros y. cbn. by destruct (mask y). }
  by rewrite !HF.
Qed.

(** Reading the descriptors reported. *)
Lemma wp_read_events evs : forall s, watching (kern s) -> Forall (fun p => p.2 = p.1 /\ s32 p.1 = p.1 /\ desc_of (kern s) p.1 = Sig mask true) evs ->
  Forall (fun x => 0 <= x < 2 ^ 31) (selected mask (kern s)) ->
  wp (for_each (snd <$> evs) (read_event true)) s (fun _ s' =>
    watching (kern s') /\ out s' = (out s ++ shown (selected mask (kern s)) (fst <$> evs))%list /\
    selected mask (kern s') = drop (length evs) (selected mask (kern s)) /\
    selected (negb ∘ mask) (kern s') = selected (negb ∘ mask) (kern s)).
Proof.
  induction evs as [|[fd d] evs IH]; intros s Hw Hf Hsig; cbn [fmap list_fmap for_each].
  { apply wp_ret. unfold shown. rewrite drop_0. replace (zip_with _ _ _) with (@nil line) by (by destruct (selected mask (kern s))).
    rewrite drop_nil. cbn. by rewrite app_nil_r. }
  apply Forall_cons in Hf as [(Hd & Hs & Hdesc) Hf]. cbn [fst snd] in *. subst d. apply wp_bind. unfold read_event at 1. cbn zeta. rewrite Hs.
  apply wp_bind. destruct (selected mask (kern s)) as [|x r] eqn:Hsel.
  - eapply wp_siginfo_sys; [cbn [read_siginfo signal_kernel]; unfold k_read; rewrite Hdesc, Hsel; reflexivity|].
    cbn [fst snd]. cbn [negb Z.eqb SIGINFO_SIZE]. apply wp_puts. cbn [kern out].
    set (k' := mk_ksim (pending (kern s)) (descs (kern s)) EAGAIN). assert (Hsel' : selected mask k' = []) by exact Hsel.
    eapply wp_mono; [apply IH; [by destruct Hw|done|cbn [kern]; by rewrite Hsel']|]. cbn [kern out]. intros [] s' (Hw' & Ho & Hs1 & Hs2).
    rewrite Hsel' in *. rewrite Ho. split; [done|]. split; [|by rewrite drop_nil in *].
    rewrite <- app_assoc. f_equal.
  - destruct (watching_read _ _ _ Hw Hsel) as (Hw1 & Hs1 & Hn1). apply Forall_cons in Hsig as [Hx Hsig].
    eapply wp_siginfo_sys; [cbn [read_siginfo signal_kernel]; unfold k_read; rewrite Hdesc, Hsel; reflexivity|].
    cbn [fst snd]. rewrite Z.eqb_refl. cbn [negb]. apply wp_puts. cbn [kern out]. rewrite s32_small by lia.
    eapply wp_mono; [apply IH; [done|done|cbn [kern]; by rewrite Hs1]|]. cbn [kern out]. intros [] s' (Hw' & Ho & Hs2 & Hn2).
    rewrite Hs1 in *. rewrite Ho. split; [done|]. split; [|split; [done|congruence]].
    rewrite <- app_assoc. f_equal.
Qed.

Lemma shown_signals l fds : signals (shown l fds) = take (length fds) l.
Proof.
  unfold shown. revert fds. induction l as [|x l IH]; intros fds; cbn [zip_with length].
  - rewrite drop_0, take_nil. cbn [app]. by induction fds.
  - destruct fds as [|fd fds]; [done|]. cbn [zip_with app drop take length]. unfold signals in *. cbn. f_equal. apply IH.
Qed.

Lemma ready_watching k fd : watching k -> desc_of k fd = Sig mask true -> ready k fd = negb (bool_decide (selected mask k = [])).
Proof. intros _ Hd. unfold ready. by rewrite Hd. Qed.

(** The events of one [epoll_wait]: all descriptors or none. *)
Lemma epoll_watching k timeo : watching k -> 0 <= timeo ->
  k_epoll_wait efd EVENTS_MAX timeo k = Ok (if decide (selected mask k = []) then [] else snd <$> watch, k).
Proof.
  intros Hw Ht. pose proof (w_fds _ Hw) as Hf. pose proof (w_few _ Hw) as H16. unfold k_epoll_wait. rewrite (w_efd _ Hw).
  destruct (decide (selected mask k = [])) as [He|He].
  - assert (Hnone : forall w, Forall (fun p => p.2 = p.1 /\ s32 p.1 = p.1 /\ desc_of k p.1 = Sig mask true) w ->
      filter (fun p => ready k p.1 = true) w = []).
    { intros w. induction 1 as [|p w (_ & _ & Hp) _ IH]; [done|]. rewrite filter_cons, IH.
      rewrite (ready_watching _ _ Hw Hp), bool_decide_true by done. done. }
    rewrite (Hnone _ Hf).
    by rewrite (proj2 (Z.ltb_ge timeo 0)).
  - rewrite filter_all.
    + destruct watch as [|p w] eqn:E; [by destruct (w_some _ Hw)|]. rewrite take_ge; [done|]. rewrite length_fmap. cbn [length] in *. change (Z.to_nat EVENTS_MAX) with 16%nat. lia.
    + intros p Hp. rewrite Forall_forall in Hf. destruct (Hf p Hp) as (_ & _ & Hd). rewrite (ready_watching _ _ Hw Hd).
      by rewrite bool_decide_false.
Qed.

Lemma wp_wait_sigs_loop timeo fuel : 0 <= timeo -> forall s count, watching (kern s) -> 0 <= count -> 
  Forall (fun x => 0 <= x < 2 ^ 31) (selected mask (kern s)) -> (length (selected mask (kern s)) < fuel)%nat ->
  count + 16 * Z.of_nat fuel < 2 ^ 31 ->
  wp (wait_sigs_loop fuel efd timeo true count) s (fun n s' => exists o,
    out s' = (out s ++ o)%list /\ signals o = selected mask (kern s) /\ count <= n /\ (n = count <-> selected mask (kern s) = []) /\ (n = count -> o = []) /\
    watching (kern s') /\ selected mask (kern s') = [] /\ selected (negb ∘ mask) (kern s') = selected (negb ∘ mask) (kern s) /\ Forall (fun x => x <> Timeout) o).
Proof.
  intros Ht. induction fuel as [|fuel IH]; intros s count Hw Hc Hsig Hf Hb; [lia|]. cbn [wait_sigs_loop].
  apply wp_bind. eapply wp_siginfo_sys; [apply (epoll_watching _ _ Hw Ht)|].
  destruct (decide (selected mask (kern s) = [])) as [He|He].
  - apply wp_ret. exists []. rewrite app_nil_r, He. split_and!; done || lia.
  - pose proof (w_few _ Hw) as H16. pose proof (w_some _ Hw) as Hne.
    destruct (snd <$> watch) as [|d ds] eqn:Ed; [by apply fmap_nil_inv in Ed|]. rewrite <- Ed.
    assert (Hlen : length (snd <$> watch) = length watch) by apply length_fmap.
    assert (1 <= length watch)%nat by (destruct watch; [done|cbn [length]; lia]).
    apply wp_bind. eapply wp_mono; [apply wp_read_events; cbn [kern]; [by destruct s|by destruct s; apply w_fds|by destruct s]|].
    cbn [kern out]. intros [] s1 (Hw1 & Ho1 & Hs1 & Hn1). rewrite Hlen, s32_small by lia.
    assert (Hl1 : (length (selected mask (kern s1)) < fuel)%nat).
    { rewrite Hs1, length_drop. destruct (selected mask (kern s)); [done|cbn [length] in *; lia]. }
    eapply wp_mono; [apply IH; [done|lia| |done|lia]|].
    { rewrite Hs1. by apply Forall_drop. }
    intros n s2 (o & Ho & Hso & Hn & _ & _ & Hw2 & Hs2 & Hn2 & Hto). eexists. rewrite Ho, Ho1, <- app_assoc. split; [done|].
    split_and!; try done; try lia.
    + rewrite signals_app, shown_signals, length_fmap, Hso, Hs1. apply take_drop.
    + split; [lia|by intros].
    + congruence.
    + apply Forall_app. split; [|done]. unfold shown. apply Forall_app. split.
      * clear. generalize (selected mask (kern s)) as l, (fst <$> watch) as fds. induction l as [|x l IHl]; intros [|y fds]; cbn; constructor; [done|apply IHl].
      * apply Forall_fmap, Forall_forall. done.
Qed.
End wait_sigs.

(** C35: With up to 16 non-blocking signal descriptors of one mask in an epoll
    descriptor, [xepoll_wait_sigs] returns and prints every pending signal of the mask
    exactly once, in their order, however many descriptors are reported for it;
    signals outside the mask stay pending, and the timeout is printed exactly when
    there was nothing to read. *)
Theorem wait_sigs_once mask efd watch timeo fuel s : watching mask efd watch (kern s) -> 0 <= timeo ->
  Forall (fun x => 0 <= x < 2 ^ 31) (selected mask (kern s)) -> (length (selected mask (kern s)) < fuel)%nat ->
  Z.of_nat fuel < 2 ^ 27 ->
  exists s' o, xepoll_wait_sigs fuel efd timeo true s = Ok (tt, s') /\ out s' = (out s ++ o)%list /\
    signals o = selected mask (kern s) /\ selected mask (kern s') = [] /\
    selected (negb ∘ mask) (kern s') = selected (negb ∘ mask) (kern s) /\
    (Timeout ∈ o <-> selected mask (kern s) = []).
Proof.
  intros Hw Ht Hsig Hf Hfuel.
  enough (wp (xepoll_wait_sigs fuel efd timeo true) s (fun _ s' => exists o, out s' = (out s ++ o)%list /\
    signals o = selected mask (kern s) /\ selected mask (kern s') = [] /\
    selected (negb ∘ mask) (kern s') = selected (negb ∘ mask) (kern s) /\
    (Timeout ∈ o <-> selected mask (kern s) = []))) as Hwp.
  { apply wp_run in Hwp as ([] & s' & Hr & o & Ho). by exists s', o. }
  unfold xepoll_wait_sigs. apply wp_bind. eapply wp_mono; [apply wp_wait_sigs_loop; [done|exact Hw|done..|lia]|].
  intros n s1 (o & Ho & Hso & Hn & Hz & Hz' & _ & Hs1 & Hn1 & Hto). destruct (Z.eqb_spec n 0) as [->|Hne]; cbn [andb].
  - pose proof (proj1 Hz eq_refl) as He. pose proof (Hz' eq_refl) as ->. apply wp_puts. exists [Timeout]. cbn [kern out]. rewrite Ho, app_nil_r, He. split_and!; try done.
    split; [done|]. intros _. by left.
  - apply wp_ret. exists o. split_and!; try done. split.
    + intros Hin. rewrite Forall_forall in Hto. by destruct (Hto _ Hin).
    + intros He. by destruct Hne; apply Hz.
Qed.

(** Two descriptors, three pending signals one of which is outside the mask. *)
Definition demo_mask : sigset := sigdelset sigfillset SIGINT.
Definition demo_kernel : ksim :=
  mk_ksim [2; 10; 12] [Epoll [(4, 4); (5, 5)]; Sig demo_mask true; Sig demo_mask true] 0.

Lemma wait_sigs_once_witness : exists s' o,
  xepoll_wait_sigs 3 3 250 true (mk_state demo_kernel []) = Ok (tt, s') /\ out s' = o /\
  signals o = [10; 12] /\ selected demo_mask (kern s') = [] /\ selected (negb ∘ demo_mask) (kern s') = [2] /\
  (Timeout ∈ o <-> selected demo_mask demo_kernel = []).
Proof.
  apply (wait_sigs_once demo_mask 3 [(4, 4); (5, 5)] 250 3 (mk_state demo_kernel [])).
  - split; [reflexivity|repeat constructor|done|cbn; lia|].
    apply (bool_decide_unpack _). vm_compute. exact I.
  - lia.
  - change (selected demo_mask _) with [10; 12]. repeat constructor; lia.
  - change (selected demo_mask _) with [10; 12]. cbn. lia.
  - lia.
Defined.

(** The first of the epoll tests: of ten descriptors one gives the signal. *)
Lemma epoll_test_1_output : exists s,
  epoll_test_1 2 (mk_state (mk_ksim [] [] 0) []) = Ok (inr tt, s) /\
  out s = ((Descriptor <$> seqZ 4 10) ++ SignalRead SIGUSR1 4 :: (Stolen <$> seqZ 5 9))%list.
Proof. eexists. split; [vm_compute; reflexivity|vm_compute; reflexivity]. Qed.

(** The tests of main that run in one process, with [sfd] made by main and nothing
    pending: the masked signal is not seen, then read by one descriptor only, and the
    last read finds nothing. *)
Lemma main_tests_output : exists s,
  main_tests 2 3 (mk_state (mk_ksim [] [Sig (sigdelset sigfillset SIGINT) false] 0) []) = Ok (inr tt, s) /\
  out s = [Descriptor 3; NoSignals; NoSignalCorrect; Descriptor 3; Descriptor 4; GotOn 1 SIGUSR1; NoSignals;
           GotOn 2 (-1); NoSignals; Success].
Proof. eexists. split; [vm_compute; reflexivity|vm_compute; reflexivity]. Qed.

(** A descriptor made and closed. *)
Lemma create_loop_run mask n : forall s : state ksim, create_loop n mask s =
  Ok (inr tt, mk_state (mk_ksim (pending (kern s)) (descs (kern s) ++ replicate n Closed) (err (kern s))) (out s)).
Proof.
  induction n as [|n IH]; intros s; cbn [create_loop replicate].
  { rewrite app_nil_r. by destruct s as [[p d e] o]. }
  set (k1 := mk_ksim (pending (kern s)) (descs (kern s) ++ [Sig mask false]) (err (kern s))).
  set (fd := 3 + Z.of_nat (length (descs (kern s)))).
  rewrite (run_e_bind _ _ s fd (mk_state k1 (out s))).
  2:{ unfold xsignalfd. rewrite (run_e_bind _ _ s fd (mk_state k1 (out s))) by (apply run_e_run; exact (run_siginfo_sys _ s _ k1 eq_refl)).
      rewrite (proj2 (Z.eqb_neq fd (-1))) by lia. done. }
  rewrite (run_e_bind _ _ _ tt (mk_state (set_desc fd Closed k1) (out s))) by (apply run_e_run; exact (run_siginfo_sys _ (mk_state k1 (out s)) _ _ eq_refl)).
  rewrite IH. assert (set_desc fd Closed k1 = mk_ksim (pending (kern s)) (descs (kern s) ++ [Closed]) (err (kern s))) as ->.
  { unfold set_desc, k1, fd. cbn [pending descs err]. f_equal. replace (Z.to_nat _) with (length (descs (kern s)) + 0)%nat by lia.
    by rewrite insert_app_r. }
  cbn [kern out pending descs err]. by rewrite <-(assoc_L (++)).
Qed.

(** The thread that makes descriptors while others fork leaves none of its own open and
    touches no other, for as many as an int counts; a negative count makes none. *)
Theorem signalfd_create_closes n (s : state ksim) : -2 ^ 31 <= n < 2 ^ 31 -> exists l,
  signalfd_create_thproc n s = Ok (inr tt, mk_state (mk_ksim (pending (kern s)) (descs (kern s) ++ l) (err (kern s))) (out s)) /\
  Forall (fun d => d = Closed) l /\ Z.of_nat (length l) = Z.max 0 n.
Proof.
  intros Hn. unfold signalfd_create_thproc. rewrite s32_small by lia. exists (replicate (Z.to_nat n) Closed).
  split; [apply create_loop_run|]. split; [by apply Forall_replicate|]. rewrite length_replicate. lia.
Qed.

(** ** The test with threads

    A thread of [thproc] waits in poll, then reads (another thread may have taken the
    signal: the read waits too), and goes on; with TEST_SIG it leaves the loop, sends
    TEST_SIG to the process group and ends.  [test] tells whether TEST_SIG is pending,
    [others] how many other signals are. *)
Module threads.

Inductive thread := Polling | Reading | Quitting | Done.
Inductive phase := Creating (i : nat) | Joining (i : nat) | Flushing | Exited.
Record state := mk_state { main : phase; thid : list thread; test : bool; others : nat }.

Section steps.
Context (n : nat).

Inductive step : state -> state -> Prop :=
| step_create i th t o : (i < n)%nat -> step (mk_state (Creating i) th t o) (mk_state (Creating (S i)) (th ++ [Polling]) t o)
| step_send th t o : step (mk_state (Creating n) th t o) (mk_state (Joining 0) th true o)
| step_poll m i th t o : th !! i = Some Polling -> t = true \/ (0 < o)%nat ->
    step (mk_state m th t o) (mk_state m (<[i := Reading]> th) t o)
| step_read_test m i th o : th !! i = Some Reading -> step (mk_state m th true o) (mk_state m (<[i := Quitting]> th) false o)
| step_read_other m i th t o : th !! i = Some Reading -> step (mk_state m th t (S o)) (mk_state m (<[i := Polling]> th) t o)
| step_quit m i th t o : th !! i = Some Quitting -> step (mk_state m th t o) (mk_state m (<[i := Done]> th) true o)
| step_join i th t o : th !! i = Some Done -> step (mk_state (Joining i) th t o) (mk_state (Joining (S i)) th t o)
| step_joined th t o : step (mk_state (Joining n) th t o) (mk_state Flushing th t o)
| step_flush_test th o : step (mk_state Flushing th true o) (mk_state Flushing th false o)
| step_flush_other th t o : step (mk_state Flushing th t (S o)) (mk_state Flushing th t o)
| step_exit th : step (mk_state Flushing th false 0) (mk_state Exited th false 0).

Definition start (o : nat) : state := mk_state (Creating 0) [] false o.

(** The threads are joined and no signal is left. *)
Definition finished (s : state) : Prop :=
  main s = Exited /\ length (thid s) = n /\ Forall (fun x => x = Done) (thid s) /\ test s = false /\ others s = 0%nat.

(** After the first signal was sent there is one as long as a thread needs it. *)
Record inv (s : state) : Prop := {
  inv_length : length (thid s) = match main s with Creating i => i | _ => n end;
  inv_main : match main s with
             | Creating i => (i <= n)%nat
             | Joining i => (i <= n)%nat /\ forall j, (j < i)%nat -> thid s !! j = Some Done
             | Flushing => Forall (fun x => x = Done) (thid s)
             | Exited => Forall (fun x => x = Done) (thid s) /\ test s = false /\ others s = 0%nat
             end;
  inv_signal : match main s with Creating _ => True | _ =>
                 Forall (fun x => x = Done) (thid s) \/ test s = true \/ Quitting ∈ thid s end
}.

Definition weight (x : thread) : nat := match x with Polling => 5 | Reading => 4 | Quitting => 2 | Done => 0 end.
Definition rank (s : state) : nat :=
  (match main s with
   | Creating i => 6 * (n - i) + n + 5 | Joining i => n - i + 2 | Flushing => 1 | Exited => 0
   end + sum_list_with weight (thid s) + (if test s then 1 else 0) + 3 * others s)%nat.

Lemma weight_insert i x y (th : list thread) : th !! i = Some x ->
  (sum_list_with weight (<[i := y]> th) + weight x = sum_list_with weight th + weight y)%nat.
Proof.
  intros Hx. rewrite <- (take_drop_middle th i x Hx) at 2. rewrite insert_take_drop by (by eapply lookup_lt_Some).
  rewrite !sum_list_with_app. cbn. lia.
Qed.

(** A thread that is not through has not been joined. *)
Lemma not_done i x (th : list thread) : th !! i = Some x -> x <> Done -> ~ Forall (fun x => x = Done) th.
Proof. intros Hx Hne Hf. rewrite Forall_lookup in Hf. by apply Hne, (Hf i). Qed.

Lemma threads_inv_thread m i x y th t t' o o' : inv (mk_state m th t o) -> th !! i = Some x -> x <> Done ->
  (t' = true \/ y = Quitting \/ (t' = t /\ x <> Quitting)) -> inv (mk_state m (<[i := y]> th) t' o').
Proof.
  intros [Hl Hm Hs] Hx Hne Hy. cbn [main thid test others] in *.
  assert (Hi : (i < length th)%nat) by (by eapply lookup_lt_Some).
  split; cbn [main thid test others]; [by rewrite length_insert| |].
  - destruct m as [k|k| |]; [done| |by destruct (not_done _ _ _ Hx Hne)|by destruct Hm as [Hm _]; destruct (not_done _ _ _ Hx Hne)].
    destruct Hm as [Hk Hd]. split; [done|]. intros j Hj. destruct (decide (j = i)) as [->|].
    + rewrite (Hd i Hj) in Hx. congruence.
    + rewrite list_lookup_insert_ne by done. by apply Hd.
  - assert (HG : match m with Creating _ => True | _ => test (mk_state m th t' o') = true \/ Quitting ∈ <[i := y]> th end).
    { assert (HG : y = Quitting -> Quitting ∈ <[i := y]> th).
      { intros ->. apply list_elem_of_lookup. exists i. by rewrite list_lookup_insert_eq. }
      destruct m; [done| | |]; destruct Hy as [->|[Hy|[-> Hxq]]]; try (by left); try (by right; apply HG);
        (destruct Hs as [Hs|[->|Hs]]; [by destruct (not_done _ _ _ Hx Hne)|by left|right];
         apply list_elem_of_lookup in Hs as [j Hj]; apply list_elem_of_lookup; exists j;
         rewrite list_lookup_insert_ne; [done|congruence]). }
    destruct m; [done|right; exact HG..].
Qed.

Lemma threads_inv_step s s' : inv s -> step s s' -> inv s' /\ (rank s' < rank s)%nat.
Proof.
  intros Hi Hs. destruct Hs as [i th t o Hlt|th t o|m i th t o Hx Ht|m i th o Hx|m i th t o Hx|m i th t o Hx|i th t o Hx|th t o|th o|th t o|th].
  all: split; [|unfold rank; cbn [main thid test others];
    try match goal with |- context [<[_ := ?y]> _] => pose proof (weight_insert _ _ y _ Hx) as Hw; cbn [weight] in Hw end;
    rewrite ?sum_list_with_app; cbn [sum_list_with weight]; try destruct t; try lia].
  - destruct Hi as [Hl Hm Hg]. cbn [main thid] in *. split; cbn [main thid test others]; [rewrite length_app; cbn; lia|lia|done].
  - destruct Hi as [Hl Hm Hg]. cbn [main thid] in *. split; cbn [main thid test others]; [done|split; [lia|intros j Hj; lia]|right; by left].
  - eapply threads_inv_thread; [exact Hi|exact Hx|done|]. right; right. done.
  - eapply threads_inv_thread; [exact Hi|exact Hx|done|]. right; by left.
  - eapply threads_inv_thread; [exact Hi|exact Hx|done|]. right; right. done.
  - eapply threads_inv_thread; [exact Hi|exact Hx|done|]. by left.
  - destruct Hi as [Hl [Hm Hd] Hg]. cbn [main thid] in *. split; cbn [main thid test others]; [done| |done].
    apply lookup_lt_Some in Hx as Hlt. split; [lia|]. intros j Hj. destruct (decide (j = i)) as [->|]; [done|]. apply Hd. lia.
  - apply lookup_lt_Some in Hx as Hlt. pose proof (inv_length _ Hi) as Hl. cbn [main thid] in Hl. lia.
  - apply lookup_lt_Some in Hx as Hlt. pose proof (inv_length _ Hi) as Hl. cbn [main thid] in Hl. lia.
  - destruct Hi as [Hl [Hm Hd] Hg]. cbn [main thid] in *. split; cbn [main thid test others]; [done| |done].
    apply Forall_lookup. intros j x Hj. apply lookup_lt_Some in Hj as Hlt. rewrite Hd in Hj by lia. congruence.
  - destruct Hi as [Hl Hm Hg]. cbn [main thid] in *. split; cbn [main thid test others]; [done|done|by left].
  - destruct Hi as [Hl Hm Hg]. cbn [main thid] in *. split; cbn [main thid test others]; [done|done|by left].
  - destruct Hi as [Hl Hm Hg]. cbn [main thid] in *. split; cbn [main thid test others]; [done|done|by left].
Qed.

Lemma threads_progress s : inv s -> finished s \/ exists s', step s s'.
Proof.
  intros [Hl Hm Hg]. destruct s as [m th t o]. cbn [main thid test others] in *. destruct m as [i|i| |].
  - right. destruct (decide (i = n)) as [->|]; eexists; [apply step_send|apply step_create; lia].
  - right. destruct Hm as [Hi Hd]. destruct (decide (i = n)) as [->|]; [eexists; apply step_joined|].
    destruct (lookup_lt_is_Some_2 th i) as [x Hx]; [lia|].
    destruct Hg as [Hg|[->|Hg]].
    + rewrite Forall_lookup in Hg. rewrite (Hg _ _ Hx) in Hx. eexists. by apply step_join.
    + destruct x; eexists; [apply step_poll; [done|by left]|by apply step_read_test|by apply step_quit|by apply step_join].
    + apply list_elem_of_lookup in Hg as [j Hj]. eexists. by apply step_quit.
  - right. destruct t; [eexists; apply step_flush_test|]. destruct o; [eexists; apply step_exit|eexists; apply step_flush_other].
  - left. destruct Hm as (Hd & -> & ->). done.
Qed.
End steps.
End threads.

(** The test of signalfd-test with several threads always ends, whatever the
    interleaving and whatever other signals are pending: TEST_SIG is passed on from
    thread to thread, every thread takes it and quits, main joins them all and flushes
    every signal that is left. *)
Theorem signal_threads_end n o : inevitable (threads.step n) (threads.finished n) (threads.start o).
Proof.
  apply (inevitable_measure _ (threads.inv n) (threads.rank n)).
  - apply threads.threads_inv_step.
  - apply threads.threads_progress.
  - split; cbn; [done|lia|done].
Qed.
