(* ===== verification/Launchers.v ===== *)
(** * swrap.c, sexecp.c and sxncat.c: running a command with other credentials

    swrap runs a command as a user and a group; sexecp runs one for every connection
    it accepts and sxncat one on a connection it makes, with the connection as
    standard input, output and error.  The programs are written as the calls they
    make (see [Trace]); theorems about them hold for every kernel. *)
From Stdlib Require Import ZArith Lia Bool.
From stdpp Require Import base tactics list strings.
From S2P Require Import Prelude Exits Libc Trace.

(** The calls.  [Getpwnam] and [Getgrnam] answer the id, or less than zero when there
    is no entry; [Gethostbyname] answers zero when there is none. *)
Inductive call :=
| Getpwnam (name : list Z)
| Getgrnam (name : list Z)
| Setgid (gid : Z)
| Setuid (uid : Z)
| Execvp (argv : list (list Z))
| Socket
| SetReuseaddr (fd : Z)
| Bind (fd port : Z)
| Listen (fd backlog : Z)
| Accept (fd : Z)
| Fork
| InetAton (host : list Z)
| Gethostbyname (host : list Z)
| Connect (fd port : Z)
| Dup2 (fd fd2 : Z)
| Close (fd : Z)
| Waitpid (pid : Z).

(** The end of a run that is no exit: [execvp] has replaced the program. *)
Definition EXECED : Z := 256.

(** The number of elements of an array of strings. *)
Definition argc (av : list (list Z)) : Z := Z.of_nat (length av).

Section programs.
Context {K : Type} `{!Os call K}.

Definition execvp (argv : list (list Z)) : E K unit :=
  r <~ sys (Execvp argv);
  if r <? 0 then e_ret tt else e_exit EXECED.

(** ** swrap.c *)
Definition NO_ID : Z := u32 (-1).

Record wrap_options := mk_wrap_options { w_uid : Z; w_gid : Z; w_uname : option (list Z); w_gname : option (list Z) }.

(** The results of getopt; [None] is a call of [usage].  Options that are not known
    are passed over. *)
Fixpoint swrap_options (opts : list (Z * list Z)) (o : wrap_options) : option wrap_options :=
  match opts with
  | [] => Some o
  | (c, optarg) :: opts =>
    if c =? 117 then swrap_options opts (mk_wrap_options (u32 (atoi optarg)) (w_gid o) (w_uname o) (w_gname o))
    else if c =? 85 then swrap_options opts (mk_wrap_options (w_uid o) (w_gid o) (Some optarg) (w_gname o))
    else if c =? 103 then swrap_options opts (mk_wrap_options (w_uid o) (u32 (atoi optarg)) (w_uname o) (w_gname o))
    else if c =? 71 then swrap_options opts (mk_wrap_options (w_uid o) (w_gid o) (w_uname o) (Some optarg))
    else if c =? 104 then None
    else swrap_options opts o
  end.

(** [argv] are the arguments from [optind] on. *)
Definition swrap (opts : list (Z * list Z)) (argv : list (list Z)) : E K Z :=
  match swrap_options opts (mk_wrap_options NO_ID NO_ID None None) with
  | None => e_exit 1
  | Some o =>
    uid <~ (match w_uname o with
            | None => e_ret (w_uid o)
            | Some name => r <~ sys (Getpwnam name); if r <? 0 then e_exit 2 else e_ret r
            end);
    gid <~ (match w_gname o with
            | None => e_ret (w_gid o)
            | Some name => r <~ sys (Getgrnam name); if r <? 0 then e_exit 3 else e_ret r
            end);
    if (uid =? NO_ID) || (gid =? NO_ID) || bool_decide (argv = []) then e_exit 1 else
    r <~ sys (Setgid gid);
    if negb (r =? 0) then e_exit 4 else
    r <~ sys (Setuid uid);
    if negb (r =? 0) then e_exit 5 else
    _ <~ execvp argv;
    e_ret 6
  end.

(** ** What sexecp and sxncat do in the child

    [codes] are the exit codes when a call fails. *)
Definition drop_id (id : Z) (c : call) (code : Z) : E K unit :=
  if 0 <=? id then r <~ sys c; if negb (r =? 0) then e_exit code else e_ret tt else e_ret tt.

(** [av] from the index [i] on, for [execvp]; behind its end and the null pointer
    there is nothing to read. *)
Definition argv_from (av : list (list Z)) (i : Z) : res (list (list Z)) :=
  if (i <? 0) || (argc av <? i) then Fault else Ok (drop (Z.to_nat i) av).

Definition run_child (fd uid gid : Z) (av : list (list Z)) (i : Z) (codes : Z * Z * Z) : E K Z :=
  let '(egid, euid, eexec) := codes in
  _ <~ drop_id gid (Setgid gid) egid;
  _ <~ drop_id uid (Setuid uid) euid;
  _ <~ sys (Dup2 fd 0);
  _ <~ sys (Dup2 fd 1);
  _ <~ sys (Dup2 fd 2);
  _ <~ sys (Close fd);
  argv <~ e_run (lift_res (argv_from av i));
  _ <~ execvp argv;
  e_exit eexec.

Record net_options := mk_net_options { n_host : option (list Z); n_port : Z; n_uid : Z; n_gid : Z }.

(** ** sexecp.c *)
Definition SEXECP_PORT : Z := 8199.

(** The loop over [av] from the index [i]; the second result is [i] behind it.  An
    option that is the last argument leaves [i] one behind the number of arguments. *)
Fixpoint sexecp_options (av : list (list Z)) (i : Z) (o : net_options) : net_options * Z :=
  match av with
  | [] => (o, i)
  | a :: av =>
    if streq a (str "-p"%string) then
      match av with
      | v :: av => sexecp_options av (i + 2) (mk_net_options (n_host o) (atoi v) (n_uid o) (n_gid o))
      | [] => (o, i + 2)
      end
    else if streq a (str "-u"%string) then
      match av with
      | v :: av => sexecp_options av (i + 2) (mk_net_options (n_host o) (n_port o) (atoi v) (n_gid o))
      | [] => (o, i + 2)
      end
    else if streq a (str "-g"%string) then
      match av with
      | v :: av => sexecp_options av (i + 2) (mk_net_options (n_host o) (n_port o) (n_uid o) (atoi v))
      | [] => (o, i + 2)
      end
    else (o, i)
  end.

(** The accepting loop. *)
Fixpoint sexecp_loop (fuel : nat) (sfd uid gid : Z) (av : list (list Z)) (i : Z) : E K Z :=
  match fuel with
  | O => nofuel
  | S fuel =>
    cfd <~ sys (Accept sfd);
    if cfd =? -1 then e_ret 0 else
    pid <~ sys Fork;
    if negb (pid =? 0) then _ <~ sys (Close cfd); sexecp_loop fuel sfd uid gid av i
    else run_child cfd uid gid av i (4, 5, 5)
  end.

(** [av] has the program name first. *)
Definition sexecp (fuel : nat) (av : list (list Z)) : E K Z :=
  let '(o, i) := sexecp_options (tail av) 1 (mk_net_options None SEXECP_PORT (-1) (-1)) in
  if i =? argc av then e_exit 1 else
  sfd <~ sys Socket;
  if sfd =? -1 then e_exit 2 else
  r <~ sys (SetReuseaddr sfd);
  if r <? 0 then e_exit 3 else
  r <~ sys (Bind sfd (htons (u16 (n_port o))));
  if r <? 0 then e_exit 4 else
  _ <~ sys (Listen sfd 128);
  sexecp_loop fuel sfd (n_uid o) (n_gid o) av i.

(** ** sxncat.c *)
Fixpoint sxncat_options (av : list (list Z)) (i : Z) (o : net_options) : net_options * Z :=
  match av with
  | [] => (o, i)
  | a :: av =>
    if streq a (str "-p"%string) then
      match av with
      | v :: av => sxncat_options av (i + 2) (mk_net_options (n_host o) (atoi v) (n_uid o) (n_gid o))
      | [] => (o, i + 2)
      end
    else if streq a (str "-s"%string) then
      match av with
      | v :: av => sxncat_options av (i + 2) (mk_net_options (Some v) (n_port o) (n_uid o) (n_gid o))
      | [] => (o, i + 2)
      end
    else if streq a (str "-u"%string) then
      match av with
      | v :: av => sxncat_options av (i + 2) (mk_net_options (n_host o) (n_port o) (atoi v) (n_gid o))
      | [] => (o, i + 2)
      end
    else if streq a (str "-g"%string) then
      match av with
      | v :: av => sxncat_options av (i + 2) (mk_net_options (n_host o) (n_port o) (n_uid o) (atoi v))
      | [] => (o, i + 2)
      end
    else (o, i)
  end.

Definition sxncat (av : list (list Z)) : E K Z :=
  let '(o, i) := sxncat_options (tail av) 1 (mk_net_options None (-1) (-1) (-1)) in
  match n_host o with
  | None => e_exit 1
  | Some host =>
    if (i =? argc av) || (n_port o <? 0) then e_exit 1 else
    sfd <~ sys Socket;
    if sfd =? -1 then e_exit 2 else
    r <~ sys (InetAton host);
    _ <~ (if r =? 0 then he <~ sys (Gethostbyname host); if he =? 0 then e_exit 3 else e_ret tt else e_ret tt);
    r <~ sys (Connect sfd (htons (u16 (n_port o))));
    if r <? 0 then _ <~ sys (Close sfd); e_exit 4 else
    pid <~ sys Fork;
    if pid =? 0 then run_child sfd (n_uid o) (n_gid o) av i (5, 6, 7) else
    _ <~ sys (Close sfd);
    if pid =? -1 then e_exit 8 else
    _ <~ sys (Waitpid pid);
    e_ret 0
  end.
End programs.

(** ** Credentials

    What a run has done so far about them: whether the group was set, or need not be;
    whether after that the user was; and whether every [execvp] came behind both with
    the right command. *)
Section credentials.
Context (gid uid : Z) (argv : list (list Z)).

Definition check (st : bool * bool * bool) (e : call * Z) : bool * bool * bool :=
  let '(g, u, ok) := st in
  match e with
  | (Setgid x, r) => (g || ((x =? gid) && (r =? 0)), u, ok)
  | (Setuid x, r) => (g, u || ((x =? uid) && (r =? 0) && g), ok)
  | (Execvp a, _) => (g, u, ok && g && u && bool_decide (a = argv))
  | _ => st
  end.

Definition checked (t : trace call) : bool * bool * bool := fold_left check t (gid <? 0, uid <? 0, true).

(** The command is only run with the credentials asked for. *)
Definition drops_first (t : trace call) : Prop := (checked t).2 = true.

Lemma checked_snoc t e : checked (t ++ [e]) = check (checked t) e.
Proof. unfold checked. by rewrite fold_left_app. Qed.
End credentials.

(** ** Proofs *)
Section proofs.
Context (answers : trace call -> call -> Z).
#[local] Instance answers_os : Os call (trace call) := tracing answers.

(** Running the command at the end of a run. *)
Lemma wp_execvp {B} gid uid argv (k : unit -> E (trace call) B) t Q :
  checked gid uid argv t = (true, true, true) ->
  (forall t', checked gid uid argv t' = (true, true, true) -> Q (inl EXECED) t') ->
  (forall t', checked gid uid argv t' = (true, true, true) -> wp (k tt) t' Q) ->
  wp (e_bind (execvp argv) k) t Q.
Proof.
  intros Ht Hex Hk. apply wp_e_bind. unfold execvp. apply wp_sys. intros r.
  assert (Ht' : checked gid uid argv (t ++ [(Execvp argv, r)]) = (true, true, true))
    by (rewrite checked_snoc, Ht; cbn; by rewrite bool_decide_true).
  destruct (r <? 0); cbn; [by apply Hk|by apply Hex].
Qed.

(** Setting one of the ids: [st] is what is known before and [st'] behind it. *)
Lemma wp_drop_id {B} gid uid argv id c code (k : unit -> E (trace call) B) t Q st st' :
  checked gid uid argv t = st -> st.2 = true ->
  (forall r, (check gid uid argv st (c, r)).2 = true) -> check gid uid argv st (c, 0) = st' ->
  (id < 0 -> st = st') ->
  (forall t', checked gid uid argv t' = st' -> wp (k tt) t' Q) ->
  (forall t', drops_first gid uid argv t' -> Q (inl code) t') ->
  wp (e_bind (drop_id id c code) k) t Q.
Proof.
  intros Ht Hok Hr H0 Hneg Hk Hx. unfold drop_id. apply wp_e_bind. destruct (Z.leb_spec 0 id) as [Hid|Hid].
  - apply wp_sys. intros r. destruct (Z.eqb_spec r 0) as [->|Hne]; cbn [negb].
    + apply wp_e_ret. cbn [either]. apply Hk. by rewrite checked_snoc, Ht.
    + apply wp_e_exit. cbn [either]. apply Hx. unfold drops_first. by rewrite checked_snoc, Ht.
  - apply wp_e_ret. cbn [either]. apply Hk. by rewrite Ht, Hneg.
Qed.

Lemma wp_run_child gid uid fd av i argv codes t : argv_from av i = Ok argv ->
  checked gid uid argv t = (gid <? 0, uid <? 0, true) ->
  wp (run_child fd uid gid av i codes) t (fun _ t' => drops_first gid uid argv t').
Proof.
  intros Hav Ht. destruct codes as [[egid euid] eexec]. unfold run_child.
  eapply (wp_drop_id gid uid argv) with (st' := (true, uid <? 0, true)); [exact Ht|done|done| | |clear t Ht; intros t Ht|done].
  { cbn. rewrite Z.eqb_refl. by destruct (gid <? 0). }
  { intros Hg. by rewrite (proj2 (Z.ltb_lt gid 0)). }
  eapply (wp_drop_id gid uid argv) with (st' := (true, true, true)); [exact Ht|done|done| | |clear t Ht; intros t Ht|done].
  { cbn. rewrite Z.eqb_refl. by destruct (uid <? 0). }
  { intros Hg. by rewrite (proj2 (Z.ltb_lt uid 0)). }
  do 4 (apply wp_sys; intros ?). apply wp_e_bind. unfold e_run. apply wp_bind. unfold lift_res. rewrite Hav.
  apply wp_ret. cbn [either]. apply (wp_execvp gid uid).
  - by rewrite !checked_snoc, Ht.
  - intros t' Ht'. unfold drops_first. by rewrite Ht'.
  - intros t' Ht'. apply wp_e_exit. unfold drops_first. by rewrite Ht'.
Qed.

(** From the [k]-th call on [accept] fails. *)
Definition accepts (t : trace call) : nat := length (omap (fun e => match e.1 with Accept _ => Some tt | _ => None end) t).
Definition accept_ends (k : nat) : Prop := forall t fd, (k <= accepts t)%nat -> answers t (Accept fd) = -1.

Lemma accepts_snoc t c r : accepts (t ++ [(c, r)]) = (accepts t + match c with Accept _ => 1 | _ => 0 end)%nat.
Proof. unfold accepts. rewrite omap_app, length_app. by destruct c. Qed.

Lemma wp_sexecp_loop k fuel gid uid sfd av i argv : argv_from av i = Ok argv -> accept_ends k -> forall t,
  (k - accepts t < fuel)%nat -> checked gid uid argv t = (gid <? 0, uid <? 0, true) ->
  wp (sexecp_loop fuel sfd uid gid av i) t (fun _ t' => drops_first gid uid argv t').
Proof.
  intros Hav Hk. induction fuel as [|fuel IH]; intros t Hf Ht; [lia|]. cbn [sexecp_loop].
  apply wp_call. remember (answers t (Accept sfd)) as cfd eqn:Hcfd. destruct (Z.eqb_spec cfd (-1)) as [->|Hne]; [apply wp_e_ret; unfold drops_first; by rewrite checked_snoc, Ht|].
  apply wp_sys. intros pid. destruct (pid =? 0); cbn [negb].
  - apply wp_run_child; [done|]. by rewrite !checked_snoc, Ht.
  - apply wp_sys. intros ?. apply IH; [|by rewrite !checked_snoc, Ht]. rewrite !accepts_snoc.
    destruct (decide (k <= accepts t)%nat) as [Hd|]; [|lia]. by rewrite Hcfd, Hk in Hne.
Qed.

Lemma argv_from_ok av i : 0 <= i <= argc av -> argv_from av i = Ok (drop (Z.to_nat i) av).
Proof.
  intros Hi. unfold argv_from. rewrite (proj2 (Z.ltb_ge i 0)), (proj2 (Z.ltb_ge (argc av) i)) by lia. done.
Qed.

Ltac leave := (apply wp_e_exit || apply wp_e_ret); unfold drops_first; rewrite ?checked_snoc; done.

Lemma wp_sexecp k fuel av o i : accept_ends k -> (k < fuel)%nat -> sexecp_options (tail av) 1 (mk_net_options None SEXECP_PORT (-1) (-1)) = (o, i) -> 0 <= i <= argc av ->
  wp (sexecp fuel av) [] (fun _ t => drops_first (n_gid o) (n_uid o) (drop (Z.to_nat i) av) t).
Proof.
  intros Hk Hf Ho Hi. unfold sexecp. rewrite Ho. destruct (i =? argc av); [leave|].
  apply wp_sys. intros sfd. destruct (sfd =? -1); [leave|]. apply wp_sys. intros r. destruct (r <? 0); [leave|].
  apply wp_sys. intros r'. destruct (r' <? 0); [leave|]. apply wp_sys. intros ?.
  apply (wp_sexecp_loop k); [by apply argv_from_ok|done|rewrite !accepts_snoc; cbn; lia|done].
Qed.

Lemma wp_sxncat av o i : sxncat_options (tail av) 1 (mk_net_options None (-1) (-1) (-1)) = (o, i) -> 0 <= i <= argc av ->
  wp (sxncat av) [] (fun _ t => drops_first (n_gid o) (n_uid o) (drop (Z.to_nat i) av) t).
Proof.
  intros Ho Hi. unfold sxncat. rewrite Ho. destruct (n_host o) as [host|]; [|leave].
  destruct (_ || _); [leave|]. apply wp_sys. intros sfd. destruct (sfd =? -1); [leave|].
  apply wp_sys. intros r.
  assert (Hrest : forall t, checked (n_gid o) (n_uid o) (drop (Z.to_nat i) av) t = (n_gid o <? 0, n_uid o <? 0, true) ->
    wp (r <~ sys (Connect sfd (htons (u16 (n_port o))));
      if r <? 0 then _ <~ sys (Close sfd); e_exit 4 else
      pid <~ sys Fork;
      if pid =? 0 then run_child sfd (n_uid o) (n_gid o) av i (5, 6, 7) else
      _ <~ sys (Close sfd); if pid =? -1 then e_exit 8 else _ <~ sys (Waitpid pid); e_ret 0) t
     (fun _ t => drops_first (n_gid o) (n_uid o) (drop (Z.to_nat i) av) t)).
  { intros t Ht. apply wp_sys. intros r1. destruct (r1 <? 0).
    { apply wp_sys. intros ?. apply wp_e_exit. unfold drops_first. by rewrite !checked_snoc, Ht. }
    apply wp_sys. intros pid. destruct (pid =? 0).
    { apply wp_run_child; [by apply argv_from_ok|]. by rewrite !checked_snoc, Ht. }
    apply wp_sys. intros ?. destruct (pid =? -1); [apply wp_e_exit; unfold drops_first; by rewrite !checked_snoc, Ht|].
    apply wp_sys. intros ?. apply wp_e_ret. unfold drops_first. by rewrite !checked_snoc, Ht. }
  apply wp_e_bind. destruct (r =? 0).
  - apply wp_sys. intros he. destruct (he =? 0); [leave|]. apply wp_e_ret. cbn [either]. by apply Hrest.
  - apply wp_e_ret. cbn [either]. by apply Hrest.
Qed.


(** The id that swrap uses: the one given or the one a name stands for. *)
Definition stands_for (given : Z) (name : option (list Z)) (lookup : list Z -> call) (id : Z) (t : trace call) : Prop :=
  match name with None => id = given | Some n => (lookup n, id) ∈ t end.


(** A trace of lookups only. *)
Definition quiet (t : trace call) : Prop :=
  Forall (fun e => match e.1 with Getpwnam _ | Getgrnam _ => True | _ => False end) t.

Lemma quiet_checked gid uid argv t : quiet t -> checked gid uid argv t = (gid <? 0, uid <? 0, true).
Proof.
  unfold checked. intros Ht. generalize (gid <? 0, uid <? 0, true) as st.
  induction Ht as [|[c r] t Hc _ IH]; intros st; [done|]. cbn [fold_left]. rewrite IH.
  destruct st as [[g u] ok]. by destruct c.
Qed.

(** The resolution of a user or group. *)
Lemma wp_lookup name given lookup code t : lookup = Getpwnam \/ lookup = Getgrnam -> quiet t -> 0 <= given ->
  wp (match name with None => e_ret given | Some name => r <~ sys (lookup name); if r <? 0 then e_exit code else e_ret r end) t
    (either (fun _ t' => quiet t') (fun id t' => quiet t' /\ 0 <= id /\ stands_for given name lookup id t' /\ (exists u, t' = (t ++ u)%list))).
Proof.
  intros Hl Hq Hg. destruct name as [n|].
  - apply wp_sys. intros r.
    assert (Hq' : quiet (t ++ [(lookup n, r)])) by (apply Forall_app; split; [done|]; constructor; [by destruct Hl as [-> | ->]|constructor]).
    destruct (Z.ltb_spec r 0); [by apply wp_e_exit|]. apply wp_e_ret. cbn [either]. split_and!; try done; [|by eexists].
    cbn. apply elem_of_app. right. by left.
  - apply wp_e_ret. cbn [either]. split_and!; try done. exists []. by rewrite app_nil_r.
Qed.

Lemma stands_for_app given name lookup id t u : stands_for given name lookup id t -> stands_for given name lookup id (t ++ u).
Proof. unfold stands_for. destruct name; [|done]. intros. apply elem_of_app. by left. Qed.

Lemma quiet_no_exec t l a x : quiet t -> (Execvp a, x) ∈ (t ++ l)%list -> (Execvp a, x) ∈ l.
Proof.
  intros Hq [Hin|Hin]%elem_of_app; [|done]. unfold quiet in Hq. rewrite Forall_forall in Hq. by destruct (Hq _ Hin).
Qed.

Lemma swrap_options_ids opts : forall o o', swrap_options opts o = Some o' -> 0 <= w_uid o -> 0 <= w_gid o -> 0 <= w_uid o' /\ 0 <= w_gid o'.
Proof.
  induction opts as [|[c arg] opts IH]; intros o o' H Hu Hg; cbn [swrap_options] in H; [by injection H as <-|].
  pose proof (u32_range (atoi arg)). repeat (case_match; [by eapply IH; [exact H|cbn; lia..]|]).
  case_match; [done|]. by eapply IH.
Qed.
End proofs.

(** swrap always ends, and whatever the kernel answers it runs a command only if
    there is one, with the arguments given, after it has first set the group and then
    the user to the ids of its options or those their names stand for. *)
Theorem swrap_credentials answers opts argv : exists r t,
  swrap (Os0 := tracing answers) opts argv [] = Ok (r, t) /\
  forall a x, (Execvp a, x) ∈ t -> a = argv /\ argv <> [] /\
    exists o uid gid, swrap_options opts (mk_wrap_options NO_ID NO_ID None None) = Some o /\
      stands_for (w_uid o) (w_uname o) Getpwnam uid t /\ stands_for (w_gid o) (w_gname o) Getgrnam gid t /\
      uid <> NO_ID /\ gid <> NO_ID /\ drops_first gid uid argv t.
Proof.
  apply wp_run. unfold swrap. destruct (swrap_options opts _) as [o|] eqn:Ho; [|apply wp_e_exit; by intros a x ?%elem_of_nil].
  destruct (swrap_options_ids _ _ _ Ho) as [Hu Hg]; [done|done|].
  apply wp_e_bind. eapply wp_mono; [apply wp_lookup; [by left|constructor|done]|]. intros [c|uid] t.
  { intros Hq a x Hin. rewrite <- (app_nil_r t) in Hin. apply (quiet_no_exec _ _ _ _ Hq) in Hin. by apply elem_of_nil in Hin. }
  intros (Hq & Hu0 & Hsu & _). cbn [either]. apply wp_e_bind. eapply wp_mono; [apply wp_lookup; [by right|done|done]|]. intros [c|gid] t2.
  { intros Hq2 a x Hin. rewrite <- (app_nil_r t2) in Hin. apply (quiet_no_exec _ _ _ _ Hq2) in Hin. by apply elem_of_nil in Hin. }
  intros (Hq2 & Hg0 & Hsg & u & Hu2). cbn [either]. assert (Hsu2 : stands_for (w_uid o) (w_uname o) Getpwnam uid t2) by (rewrite Hu2; by apply stands_for_app).
  destruct ((uid =? NO_ID) || (gid =? NO_ID) || bool_decide (argv = [])) eqn:Huse.
  { apply wp_e_exit. intros a x Hin. rewrite <- (app_nil_r t2) in Hin. apply (quiet_no_exec _ _ _ _ Hq2) in Hin. by apply elem_of_nil in Hin. }
  apply orb_false_iff in Huse as [[Hnu Hng]%orb_false_iff Hna]. apply Z.eqb_neq in Hnu, Hng. apply bool_decide_eq_false in Hna.
  assert (Hck := quiet_checked gid uid argv t2 Hq2). rewrite (proj2 (Z.ltb_ge gid 0)), (proj2 (Z.ltb_ge uid 0)) in Hck by done.
  apply wp_sys. intros r. destruct (Z.eqb_spec r 0) as [->|]; cbn [negb].
  2: { apply wp_e_exit. intros a x Hin. apply (quiet_no_exec _ _ _ _ Hq2) in Hin. apply list_elem_of_singleton in Hin. done. }
  apply wp_sys. intros r. destruct (Z.eqb_spec r 0) as [->|]; cbn [negb].
  2: { apply wp_e_exit. intros a x Hin. rewrite <- app_assoc in Hin. apply (quiet_no_exec _ _ _ _ Hq2) in Hin.
       apply elem_of_cons in Hin as [?|Hin]; [done|]. by apply list_elem_of_singleton in Hin. }
  assert (Hend : forall x0, forall a x, (Execvp a, x) ∈ (((t2 ++ [(Setgid gid, 0)]) ++ [(Setuid uid, 0)]) ++ [(Execvp argv, x0)])%list ->
    a = argv /\ argv <> [] /\ exists o0 uid0 gid0, Some o = Some o0 /\
      stands_for (w_uid o0) (w_uname o0) Getpwnam uid0 (((t2 ++ [(Setgid gid, 0)]) ++ [(Setuid uid, 0)]) ++ [(Execvp argv, x0)]) /\
      stands_for (w_gid o0) (w_gname o0) Getgrnam gid0 (((t2 ++ [(Setgid gid, 0)]) ++ [(Setuid uid, 0)]) ++ [(Execvp argv, x0)]) /\
      uid0 <> NO_ID /\ gid0 <> NO_ID /\ drops_first gid0 uid0 argv (((t2 ++ [(Setgid gid, 0)]) ++ [(Setuid uid, 0)]) ++ [(Execvp argv, x0)])).
  { intros x0 a x Hin. rewrite <- !app_assoc in Hin. apply (quiet_no_exec _ _ _ _ Hq2) in Hin. cbn [app] in Hin.
    rewrite !elem_of_cons, elem_of_nil in Hin. assert (a = argv) as -> by naive_solver.
    split; [done|]. split; [done|]. exists o, uid, gid. split; [done|].
    split; [by do 3 apply stands_for_app|]. split; [by do 3 apply stands_for_app|]. split; [done|]. split; [done|].
    unfold drops_first. rewrite !checked_snoc, Hck. cbn. rewrite !Z.eqb_refl. cbn. by rewrite bool_decide_true. }
  apply wp_e_bind. unfold execvp. apply wp_sys. intros r. destruct (r <? 0); cbn [either].
  - apply wp_e_ret. cbn [either]. apply wp_e_ret. apply Hend.
  - apply wp_e_exit. cbn [either]. apply Hend.
Qed.

(** The index only grows. *)
Lemma sexecp_options_grow n : forall l, (length l <= n)%nat -> forall i o o' j, sexecp_options l i o = (o', j) -> i <= j.
Proof.
  induction n as [|n IH]; intros [|a l] Hn i o o' j H; cbn [length sexecp_options] in *; try (injection H as _ <-; lia); try lia.
  repeat case_match; try (injection H as _ <-; lia); (apply IH in H; [lia|cbn [length] in *; lia]).
Qed.
Lemma sxncat_options_grow n : forall l, (length l <= n)%nat -> forall i o o' j, sxncat_options l i o = (o', j) -> i <= j.
Proof.
  induction n as [|n IH]; intros [|a l] Hn i o o' j H; cbn [length sxncat_options] in *; try (injection H as _ <-; lia); try lia.
  repeat case_match; try (injection H as _ <-; lia); (apply IH in H; [lia|cbn [length] in *; lia]).
Qed.

(** C23: whatever the kernel answers, sexecp, when [accept] fails at last, and sxncat end,
    and run the command only after the group was set, if one is asked for, and then
    the user, if one is asked for, and with the arguments behind their options; provided
    that no option stands at the end without its value, they read nothing outside of
    their arguments. *)
Theorem net_launchers_credentials answers fuel k av o1 i1 o2 i2 : accept_ends answers k -> (k < fuel)%nat ->
  sexecp_options (tail av) 1 (mk_net_options None SEXECP_PORT (-1) (-1)) = (o1, i1) -> i1 <= argc av ->
  sxncat_options (tail av) 1 (mk_net_options None (-1) (-1) (-1)) = (o2, i2) -> i2 <= argc av ->
  wp (sexecp (Os0 := tracing answers) fuel av) [] (fun _ t => drops_first (n_gid o1) (n_uid o1) (drop (Z.to_nat i1) av) t) /\
  wp (sxncat (Os0 := tracing answers) av) [] (fun _ t => drops_first (n_gid o2) (n_uid o2) (drop (Z.to_nat i2) av) t).
Proof.
  intros Hk Hf Ho1 Hi1 Ho2 Hi2. pose proof (sexecp_options_grow _ _ (le_n _) _ _ _ _ Ho1).
  pose proof (sxncat_options_grow _ _ (le_n _) _ _ _ _ Ho2). split.
  - eapply wp_sexecp; [done..|exact Ho1|lia].
  - eapply wp_sxncat; [exact Ho2|lia].
Qed.

Definition demo_av : list (list Z) := str <$> ["x"; "-u"; "7"; "cat"; "f"]%string.

(** One connection, whose process runs the command. *)
Definition demo_answers (t : trace call) (c : call) : Z :=
  match c with Accept _ => if (1 <=? accepts t)%nat then -1 else 4 | _ => 0 end.

Lemma net_launchers_credentials_witness :
  wp (sexecp (Os0 := tracing demo_answers) 3 demo_av) [] (fun _ t => drops_first (-1) 7 (drop 3 demo_av) t) /\
  wp (sxncat (Os0 := tracing demo_answers) demo_av) [] (fun _ t => drops_first (-1) 7 (drop 3 demo_av) t).
Proof.
  apply (net_launchers_credentials demo_answers 3 1 demo_av (mk_net_options None 8199 7 (-1)) 3 (mk_net_options None (-1) 7 (-1)) 3);
    try (reflexivity || (vm_compute; done)); [|lia].
  intros t fd Ht. change ((if (1 <=? accepts t)%nat then -1 else 4) = -1). by rewrite (proj2 (Nat.leb_le 1 _) Ht).
Defined.

(** With an option at the end that lacks its value the index of the command is one
    behind the null pointer of [argv]. *)
Lemma sexecp_trailing_option : sexecp (Os0 := tracing (fun _ _ => 0)) 1 (str <$> ["x"; "-p"]%string) [] = Fault.
Proof. reflexivity. Qed.
