(* ===== verification/Xtty.v ===== *)
(** * xtty.c: a terminal on a device

    The program copies what the device sends to the standard output and to a log, and
    what the console sends to the device, in its mode for modems with newlines made
    carriage returns.  The kernel is a class; [console] is an instance that gives the
    results of the reads turn by turn. *)
From Stdlib Require Import ZArith Lia Bool.
From stdpp Require Import base tactics list strings.
From S2P Require Import Prelude Exits Libc.

Definition STD_POLL_TIMEO : Z := 1 * 1000.
Definition BUFFER : Z := 2048.

(** What the program asks of the kernel.  [poll2] tells which of two descriptors can
    be read. *)
Class Kernel (K : Type) := {
  open_log : list Z -> M K Z;
  open_dev : list Z -> M K Z;
  tcgetattr : Z -> M K Z;
  tcsetattr_nobuf : Z -> M K Z;
  poll2 : Z -> Z -> Z -> M K (bool * bool);
  read : Z -> Z -> M K (Z * list Z);
  write : Z -> list Z -> M K unit;
  close : Z -> M K unit
}.

(** [xtty_tr] on the first [n] bytes of a buffer. *)
Definition tr_byte (imap omap : list Z) (mn : nat) (c : Z) : Z :=
  match index_of c (take mn imap) with Some i => at_ omap i | None => c end.
Definition xtty_tr (s : list Z) (n : nat) (imap omap : list Z) (mn : nat) : list Z :=
  (map (tr_byte imap omap mn) (take n s) ++ drop n s)%list.

Section program.
Context {K : Type} `{!Kernel K}.

Definition xtty_setnobuf (fd : Z) : M K Z :=
  r ← tcgetattr fd;
  if negb (r =? 0) then mret (-1) else
  r ← tcsetattr_nobuf fd;
  mret (if negb (r =? 0) then -1 else 0).

Record options := mk_options { dev : option (list Z); atmode : Z; coutfd : Z; logfd : Z }.

Fixpoint parse_args (av : list (list Z)) (o : options) : E K options :=
  match av with
  | [] => e_ret o
  | a :: av =>
    if streq a (str "--dev"%string) then
      match av with
      | v :: av => parse_args av (mk_options (Some v) (atmode o) (coutfd o) (logfd o))
      | [] => e_ret o
      end
    else if streq a (str "--at-mode"%string) then parse_args av (mk_options (dev o) (s32 (atmode o + 1)) (coutfd o) (logfd o))
    else if streq a (str "--unbuf"%string) then _ <~ e_run (xtty_setnobuf 0); parse_args av o
    else if streq a (str "--quiet"%string) then parse_args av (mk_options (dev o) (atmode o) (-1) (logfd o))
    else if streq a (str "--logfile"%string) then
      match av with
      | v :: av =>
        fd <~ e_run (open_log v);
        if fd =? -1 then e_exit 1 else parse_args av (mk_options (dev o) (atmode o) (coutfd o) fd)
      | [] => e_ret o
      end
    else if streq a (str "--help"%string) then e_exit 2
    else parse_args av o
  end.

(** What is done with the device and with the console when they can be read; the
    result is whether the loop is left. *)
Definition from_device (o : options) (fd : Z) : M K bool :=
  r ← read fd BUFFER;
  if 0 <? r.1 then
    (if negb (coutfd o =? -1) then write (coutfd o) (take (Z.to_nat r.1) r.2) else mret tt);;
    (if negb (logfd o =? -1) then write (logfd o) (take (Z.to_nat r.1) r.2) else mret tt);;
    mret false
  else mret (r.1 =? 0).

Definition from_console (o : options) (fd cinfd : Z) : M K bool :=
  r ← read cinfd BUFFER;
  if 0 <? r.1 then
    let n := Z.to_nat r.1 in
    let buf := if negb (atmode o =? 0) then xtty_tr r.2 n [LF] [CR] 1 else r.2 in
    write fd (take n buf);;
    mret false
  else mret (r.1 =? 0).

Fixpoint relay (fuel : nat) (o : options) (fd cinfd : Z) : M K unit :=
  match fuel with
  | O => nofuel
  | S fuel =>
    p ← poll2 fd cinfd STD_POLL_TIMEO;
    stop ← (if (p.1 : bool) then from_device o fd else mret false);
    if (stop : bool) then mret tt else
    stop ← (if (p.2 : bool) then from_console o fd cinfd else mret false);
    if (stop : bool) then mret tt else relay fuel o fd cinfd
  end.

(** The arguments are those behind the program name; 0 and 1 are the descriptors of
    the standard input and output. *)
Definition main (fuel : nat) (av : list (list Z)) : M K Z := e_main (
  o <~ parse_args av (mk_options None 0 1 (-1));
  match dev o with
  | None => e_exit 3
  | Some d =>
    fd <~ e_run (open_dev d);
    if fd =? -1 then e_exit 4 else
    _ <~ e_run (relay fuel o fd 0);
    _ <~ e_run (close fd);
    _ <~ (if negb (logfd o =? -1) then e_run (close (logfd o)) else e_ret tt);
    e_ret 0
  end).
End program.

(** ** A console and a device

    A turn of the loop has what a read of the device gives, if it can be read, and
    what one of the console gives: an error, or bytes, none at the end of the file. *)
Inductive input := Failed | Bytes (l : list Z).
Definition turn : Type := option input * option input.

(** What was written: to the standard output, to the log and to the device. *)
Record world := mk_world { turns : list turn; shown : list Z; logged : list Z; sent : list Z }.

(** The reads of a turn belong to the poll before them: the turn is dropped by the
    next poll. *)
Record console_state := mk_console { w : world; current : turn }.

Definition c_read (i : option input) (n : Z) : M console_state (Z * list Z) :=
  match i with
  | Some (Bytes l) => if Z.of_nat (length l) <=? n then mret (Z.of_nat (length l), l) else fault
  | _ => mret (-1, [])
  end.

Definition c_poll2 (fd cinfd timeo : Z) : M console_state (bool * bool) := fun s =>
  match turns (w s) with
  | [] => NoFuel
  | t :: ts => Ok ((bool_decide (is_Some t.1), bool_decide (is_Some t.2)),
                   mk_console (mk_world ts (shown (w s)) (logged (w s)) (sent (w s))) t)
  end.

Definition c_write (fd : Z) (l : list Z) : M console_state unit := fun s =>
  let x := w s in
  Ok (tt, mk_console (if fd =? 1 then mk_world (turns x) (shown x ++ l) (logged x) (sent x)
                      else if fd =? 4 then mk_world (turns x) (shown x) (logged x ++ l) (sent x)
                      else mk_world (turns x) (shown x) (logged x) (sent x ++ l)) (current s)).

(** The descriptors: the device is 3 and the log 4. *)
#[export] Instance console : Kernel console_state := {
  open_log name := mret 4;
  open_dev name := mret 3;
  tcgetattr fd := mret 0;
  tcsetattr_nobuf fd := mret 0;
  poll2 := c_poll2;
  read fd n := fun s => c_read (if fd =? 3 then (current s).1 else (current s).2) n s;
  write := c_write;
  close fd := mret tt
}.

(** ** What the relay is for: the bytes of the turns up to the end of one of the
    files, newlines translated for a modem. *)
Definition data (i : option input) : list Z := match i with Some (Bytes l) => l | _ => [] end.
Definition is_eof (i : option input) : bool := match i with Some (Bytes []) => true | _ => false end.

Fixpoint before_eof (ts : list turn) : option (list Z * list Z) :=
  match ts with
  | [] => None
  | (d, c) :: ts =>
    if is_eof d then Some ([], [])
    else if is_eof c then Some (data d, [])
    else r ← before_eof ts; Some (data d ++ r.1, data c ++ r.2)%list
  end.

Definition modem (at_mode : bool) (l : list Z) : list Z :=
  if at_mode then map (fun c => if c =? LF then CR else c) l else l.

(** ** Proofs *)
Lemma xtty_tr_crlf l : take (length l) (xtty_tr l (length l) [LF] [CR] 1) = modem true l.
Proof.
  unfold xtty_tr, modem. rewrite firstn_all, skipn_all, app_nil_r, take_ge by (by rewrite length_map).
  apply map_ext. intros c. unfold tr_byte. cbn [take index_of]. rewrite (Z.eqb_sym LF c). by destruct (c =? LF).
Qed.

Lemma modem_app b l l' : modem b (l ++ l') = (modem b l ++ modem b l')%list.
Proof. unfold modem. destruct b; [apply map_app|done]. Qed.

Lemma modem_nil b : modem b [] = [].
Proof. by destruct b. Qed.

Definition fits1 (i : option input) : Prop := Z.of_nat (length (data i)) <= BUFFER.
(** The inputs that fit in the buffer. *)
Definition fits (ts : list turn) : Prop := Forall (fun t => fits1 t.1 /\ fits1 t.2) ts.

(** What a run has written more. *)
Definition wrote (o : options) (x : world) (d c : list Z) (x' : world) : Prop :=
  shown x' = (shown x ++ if decide (coutfd o = -1) then [] else d)%list /\
  logged x' = (logged x ++ if decide (logfd o = -1) then [] else d)%list /\
  sent x' = (sent x ++ modem (negb (atmode o =? 0)) c)%list.

Lemma wrote_trans o x x' x'' d d' c c' : wrote o x d c x' -> wrote o x' d' c' x'' -> wrote o x (d ++ d') (c ++ c') x''.
Proof.
  intros (H1 & H2 & H3) (G1 & G2 & G3). unfold wrote.
  rewrite G1, H1, G2, H2, G3, H3, modem_app. repeat case_decide; by rewrite ?app_nil_r, ?(assoc_L (++)).
Qed.

Definition good (o : options) : Prop := (coutfd o = 1 \/ coutfd o = -1) /\ (logfd o = 4 \/ logfd o = -1).

Lemma wp_c_read i n s (Q : Z * list Z -> console_state -> Prop) : Z.of_nat (length (data i)) <= n ->
  Q (match i with Some (Bytes l) => (Z.of_nat (length l), l) | _ => (-1, []) end) s -> wp (c_read i n) s Q.
Proof.
  unfold c_read. intros Hn HQ. destruct i as [[|l]|]; try by apply wp_ret. cbn in Hn.
  rewrite (proj2 (Z.leb_le _ _) Hn). by apply wp_ret.
Qed.

(** What one of the two descriptors of a turn does. *)
Definition relayed (o : options) (s : console_state) (i : option input) (d c : list Z) (stop : bool) (s' : console_state) : Prop :=
  stop = is_eof i /\ current s' = current s /\ turns (w s') = turns (w s) /\ wrote o (w s) d c (w s').

Lemma wp_from_device o s : good o -> fits1 (current s).1 ->
  wp (from_device o 3) s (relayed o s (current s).1 (data (current s).1) []).
Proof.
  intros [Hc Hl] Hf. unfold from_device, relayed, wrote. rewrite modem_nil. apply wp_bind. unfold read, console, wp at 1.
  rewrite Z.eqb_refl. apply wp_c_read; [done|].
  destruct s as [x [d c]]; cbn [current fst] in *.
  destruct d as [[|[|b l]]|]; cbn [data is_eof fst snd];
    try (apply wp_ret; repeat case_decide; rewrite ?app_nil_r; done).
  rewrite (proj2 (Z.ltb_lt _ _)) by (cbn; lia). rewrite Nat2Z.id, firstn_all.
  destruct Hc as [-> | ->], Hl as [-> | ->]; cbv [wp]; cbn; rewrite ?app_nil_r; done.
Qed.

Lemma wp_from_console o s : fits1 (current s).2 ->
  wp (from_console o 3 0) s (relayed o s (current s).2 [] (data (current s).2)).
Proof.
  intros Hf. unfold from_console, relayed, wrote. apply wp_bind. unfold read, console, wp at 1.
  apply wp_c_read; [done|].
  destruct s as [x [d c]]; cbn [current snd Z.eqb] in *.
  destruct c as [[|[|b l]]|]; cbn [data is_eof fst snd];
    try (apply wp_ret; rewrite modem_nil; repeat case_decide; rewrite ?app_nil_r; done).
  rewrite (proj2 (Z.ltb_lt _ _)) by (cbn; lia). rewrite Nat2Z.id.
  destruct (negb (atmode o =? 0)); [rewrite xtty_tr_crlf|rewrite firstn_all];
    cbv [wp]; cbn; repeat case_decide; rewrite ?app_nil_r; done.
Qed.

Lemma before_eof_none (i : option input) : bool_decide (is_Some i) = false -> data i = [] /\ is_eof i = false.
Proof. intros H%bool_decide_eq_false. destruct i; [|done]. by destruct H. Qed.

(** Reading a descriptor if it can be read: nothing happens else. *)
Lemma wp_if_ready o (m : M console_state bool) s i d c : data i = d ++ c -> wp m s (relayed o s i d c) ->
  wp (if bool_decide (is_Some i) then m else mret false) s (relayed o s i d c).
Proof.
  intros Hd Hm. case_bool_decide as Hi; [done|]. apply wp_ret.
  destruct i; [by destruct Hi|]. symmetry in Hd. apply app_eq_nil in Hd as [-> ->].
  unfold relayed, wrote. rewrite modem_nil. repeat case_decide; rewrite ?app_nil_r; done.
Qed.

Lemma wp_relay o d c fuel s : good o -> fits (turns (w s)) -> before_eof (turns (w s)) = Some (d, c) ->
  (length (turns (w s)) < fuel)%nat -> wp (relay fuel o 3 0) s (fun _ s' => wrote o (w s) d c (w s')).
Proof.
  intros Hg. revert s d c. induction fuel as [|fuel IH]; intros s d c Hf Hb Hlen; [lia|].
  destruct s as [[ts sh lg se] cur]. cbn [turns w] in *. destruct ts as [|[i j] ts]; [done|].
  apply Forall_cons in Hf as [[Hi Hj] Hf]. cbn [fst snd before_eof length] in *.
  cbn [relay]. apply wp_bind. unfold poll2, console, wp at 1. cbn [c_poll2 turns w shown logged sent fst snd].
  apply wp_bind. eapply wp_mono.
  { apply (wp_if_ready o _ _ i (data i) []); [by rewrite app_nil_r|].
    by apply (wp_from_device o (mk_console (mk_world ts sh lg se) (i, j))). }
  intros stop s1 (-> & Hcur & Hts & Hw). cbn [w current turns] in *.
  destruct (is_eof i) eqn:Ei.
  { injection Hb as <- <-. apply wp_ret. destruct i as [[|[|]]|]; done. }
  apply wp_bind. eapply wp_mono.
  { apply (wp_if_ready o _ _ j [] (data j)); [done|].
    pose proof (wp_from_console o s1) as Hc. rewrite Hcur in Hc. by apply Hc. }
  intros stop s2 (-> & Hcur2 & Hts2 & Hw2). pose proof (wrote_trans _ _ _ _ _ _ _ _ Hw Hw2) as Hww.
  rewrite app_nil_r in Hww. cbn [app] in Hww.
  destruct (is_eof j) eqn:Ej.
  { injection Hb as <- <-. apply wp_ret. destruct j as [[|[|]]|]; done. }
  destruct (before_eof ts) as [[d' c']|] eqn:Eb; [|done]. injection Hb as <- <-.
  rewrite Hts in Hts2. eapply wp_mono.
  - apply (IH s2 d' c'); rewrite Hts2; try done. lia.
  - intros [] s3 Hw3. by eapply wrote_trans.
Qed.

(** The options leave the descriptors of the output and of the log as they are known. *)
Lemma wp_parse_args_good av o s : good o ->
  wp (parse_args av o) s (either (fun _ s' => s' = s) (fun o' s' => s' = s /\ good o')).
Proof.
  revert o s. induction av as [av IH] using (induction_ltof1 _ (@length _)); unfold ltof in IH.
  intros o s Hg. destruct av as [|a av]; [by apply wp_e_ret|]. cbn [parse_args].
  repeat (destruct (streq a _); [match goal with
    | |- context [match av with [] => _ | _ :: _ => _ end] => destruct av as [|v av]
    | _ => idtac end|]);
    try (by apply wp_e_ret); try (by apply wp_e_exit);
    try (apply IH; [cbn; lia|]; destruct Hg; split; cbn; tauto).
Qed.

(** Whatever its options, with a device [xtty] writes to the standard output and to
    the log, where it has them, the bytes the device sent before the end of the one
    file or the other, and to the device those of the console, newlines as carriage
    returns if it is a modem; then it ends with 0. *)
Theorem xtty_copies av o d dev0 c fuel ts : 
  parse_args av (mk_options None 0 1 (-1)) (mk_console (mk_world ts [] [] []) (None, None)) = Ok (inr o, mk_console (mk_world ts [] [] []) (None, None)) ->
  dev o = Some dev0 -> fits ts -> before_eof ts = Some (d, c) -> (length ts < fuel)%nat ->
  wp (main fuel av) (mk_console (mk_world ts [] [] []) (None, None)) (fun r s' => r = 0 /\
    shown (w s') = (if decide (coutfd o = -1) then [] else d) /\
    logged (w s') = (if decide (logfd o = -1) then [] else d) /\
    sent (w s') = modem (negb (atmode o =? 0)) c).
Proof.
  intros Hp Hd Hf Hb Hlen.
  pose proof (wp_parse_args_good av (mk_options None 0 1 (-1)) (mk_console (mk_world ts [] [] []) (None, None))) as Hg.
  unfold wp in Hg. rewrite Hp in Hg. destruct Hg as [_ Hg]; [by split; left + right|].
  unfold main, e_main. apply wp_bind. eapply wp_e_seq; [exact Hp|]. rewrite Hd.
  apply wp_e_bind, wp_e_run. unfold wp at 1, open_dev, console. cbn [mret M_ret Z.eqb].
  apply wp_e_bind, wp_e_run. eapply wp_mono; [by apply (wp_relay o d c)|].
  intros [] s (H1 & H2 & H3). cbn [w shown logged sent app] in H1, H2, H3.
  destruct (negb (logfd o =? -1)); by cbv [wp].
Qed.

Definition demo_args : list (list Z) := map str ["--at-mode"; "--logfile"; "x.log"; "--dev"; "/dev/modem"]%string.
Definition demo_turns : list turn :=
  [(None, Some (Bytes (str "AT"%string ++ [LF]))); (Some (Bytes (str "OK"%string)), None); (Some Failed, Some (Bytes [65])); (Some (Bytes [66]), Some (Bytes []))].

Lemma xtty_copies_witness :
  let s := mk_console (mk_world demo_turns [] [] []) (None, None) in
  wp (main 9 demo_args) s (fun r s' => r = 0 /\ shown (w s') = str "OKB"%string /\ logged (w s') = str "OKB"%string /\
    sent (w s') = (str "AT"%string ++ [CR; 65])%list).
Proof.
  exact (xtty_copies demo_args (mk_options (Some (str "/dev/modem"%string)) 1 1 4) (str "OKB"%string) (str "/dev/modem"%string)
    (str "AT"%string ++ [LF; 65]) 9 demo_turns ltac:(by vm_compute) ltac:(done)
    ltac:(repeat constructor; vm_compute; discriminate) ltac:(by vm_compute) ltac:(cbn; lia)).
Defined.
