(* ===== verification/EpollTest.v ===== *)
(** * epoll_test.c: tests of epoll on terminals and on chains of epoll descriptors

    The tests and main are written over a class of kernels.  [nested] is an instance:
    a kernel with a table of descriptors that follows chains of epoll descriptors down
    to a given depth, and that may wake a wait up when something is written on the
    terminal.  The theorem says which of these kernels pass which test. *)
From Stdlib Require Import ZArith Lia Bool.
From stdpp Require Import base tactics list.
From S2P Require Import Prelude Exits.

Definition POLLIN : Z := 1.
Definition POLLOUT : Z := 4.
Definition POLLERR : Z := 8.
Definition POLLHUP : Z := 16.
Definition POLLRDHUP : Z := 8192.
Definition EPOLLIN : Z := POLLIN.
Definition EPOLLOUT : Z := POLLOUT.
Definition EPOLL_MAX_CHAIN : Z := 100.
Definition EPOLL_TF_LOOP : Z := Z.shiftl 1 0.

(** The lines of the output. *)
Inductive line :=
| Checking (fd : Z) | Event (bit : Z) | Cooking (fd : Z) | Created (fd : Z) | ReadyShouldNot (fd : Z) | Spurious (fd : Z)
| ChildStuff | Perror | Verdict (which : Z) (code : option Z).

(** What a process that is started beside the test does: it sleeps some seconds, writes
    a byte to a descriptor or a line on the terminal, and ends. *)
Inductive child := Writes (secs fd : Z) | Prints (secs : Z).

(** What the tests ask of the kernel.  [run_child] runs a process while its parent waits
    and gives its status, less than zero when it did not exit; [spawn] starts a process
    that runs beside. *)
Class Kernel (K : Type) := {
  gettime : M K Z;
  epoll_create : Z -> M K Z;
  epoll_ctl_add : Z -> Z -> Z -> M K Z;
  epoll_wait : Z -> Z -> M K Z;
  pipe : M K (Z * Z * Z);
  poll : Z -> Z -> Z -> M K (Z * Z);
  fork : M K Z;
  run_child : M K Z -> M K Z;
  spawn : child -> M K unit;
  sleep : Z -> M K unit;
  waitpid : Z -> M K Z;
  print : line -> M K unit
}.

Section program.
Context {K : Type} `{!Kernel K}.

(** The microseconds that [gettime] counts. *)
Definition getustime : M K Z := t ← gettime; mret (u64 t).

Definition xepoll_create (n : Z) : E K Z :=
  epfd <~ e_run (epoll_create n);
  if epfd =? -1 then e_exit 2 else e_ret epfd.

Definition xepoll_ctl_add (epfd fd events : Z) : E K unit :=
  r <~ e_run (epoll_ctl_add epfd fd events);
  if r <? 0 then e_exit 3 else e_ret tt.

Definition xpipe : E K (Z * Z) :=
  r <~ e_run pipe;
  let '(r, rd, wr) := r in
  if negb (r =? 0) then e_exit 4 else e_ret (rd, wr).

Definition xfork : E K Z :=
  pid <~ e_run fork;
  if pid =? -1 then e_exit 5 else e_ret pid.

(** The exit status of [exit(code)]. *)
Definition exit_status (code : Z) : Z := Z.land code 255.

Definition run_forked_proc (proc : E K Z) : E K Z :=
  pid <~ xfork;
  status <~ e_run (run_child (code ← e_main proc; mret (exit_status code)));
  r <~ e_run (waitpid pid);
  if negb (r =? pid) then _ <~ e_run (print Perror); e_ret (-1)
  else e_ret (if 0 <=? status then status else -2).

Definition print_events (revents : Z) : M K unit :=
  for_each [POLLIN; POLLOUT; POLLERR; POLLHUP; POLLRDHUP] (fun b =>
    if negb (Z.land revents b =? 0) then print (Event b) else mret tt).

Definition check_events (fd timeo : Z) : M K Z :=
  print (Checking fd);;
  r ← poll fd (Z.lor POLLIN POLLOUT) timeo;
  if r.1 <? 0 then print Perror;; mret 0 else
  print_events r.2;;
  mret r.2.

Definition epoll_test_tty (ifd : Z) : E K Z :=
  r <~ e_run (check_events ifd 0);
  if negb (r =? POLLOUT) then _ <~ e_run (print (Cooking ifd)); e_ret 1 else
  epfd <~ xepoll_create 1;
  _ <~ e_run (print (Created epfd));
  _ <~ xepoll_ctl_add epfd ifd EPOLLIN;
  r <~ e_run (check_events epfd 0);
  if negb (Z.land r POLLIN =? 0) then
    res <~ e_run (epoll_wait epfd 0);
    if res =? 0 then _ <~ e_run (print (ReadyShouldNot epfd)); e_ret 2 else e_ret 0
  else e_ret 0.

Definition epoll_test_tty2 (ifd : Z) : E K Z :=
  epfd <~ xepoll_create 1;
  _ <~ e_run (print (Created epfd));
  _ <~ xepoll_ctl_add epfd ifd EPOLLIN;
  pid <~ xfork;
  _ <~ e_run (spawn (Prints 1));
  ts <~ e_run getustime;
  res <~ e_run (epoll_wait epfd 2500);
  te <~ e_run getustime;
  r <~ e_run (waitpid pid);
  if negb (r =? pid) then _ <~ e_run (print Perror); e_ret 1
  else if negb (res =? 0) then _ <~ e_run (print (ReadyShouldNot epfd)); e_ret 2
  else if u64 (te - ts) <? 2000000 then _ <~ e_run (print (Spurious epfd)); e_ret 3
  else e_ret 0.

(** The loop that makes the chain; the result is its last descriptor. *)
Fixpoint add_chain (size : nat) (bfd : Z) : E K Z :=
  match size with
  | O => e_ret bfd
  | S size =>
    nfd <~ xepoll_create 1;
    _ <~ xepoll_ctl_add bfd nfd EPOLLIN;
    add_chain size nfd
  end.

(** What the two tests of chains have in common: the chain with the pipe at its end.  The
    results are its first descriptor and the write end of the pipe. *)
Definition make_chain (size flags : Z) : E K (Z * Z) :=
  epfd <~ xepoll_create 1;
  bfd <~ add_chain (Z.to_nat size) epfd;
  pfds <~ xpipe;
  events <~ (if negb (Z.land flags EPOLL_TF_LOOP =? 0) then _ <~ xepoll_ctl_add bfd epfd EPOLLIN; e_ret EPOLLOUT
             else e_ret EPOLLIN);
  _ <~ xepoll_ctl_add bfd pfds.1 events;
  e_ret (epfd, pfds.2).

Definition chain_result (pid res : Z) : E K Z :=
  r <~ e_run (waitpid pid);
  if negb (r =? pid) then _ <~ e_run (print Perror); e_ret (-1) else e_ret res.

Definition epoll_wakeup_chain (size flags : Z) : E K Z :=
  c <~ make_chain size flags;
  pid <~ xfork;
  _ <~ e_run (spawn (Writes 1 c.2));
  r <~ e_run (check_events c.1 2000);
  chain_result pid (Z.land r POLLIN).

Definition epoll_poll_chain (size flags : Z) : E K Z :=
  c <~ make_chain size flags;
  pid <~ xfork;
  _ <~ e_run (spawn (Writes 0 c.2));
  _ <~ e_run (sleep 1);
  r <~ e_run (check_events c.1 1000);
  chain_result pid (Z.land r POLLIN).

(** One of the tests of main: its number, the test, and the result it should have. *)
Definition test (which : Z) (proc : E K Z) (good : Z) : E K unit :=
  error <~ run_forked_proc proc;
  e_run (print (Verdict which (if error =? good then None else Some error))).

Definition main : M K Z := e_main (
  _ <~ test 1 (epoll_test_tty 0) 0;
  _ <~ test 2 (epoll_test_tty2 0) 0;
  _ <~ test 3 (epoll_wakeup_chain 3 0) POLLIN;
  _ <~ test 4 (epoll_wakeup_chain EPOLL_MAX_CHAIN 0) 0;
  _ <~ test 5 (epoll_poll_chain 3 0) POLLIN;
  _ <~ test 6 (epoll_poll_chain EPOLL_MAX_CHAIN 0) 0;
  _ <~ test 7 (epoll_wakeup_chain 3 EPOLL_TF_LOOP) 0;
  _ <~ test 8 (epoll_poll_chain 3 EPOLL_TF_LOOP) 0;
  e_ret 0).
End program.

(** ** Kernels that follow chains to a depth *)
Inductive proc := NoChild | Running (due : Z) (c : child) | Zombie.

(** The descriptors of the process: the watches of its epoll descriptors, its pipes with
    the ends to read and to write, and the pipes with something to read.  [clock] counts
    microseconds. *)
Record kern := mk_kern {
  clock : Z; next : Z; watches : list (Z * (Z * Z)); pipes : list (Z * Z); full : list Z; beside : proc; out : list line
}.

Section nested.
(** The depth, and whether writing on the terminal ends a wait for it. *)
Context (depth : nat) (spurious : bool).

(** The events of the descriptor [fd]: standard input is a terminal where nothing was
    typed. *)
Definition is_epoll (k : kern) (fd : Z) : bool := existsb (fun x => x.1 =? fd) (watches k).
Fixpoint events_of (d : nat) (k : kern) (fd : Z) : Z :=
  if fd =? 0 then POLLOUT
  else if existsb (Z.eqb fd) (map fst (pipes k)) then (if existsb (Z.eqb fd) (full k) then POLLIN else 0)
  else match d with
       | O => 0
       | S d => if existsb (fun x => if x.1 =? fd then negb (Z.land (events_of d k x.2.1) x.2.2 =? 0) else false) (watches k) then POLLIN else 0
       end.
Definition revents (k : kern) (fd events : Z) : Z := Z.land (events_of depth k fd) events.

Definition set_clock (t : Z) (k : kern) : kern := mk_kern t (next k) (watches k) (pipes k) (full k) (beside k) (out k).

(** The process beside does what it does, and ends. *)
Definition finish (due : Z) (c : child) (k : kern) : kern :=
  match c with
  | Writes _ fd => mk_kern (Z.max (clock k) due) (next k) (watches k) (pipes k)
                     (full k ++ map fst (filter (fun p => p.2 = fd) (pipes k))) Zombie (out k)
  | Prints _ => mk_kern (Z.max (clock k) due) (next k) (watches k) (pipes k) (full k) Zombie (out k ++ [ChildStuff])
  end.

(** Time goes on until [t] and the process beside does what it does in it. *)
Definition run_until (t : Z) (k : kern) : kern :=
  match beside k with
  | Running due c => if due <=? t then set_clock t (finish due c k) else set_clock t k
  | _ => set_clock t k
  end.

(** Waiting for events at most [timeo] milliseconds: it ends at once, or when the process
    beside has brought them, or with the time.  [woken] says which processes end it
    whatever they did. *)
Definition wait_events (fd events timeo : Z) (woken : child -> bool) (k : kern) : Z * kern :=
  let e := revents k fd events in
  if negb (e =? 0) then (e, k) else
  let t := clock k + timeo * 1000 in
  match beside k with
  | Running due c =>
    if due <=? t then
      let k' := finish due c k in
      let e' := revents k' fd events in
      if negb (e' =? 0) || woken c then (e', k') else (0, set_clock t k')
    else (0, set_clock t k)
  | _ => (0, set_clock t k)
  end.

#[export] Instance nested : Kernel kern := {
  gettime := gets clock;
  epoll_create n := fun k => Ok (next k, mk_kern (clock k) (next k + 1) (watches k) (pipes k) (full k) (beside k) (out k));
  epoll_ctl_add epfd fd events := fun k =>
    Ok (0, mk_kern (clock k) (next k) (watches k ++ [(epfd, (fd, events))]) (pipes k) (full k) (beside k) (out k));
  epoll_wait epfd timeo := fun k =>
    let r := wait_events epfd EPOLLIN timeo (fun c => match c with Prints _ => spurious | _ => false end) k in
    Ok (if r.1 =? 0 then 0 else 1, r.2);
  pipe := fun k =>
    Ok (0, next k, next k + 1, mk_kern (clock k) (next k + 2) (watches k) (pipes k ++ [(next k, next k + 1)]) (full k) (beside k) (out k));
  poll fd events timeo := fun k =>
    let r := wait_events fd events timeo (fun _ => false) k in Ok (if r.1 =? 0 then 0 else 1, r.1, r.2);
  fork := mret 100;
  run_child m := fun k =>
    match m k with
    | Ok (code, k') => Ok (code, mk_kern (clock k') (next k) (watches k) (pipes k) (full k) (beside k) (out k'))
    | Fault => Fault
    | NoFuel => NoFuel
    end;
  spawn c := puts (fun k => mk_kern (clock k) (next k) (watches k) (pipes k) (full k)
                      (Running (clock k + match c with Writes s _ | Prints s => s * 1000000 end) c) (out k));
  sleep s := puts (fun k => run_until (clock k + s * 1000000) k);
  waitpid pid := fun k =>
    match beside k with
    | Running due c => let k' := finish due c k in
        Ok (pid, mk_kern (clock k') (next k) (watches k') (pipes k') (full k') NoChild (out k'))
    | _ => Ok (pid, mk_kern (clock k) (next k) (watches k) (pipes k) (full k) NoChild (out k))
    end;
  print l := puts (fun k => mk_kern (clock k) (next k) (watches k) (pipes k) (full k) (beside k) (out k ++ [l]))
}.
End nested.

(** The verdicts of a run. *)
Definition verdicts (l : list line) : list (Z * option Z) :=
  omap (fun x => match x with Verdict n c => Some (n, c) | _ => None end) l.

Definition kern0 : kern := mk_kern 0 3 [] [] [] NoChild [].
(** ** Proofs: chains *)
Definition chain (b : Z) (n : nat) : list (Z * (Z * Z)) := map (fun i => (b + i, (b + i + 1, EPOLLIN))) (seqZ 0 (Z.of_nat n)).

Lemma chain_S b n : chain b (S n) = (b, (b + 1, EPOLLIN)) :: chain (b + 1) n.
Proof.
  unfold chain. rewrite seqZ_cons by lia. cbn [map]. rewrite Z.add_0_r. f_equal.
  change (Z.succ 0) with (1 + 0). rewrite <- fmap_add_seqZ. replace (Z.pred (Z.of_nat (S n))) with (Z.of_nat n) by lia.
  rewrite map_map. apply map_ext. intros i. do 2 (f_equal; try lia).
Qed.

(** What a descriptor of the chain watches. *)
Lemma chain_watch b n g : forall i, 0 <= i -> existsb (fun x => if x.1 =? b + i then g x else false) (chain b n)
  = if i <? Z.of_nat n then g (b + i, (b + i + 1, EPOLLIN)) else false.
Proof.
  revert b. induction n as [|n IH]; intros b i Hi.
  { by destruct (Z.ltb_spec i (Z.of_nat 0)); [lia|]. }
  rewrite chain_S. cbn [existsb fst]. destruct (Z.eqb_spec b (b + i)) as [He|He].
  - assert (i = 0) as -> by lia. rewrite Z.add_0_r in *. rewrite (proj2 (Z.ltb_lt 0 _)) by lia.
    destruct (g _); [done|]. cbn [orb].
    assert (Hno : forall c m, b < c -> existsb (fun x => if x.1 =? b then g x else false) (chain c m) = false); [|by apply Hno; lia].
    clear. intros c m. revert c. induction m as [|m IH]; intros c Hc; [done|]. rewrite chain_S. cbn [existsb fst].
    rewrite (proj2 (Z.eqb_neq c b)) by lia. apply IH. lia.
  - cbn [orb]. replace (b + i) with (b + 1 + (i - 1)) by lia. rewrite IH by lia.
    destruct (Z.ltb_spec (i - 1) (Z.of_nat n)), (Z.ltb_spec i (Z.of_nat (S n))); try lia; done.
Qed.

Section proofs.
Context (depth : nat) (spurious : bool).
#[local] Instance kernel : Kernel kern := nested depth spurious.

(** The state of a process with the chain [b], [b + 1], ..., [b + n], where the pipe is
    watched at the end, and the first descriptor too if there is a loop; [has] says
    whether the pipe has something to read. *)
Definition chained (b : Z) (n : nat) (loop has : bool) (k : kern) : Prop :=
  let p := b + Z.of_nat n + 1 in
  0 < b /\ pipes k = [(p, p + 1)] /\ full k = (if has then [p] else []) /\
  watches k = (chain b n ++ if loop then [(b + Z.of_nat n, (b, EPOLLIN)); (b + Z.of_nat n, (p, EPOLLOUT))] else [(b + Z.of_nat n, (p, EPOLLIN))])%list.

Lemma chain_events b n loop has k : chained b n loop has k -> forall d i, 0 <= i <= Z.of_nat n ->
  events_of d k (b + i) = if negb loop && has && (Z.of_nat n - i <? Z.of_nat d) then POLLIN else 0.
Proof.
  intros (Hb & Hp & Hf & Hw). set (N := Z.of_nat n) in *.
  assert (Hpipe : forall d, events_of d k (b + N + 1) = if has then POLLIN else 0).
  { intros d. destruct d; cbn [events_of]; rewrite (proj2 (Z.eqb_neq (b + N + 1) 0)) by lia; rewrite Hp, Hf;
      cbn [map fst existsb]; rewrite Z.eqb_refl; destruct has; cbn [existsb orb]; by rewrite ?Z.eqb_refl. }
  induction d as [|d IH]; intros i Hi; cbn [events_of]; rewrite (proj2 (Z.eqb_neq (b + i) 0)) by lia;
    rewrite Hp; cbn [map fst existsb]; rewrite (proj2 (Z.eqb_neq (b + i) _)) by lia; cbn [orb].
  { rewrite (proj2 (Z.ltb_ge _ _)) by lia. by rewrite andb_false_r. }
  rewrite Hw, existsb_app, chain_watch by lia. cbn [snd fst]. fold N.
  destruct (Z.ltb_spec i N) as [HiN|HiN].
  - replace (b + i + 1) with (b + (i + 1)) by lia. rewrite IH by lia.
    assert (Hend : forall l, Forall (fun x : Z * (Z * Z) => x.1 = b + N) l ->
      existsb (fun x => if x.1 =? b + i then negb (Z.land (events_of d k x.2.1) x.2.2 =? 0) else false) l = false).
    { intros l. induction 1 as [|x l Hx _ IHl]; [done|]. cbn [existsb]. rewrite Hx, (proj2 (Z.eqb_neq (b + N) _)) by lia. done. }
    rewrite Hend by (destruct loop; repeat constructor). rewrite orb_false_r.
    replace (N - (i + 1) <? Z.of_nat d) with (N - i <? Z.of_nat (S d)) by (destruct (Z.ltb_spec (N - i) (Z.of_nat (S d))), (Z.ltb_spec (N - (i + 1)) (Z.of_nat d)); lia).
    by destruct (negb loop && has && _).
  - assert (i = N) as -> by lia. rewrite Z.sub_diag, (proj2 (Z.ltb_lt 0 _)) by lia. cbn [orb].
    destruct loop; cbn [existsb fst snd negb andb]; rewrite Z.eqb_refl, Hpipe.
    + rewrite <- (Z.add_0_r b) at 1. rewrite IH by lia. cbn [negb andb]. by destruct has.
    + by destruct has.
Qed.

Lemma add_chain_run n : forall b c w ps f x o, 0 < b ->
  add_chain n b (mk_kern c (b + 1) w ps f x o)
  = Ok (inr (b + Z.of_nat n), mk_kern c (b + 1 + Z.of_nat n) (w ++ chain b n) ps f x o).
Proof.
  induction n as [|n IH]; intros b c w ps f x o Hb.
  { cbn [add_chain]. rewrite !Z.add_0_r. unfold chain. cbn [seqZ map]. by rewrite app_nil_r. }
  cbn [add_chain]. erewrite run_e_bind; [|unfold xepoll_create; erewrite run_e_bind; [|done];
    cbn [next]; rewrite (proj2 (Z.eqb_neq (b + 1) (-1))) by lia; done].
  erewrite run_e_bind; [|done]. cbn [clock next watches pipes full beside out].
  rewrite IH by lia. rewrite chain_S, <- (assoc_L (++)). cbn [app]. replace (b + 1 + Z.of_nat n) with (b + Z.of_nat (S n)) by lia. by replace (b + 1 + 1 + Z.of_nat n) with (b + 1 + Z.of_nat (S n)) by lia.
Qed.

(** What a test starts from. *)
Definition fresh (c : Z) (o : list line) : kern := mk_kern c 3 [] [] [] NoChild o.

Definition chain_state (n : nat) (loop has : bool) (c : Z) (x : proc) (o : list line) : kern :=
  let p := 3 + Z.of_nat n + 1 in
  mk_kern c (p + 2) (chain 3 n ++ if loop then [(3 + Z.of_nat n, (3, EPOLLIN)); (3 + Z.of_nat n, (p, EPOLLOUT))] else [(3 + Z.of_nat n, (p, EPOLLIN))])
    [(p, p + 1)] (if has then [p] else []) x o.

Lemma make_chain_run n (loop : bool) c o :
  make_chain (Z.of_nat n) (if loop then EPOLL_TF_LOOP else 0) (fresh c o)
  = Ok (inr (3, 3 + Z.of_nat n + 1 + 1), chain_state n loop false c NoChild o).
Proof.
  unfold make_chain. erewrite run_e_bind; [|done]. unfold fresh. cbn [clock next watches pipes full beside out].
  erewrite run_e_bind; [|rewrite Nat2Z.id; by apply (add_chain_run n 3)].
  erewrite run_e_bind; [|done]. cbn [clock next watches pipes full beside out].
  destruct loop; cbn [Z.land]; (erewrite run_e_bind; [|done]); cbn [clock next watches pipes full beside out fst snd];
    (erewrite run_e_bind; [|done]); unfold chain_state; cbn [clock next watches pipes full beside out];
    replace (3 + 1 + Z.of_nat n) with (3 + Z.of_nat n + 1) by lia; rewrite <- ?(assoc_L (++)); done.
Qed.

(** Whether the chain is seen to be readable. *)
Definition seen (n : nat) (loop : bool) : bool := negb loop && (Z.of_nat n <? Z.of_nat depth).

Lemma chain_revents n loop has c x o :
  revents depth (chain_state n loop has c x o) 3 (Z.lor POLLIN POLLOUT) = if has && seen n loop then POLLIN else 0.
Proof.
  unfold revents. change (events_of depth ?k 3) with (events_of depth k (3 + 0)).
  erewrite chain_events; [|by repeat split|lia].
  rewrite Z.sub_0_r. unfold seen. destruct loop, has, (Z.of_nat n <? Z.of_nat depth); done.
Qed.

Lemma chain_finish n loop c secs due o :
  finish due (Writes secs (3 + Z.of_nat n + 1 + 1)) (chain_state n loop false c (Running due (Writes secs (3 + Z.of_nat n + 1 + 1))) o)
  = chain_state n loop true (Z.max c due) Zombie o.
Proof.
  unfold finish, chain_state. cbn [clock next watches pipes full beside out filter list_filter snd fst].
  rewrite decide_True by done. done.
Qed.

(** What [check_events] gives on the chain when the process beside writes to the pipe in
    time, or has done so. *)
Lemma chain_check n loop (has : bool) c due secs timeo o :
  (if has then True else due <= c + timeo * 1000) ->
  let x := if has then Zombie else Running due (Writes secs (3 + Z.of_nat n + 1 + 1)) in
  exists c', check_events 3 timeo (chain_state n loop has c x o)
  = Ok (if seen n loop then POLLIN else 0, chain_state n loop true c' Zombie (o ++ Checking 3 :: if seen n loop then [Event POLLIN] else [])%list).
Proof.
  intros Hdue x. unfold check_events.
  assert (Hw : exists c', wait_events depth 3 (Z.lor POLLIN POLLOUT) timeo (fun _ => false) (chain_state n loop has c x (o ++ [Checking 3]))
    = (if seen n loop then POLLIN else 0, chain_state n loop true c' Zombie (o ++ [Checking 3]))).
  { unfold wait_events. rewrite chain_revents. destruct has; cbn [andb].
    - destruct (seen n loop); cbn [negb]; [by eexists|]. cbn. by eexists.
    - cbn [negb]. unfold x. cbn [beside chain_state clock]. rewrite (proj2 (Z.leb_le _ _) Hdue), chain_finish, chain_revents.
      destruct (seen n loop); cbn [andb negb orb]; by eexists. }
  destruct Hw as [c' Hw]. exists c'.
  rewrite (run_bind _ _ _ tt (chain_state n loop has c x (o ++ [Checking 3]))) by done.
  erewrite run_bind; [|cbn [poll kernel nested]; rewrite Hw; done].
  destruct (seen n loop); [|reflexivity].
  change (Checking 3 :: [Event POLLIN]) with ([Checking 3] ++ [Event POLLIN])%list. rewrite (assoc_L (++)). reflexivity.
Qed.

Lemma epoll_wakeup_chain_run n (loop : bool) c o : exists k,
  epoll_wakeup_chain (Z.of_nat n) (if loop then EPOLL_TF_LOOP else 0) (fresh c o) = Ok (inr (if seen n loop then POLLIN else 0), k) /\
  out k = (o ++ Checking 3 :: if seen n loop then [Event POLLIN] else [])%list.
Proof.
  unfold epoll_wakeup_chain. erewrite run_e_bind; [|apply make_chain_run]. erewrite run_e_bind; [|done]. erewrite run_e_bind; [|done].
  cbn [fst snd]. change (mk_kern _ _ _ _ _ _ _) with (chain_state n loop false c (Running (c + 1 * 1000000) (Writes 1 (3 + Z.of_nat n + 1 + 1))) o).
  destruct (chain_check n loop false c (c + 1 * 1000000) 1 2000 o) as [c' Hc]; [lia|]. cbn zeta in Hc.
  erewrite run_e_bind; [|by apply run_e_run].
  unfold chain_result. erewrite run_e_bind; [|done]. cbn [negb Z.eqb Pos.eqb].
  destruct (seen n loop); eexists; split; done.
Qed.

Lemma epoll_poll_chain_run n (loop : bool) c o : exists k,
  epoll_poll_chain (Z.of_nat n) (if loop then EPOLL_TF_LOOP else 0) (fresh c o) = Ok (inr (if seen n loop then POLLIN else 0), k) /\
  out k = (o ++ Checking 3 :: if seen n loop then [Event POLLIN] else [])%list.
Proof.
  unfold epoll_poll_chain. erewrite run_e_bind; [|apply make_chain_run]. erewrite run_e_bind; [|done]. erewrite run_e_bind; [|done].
  cbn [fst snd]. change (mk_kern _ _ _ _ _ _ _) with (chain_state n loop false c (Running (c + 0 * 1000000) (Writes 0 (3 + Z.of_nat n + 1 + 1))) o).
  rewrite (run_e_bind _ _ _ tt (chain_state n loop true (c + 1 * 1000000) Zombie o)).
  2: { apply run_e_run. cbn [sleep kernel nested]. unfold puts, run_until. cbn [beside chain_state clock].
       rewrite (proj2 (Z.leb_le _ _)) by lia. by rewrite chain_finish. }
  destruct (chain_check n loop true (c + 1 * 1000000) 0 0 1000 o I) as [c' Hc]. cbn zeta in Hc.
  erewrite run_e_bind; [|by apply run_e_run].
  unfold chain_result. erewrite run_e_bind; [|done]. cbn [negb Z.eqb Pos.eqb].
  destruct (seen n loop); eexists; split; done.
Qed.

(** The result of one of the tests. *)
Lemma test_run which proc good c o v k : proc (fresh c o) = Ok (inr v, k) -> 0 <= v < 256 ->
  test which proc good (fresh c o) = Ok (inr tt, fresh (clock k) (out k ++ [Verdict which (if v =? good then None else Some v)])).
Proof.
  intros Hp Hv. unfold test, run_forked_proc.
  rewrite (run_e_bind _ _ _ v (fresh (clock k) (out k))); [done|].
  erewrite run_e_bind; [|done]. rewrite (run_e_bind _ _ _ v (fresh (clock k) (out k))).
  - erewrite run_e_bind; [|done]. cbn [negb Z.eqb Pos.eqb]. by rewrite (proj2 (Z.leb_le 0 v)) by lia.
  - apply run_e_run. cbn [run_child kernel nested]. unfold e_main. erewrite run_bind; [|by erewrite run_bind].
    cbn [mret M_ret]. unfold exit_status. change 255 with (2 ^ 8 - 1). rewrite land_low_mask, Z.mod_small by lia. done.
Qed.

(** The terminal, and an epoll descriptor that watches it. *)
Lemma stdin_revents k : revents depth k 0 (Z.lor POLLIN POLLOUT) = POLLOUT.
Proof. unfold revents. by destruct depth. Qed.

Lemma tty_revents c x o events : revents depth (mk_kern c 4 [(3, (0, EPOLLIN))] [] [] x o) 3 events = 0.
Proof. unfold revents. destruct depth as [|d]; [done|]. by destruct d. Qed.

Lemma verdicts_app o l : verdicts (o ++ l) = (verdicts o ++ verdicts l)%list.
Proof. apply omap_app. Qed.

Lemma epoll_test_tty_run c o : exists k, epoll_test_tty 0 (fresh c o) = Ok (inr 0, k) /\ verdicts (out k) = verdicts o.
Proof.
  unfold epoll_test_tty.
  rewrite (run_e_bind _ _ _ POLLOUT (fresh c ((o ++ [Checking 0]) ++ [Event POLLOUT]))).
  2: { apply run_e_run. unfold check_events. rewrite (run_bind _ _ _ tt (fresh c (o ++ [Checking 0]))) by done.
       erewrite run_bind; [|cbn [poll kernel nested]; unfold wait_events; rewrite stdin_revents; done]. done. }
  cbn [negb Z.eqb POLLOUT Pos.eqb].
  do 3 (erewrite run_e_bind; [|done]). unfold fresh. cbn [clock next watches pipes full beside out app].
  set (o' := (((o ++ _) ++ _) ++ _)%list).
  rewrite (run_e_bind _ _ _ 0 (mk_kern (c + 0 * 1000) 4 [(3, (0, EPOLLIN))] [] [] NoChild (o' ++ [Checking 3]))).
  2: { apply run_e_run. unfold check_events.
       rewrite (run_bind _ _ _ tt (mk_kern c 4 [(3, (0, EPOLLIN))] [] [] NoChild (o' ++ [Checking 3]))) by done.
       erewrite run_bind; [|cbn [poll kernel nested]; unfold wait_events; rewrite tty_revents; done]. done. }
  eexists. split; [done|]. cbn [out]. unfold o'. rewrite !verdicts_app. cbn. by rewrite !app_nil_r.
Qed.

Lemma epoll_test_tty2_run c o : exists k,
  epoll_test_tty2 0 (fresh c o) = Ok (inr (if spurious then 3 else 0), k) /\ verdicts (out k) = verdicts o.
Proof.
  unfold epoll_test_tty2. do 5 (erewrite run_e_bind; [|done]). unfold fresh. cbn [clock next watches pipes full beside out app].
  rewrite (run_e_bind _ _ _ (u64 c) (mk_kern c 4 [(3, (0, EPOLLIN))] [] [] (Running (c + 1 * 1000000) (Prints 1)) (o ++ [Created 3]))) by done.
  rewrite (run_e_bind _ _ _ 0 (mk_kern (c + if spurious then 1000000 else 2500000) 4 [(3, (0, EPOLLIN))] [] [] Zombie ((o ++ [Created 3]) ++ [ChildStuff]))).
  2: { apply run_e_run. cbn [epoll_wait kernel nested]. unfold wait_events. rewrite tty_revents. cbn [negb Z.eqb beside clock].
       rewrite (proj2 (Z.leb_le _ _)) by lia. unfold finish. cbn [clock next watches pipes full beside out]. rewrite tty_revents.
       rewrite Z.max_r by lia. by destruct spurious. }
  erewrite run_e_bind; [|done]. cbn [clock]. erewrite run_e_bind; [|done]. cbn [negb Z.eqb Pos.eqb].
  replace (u64 (u64 (c + if spurious then 1000000 else 2500000) - u64 c)) with (if spurious then 1000000 else 2500000).
  - destruct spurious; cbn [Z.ltb Z.compare Pos.compare Pos.compare_cont]; eexists; (split; [done|]); cbn [out];
      rewrite !verdicts_app; cbn; by rewrite !app_nil_r.
  - unfold u64. rewrite <- Zminus_mod. symmetry.
    by destruct spurious; [replace (c + 1000000 - c) with 1000000 by lia|replace (c + 2500000 - c) with 2500000 by lia].
Qed.

(** A chain test of main: its verdict, and what it leaves. *)
Lemma chain_test_run which (proc : Z -> Z -> E kern Z) n (loop : bool) good c o :
  (forall n (loop : bool) c o, exists k, proc (Z.of_nat n) (if loop then EPOLL_TF_LOOP else 0) (fresh c o) = Ok (inr (if seen n loop then POLLIN else 0), k) /\
    out k = (o ++ Checking 3 :: if seen n loop then [Event POLLIN] else [])%list) ->
  let v := if seen n loop then POLLIN else 0 in
  exists c' o', test which (proc (Z.of_nat n) (if loop then EPOLL_TF_LOOP else 0)) good (fresh c o) = Ok (inr tt, fresh c' o') /\
    verdicts o' = (verdicts o ++ [(which, if v =? good then None else Some v)])%list.
Proof.
  intros Hp v. destruct (Hp n loop c o) as (k & Hk & Ho). do 2 eexists. split.
  - eapply test_run; [exact Hk|by destruct (seen n loop)].
  - rewrite verdicts_app, Ho, verdicts_app. cbn. by destruct (seen n loop); rewrite app_nil_r.
Qed.

Lemma main_run : exists k, main kern0 = Ok (0, k) /\ verdicts (out k) =
  [(1, None); (2, if spurious then Some 3 else None);
   (3, if seen 3 false then None else Some 0); (4, if seen 100 false then Some POLLIN else None);
   (5, if seen 3 false then None else Some 0); (6, if seen 100 false then Some POLLIN else None); (7, None); (8, None)].
Proof.
  unfold main, e_main. change kern0 with (fresh 0 []).
  destruct (epoll_test_tty_run 0 []) as (k1 & H1 & V1). pose proof (test_run 1 _ 0 _ _ _ _ H1 ltac:(done)) as T1.
  destruct (epoll_test_tty2_run (clock k1) (out k1 ++ [Verdict 1 None])) as (k2 & H2 & V2).
  pose proof (test_run 2 _ 0 _ _ _ _ H2 ltac:(by destruct spurious)) as T2.
  destruct (chain_test_run 3 epoll_wakeup_chain 3 false POLLIN (clock k2) (out k2 ++ [Verdict 2 (if (if spurious then 3 else 0) =? 0 then None else Some (if spurious then 3 else 0))]) epoll_wakeup_chain_run) as (c3 & o3 & T3 & V3).
  destruct (chain_test_run 4 epoll_wakeup_chain 100 false 0 c3 o3 epoll_wakeup_chain_run) as (c4 & o4 & T4 & V4).
  destruct (chain_test_run 5 epoll_poll_chain 3 false POLLIN c4 o4 epoll_poll_chain_run) as (c5 & o5 & T5 & V5).
  destruct (chain_test_run 6 epoll_poll_chain 100 false 0 c5 o5 epoll_poll_chain_run) as (c6 & o6 & T6 & V6).
  destruct (chain_test_run 7 epoll_wakeup_chain 3 true 0 c6 o6 epoll_wakeup_chain_run) as (c7 & o7 & T7 & V7).
  destruct (chain_test_run 8 epoll_poll_chain 3 true 0 c7 o7 epoll_poll_chain_run) as (c8 & o8 & T8 & V8).
  exists (fresh c8 o8). split.
  - etransitivity; [apply (run_bind _ _ _ (inr 0) (fresh c8 o8))|reflexivity].
    rewrite (run_e_bind _ _ _ _ _ T1), (run_e_bind _ _ _ _ _ T2). cbn [Z.of_nat] in *.
    etransitivity; [exact (run_e_bind _ _ _ _ _ T3)|]. etransitivity; [exact (run_e_bind _ _ _ _ _ T4)|].
    etransitivity; [exact (run_e_bind _ _ _ _ _ T5)|]. etransitivity; [exact (run_e_bind _ _ _ _ _ T6)|].
    etransitivity; [exact (run_e_bind _ _ _ _ _ T7)|]. etransitivity; [exact (run_e_bind _ _ _ _ _ T8)|]. reflexivity.
  - cbn [out fresh]. rewrite V8, V7, V6, V5, V4, V3, verdicts_app, V2, verdicts_app, V1. cbn [verdicts omap list_omap app].
    destruct spurious, (seen 3 false), (seen 100 false); done.
Qed.
End proofs.

(** on kernels that follow chains of epoll descriptors to a given depth the program
    ends with 0 and its verdicts tell the kernels apart: the short chains are seen from
    depth 4 on, the long ones would be seen from depth 101 on, loops are never taken for
    events, and the second test fails just when writing on the terminal ends a wait. *)
Theorem epoll_test_verdicts depth spurious : exists k, main (Kernel0 := nested depth spurious) kern0 = Ok (0, k) /\ verdicts (out k) =
  [(1, None); (2, if spurious then Some 3 else None);
   (3, if (4 <=? depth)%nat then None else Some 0); (4, if (101 <=? depth)%nat then Some POLLIN else None);
   (5, if (4 <=? depth)%nat then None else Some 0); (6, if (101 <=? depth)%nat then Some POLLIN else None); (7, None); (8, None)].
Proof.
  destruct (main_run depth spurious) as (k & Hk & Hv). exists k. split; [exact Hk|]. rewrite Hv. unfold seen. cbn [negb andb].
  assert (E : forall n, (Z.of_nat n <? Z.of_nat depth) = (S n <=? depth)%nat) by (intros n; apply Bool.eq_iff_eq_true; rewrite Z.ltb_lt, Nat.leb_le; lia).
  by rewrite !E.
Qed.
