(* ===== verification/TotalMess.v ===== *)
(** * totalmess.c: threads that pass tokens between pipes at random

    The set-up of main is written as the calls it makes (see [Trace]).  The threads are
    a step relation: each takes the ready pipes that one epoll descriptor reports, takes
    each of them out of the epoll set and puts it back, reads a byte, and writes one to
    a pipe chosen at random.  Threads start when main, which holds the mutex, has
    written the first bytes; reads do not block, writes do when the pipe is full. *)
From Stdlib Require Import ZArith Lia Bool.
From stdpp Require Import base tactics list.
From S2P Require Import Prelude Exits Steps Libc Trace.

(** ** main *)

(** The calls; [Pipe i] fills [pipes[2 * i]] and [pipes[2 * i + 1]], and the other calls
    name a descriptor by its place in [pipes].  [Create] gives a negative number for an
    error. *)
Inductive call :=
| Setrlimit (n : Z) | Calloc (n size : Z) | Signal | Epoll_create (n : Z) | Pipe (i : Z) | Set_nonblock (cell : Z)
| Ctl_add (cell idx : Z) (et : bool) | Lock | Unlock | Create (i : Z) | Write (cell : Z) | Stopped | Sleep | Join (i : Z).

Record options := mk_options { num_pipes : Z; num_active : Z; num_threads : Z; num_evts : Z; epet : bool }.
Definition options0 : options := mk_options 100 1 2 (-1) false.

(** The results of getopt. *)
Fixpoint main_options (opts : list (Z * list Z)) (o : options) : option options :=
  match opts with
  | [] => Some o
  | (c, optarg) :: opts =>
    if c =? 110 then main_options opts (mk_options (atoi optarg) (num_active o) (num_threads o) (num_evts o) (epet o))
    else if c =? 97 then main_options opts (mk_options (num_pipes o) (atoi optarg) (num_threads o) (num_evts o) (epet o))
    else if c =? 116 then main_options opts (mk_options (num_pipes o) (num_active o) (atoi optarg) (num_evts o) (epet o))
    else if c =? 118 then main_options opts (mk_options (num_pipes o) (num_active o) (num_threads o) (atoi optarg) (epet o))
    else if c =? 101 then main_options opts (mk_options (num_pipes o) (num_active o) (num_threads o) (num_evts o) true)
    else None
  end.

(** The default of [num_evts]. *)
Definition max_events (o : options) : Z := if num_evts o <? 0 then Z.quot (num_pipes o) 5 + 1 else num_evts o.

Section program.
Context {K : Type} `{!Os call K}.

(** An access to [pipes[j]]. *)
Definition cell (o : options) (j : Z) : E K Z :=
  if (0 <=? j) && (j <? num_pipes o * 2) then e_ret j else e_run fault.

Definition open_pipes (o : options) : E K unit :=
  e_for_each (seqZ 0 (num_pipes o)) (fun i =>
    r <~ sys (Pipe i);
    if r =? -1 then e_exit 3 else
    c <~ cell o (2 * i);
    _ <~ sys (Set_nonblock c);
    e_ret tt).

Definition add_pipes (o : options) : E K unit :=
  e_for_each (seqZ 0 (num_pipes o)) (fun i =>
    c <~ cell o (2 * i);
    r <~ sys (Ctl_add c i (epet o));
    if r <? 0 then e_exit 4 else e_ret tt).

Definition start_threads (o : options) : E K unit :=
  e_for_each (seqZ 0 (num_threads o)) (fun i =>
    r <~ sys (Create i);
    if r <? 0 then e_exit 5 else e_ret tt).

Definition activate (o : options) : E K unit :=
  e_for_each (seqZ 0 (num_active o)) (fun i =>
    c <~ cell o (2 * i + 1);
    _ <~ sys (Write c);
    e_ret tt).

Fixpoint wait_stop (fuel : nat) : E K unit :=
  match fuel with
  | O => nofuel
  | S fuel =>
    stop <~ sys Stopped;
    if negb (stop =? 0) then e_ret tt else
    _ <~ sys Sleep;
    wait_stop fuel
  end.

Definition main (fuel : nat) (opts : list (Z * list Z)) : E K Z :=
  match main_options opts options0 with
  | None => e_ret 1
  | Some o =>
    r <~ sys (Setrlimit (u64 (s32 (num_pipes o * 2 + 50))));
    if r =? -1 then e_ret 1 else
    p <~ sys (Calloc (u64 (num_pipes o * 2)) 4);
    t <~ sys (Calloc (u64 (num_threads o)) 8);
    if (p =? 0) || (t =? 0) then e_ret 1 else
    _ <~ sys Signal;
    epfd <~ sys (Epoll_create (num_pipes o));
    if epfd =? -1 then e_ret 2 else
    _ <~ open_pipes o;
    _ <~ add_pipes o;
    _ <~ sys Lock;
    _ <~ start_threads o;
    _ <~ activate o;
    _ <~ sys Unlock;
    _ <~ wait_stop fuel;
    _ <~ e_for_each (seqZ 0 (num_threads o)) (fun i => _ <~ sys (Join i); e_ret tt);
    e_ret 0
  end.
End program.

(** ** The threads *)

(** Where a thread is in [thproc]: at the test of its loop; at one of the calls for the
    event [idx], with [widx] chosen, and the other events of the same wait behind it;
    or at its end. *)
Inductive point := Del | Add | Read | Wr.
Inductive thread := Top | At (p : point) (idx widx : nat) (rest : list nat) | Between (rest : list nat) | Ended.

(** The bytes in each pipe, whether epoll watches it, and the threads. *)
Record state := mk_state { tokens : list Z; watched : list bool; threads : list thread; stop : bool }.

Definition set_thread (t : nat) (x : thread) (s : state) : state := mk_state (tokens s) (watched s) (<[t := x]> (threads s)) (stop s).
Definition set_watched (i : nat) (b : bool) (s : state) : state := mk_state (tokens s) (<[i := b]> (watched s)) (threads s) (stop s).
Definition set_tokens (i : nat) (n : Z) (s : state) : state := mk_state (<[i := n]> (tokens s)) (watched s) (threads s) (stop s).

Section threads.
Context (n : nat) (cap : Z) (max : Z).

(** What one [epoll_wait] may report: ready pipes of the epoll set, none twice. *)
Definition may_report (s : state) (l : list nat) : Prop :=
  NoDup l /\ Z.of_nat (length l) <= Z.max max 0 /\ Forall (fun i => watched s !! i = Some true /\ exists x, tokens s !! i = Some x /\ 0 < x) l.

Inductive step : state -> state -> Prop :=
| step_sig_int s : step s (mk_state (tokens s) (watched s) (threads s) true)
| step_end t s : threads s !! t = Some Top -> stop s = true -> step s (set_thread t Ended s)
| step_wait t l s : threads s !! t = Some Top -> stop s = false -> may_report s l -> step s (set_thread t (Between l) s)
| step_next t idx widx rest s : threads s !! t = Some (Between (idx :: rest)) -> (widx < n)%nat -> step s (set_thread t (At Del idx widx rest) s)
| step_done t s : threads s !! t = Some (Between []) -> step s (set_thread t Top s)
| step_del t idx widx rest s : threads s !! t = Some (At Del idx widx rest) ->
    step s (set_thread t (At Add idx widx rest) (set_watched idx false s))
| step_add t idx widx rest s : threads s !! t = Some (At Add idx widx rest) ->
    step s (set_thread t (At Read idx widx rest) (set_watched idx true s))
| step_read t idx widx rest s x : threads s !! t = Some (At Read idx widx rest) -> tokens s !! idx = Some x ->
    step s (set_thread t (At Wr idx widx rest) (if 0 <? x then set_tokens idx (x - 1) s else s))
| step_write t idx widx rest s x : threads s !! t = Some (At Wr idx widx rest) -> tokens s !! widx = Some x -> x < cap ->
    step s (set_thread t (Between rest) (set_tokens widx (x + 1) s)).

(** What main has made when it lets the threads go. *)
Definition start (active nthreads : nat) : state :=
  mk_state (replicate active 1 ++ replicate (n - active) 0) (replicate n true) (replicate nthreads Top) false.
End threads.

(** ** Proofs: the threads *)
(** The bytes that threads have read, or should have read, and not yet written. *)
Definition carries (x : thread) : Z := match x with At Wr _ _ _ => 1 | _ => 0 end.
Definition carried (l : list thread) : Z := zsum (map carries l).

Lemma carried_insert l t x y : l !! t = Some y -> carried (<[t := x]> l) = carried l - carries y + carries x.
Proof.
  intros Ht. unfold carried. change (map carries (<[t := x]> l)) with (carries <$> <[t := x]> l). rewrite list_fmap_insert.
  rewrite (zsum_insert _ t _ (carries y)); [done|]. by rewrite list_lookup_fmap, Ht.
Qed.

(** The pipes of a thread are pipes there are. *)
Definition places_ok (n : nat) (x : thread) : Prop :=
  match x with
  | At _ idx widx rest => (idx < n)%nat /\ (widx < n)%nat /\ Forall (fun i => (i < n)%nat) rest
  | Between rest => Forall (fun i => (i < n)%nat) rest
  | _ => True
  end.

Definition puts_back (i : nat) (x : thread) : Prop := match x with At Add idx _ _ => idx = i | _ => False end.

Record inv (n : nat) (cap active : Z) (s : state) : Prop := {
  inv_tokens : length (tokens s) = n;
  inv_watched : length (watched s) = n;
  inv_room : Forall (fun x => 0 <= x <= cap) (tokens s);
  inv_places : Forall (places_ok n) (threads s);
  inv_epoll : forall i, (i < n)%nat -> watched s !! i = Some true \/ exists t x, threads s !! t = Some x /\ puts_back i x;
  inv_sum : active <= zsum (tokens s) + carried (threads s)
}.

Lemma inv_set_thread n cap active t x y s : inv n cap active s -> threads s !! t = Some y -> places_ok n x ->
  (forall i, ~ puts_back i y) -> carries y <= carries x -> inv n cap active (set_thread t x s).
Proof.
  intros [H1 H2 H3 H4 H5 H6] Ht Hx Hy Hc. split; cbn [set_thread tokens watched threads]; try done.
  - by apply Forall_insert.
  - intros i Hi. destruct (H5 i Hi) as [|(t' & z & Ht' & Hz)]; [by left|right]. exists t', z. split; [|done].
    rewrite list_lookup_insert_ne; [done|]. intros ->. rewrite Ht in Ht'. injection Ht' as ->. by apply (Hy i).
  - rewrite (carried_insert _ _ _ y) by done. lia.
Qed.

Ltac keep := eapply inv_set_thread; [eassumption|eassumption|cbn|by intros ? []|cbn; lia].

Lemma mess_inv_step n cap max active s s' : inv n cap active s -> step n cap max s s' -> inv n cap active s'.
Proof.
  intros Hi Hs. assert (Hp : forall t x, threads s !! t = Some x -> places_ok n x) by (intros t x; apply Forall_lookup_1, Hi).
  destruct Hs as [s|t s Ht|t l s Ht _ (_ & _ & Hl)|t idx widx rest s Ht Hw|t s Ht|t idx widx rest s Ht|t idx widx rest s Ht|t idx widx rest s x Ht Hx|t idx widx rest s x Ht Hx Hc].
  - destruct Hi. by split.
  - by keep.
  - keep. eapply Forall_impl; [exact Hl|]. intros i [Hw _].
    apply lookup_lt_Some in Hw. by rewrite (inv_watched _ _ _ _ Hi) in Hw.
  - specialize (Hp _ _ Ht). apply Forall_cons in Hp as [? ?]. by keep.
  - by keep.
  - destruct (Hp _ _ Ht) as (Hn & Hw & Hr). destruct Hi as [H1 H2 H3 H4 H5 H6]. split; cbn [set_thread set_watched set_tokens tokens watched threads stop]; try done.
    + by rewrite length_insert.
    + apply Forall_insert; [done|by repeat split].
    + intros i Hi. destruct (decide (i = idx)) as [->|Hne].
      * right. exists t, (At Add idx widx rest). split; [|done]. rewrite list_lookup_insert_eq; [done|]. by eapply lookup_lt_Some.
      * rewrite list_lookup_insert_ne by done. destruct (H5 i Hi) as [|(t' & z & Ht' & Hz)]; [by left|right].
        exists t', z. split; [|done]. rewrite list_lookup_insert_ne; [done|]. intros ->. rewrite Ht in Ht'. by injection Ht' as <-.
    + rewrite (carried_insert _ _ _ (At Del idx widx rest)) by done. cbn [carries]. lia.
  - destruct (Hp _ _ Ht) as (Hn & Hw & Hr). destruct Hi as [H1 H2 H3 H4 H5 H6]. split; cbn [set_thread set_watched set_tokens tokens watched threads stop]; try done.
    + by rewrite length_insert.
    + apply Forall_insert; [done|by repeat split].
    + intros i Hi. destruct (decide (i = idx)) as [->|Hne].
      * left. apply list_lookup_insert_eq. by rewrite H2.
      * rewrite list_lookup_insert_ne by done. destruct (H5 i Hi) as [|(t' & z & Ht' & Hz)]; [by left|right].
        exists t', z. split; [|done]. rewrite list_lookup_insert_ne; [done|]. intros ->. rewrite Ht in Ht'. injection Ht' as <-. done.
    + rewrite (carried_insert _ _ _ (At Add idx widx rest)) by done. cbn [carries]. lia.
  - assert (Hi' : inv n cap active (set_thread t (At Wr idx widx rest) s)) by (eapply inv_set_thread; [done|done|by apply (Hp _ _ Ht)|by intros i []|done]).
    destruct (Z.ltb_spec 0 x) as [H0|H0]; [|exact Hi'].
    destruct Hi as [H1 H2 H3 H4 H5 H6], Hi' as [G1 G2 G3 G4 G5 G6]. split; cbn [set_thread set_watched set_tokens tokens watched threads stop]; try done.
    + by rewrite length_insert.
    + apply Forall_insert; [done|]. destruct (Forall_lookup_1 _ _ _ _ H3 Hx). lia.
    + rewrite (carried_insert _ _ _ (At Read idx widx rest)) by done. rewrite (zsum_insert _ _ _ x) by done. cbn [carries]. lia.
  - destruct (Hp _ _ Ht) as (Hn & Hw & Hr). destruct Hi as [H1 H2 H3 H4 H5 H6]. split; cbn [set_thread set_watched set_tokens tokens watched threads stop]; try done.
    + by rewrite length_insert.
    + apply Forall_insert; [done|]. destruct (Forall_lookup_1 _ _ _ _ H3 Hx). lia.
    + apply Forall_insert; [done|by repeat split].
    + intros i Hi. destruct (H5 i Hi) as [|(t' & z & Ht' & Hz)]; [by left|right].
      exists t', z. split; [|done]. rewrite list_lookup_insert_ne; [done|]. intros ->. rewrite Ht in Ht'. by injection Ht' as <-.
    + rewrite (carried_insert _ _ _ (At Wr idx widx rest)) by done. rewrite (zsum_insert _ _ _ x) by done. cbn [carries]. lia.
Qed.

Lemma mess_inv_start n cap active nthreads : (active <= n)%nat -> 1 <= cap -> inv n cap (Z.of_nat active) (start n active nthreads).
Proof.
  intros Ha Hc. split; cbn [start tokens watched threads].
  - rewrite length_app, !length_replicate. lia.
  - by rewrite length_replicate.
  - apply Forall_app. split; apply Forall_replicate; lia.
  - by apply Forall_replicate.
  - intros i Hi. left. by apply lookup_replicate_2.
  - rewrite zsum_app, !zsum_replicate. assert (H : carried (replicate nthreads Top) = 0).
    { unfold carried. change (map carries (replicate nthreads Top)) with (carries <$> replicate nthreads Top).
      rewrite fmap_replicate, zsum_replicate. cbn. lia. }
    rewrite H. lia.
Qed.

(** C24: however the threads of totalmess are interleaved and whatever epoll reports, no
    byte is lost: the pipes and the threads that carry one always hold as many as main
    had put in, within the capacity of the pipes; a pipe that epoll does not watch is one
    that a thread is about to put back; and threads only touch pipes there are. *)
Theorem mess_invariant n cap max active nthreads s : (active <= n)%nat -> 1 <= cap ->
  reach (step n cap max) (start n active nthreads) s ->
  Z.of_nat active <= zsum (tokens s) + carried (threads s) /\
  Forall (fun x => 0 <= x <= cap) (tokens s) /\ length (tokens s) = n /\
  (forall i, (i < n)%nat -> watched s !! i = Some true \/ exists t x, threads s !! t = Some x /\ puts_back i x) /\
  Forall (places_ok n) (threads s).
Proof.
  intros Ha Hc Hr. assert (Hi : inv n cap (Z.of_nat active) s).
  { eapply (reach_invariant (step n cap max) (inv n cap (Z.of_nat active))); [|intros s1 s2; apply mess_inv_step|exact Hr].
    by apply mess_inv_start. }
  destruct Hi. by split.
Qed.

(** Two threads are told of the same byte: one of them reads it, and both write one. *)
Lemma tokens_grow : exists s, reach (step 2 65536 1) (start 2 1 2) s /\ zsum (tokens s) = 2.
Proof.
  assert (Hready : forall l, may_report 1 (mk_state [1; 0] [true; true] l false) [0%nat]).
  { intros l. split; [apply NoDup_singleton|]. split; [done|]. apply Forall_singleton. split; [done|by exists 1]. }
  eexists. split.
  - eapply reach_first; [by apply (step_wait _ _ _ 0 [0%nat]); [| |apply Hready]|].
    eapply reach_first; [by apply (step_wait _ _ _ 1 [0%nat]); [| |apply Hready]|].
    eapply reach_first; [apply (step_next _ _ _ 0 0 0 []); [done|lia]|].
    eapply reach_first; [apply (step_next _ _ _ 1 0 0 []); [done|lia]|].
    eapply reach_first; [by apply (step_del _ _ _ 0 0 0 [])|].
    eapply reach_first; [by apply (step_del _ _ _ 1 0 0 [])|].
    eapply reach_first; [by apply (step_add _ _ _ 0 0 0 [])|].
    eapply reach_first; [by apply (step_add _ _ _ 1 0 0 [])|].
    eapply reach_first; [by apply (step_read _ _ _ 0 0 0 [] _ 1)|].
    eapply reach_first; [by apply (step_read _ _ _ 1 0 0 [] _ 0)|].
    eapply reach_first; [by apply (step_write _ _ _ 0 0 0 [] _ 0)|].
    eapply reach_first; [by apply (step_write _ _ _ 1 0 0 [] _ 1)|]. apply reach_start.
  - done.
Qed.

Lemma mess_invariant_witness :
  let s := set_thread 0 (Between [0%nat]) (start 2 1 2) in
  1 <= zsum (tokens s) + carried (threads s) /\
  Forall (fun x => 0 <= x <= 65536) (tokens s) /\ length (tokens s) = 2%nat /\
  (forall i, (i < 2)%nat -> watched s !! i = Some true \/ exists t x, threads s !! t = Some x /\ puts_back i x) /\
  Forall (places_ok 2) (threads s).
Proof.
  apply (mess_invariant 2 65536 1 1 2); [lia|lia|]. eapply reach_step; [apply reach_start|].
  apply (step_wait _ _ _ 0 [0%nat]); [done|done|]. split; [apply NoDup_singleton|]. split; [done|]. apply Forall_singleton. split; [done|by exists 1].
Defined.

(** ** Proofs: the end of the threads *)
#[export] Instance point_eq_dec : EqDecision point.
Proof. solve_decision. Defined.
#[export] Instance thread_eq_dec : EqDecision thread.
Proof. solve_decision. Defined.

Section ending.
Context (n : nat) (cap max active : Z).

(** A step that is not just another SIGINT. *)
Definition moves (s s' : state) : Prop := step n cap max s s' /\ s' <> s.

(** The bytes a thread may still write before it looks at [stop], and its steps to the end. *)
Definition writes (x : thread) : Z := match x with At _ _ _ rest => 1 + Z.of_nat (length rest) | Between l => Z.of_nat (length l) | _ => 0 end.
Definition steps_left (x : thread) : Z :=
  match x with
  | Ended => 0
  | Top => 1
  | Between l => 2 + 5 * Z.of_nat (length l)
  | At p _ _ rest => 5 * Z.of_nat (length rest) + match p with Del => 6 | Add => 5 | Read => 4 | Wr => 3 end
  end.
Definition total (f : thread -> Z) (l : list thread) : Z := zsum (map f l).

Lemma total_insert f l t x y : l !! t = Some y -> total f (<[t := x]> l) = total f l - f y + f x.
Proof.
  intros Ht. unfold total. change (map f (<[t := x]> l)) with (f <$> <[t := x]> l). rewrite list_fmap_insert.
  rewrite (zsum_insert _ t _ (f y)); [done|]. by rewrite list_lookup_fmap, Ht.
Qed.

Lemma total_nonneg f l : (forall x, 0 <= f x) -> 0 <= total f l.
Proof. intros Hf. apply zsum_nonneg, Forall_map, Forall_forall. auto. Qed.

Lemma total_ge f l t x : (forall x, 0 <= f x) -> l !! t = Some x -> f x <= total f l.
Proof.
  intros Hf Ht. apply (zsum_lookup_le _ t); [apply Forall_map, Forall_forall; auto|].
  change (map f l) with (f <$> l). by rewrite list_lookup_fmap, Ht.
Qed.

(** SIGINT has come, and no pipe can fill up any more. *)
Record closing (s : state) : Prop := {
  closing_inv : inv n cap active s;
  closing_stop : stop s = true;
  closing_room : zsum (tokens s) + total writes (threads s) <= cap
}.

Lemma closing_step s s' : closing s -> moves s s' -> closing s' /\ total steps_left (threads s') < total steps_left (threads s).
Proof.
  intros [Hi Hs Hc] [Hst Hne]. pose proof (mess_inv_step n cap max active s s' Hi Hst) as Hi'.
  destruct Hst as [s|t s Ht|t l s Ht Hno _|t idx widx rest s Ht Hw|t s Ht|t idx widx rest s Ht|t idx widx rest s Ht|t idx widx rest s x Ht Hx|t idx widx rest s x Ht Hx Hcap].
  - destruct Hne. destruct s. cbn in *. by rewrite Hs.
  - split; [split; [done|done|]|]; cbn [set_thread tokens threads]; rewrite (total_insert _ _ _ _ _ Ht); cbn [writes steps_left]; lia.
  - congruence.
  - split; [split; [done|done|]|]; cbn [set_thread tokens threads]; rewrite (total_insert _ _ _ _ _ Ht); cbn [writes steps_left length]; lia.
  - split; [split; [done|done|]|]; cbn [set_thread tokens threads]; rewrite (total_insert _ _ _ _ _ Ht); cbn [writes steps_left length]; lia.
  - split; [split; [done|done|]|]; cbn [set_thread set_watched tokens threads]; rewrite (total_insert _ _ _ _ _ Ht); cbn [writes steps_left]; lia.
  - split; [split; [done|done|]|]; cbn [set_thread set_watched tokens threads]; rewrite (total_insert _ _ _ _ _ Ht); cbn [writes steps_left]; lia.
  - destruct (0 <? x); (split; [split; [done|done|]|]); cbn [set_thread set_tokens tokens threads];
      rewrite (total_insert _ _ _ _ _ Ht), ?(zsum_insert _ _ _ _ Hx); cbn [writes steps_left]; lia.
  - split; [split; [done|done|]|]; cbn [set_thread set_tokens tokens threads];
      rewrite (total_insert _ _ _ _ _ Ht), ?(zsum_insert _ _ _ _ Hx); cbn [writes steps_left]; lia.
Qed.

Lemma writes_nonneg x : 0 <= writes x.
Proof. destruct x; cbn; lia. Qed.
Lemma steps_left_nonneg x : 0 <= steps_left x.
Proof. destruct x as [|[] ? ? ?| |]; cbn; lia. Qed.

(** A thread that has not ended can go on. *)
Lemma closing_progress s : closing s -> Forall (fun x => x = Ended) (threads s) \/ exists s', moves s s'.
Proof.
  intros [Hi Hs Hc]. destruct (decide (Forall (fun x => x = Ended) (threads s))) as [|Hn]; [by left|right].
  apply not_Forall_Exists, Exists_exists in Hn as (x & [t Ht]%list_elem_of_lookup & Hx); [|apply _].
  assert (Hp : places_ok n x) by (eapply Forall_lookup_1; [apply (inv_places _ _ _ _ Hi)|exact Ht]).
  assert (exists s', step n cap max s s' /\ threads s' !! t <> Some x) as (s' & Hst & Hne).
  { assert (Htl : (t < length (threads s))%nat) by (by eapply lookup_lt_Some).
    destruct x as [|[] idx widx rest|[|idx rest]|]; [| | | | | | |by destruct Hx].
    - eexists. split; [by apply (step_end _ _ _ t)|]. cbn [set_thread threads]. by rewrite list_lookup_insert_eq.
    - eexists. split; [by eapply (step_del _ _ _ t)|]. cbn [set_thread set_watched threads]. by rewrite list_lookup_insert_eq.
    - eexists. split; [by eapply (step_add _ _ _ t)|]. cbn [set_thread set_watched threads]. by rewrite list_lookup_insert_eq.
    - destruct Hp as (Hidx & _). rewrite <-(inv_tokens _ _ _ _ Hi) in Hidx. apply lookup_lt_is_Some_2 in Hidx as [y Hy].
      eexists. split; [by eapply (step_read _ _ _ t)|]. cbn [set_thread threads]. by rewrite list_lookup_insert_eq by (destruct (0 <? y); done).
    - destruct Hp as (_ & Hw & _). rewrite <-(inv_tokens _ _ _ _ Hi) in Hw. apply lookup_lt_is_Some_2 in Hw as [y Hy].
      eexists. split; [eapply (step_write _ _ _ t); [done|done|]|].
      + pose proof (total_ge writes _ _ _ writes_nonneg Ht) as Hge. cbn [writes] in Hge.
        pose proof (zsum_lookup_le _ _ _ (Forall_impl _ _ _ (inv_room _ _ _ _ Hi) (fun z Hz => proj1 Hz)) Hy). lia.
      + cbn [set_thread set_tokens threads]. by rewrite list_lookup_insert_eq.
    - eexists. split; [by apply (step_done _ _ _ t)|]. cbn [set_thread threads]. by rewrite list_lookup_insert_eq.
    - apply Forall_cons in Hp as [Hidx _]. eexists. split; [by apply (step_next _ _ _ t idx idx rest)|].
      cbn [set_thread threads]. by rewrite list_lookup_insert_eq. }
  exists s'. split; [done|]. by intros ->.
Qed.
End ending.

(** Once SIGINT has come all threads of totalmess end, whatever the interleaving, if the
    bytes in the pipes and those still to be written fit in a pipe; a pipe that is full could
    keep a thread in its write for ever. *)
Theorem mess_threads_end n cap max active nthreads s : (active <= n)%nat -> 1 <= cap ->
  reach (step n cap max) (start n active nthreads) s -> stop s = true ->
  zsum (tokens s) + total writes (threads s) <= cap ->
  inevitable (moves n cap max) (fun s' => Forall (fun x => x = Ended) (threads s')) s.
Proof.
  intros Ha Hc Hr Hs Hroom.
  apply (inevitable_measure _ (closing n cap (Z.of_nat active)) (fun s => Z.to_nat (total steps_left (threads s)))).
  - intros x x' Hx Hst. destruct (closing_step n cap max _ x x' Hx Hst) as [Hx' Hlt]. split; [done|].
    pose proof (total_nonneg steps_left (threads x') steps_left_nonneg). lia.
  - intros x. apply closing_progress.
  - split; [|done|done]. eapply (reach_invariant (step n cap max) (inv n cap (Z.of_nat active))); [|intros s1 s2; apply mess_inv_step|exact Hr].
    by apply mess_inv_start.
Qed.

(** ** Proofs: main *)
Section main.
Context (answers : trace call -> call -> Z).
#[local] Instance the_kernel : Os call (trace call) := tracing answers.

Lemma returns_cell (t : trace call) o j : 0 <= j < num_pipes o * 2 -> returns t (cell o j).
Proof.
  intros Hj. unfold cell. rewrite (proj2 (Z.leb_le 0 j)), (proj2 (Z.ltb_lt j _)) by lia. by apply adds_ret.
Qed.

(** From the [k]-th look at [stop] on it is set. *)
Definition looks (t : trace call) : nat := length (omap (fun e => match e.1 with Stopped => Some tt | _ => None end) t).
Definition stops (k : nat) : Prop := forall t, (k <= looks t)%nat -> answers t Stopped <> 0.

Lemma wait_stop_returns k fuel : stops k -> forall t : trace call, (k - looks t < fuel)%nat -> returns t (wait_stop fuel).
Proof.
  intros Hk. induction fuel as [|fuel IH]; intros t Hf; [lia|]. cbn [wait_stop]. apply adds_call.
  destruct (Z.eqb_spec (answers t Stopped) 0) as [E|E]; cbn [negb]; [|by apply adds_ret].
  apply adds_sys. intros r. apply IH. unfold looks in *. rewrite !omap_app, !length_app. cbn.
  destruct (decide (k <= looks t)%nat) as [Hd|Hd]; [by destruct (Hk t Hd)|]. unfold looks in Hd. lia.
Qed.

(** main of totalmess returns when it is stopped, and stays in its arrays, unless it is
    to put bytes in more pipes than there are. *)
Lemma mess_main_returns fuel k opts o : stops k -> (k < fuel)%nat ->
  main_options opts options0 = Some o -> num_active o <= num_pipes o -> forall t : trace call, returns t (main fuel opts).
Proof.
  intros Hk Hf Ho Hn t. unfold main. rewrite Ho.
  apply adds_sys; intros r. destruct (r =? -1); [by apply adds_ret|]. do 2 (apply adds_sys; intros ?).
  destruct (_ || _); [by apply adds_ret|]. apply adds_sys; intros ?. apply adds_sys; intros epfd. destruct (epfd =? -1); [by apply adds_ret|].
  eapply adds_mono; [|done].
  apply returns_bind.
  { apply returns_for_each. intros i t1 Hi%elem_of_seqZ. apply adds_sys; intros p. destruct (p =? -1); [by apply adds_exit|].
    eapply adds_mono; [|done]. apply returns_bind; [apply returns_cell; lia|]. intros c ?. apply adds_sys; intros ?. by apply adds_ret. }
  intros _ ?. apply returns_bind.
  { apply returns_for_each. intros i t1 Hi%elem_of_seqZ. apply returns_bind; [apply returns_cell; lia|]. intros c ?.
    apply adds_sys; intros q. destruct (q <? 0); [by apply adds_exit|by apply adds_ret]. }
  intros _ ?. apply adds_sys; intros ?. eapply adds_mono; [|done]. apply returns_bind.
  { apply returns_for_each. intros i t1 Hi. apply adds_sys; intros q. destruct (q <? 0); [by apply adds_exit|by apply adds_ret]. }
  intros _ ?. apply returns_bind.
  { apply returns_for_each. intros i t1 Hi%elem_of_seqZ. apply returns_bind; [apply returns_cell; lia|]. intros c ?.
    apply adds_sys; intros ?. by apply adds_ret. }
  intros _ ?. apply adds_sys; intros ?. eapply adds_mono; [|done]. apply returns_bind; [apply (wait_stop_returns k); [done|lia]|].
  intros _ ?. apply returns_bind; [|intros; by apply adds_ret].
  apply returns_for_each. intros i t1 _. apply adds_sys; intros ?. by apply adds_ret.
Qed.
End main.

(** With more active pipes than pipes it writes behind the array. *)
Lemma mess_too_many_active : main (Os0 := tracing (fun _ _ => 1)) 2 [(110, [50]); (97, [51])] [] = Fault.
Proof. by vm_compute. Qed.
