(* ===== verification/DeadConn.v ===== *)
(** * deadconn.c: opening many connections

    The program opens connections one after the other, sends a request on each, and
    leaves them open.  A connection that cannot be made is tried again, with a second
    in between, up to four times.  It is written as the calls it makes (see [Trace]). *)
From Stdlib Require Import ZArith Lia Bool.
From stdpp Require Import base tactics list strings.
From S2P Require Import Prelude Exits Libc Trace.

Inductive call :=
| Inet_aton (host : list Z) | Gethostbyname (host : list Z)
| Socket | Connect (fd port : Z) | Close (fd : Z) | Write (fd : Z) (data : list Z) | Sleep (secs : Z)
| Print (i : Z) | Print_total (i : Z).

Definition MAX_CONNECT_ERRORS : Z := 4.

Record options := mk_options { server : option (list Z); port : Z; nconns : Z; req : option (list Z) }.
Definition options0 : options := mk_options None (-1) (-1) None.

(** The arguments behind the program name; [None] asks for the usage text. *)
Fixpoint parse_args (av : list (list Z)) (o : options) : option options :=
  match av with
  | [] => Some o
  | a :: av =>
    if streq a (str "-s"%string) then
      match av with v :: av => parse_args av (mk_options (Some v) (port o) (nconns o) (req o)) | [] => Some o end
    else if streq a (str "-p"%string) then
      match av with v :: av => parse_args av (mk_options (server o) (atoi v) (nconns o) (req o)) | [] => Some o end
    else if streq a (str "-n"%string) then
      match av with v :: av => parse_args av (mk_options (server o) (port o) (atoi v) (req o)) | [] => Some o end
    else if streq a (str "-R"%string) then
      match av with v :: av => parse_args av (mk_options (server o) (port o) (nconns o) (Some v)) | [] => Some o end
    else if streq a (str "-h"%string) then None
    else parse_args av o
  end.

Section program.
Context {K : Type} `{!Os call K}.

Definition tconnect (port : Z) : E K Z :=
  sfd <~ sys Socket;
  if sfd =? -1 then e_ret (-1) else
  r <~ sys (Connect sfd port);
  if r <? 0 then _ <~ sys (Close sfd); e_ret (-1) else e_ret sfd.

(** The body of the loop for the connection [i]; [tries] more errors end the program's
    loop.  The result is whether the connection was made. *)
Fixpoint connect (tries : nat) (port : Z) (req : option (list Z)) (i : Z) : E K bool :=
  match tries with
  | O => e_ret false
  | S tries =>
    sfd <~ tconnect port;
    if negb (sfd =? -1) then
      _ <~ (match req with Some d => _ <~ sys (Write sfd d); e_ret tt | None => e_ret tt end);
      _ <~ sys (Print i);
      e_ret true
    else
      _ <~ sys (Sleep 1);
      connect tries port req i
  end.

(** The loop; the result is [i] behind it. *)
Fixpoint connections (n : nat) (port : Z) (req : option (list Z)) (i : Z) : E K Z :=
  match n with
  | O => e_ret i
  | S n =>
    ok <~ connect (Z.to_nat MAX_CONNECT_ERRORS) port req i;
    if (ok : bool) then connections n port req (i + 1) else e_ret i
  end.

(** main up to its last loop, in which it sleeps for ever. *)
Definition main (av : list (list Z)) : E K Z :=
  match parse_args av options0 with
  | None => e_exit 1
  | Some o =>
    match server o with
    | None => e_exit 1
    | Some host =>
      if (port o <? 0) || (nconns o <? 0) then e_exit 1 else
      r <~ sys (Inet_aton host);
      _ <~ (if r =? 0 then he <~ sys (Gethostbyname host); if he =? 0 then e_exit 2 else e_ret tt else e_ret tt);
      i <~ connections (Z.to_nat (nconns o)) (htons (u16 (port o))) (req o) 0;
      _ <~ sys (Print_total i);
      e_ret i
    end
  end.
End program.

(** ** What a run has done *)

(** The descriptors that are open, from those that were before: those of [socket] that
    were not closed. *)
Definition open_after (l : list Z) (t : trace call) : list Z :=
  fold_left (fun l e => match e with
    | (Socket, fd) => if fd =? -1 then l else (l ++ [fd])%list
    | (Close _, _) => removelast l
    | _ => l
    end) t l.
Definition requests (t : trace call) : list (Z * list Z) :=
  omap (fun e => match e with (Write fd d, _) => Some (fd, d) | _ => None end) t.
Definition printed (t : trace call) : list Z := omap (fun e => match e with (Print i, _) => Some i | _ => None end) t.

(** The attempts in turn: whether each has made a connection. *)
Definition attempts (t : trace call) : list bool :=
  omap (fun e => match e with
    | (Socket, fd) => if fd =? -1 then Some false else None
    | (Connect _ _, r) => Some (0 <=? r)
    | _ => None
    end) t.

(** Some failures and a connection. *)
Definition tried (k : nat) : list bool := replicate k false ++ [true].

Lemma open_after_app l t u : open_after l (t ++ u) = open_after (open_after l t) u.
Proof. apply fold_left_app. Qed.
Lemma attempts_app t u : attempts (t ++ u) = (attempts t ++ attempts u)%list.
Proof. apply omap_app. Qed.
Lemma requests_app t u : requests (t ++ u) = (requests t ++ requests u)%list.
Proof. apply omap_app. Qed.
Lemma printed_app t u : printed (t ++ u) = (printed t ++ printed u)%list.
Proof. apply omap_app. Qed.

(** ** Proofs *)
Section proofs.
Context (answers : trace call -> call -> Z).
#[local] Instance the_os : Os call (trace call) := tracing answers.

(** What a part of a run has added: attempts, numbers printed, descriptors, requests. *)
Record part (u : trace call) (bs : list bool) (is_ : list Z) (fds : list Z) (ds : list (Z * list Z)) : Prop := {
  part_attempts : attempts u = bs;
  part_printed : printed u = is_;
  part_open : forall l, open_after l u = (l ++ fds)%list;
  part_requests : requests u = ds
}.

Lemma part_app u v b1 b2 i1 i2 f1 f2 d1 d2 : part u b1 i1 f1 d1 -> part v b2 i2 f2 d2 ->
  part (u ++ v) (b1 ++ b2) (i1 ++ i2) (f1 ++ f2) (d1 ++ d2).
Proof.
  intros [<- <- H1 <-] [<- <- H2 <-]. split; rewrite ?attempts_app, ?printed_app, ?requests_app; try done.
  intros l. by rewrite open_after_app, H1, H2, (assoc_L (++)).
Qed.

Lemma tconnect_part t port : adds t (tconnect port) (fun r u => exists fd, r = inr fd /\
  if fd =? -1 then part u [false] [] [] [] else part u [true] [] [fd] []).
Proof.
  apply adds_sys. intros fd. destruct (fd =? -1) eqn:E.
  - apply adds_ret. exists (-1). split; [done|]. split; try done; unfold attempts, open_after; cbn; rewrite E; [done|].
    intros l. by rewrite app_nil_r.
  - apply adds_sys. intros r. destruct (Z.ltb_spec r 0).
    + apply adds_sys. intros x. apply adds_ret. exists (-1). split; [done|]. split; try done; unfold attempts, open_after; cbn; rewrite E.
      * by rewrite (proj2 (Z.leb_gt 0 r)).
      * intros l. by rewrite removelast_last, app_nil_r.
    + apply adds_ret. exists fd. split; [done|]. rewrite E. split; try done; unfold attempts, open_after; cbn; rewrite E; [|done].
      by rewrite (proj2 (Z.leb_le 0 r)).
Qed.

Definition asked (req : option (list Z)) (fd : Z) : list (Z * list Z) := match req with Some d => [(fd, d)] | None => [] end.

Lemma connect_part port req i tries : forall t, adds t (connect tries port req i) (fun r u =>
  (r = inr false /\ part u (replicate tries false) [] [] []) \/
  (r = inr true /\ exists k fd, (k < tries)%nat /\ part u (tried k) [i] [fd] (asked req fd))).
Proof.
  induction tries as [|tries IH]; intros t; cbn [connect].
  { apply adds_ret. left. split; [done|]. split; try done. intros l. by rewrite app_nil_r. }
  eapply adds_bind; [apply tconnect_part|by intros ? ? (? & ? & _)|].
  intros fd u (fd' & [= <-] & Hu). destruct (fd =? -1); cbn [negb].
  - apply adds_sys. intros x. eapply adds_mono; [apply IH|]. intros r v Hv.
    assert (Hx : part [(Sleep 1, x)] [] [] [] []) by (split; try done; intros l; by rewrite app_nil_r).
    destruct Hv as [[-> Hv]|(-> & k & fd2 & Hk & Hv)]; [left|right]; (split; [done|]).
    + exact (part_app _ _ _ _ _ _ _ _ _ _ Hu (part_app _ _ _ _ _ _ _ _ _ _ Hx Hv)).
    + exists (S k), fd2. split; [lia|]. exact (part_app _ _ _ _ _ _ _ _ _ _ Hu (part_app _ _ _ _ _ _ _ _ _ _ Hx Hv)).
  - assert (Hend : forall w x, part w [] [] [] (asked req fd) -> part (u ++ w ++ [(Print i, x)]) (tried 0) [i] [fd] (asked req fd)).
    { intros w x Hw. replace (asked req fd) with ([] ++ asked req fd ++ [])%list by (by rewrite app_nil_r).
      apply (part_app u _ [true] [] [] [i] [fd] [] [] _ Hu). apply (part_app w _ [] [] [] [i] [] [] _ [] Hw).
      split; try done. intros l. by rewrite app_nil_r. }
    eapply adds_bind with (P := fun r w => r = inr tt /\ part w [] [] [] (asked req fd)).
    + destruct req as [d|]; [apply adds_sys; intros x|]; apply adds_ret; (split; [done|]); (split; try done); intros l; by rewrite app_nil_r.
    + by intros ? ? [? _].
    + intros [] w [_ Hw]. apply adds_sys. intros x. apply adds_ret. right. split; [done|]. exists 0%nat, fd. split; [lia|]. by apply Hend.
Qed.

Lemma connections_part port req n : forall i t, adds t (connections n port req i) (fun r u => exists ks fds,
  r = inr (i + Z.of_nat (length ks)) /\ length fds = length ks /\ (length ks <= n)%nat /\ Forall (fun k => (k < 4)%nat) ks /\
  part u (concat (map tried ks) ++ if (length ks <? n)%nat then replicate 4 false else [])
    (seqZ i (Z.of_nat (length ks))) fds (concat (map (asked req) fds))).
Proof.
  induction n as [|n IH]; intros i t; cbn [connections].
  { apply adds_ret. exists [], []. cbn [length]. rewrite Z.add_0_r. repeat split; try (done || lia). intros l. by rewrite app_nil_r. }
  eapply adds_bind; [apply connect_part|by intros ? ? [[? _]|[? _]]|].
  intros ok u [[[= ->] Hu]|([= ->] & k & fd & Hk & Hu)].
  - apply adds_ret. exists [], []. cbn [length]. rewrite Z.add_0_r, app_nil_r. repeat split; try (done || lia || apply Hu).
  - eapply adds_mono; [apply IH|]. intros r v (ks & fds & -> & Hlen & Hn & Hks & Hv).
    exists (k :: ks), (fd :: fds). cbn [length]. split; [f_equal; lia|]. split; [lia|]. split; [lia|]. split; [by constructor|].
    replace (seqZ i (Z.of_nat (S (length ks)))) with ([i] ++ seqZ (i + 1) (Z.of_nat (length ks)))%list
      by (rewrite (seqZ_cons i (Z.of_nat (S _))) by lia; cbn [app]; do 2 f_equal; lia).
    cbn [map concat]. rewrite <- (assoc_L (++)). change (S (length ks) <? S n)%nat with (length ks <? n)%nat.
    change (fd :: fds) with ([fd] ++ fds)%list. by apply part_app.
Qed.
End proofs.

(** Whatever the kernel answers, the program comes to its last loop, or exits because
    of its arguments or an unknown host.  It has then made [i] connections, at most as
    many as asked for, has numbered and left open each of them, and sent the request, if
    there is one, on each; there were less than four failed attempts before each, and
    when there are less than asked for the last four attempts had failed. *)
Theorem deadconn_connections answers av o : parse_args av options0 = Some o ->
  exists r t, main (Os0 := tracing answers) av [] = Ok (r, t) /\
  match r with
  | inl code => (code = 1 \/ code = 2) /\ attempts t = []
  | inr i => exists ks,
      i = Z.of_nat (length ks) /\ 0 <= i <= nconns o /\ printed t = seqZ 0 i /\ Z.of_nat (length (open_after [] t)) = i /\
      requests t = concat (map (asked (req o)) (open_after [] t)) /\
      Forall (fun k => (k < 4)%nat) ks /\
      attempts t = (concat (map tried ks) ++ if i <? nconns o then replicate 4 false else [])%list
  end.
Proof.
  intros Ho. apply adds_run. unfold main. rewrite Ho. destruct (server o) as [host|]; [|apply adds_exit; by split; [left|]].
  destruct (_ || _) eqn:Ebad; [apply adds_exit; by split; [left|]|]. apply orb_false_iff in Ebad as [_ Hn%Z.ltb_ge].
  apply adds_sys. intros r.
  eapply adds_bind with (P := fun r u => (r = inl 2 \/ r = inr tt) /\ part u [] [] [] []).
  { assert (Hnil : part [] [] [] [] []) by (split; try done; intros l; by rewrite app_nil_r).
    destruct (r =? 0); [apply adds_sys; intros he; destruct (he =? 0); [apply adds_exit|]|]; try apply adds_ret;
      (split; [by left + right|]); (split; try done); intros l; by rewrite app_nil_r. }
  { intros code u [[[= ->]|[=]] Hu]. split; [by right|]. apply Hu. }
  intros [] u [_ Hu]. eapply adds_bind; [apply connections_part|by intros ? ? (? & ? & ? & _)|].
  intros i v (ks & fds & [= ->] & Hlen & Hks & Hk4 & Hv). apply adds_sys. intros x. apply adds_ret.
  rewrite Z.add_0_l in *. exists ks.
  assert (Hw : part ((Inet_aton host, r) :: u ++ v ++ [(Print_total (Z.of_nat (length ks)), x)])
     (concat (map tried ks) ++ if (length ks <? Z.to_nat (nconns o))%nat then replicate 4 false else [])
     (seqZ 0 (Z.of_nat (length ks))) fds (concat (map (asked (req o)) fds))).
  { replace (seqZ 0 (Z.of_nat (length ks))) with ([] ++ [] ++ seqZ 0 (Z.of_nat (length ks)) ++ [])%list by (by rewrite app_nil_r).
    set (bs := (concat _ ++ _)%list) in *. replace bs with ([] ++ [] ++ bs ++ [])%list by (by rewrite app_nil_r).
    set (ds := concat (map (asked _) _)) in *. replace ds with ([] ++ [] ++ ds ++ [])%list by (by rewrite app_nil_r).
    replace fds with ([] ++ [] ++ fds ++ [])%list by (by rewrite app_nil_r).
    assert (Hq : forall c, (exists h, c = Inet_aton h) \/ (exists i, c = Print_total i) -> forall y, part [(c, y)] [] [] [] []).
    { intros c Hc y. destruct Hc as [[h ->]|[h ->]]; (split; try done); intros l; by rewrite app_nil_r. }
    apply (part_app [(Inet_aton host, r)]); [apply Hq; eauto|]. apply part_app; [done|]. apply part_app; [done|]. apply Hq; eauto. }
  destruct Hw as [W1 W2 W3 W4]. rewrite W1, W2, W3, W4. cbn [app].
  split_and!; try done; try lia.
  do 2 f_equal. destruct (Nat.ltb_spec (length ks) (Z.to_nat (nconns o))), (Z.ltb_spec (Z.of_nat (length ks)) (nconns o)); done || lia.
Qed.

Definition demo_av : list (list Z) := map str ["-s"; "host"; "-p"; "80"; "-n"; "3"; "-R"; "GET"]%string.
(** Every other connection fails. *)
Definition demo_answers (t : trace call) (c : call) : Z :=
  match c with Connect _ _ => if Nat.even (length (attempts t)) then -1 else 0 | _ => 7 end.

Lemma deadconn_connections_witness : exists r t, main (Os0 := tracing demo_answers) demo_av [] = Ok (r, t) /\
  match r with
  | inl code => (code = 1 \/ code = 2) /\ attempts t = []
  | inr i => exists ks,
      i = Z.of_nat (length ks) /\ 0 <= i <= 3 /\ printed t = seqZ 0 i /\ Z.of_nat (length (open_after [] t)) = i /\
      requests t = concat (map (asked (Some (str "GET"%string))) (open_after [] t)) /\
      Forall (fun k => (k < 4)%nat) ks /\
      attempts t = (concat (map tried ks) ++ if i <? 3 then replicate 4 false else [])%list
  end.
Proof. exact (deadconn_connections demo_answers demo_av (mk_options (Some (str "host"%string)) 80 3 (Some (str "GET"%string))) ltac:(by vm_compute)). Defined.
