(* ===== verification/PageScan.v ===== *)
(** * smiffy.c, nzmmap-test.c and nzmalloc-test.c: pages that are not zero

    The programs get a block of memory and count the pages that hold something.  The
    block is a list of 64-bit words; pointers are word indices into it, and an access
    outside of it is a fault. *)
From Stdlib Require Import ZArith Lia Bool.
From stdpp Require Import base tactics list.
From S2P Require Import Prelude Libc.

Definition WORD : Z := 8.

(** The memory is that of the mapping, or of [malloc]. *)
Abbreviation P := (M (list Z)).

Definition get (p : Z) : P Z := fun m =>
  if p <? 0 then Fault else match m !! Z.to_nat p with Some w => Ok (w, m) | None => Fault end.
Definition put (p w : Z) : P unit := fun m =>
  if (0 <=? p) && (p <? Z.of_nat (length m)) then Ok (tt, <[Z.to_nat p := w]> m) else Fault.

(** [for (; p < top; p++) if ( *p) return 0;], with [n] words up to [top]. *)
Fixpoint words_zero (n : nat) (p : Z) : P bool :=
  match n with
  | O => mret true
  | S n => w ← get p; if negb (w =? 0) then mret false else words_zero n (p + 1)
  end.

Section programs.
(** The size of a page, in bytes. *)
Context (pgsize : Z).
Definition pgwords : nat := Z.to_nat (pgsize / WORD).

Definition page_check (page : Z) : P bool :=
  put page 1;;
  words_zero (pgwords - 1) (page + 1).

Definition page_is_zero (page : Z) : P bool :=
  put page 1;;
  z ← words_zero (pgwords - 1) (page + 1);
  if (z : bool) then put (page + 1) 2;; mret true else mret false.

(** That of nzmmap-test.c has the same text. *)
Definition mmap_page_is_zero (page : Z) : P bool := page_is_zero page.

(** The pages of a block of [size] bytes, which is a multiple of [pgsize]; the result is
    [nzcount]. *)
Fixpoint count_pages (check : Z -> P bool) (n : nat) (p nzcount : Z) : P Z :=
  match n with
  | O => mret nzcount
  | S n => z ← check p; count_pages check n (p + Z.of_nat pgwords) (if (z : bool) then nzcount else u32 (nzcount + 1))
  end.

Definition round_size (size : Z) : Z := u32 (u32 (size + pgsize - 1) / pgsize * pgsize).

(** The three tests: [get_block] is [mmap] or [malloc], which may fail; the result is
    what is returned, and the count that is printed: [None] when nothing is printed. *)
Definition with_block {A} (get_block : Z -> option (list Z)) (size : Z) (body : P A) (failed : A) : res A :=
  match get_block size with
  | None => Ok failed
  | Some m => match body m with Ok (a, _) => Ok a | Fault => Fault | NoFuel => NoFuel end
  end.

Definition scan (check : Z -> P bool) (size : Z) : P Z := count_pages check (Z.to_nat (size / pgsize)) 0 0.

Definition smiffy_test_mmap (mmap : Z -> option (list Z)) (size : Z) : res (Z * option Z) :=
  let size := round_size size in
  with_block mmap size (n ← scan page_check size; mret (0, if negb (n =? 0) then Some n else None)) (-1, None).

Definition test_malloc (malloc : Z -> option (list Z)) (size : Z) : res (Z * option Z) :=
  let size := round_size size in
  with_block malloc size (n ← scan page_is_zero size; mret (0, Some n)) (-1, None).

Definition test_mmap (mmap : Z -> Z -> option (list Z)) (size mmflags : Z) : res (Z * option Z) :=
  let size := round_size size in
  with_block (mmap mmflags) size (n ← scan mmap_page_is_zero size; mret (0, Some n)) (-1, None).

(** ** The mains: the results of getopt, and the test, whose result is dropped.  That of
    smiffy makes its test for ever: there are as many here as mappings are given. *)
Definition dropped (r : res (Z * option Z)) : res (Z * option Z) := x ← r; Ok (0, x.2).

Definition MAP_NOZERO : Z := 67108864.
Definition MAP_ANONYMOUS : Z := 32.
Definition MAP_PRIVATE : Z := 2.

Fixpoint malloc_options (opts : list (Z * list Z)) (size : Z) : Z :=
  match opts with
  | [] => size
  | (c, optarg) :: opts => malloc_options opts (if c =? 115 then u32 (atoi optarg) else size)
  end.
Definition malloc_main (malloc : Z -> option (list Z)) (opts : list (Z * list Z)) : res (Z * option Z) :=
  dropped (test_malloc malloc (malloc_options opts (u32 (pgsize * 64)))).

Fixpoint mmap_options (opts : list (Z * list Z)) (size mmflags : Z) : Z * Z :=
  match opts with
  | [] => (size, mmflags)
  | (c, optarg) :: opts =>
    if c =? 115 then mmap_options opts (u32 (atoi optarg)) mmflags
    else if c =? 110 then mmap_options opts size (Z.lor mmflags MAP_NOZERO)
    else mmap_options opts size mmflags
  end.
Definition mmap_main (mmap : Z -> Z -> option (list Z)) (opts : list (Z * list Z)) : res (Z * option Z) :=
  let '(size, mmflags) := mmap_options opts (u32 (pgsize * 32)) (Z.lor MAP_ANONYMOUS MAP_PRIVATE) in
  dropped (test_mmap mmap size mmflags).

Definition DEFAULT_SIZE_PAGES : Z := 128.
Fixpoint smiffy_options (opts : list (Z * list Z)) (size : Z) : Z :=
  match opts with
  | [] => size
  | (c, optarg) :: opts => smiffy_options opts (if c =? 115 then u32 (u32 (atoi optarg) * pgsize) else size)
  end.
Definition smiffy_main (mmaps : list (Z -> option (list Z))) (opts : list (Z * list Z)) : list (res (option Z)) :=
  let size := smiffy_options opts (u32 (pgsize * DEFAULT_SIZE_PAGES)) in
  map (fun mmap => r ← smiffy_test_mmap mmap size; Ok r.2) mmaps.
End programs.

(** ** What is counted *)

(** A page has something behind its first word, which is written before it is read. *)
Definition holds (page : list Z) : bool := existsb (fun w => negb (w =? 0)) (tail page).

(** The pages of a block. *)
Fixpoint pages (k n : nat) (m : list Z) : list (list Z) :=
  match n with O => [] | S n => take k m :: pages k n (drop k m) end.

Definition nonzero_pages (k n : nat) (m : list Z) : Z := Z.of_nat (length (List.filter holds (pages k n m))).

(** ** Proofs *)
Lemma get_at a w b : get (Z.of_nat (length a)) (a ++ w :: b)%list = Ok (w, (a ++ w :: b)%list).
Proof.
  unfold get. rewrite (proj2 (Z.ltb_ge _ 0)) by lia. rewrite Nat2Z.id, list_lookup_middle by done. done.
Qed.

Lemma put_at a w b x : put (Z.of_nat (length a)) x (a ++ w :: b)%list = Ok (tt, (a ++ x :: b)%list).
Proof.
  unfold put. rewrite (proj2 (Z.leb_le 0 _)), (proj2 (Z.ltb_lt _ _)) by (rewrite ?length_app; cbn [length]; lia).
  cbn [andb]. by rewrite Nat2Z.id, insert_app_r_alt, Nat.sub_diag by lia.
Qed.

Lemma words_zero_run l : forall a b, words_zero (length l) (Z.of_nat (length a)) (a ++ l ++ b)%list
  = Ok (negb (existsb (fun w => negb (w =? 0)) l), (a ++ l ++ b)%list).
Proof.
  induction l as [|w l IH]; intros a b; cbn [words_zero length existsb app]; [done|].
  erewrite run_bind; [|apply get_at]. destruct (w =? 0); cbn [negb orb]; [|done].
  replace (a ++ w :: l ++ b)%list with ((a ++ [w]) ++ l ++ b)%list by (by rewrite <- (assoc_L (++))).
  replace (Z.of_nat (length a) + 1) with (Z.of_nat (length (a ++ [w]))) by (rewrite length_app; cbn; lia). apply IH.
Qed.

(** The same behind a first word. *)
Lemma words_zero_behind a x l b : words_zero (length l) (Z.of_nat (length a) + 1) (a ++ x :: l ++ b)%list
  = Ok (negb (existsb (fun w => negb (w =? 0)) l), (a ++ x :: l ++ b)%list).
Proof.
  pose proof (words_zero_run l (a ++ [x]) b) as H. rewrite length_app, <- (assoc_L (++)) in H. cbn [length app] in H.
  replace (Z.of_nat (length a) + 1) with (Z.of_nat (length a + 1)) by lia. exact H.
Qed.

Lemma put_behind a x w b y : put (Z.of_nat (length a) + 1) y (a ++ x :: w :: b)%list = Ok (tt, (a ++ x :: y :: b)%list).
Proof.
  pose proof (put_at (a ++ [x]) w b y) as H. rewrite length_app, <- !(assoc_L (++)) in H. cbn [length app] in H.
  replace (Z.of_nat (length a) + 1) with (Z.of_nat (length a + 1)) by lia. exact H.
Qed.

Section proofs.
Context (pgsize : Z) (Hpg : 16 <= pgsize) (H8 : (8 | pgsize)).
Abbreviation k := (pgwords pgsize).

Lemma pgwords_eq : Z.of_nat k * 8 = pgsize /\ (2 <= k)%nat.
Proof.
  destruct H8 as [n Hn]. unfold pgwords, WORD. rewrite Hn in *. rewrite Z.div_mul by done. rewrite Z2Nat.id by lia. split; lia.
Qed.

(** What the check of a page does, on whatever is before and behind the page: its result,
    and what it leaves in the page. *)
Definition checks (check : Z -> P bool) (mark : list Z -> list Z) : Prop := forall a page b, length page = k ->
  length (mark page) = k /\
  check (Z.of_nat (length a)) (a ++ page ++ b)%list = Ok (negb (holds page), (a ++ mark page ++ b)%list).

Definition mark_first (page : list Z) : list Z := 1 :: tail page.
Definition mark_second (page : list Z) : list Z := if holds page then 1 :: tail page else 1 :: 2 :: tail (tail page).

Lemma page_check_checks : checks (page_check pgsize) mark_first.
Proof.
  pose proof pgwords_eq as [_ H2]. intros a page b Hlen. destruct page as [|w l]; [cbn in Hlen; lia|]. split; [done|].
  unfold page_check. erewrite run_bind; [|apply put_at]. unfold holds, mark_first. cbn [tail app].
  replace (k - 1)%nat with (length l) by (cbn in Hlen; lia).
  apply words_zero_behind.
Qed.

Lemma page_is_zero_checks : checks (page_is_zero pgsize) mark_second.
Proof.
  pose proof pgwords_eq as [_ H2]. intros a page b Hlen. unfold mark_second. split.
  { destruct page as [|w [|w' l]]; cbn in *; try lia. by case_match. }
  destruct (page_check_checks a page b Hlen) as [_ Hc]. unfold page_check in Hc. unfold page_is_zero.
  destruct page as [|w [|w' l]]; [cbn in *; lia..|]. cbn [mark_first tail app] in *.
  erewrite run_bind in Hc; [|apply put_at]. erewrite run_bind; [|apply put_at]. erewrite run_bind; [|exact Hc].
  destruct (holds (w :: w' :: l)) eqn:E; cbn [negb app]; [done|].
  erewrite run_bind; [|apply put_behind]. done.
Qed.

(** The loop over the pages. *)
Lemma count_pages_run check mark n : checks check mark -> forall a m c, length m = (n * k)%nat -> 0 <= c -> c + Z.of_nat n < 2 ^ 32 ->
  count_pages pgsize check n (Z.of_nat (length a)) c (a ++ m)%list
  = Ok (c + nonzero_pages k n m, (a ++ concat (map mark (pages k n m)))%list).
Proof.
  intros Hc. unfold nonzero_pages. induction n as [|n IH]; intros a m c Hm Hc0 Hcn; cbn [count_pages pages map concat].
  { destruct m; [|cbn in Hm; lia]. by rewrite Z.add_0_r. }
  assert (Ht : length (take k m) = k) by (rewrite length_take; lia).
  destruct (Hc a (take k m) (drop k m) Ht) as [Hl Hrun]. rewrite <- (take_drop k m) at 1. erewrite run_bind; [|exact Hrun].
  replace (Z.of_nat (length a) + Z.of_nat k) with (Z.of_nat (length (a ++ mark (take k m)))) by (rewrite length_app; lia).
  rewrite (assoc_L (++) a). rewrite IH.
  - rewrite <- (assoc_L (++)). do 2 f_equal. cbn [List.filter].
    destruct (holds (take k m)); cbn [negb length]; [rewrite u32_small by lia|]; lia.
  - rewrite length_drop. lia.
  - destruct (holds (take k m)); cbn [negb]; [rewrite u32_small by lia|]; lia.
  - destruct (holds (take k m)); cbn [negb]; [rewrite u32_small by lia|]; lia.
Qed.

(** After [page_is_zero] every page holds something. *)
Lemma marked_pages n : forall m, length m = (n * k)%nat ->
  nonzero_pages k n (concat (map mark_second (pages k n m))) = Z.of_nat n.
Proof.
  pose proof pgwords_eq as [_ H2]. unfold nonzero_pages. intros m Hm. f_equal. revert m Hm. induction n as [|n IH]; intros m Hm; [done|]. cbn [pages map concat].
  assert (Ht : length (take k m) = k) by (rewrite length_take; lia).
  destruct (page_is_zero_checks [] (take k m) (drop k m) Ht) as [Hl _].
  rewrite take_app_length', drop_app_length' by done. cbn [List.filter].
  assert (Hh : holds (mark_second (take k m)) = true).
  { unfold mark_second. destruct (holds (take k m)) eqn:E; [exact E|done]. }
  rewrite Hh. cbn [length]. rewrite IH; [done|]. rewrite length_drop. lia.
Qed.

Lemma round_size_ok size : 0 <= size -> size + pgsize - 1 < 2 ^ 32 ->
  exists n, round_size pgsize size = Z.of_nat n * pgsize /\ Z.of_nat n < 2 ^ 32 /\ size <= Z.of_nat n * pgsize < size + pgsize.
Proof.
  intros Hs Hb. pose proof (Z.div_mod (size + pgsize - 1) pgsize ltac:(lia)). pose proof (Z.mod_pos_bound (size + pgsize - 1) pgsize ltac:(lia)).
  set (q := (size + pgsize - 1) / pgsize) in *. assert (0 <= q) by (apply Z.div_pos; lia).
  exists (Z.to_nat q). unfold round_size. rewrite (u32_small (size + pgsize - 1)) by lia. fold q. rewrite Z2Nat.id by lia.
  rewrite u32_small by nia. split; [done|]. split; nia.
Qed.

Lemma scan_run check mark n m : checks check mark -> length m = (n * k)%nat -> Z.of_nat n < 2 ^ 32 ->
  scan pgsize check (Z.of_nat n * pgsize) m = Ok (nonzero_pages k n m, concat (map mark (pages k n m))).
Proof.
  intros Hc Hm Hn. unfold scan. rewrite Z.div_mul by lia. rewrite Nat2Z.id. by apply (count_pages_run check mark n Hc [] m 0).
Qed.
End proofs.

(** Given a block of the size asked for, rounded up to pages, the three programs stay
    in it, return 0 and print the number of its pages that hold something behind their
    first word; and after [page_is_zero] every page does, so that the next run over the
    same memory counts them all. *)
Theorem page_tests pgsize size mmflags m : 16 <= pgsize -> (8 | pgsize) -> 0 <= size -> size + pgsize - 1 < 2 ^ 32 ->
  Z.of_nat (length m) * 8 = round_size pgsize size ->
  let n := Z.to_nat (round_size pgsize size / pgsize) in
  let c := nonzero_pages (pgwords pgsize) n m in
  size <= round_size pgsize size < size + pgsize /\
  smiffy_test_mmap pgsize (fun _ => Some m) size = Ok (0, if c =? 0 then None else Some c) /\
  test_malloc pgsize (fun _ => Some m) size = Ok (0, Some c) /\
  test_mmap pgsize (fun _ _ => Some m) size mmflags = Ok (0, Some c) /\
  exists m', scan pgsize (page_is_zero pgsize) (round_size pgsize size) m = Ok (c, m') /\
    scan pgsize (page_is_zero pgsize) (round_size pgsize size) m' = Ok (Z.of_nat n, concat (map mark_second (pages (pgwords pgsize) n m'))).
Proof.
  intros Hpg H8 Hs Hb Hm n c.
  destruct (round_size_ok pgsize Hpg size Hs Hb) as (n0 & Hr & Hn0 & Hsz). destruct (pgwords_eq pgsize Hpg H8) as [Hk Hk2].
  assert (n = n0) as -> by (unfold n; rewrite Hr, Z.div_mul by lia; apply Nat2Z.id). rewrite Hr in *.
  assert (Hlen : length m = (n0 * pgwords pgsize)%nat) by nia.
  pose proof (scan_run pgsize Hpg (page_check pgsize) mark_first n0 m (page_check_checks pgsize Hpg H8) Hlen Hn0) as S1.
  pose proof (scan_run pgsize Hpg (page_is_zero pgsize) mark_second n0 m (page_is_zero_checks pgsize Hpg H8) Hlen Hn0) as S2.
  fold c in S1, S2. split; [done|].
  unfold smiffy_test_mmap, test_malloc, test_mmap. rewrite Hr. unfold with_block.
  change (scan pgsize (mmap_page_is_zero pgsize) ?x) with (scan pgsize (page_is_zero pgsize) x).
  rewrite (run_bind _ _ _ _ _ S1), (run_bind _ _ _ _ _ S2). split; [cbn; by destruct (c =? 0)|]. do 2 (split; [done|]).
  eexists. split; [exact S2|].
  assert (Hl2 : length (concat (map mark_second (pages (pgwords pgsize) n0 m))) = (n0 * pgwords pgsize)%nat).
  { clear -Hlen Hpg H8 Hk2. revert m Hlen. induction n0 as [|n IH]; intros m Hm; [done|]. cbn [pages map concat]. rewrite length_app, IH.
    - destruct (page_is_zero_checks pgsize Hpg H8 [] (take (pgwords pgsize) m) []) as [-> _]; [rewrite length_take; lia|lia].
    - rewrite length_drop. lia. }
  rewrite (scan_run pgsize Hpg (page_is_zero pgsize) mark_second n0 _ (page_is_zero_checks pgsize Hpg H8) Hl2 Hn0).
  by rewrite (marked_pages pgsize Hpg H8).
Qed.

(** Two pages of sixteen bytes: only the second holds something behind its first word. *)
Definition demo_block : list Z := [7; 0; 0; 5].

Lemma page_tests_witness :
  smiffy_test_mmap 16 (fun _ => Some demo_block) 20 = Ok (0, Some 1) /\
  test_malloc 16 (fun _ => Some demo_block) 20 = Ok (0, Some 1) /\
  test_mmap 16 (fun _ _ => Some demo_block) 20 34 = Ok (0, Some 1).
Proof.
  destruct (page_tests 16 20 34 demo_block ltac:(lia) ltac:(by exists 2) ltac:(lia) ltac:(lia) ltac:(done)) as (_ & H1 & H2 & H3 & _).
  split_and!; [exact H1|exact H2|exact H3].
Defined.

Lemma malloc_options_last opts arg size : malloc_options (opts ++ [(115, arg)]) size = u32 (atoi arg).
Proof. revert size. induction opts as [|[c a] opts IH]; intros size; [done|apply IH]. Qed.

Lemma mmap_options_last opts arg : forall size mmflags, (mmap_options (opts ++ [(115, arg)]) size mmflags).1 = u32 (atoi arg).
Proof.
  induction opts as [|[c a] opts IH]; intros size mmflags; [done|]. cbn [mmap_options app].
  destruct (c =? 115); [apply IH|]. destruct (c =? 110); apply IH.
Qed.

Lemma smiffy_options_last pgsize opts arg size : smiffy_options pgsize (opts ++ [(115, arg)]) size = u32 (u32 (atoi arg) * pgsize).
Proof. revert size. induction opts as [|[c a] opts IH]; intros size; [done|apply IH]. Qed.

Lemma round_size_pages pgsize n : 0 < pgsize -> 0 <= n -> n * pgsize + pgsize - 1 < 2 ^ 32 -> round_size pgsize (n * pgsize) = n * pgsize.
Proof.
  intros Hp Hn Hb. unfold round_size. rewrite (u32_small (n * pgsize + pgsize - 1)) by nia.
  replace (n * pgsize + pgsize - 1) with (n * pgsize + (pgsize - 1)) by lia.
  rewrite Z.div_add_l, (Z.div_small (pgsize - 1)) by lia. rewrite Z.add_0_r. apply u32_small. nia.
Qed.

(** A size in the last page below 4 GB is rounded to nothing. *)
Lemma round_size_wraps pgsize size : 0 < pgsize -> 2 ^ 32 - pgsize < size < 2 ^ 32 -> round_size pgsize size = 0.
Proof.
  intros Hp Hs. unfold round_size. assert (u32 (size + pgsize - 1) < pgsize /\ 0 <= u32 (size + pgsize - 1)) as [? ?].
  { unfold u32. destruct (Z.le_gt_cases pgsize (2 ^ 32)) as [Hle|Hgt].
    - replace (size + pgsize - 1) with (size + pgsize - 1 - 2 ^ 32 + 1 * 2 ^ 32) by lia. rewrite Z.mod_add, Z.mod_small by lia. lia.
    - pose proof (Z.mod_pos_bound (size + pgsize - 1) (2 ^ 32)). lia. }
  by rewrite Z.div_small.
Qed.

(** The programs always end with 0.  The size is that of the last -s: in bytes for
    nzmalloc-test and nzmmap-test, where it is rounded up, in pages for smiffy; -n does
    not change it.  They print the count of the block they got, smiffy for each of its
    blocks and not when it is 0, and nothing without a block.  A size in the last page below
    4 GB, such as the one -s -1 gives, is rounded to 0, and no page is looked at. *)
Theorem page_mains pgsize opts arg : 16 <= pgsize -> (8 | pgsize) ->
  let opts := (opts ++ [(115, arg)])%list in let n := atoi arg in
  malloc_main pgsize (fun _ => None) opts = Ok (0, None) /\ mmap_main pgsize (fun _ _ => None) opts = Ok (0, None) /\
  (0 <= n -> n + pgsize - 1 < 2 ^ 32 -> forall m, Z.of_nat (length m) * 8 = round_size pgsize n ->
    let c := nonzero_pages (pgwords pgsize) (Z.to_nat (round_size pgsize n / pgsize)) m in
    malloc_main pgsize (fun _ => Some m) opts = Ok (0, Some c) /\ mmap_main pgsize (fun _ _ => Some m) opts = Ok (0, Some c)) /\
  (0 <= n -> n * pgsize + pgsize - 1 < 2 ^ 32 -> forall ms, Forall (fun m => Z.of_nat (length m) * 8 = n * pgsize) ms ->
    smiffy_main pgsize (map (fun m _ => Some m) ms) opts = map (fun m => let c := nonzero_pages (pgwords pgsize) (Z.to_nat n) m in
      Ok (if c =? 0 then None else Some c)) ms) /\
  (2 ^ 32 - pgsize < u32 n -> pgsize < 2 ^ 32 -> forall m, malloc_main pgsize (fun _ => Some m) opts = Ok (0, Some 0) /\
    mmap_main pgsize (fun _ _ => Some m) opts = Ok (0, Some 0)).
Proof.
  intros Hp H8 opts' n. unfold malloc_main, mmap_main, smiffy_main. subst opts'.
  pose proof (mmap_options_last opts arg (u32 (pgsize * 32)) (Z.lor MAP_ANONYMOUS MAP_PRIVATE)) as Hmm.
  rewrite malloc_options_last, smiffy_options_last. destruct (mmap_options _ _ _) as [size flags]. cbn [fst] in Hmm. subst size. fold n.
  split; [done|]. split; [done|]. split; [|split].
  - intros Hn Hb m Hm. rewrite u32_small by lia.
    destruct (page_tests pgsize n flags m Hp H8 Hn Hb Hm) as (_ & _ & H1 & H2 & _). by rewrite H1, H2.
  - intros Hn Hb ms Hms. rewrite (u32_small n), (u32_small (n * pgsize)) by nia. rewrite map_map. apply map_ext_in. intros m Hin%list_elem_of_In.
    rewrite Forall_forall in Hms. specialize (Hms m Hin). rewrite <-(round_size_pages pgsize n) in Hms by (lia || nia).
    destruct (page_tests pgsize (n * pgsize) 0 m Hp H8 ltac:(nia) Hb Hms) as (_ & H1 & _).
    rewrite H1. rewrite round_size_pages, Z.div_mul by lia. done.
  - intros Hn Hb m. pose proof (Z.mod_pos_bound n (2 ^ 32) ltac:(lia)) as Hu. fold (u32 n) in Hu.
    unfold test_malloc, test_mmap. rewrite round_size_wraps by lia. done.
Qed.
