(* ===== verification/HexDump.v ===== *)
(** * chexdump.c: the standard input as a C array

    The text is the list of its characters; it is shown that it says what was read. *)
From Stdlib Require Import ZArith Lia Bool.
From stdpp Require Import base tactics list strings.
From S2P Require Import Prelude Libc.

(** [%*s] of a string that is not longer. *)
Definition fmt_pad (t : nat) (s : list Z) : list Z := (repeat 32 (t - length s) ++ s)%list.

(** The loop of main, on the bytes up to the end of the input; the variables [n] and [t]
    of the code do not change. *)
Fixpoint dump_loop (n : Z) (t : nat) (bytes : list Z) (i : Z) : list Z :=
  match bytes with
  | [] => []
  | c :: bytes =>
    ((if negb (i =? 0) && (Z.rem i n =? 0) then LF :: fmt_pad t (str " "%string) else []) ++
     str " 0x"%string ++ hex02 c ++ str ","%string ++ dump_loop n t bytes (s32 (i + 1)))%list
  end.

Definition main (bytes : list Z) : list Z :=
  (str "{"%string ++ LF :: fmt_pad 4 (str " "%string) ++ dump_loop 16 4 bytes 0 ++ [LF] ++ str "};"%string ++ [LF])%list.

(** ** Reading the text back: the two digits behind each 0x. *)
Definition number_at (text : list Z) : list Z :=
  match text with
  | z :: x :: a :: b :: _ => if (z =? 48) && (x =? 120) then [16 * digit_val a + digit_val b] else []
  | _ => []
  end.
Fixpoint read_back (text : list Z) : list Z :=
  match text with [] => [] | c :: rest => (number_at (c :: rest) ++ read_back rest)%list end.

(** ** Proofs *)
Lemma read_back_skip c rest : c <> 48 -> read_back (c :: rest) = read_back rest.
Proof.
  intros Hc. cbn [read_back number_at]. destruct rest as [|x [|a [|b rest]]]; try done.
  by rewrite (proj2 (Z.eqb_neq c 48)).
Qed.

Lemma read_back_skip2 c x rest : x <> 120 -> read_back (c :: x :: rest) = read_back (x :: rest).
Proof.
  intros Hx. cbn [read_back number_at]. destruct rest as [|a [|b rest]]; try done.
  rewrite (proj2 (Z.eqb_neq x 120)) by done. by rewrite andb_false_r.
Qed.

Lemma hex_digit_not_x v : 0 <= v < 16 -> hex_digit v <> 120.
Proof. intros Hv. unfold hex_digit. destruct (Z.ltb_spec v 10); lia. Qed.

Lemma read_back_item c rest : 0 <= c < 256 -> read_back (str " 0x"%string ++ hex02 c ++ str ","%string ++ rest)%list = c :: read_back rest.
Proof.
  intros Hc. assert (Hh : 0 <= c / 16 < 16) by (split; [apply Z.div_pos; lia|apply Z.div_lt_upper_bound; lia]).
  pose proof (Z.mod_pos_bound c 16 ltac:(lia)) as Hl.
  change (read_back (32 :: 48 :: 120 :: hex_digit (c / 16) :: hex_digit (c mod 16) :: 44 :: rest) = c :: read_back rest).
  rewrite read_back_skip by done. set (a := hex_digit (c / 16)). set (b := hex_digit (c mod 16)).
  change (read_back (48 :: 120 :: a :: b :: 44 :: rest)) with (16 * digit_val a + digit_val b :: read_back (120 :: a :: b :: 44 :: rest)).
  rewrite read_back_skip by done. rewrite read_back_skip2 by by apply hex_digit_not_x. rewrite read_back_skip2, read_back_skip by done.
  unfold a, b. rewrite !hex_digit_val by done. f_equal. pose proof (Z.div_mod c 16). lia.
Qed.

Lemma read_back_loop n t bytes : forall i, Forall (fun c => 0 <= c < 256) bytes ->
  read_back (dump_loop n t bytes i ++ [LF] ++ str "};"%string ++ [LF])%list = bytes.
Proof.
  induction bytes as [|c bytes IH]; intros i Hb; [done|]. apply Forall_cons in Hb as [Hc Hb]. cbn [dump_loop].
  rewrite <- !(assoc_L (++)).
  assert (Hsep : forall rest, read_back ((if negb (i =? 0) && (Z.rem i n =? 0) then LF :: fmt_pad t (str " "%string) else []) ++ rest)%list = read_back rest).
  { intros rest. destruct (_ && _); [|done]. cbn [app]. rewrite read_back_skip by done. unfold fmt_pad. rewrite <- (assoc_L (++)). change (str " "%string ++ rest)%list with (32 :: rest).
    induction (t - length (str " "%string))%nat as [|k IHk]; cbn [repeat app]; [by rewrite read_back_skip|]. rewrite read_back_skip by done. exact IHk. }
  rewrite Hsep, read_back_item by done. f_equal. by apply IH.
Qed.

(** The numbers in the text that chexdump writes are the bytes it has read, in order. *)
Theorem chexdump_roundtrip bytes : Forall (fun c => 0 <= c < 256) bytes -> read_back (main bytes) = bytes.
Proof.
  intros Hb. change (main bytes) with (123 :: LF :: 32 :: 32 :: 32 :: 32 :: dump_loop 16 4 bytes 0 ++ [LF] ++ str "};"%string ++ [LF])%list.
  do 6 (rewrite read_back_skip by done). by apply read_back_loop.
Qed.

Lemma chexdump_roundtrip_witness : read_back (main [0; 255; 16; 171]) = [0; 255; 16; 171].
Proof. apply chexdump_roundtrip. repeat constructor; done. Defined.
