(* ===== verification/EpollPwait.v ===== *)
(** * epoll_pwait_test.c: tests of epoll_pwait

    The program makes nine tests of a system call, prints a verdict for each and counts
    the failed ones.  It is written as the calls it makes (see [Trace]). *)
From Stdlib Require Import ZArith Lia Bool.
From stdpp Require Import base tactics list.
From S2P Require Import Prelude Exits Trace.

(** The signal mask of [epoll_pwait]: none, one that holds anything, that of the process
    with SIGUSR1, and without it. *)
Inductive mask := NoMask | AnyMask | Blocked | Unblocked.

(** The calls.  [Errno] reads errno; [Signaller] is the process that sends SIGUSR1 to its
    parent after a while, its answer is what [fork] gives the parent. *)
Inductive call :=
| Epoll_create | Pipe | Ctl_add (epfd : Z) | Pipe_end
| Epoll_pwait (epfd maxevents timeout : Z) (m : mask) (masksize : Z) | Errno
| Close (fd : Z) | Write | Read | Sigaction | Sigprocmask | Signaller | Waitpid (pid : Z)
| Verdict (which : Z) (ok : bool).

Definition SIZEOF_SIGSET : Z := 64 / 8.
Definition INT_MAX : Z := 2147483647.
Definition EINTR : Z := 4.
Definition EBADF : Z := 9.
Definition EINVAL : Z := 22.

Section program.
Context {K : Type} `{!Os call K}.

(** The three ways in which a result is judged.  The result is [fails] behind the test. *)
Definition judge (which fails : Z) (ok : bool) : E K Z :=
  _ <~ sys (Verdict which ok);
  e_ret (if ok then fails else s32 (fails + 1)).

Definition expect_error (which : Z) (c : call) (e fails : Z) : E K Z :=
  error <~ sys c;
  if negb (error =? -1) then judge which fails false else
  err <~ sys Errno;
  judge which fails (err =? e).

Definition test_none (epfd fails : Z) : E K Z :=
  error <~ sys (Epoll_pwait epfd 1 0 NoMask 0);
  judge 6 fails (negb (0 <? error)).

Definition test_one (epfd fails : Z) : E K Z :=
  _ <~ sys Write;
  error <~ sys (Epoll_pwait epfd 1 0 NoMask 0);
  if negb (error =? 1) then judge 7 fails false else
  fails <~ judge 7 fails true;
  _ <~ sys Read;
  e_ret fails.

Definition test_blocked (epfd fails : Z) : E K Z :=
  cpid <~ sys Signaller;
  if cpid =? -1 then e_exit 1 else
  error <~ sys (Epoll_pwait epfd 1 1000 Blocked SIZEOF_SIGSET);
  fails <~ judge 8 fails (error =? 0);
  _ <~ sys (Waitpid cpid);
  e_ret fails.

Definition test_unblocked (epfd fails : Z) : E K Z :=
  cpid <~ sys Signaller;
  if cpid =? -1 then e_exit 1 else
  fails <~ expect_error 9 (Epoll_pwait epfd 1 1000 Unblocked SIZEOF_SIGSET) EINTR fails;
  _ <~ sys (Waitpid cpid);
  e_ret fails.

Definition main : E K Z :=
  epfd <~ sys Epoll_create;
  if epfd =? -1 then e_ret 1 else
  r <~ sys Pipe;
  if r <? 0 then e_ret 1 else
  r <~ sys (Ctl_add epfd);
  if r <? 0 then e_ret 1 else
  pfd <~ sys Pipe_end;
  fails <~ expect_error 1 (Epoll_pwait pfd 1 0 NoMask 0) EINVAL 0;
  _ <~ sys (Close 17);
  fails <~ expect_error 2 (Epoll_pwait 17 1 0 NoMask 0) EBADF fails;
  fails <~ expect_error 3 (Epoll_pwait epfd 0 0 NoMask 0) EINVAL fails;
  fails <~ expect_error 4 (Epoll_pwait epfd INT_MAX 0 NoMask 0) EINVAL fails;
  fails <~ expect_error 5 (Epoll_pwait epfd 1 0 AnyMask (SIZEOF_SIGSET / 2)) EINVAL fails;
  fails <~ test_none epfd fails;
  fails <~ test_one epfd fails;
  r <~ sys Sigaction;
  if negb (r =? 0) then e_ret 1 else
  r <~ sys Sigprocmask;
  if negb (r =? 0) then e_ret 1 else
  fails <~ test_blocked epfd fails;
  fails <~ test_unblocked epfd fails;
  e_ret (if negb (fails =? 0) then 2 else 0).
End program.

(** ** What a run has printed *)
Definition verdicts (t : trace call) : list (Z * bool) :=
  omap (fun e => match e with (Verdict n ok, _) => Some (n, ok) | _ => None end) t.
Definition failed (t : trace call) : Z := Z.of_nat (length (List.filter (fun v => negb v.2) (verdicts t))).

(** ** Proofs *)
Lemma pwait_verdicts_app t u : verdicts (t ++ u) = (verdicts t ++ verdicts u)%list.
Proof. apply omap_app. Qed.

Lemma failed_app t u : failed (t ++ u) = failed t + failed u.
Proof. unfold failed. rewrite pwait_verdicts_app, List.filter_app, length_app. lia. Qed.

Section proofs.
Context (answers : trace call -> call -> Z).
#[local] Instance the_os : Os call (trace call) := tracing answers.

(** A test: it prints one verdict, and counts it; or the program ends, if it may. *)
Definition tests (exits : bool) (which fails : Z) (r : Z + Z) (u : trace call) : Prop :=
  match r with
  | inl code => exits = true /\ code = 1 /\ verdicts u = []
  | inr n => exists ok, verdicts u = [(which, ok)] /\ n = fails + failed u
  end.

Lemma judge_tests t which fails ok : 0 <= fails < 100 -> adds t (judge which fails ok) (tests false which fails).
Proof.
  intros Hf. apply adds_sys. intros r. apply adds_ret. exists ok. split; [done|]. unfold failed. cbn.
  destruct ok; cbn; [lia|]. by rewrite s32_small by lia.
Qed.

Lemma expect_error_tests t which c e fails : 0 <= fails < 100 -> (forall r, verdicts [(c, r)] = []) ->
  adds t (expect_error which c e fails) (tests false which fails).
Proof.
  intros Hf Hc. apply adds_sys. intros error. specialize (Hc error).
  assert (Hq : forall r v, tests false which fails r v -> tests false which fails r ((c, error) :: v)).
  { intros [code|n] v; [by intros [? _]|]. intros (ok & Hv & Hn). exists ok. change (?a :: v) with ([a] ++ v)%list.
    rewrite pwait_verdicts_app, failed_app, Hc. split; [done|]. unfold failed at 1. rewrite Hc. cbn. exact Hn. }
  destruct (negb (error =? -1)); [eapply adds_mono; [by apply judge_tests|exact Hq]|].
  apply adds_sys. intros err. eapply adds_mono; [by apply judge_tests|]. intros r v Hv. by apply Hq.
Qed.

Lemma test_none_tests t epfd fails : 0 <= fails < 100 -> adds t (test_none epfd fails) (tests false 6 fails).
Proof. intros Hf. apply adds_sys. intros error. eapply adds_mono; [by apply judge_tests|]. by intros [code|n] v Hv. Qed.

Lemma test_one_tests t epfd fails : 0 <= fails < 100 -> adds t (test_one epfd fails) (tests false 7 fails).
Proof.
  intros Hf. apply adds_sys. intros w. apply adds_sys. intros error. destruct (negb (error =? 1)).
  - eapply adds_mono; [by apply judge_tests|]. by intros [code|n] v Hv.
  - eapply adds_bind; [by apply judge_tests|by intros ? ? [? _]|]. intros n u (ok & Hu & Hn). apply adds_sys. intros r. apply adds_ret.
    exists ok. cbn [verdicts failed]. change (?a :: ?b :: u ++ ?c) with ([a; b] ++ u ++ c)%list.
    rewrite !pwait_verdicts_app, !failed_app, Hu. split; [done|]. unfold failed at 1 3. cbn. lia.
Qed.

Lemma test_blocked_tests t epfd fails : 0 <= fails < 100 -> adds t (test_blocked epfd fails) (tests true 8 fails).
Proof.
  intros Hf. apply adds_sys. intros cpid. destruct (cpid =? -1); [by apply adds_exit|]. apply adds_sys. intros error.
  eapply adds_bind; [by apply judge_tests|by intros ? ? [? _]|]. intros n u (ok & Hu & Hn). apply adds_sys. intros r. apply adds_ret.
  exists ok. change (?a :: ?b :: u ++ ?c) with ([a; b] ++ u ++ c)%list.
  rewrite !pwait_verdicts_app, !failed_app, Hu. split; [done|]. unfold failed at 1 3. cbn. lia.
Qed.

Lemma test_unblocked_tests t epfd fails : 0 <= fails < 100 -> adds t (test_unblocked epfd fails) (tests true 9 fails).
Proof.
  intros Hf. apply adds_sys. intros cpid. destruct (cpid =? -1); [by apply adds_exit|].
  eapply adds_bind; [by apply expect_error_tests|by intros ? ? [? _]|]. intros n u (ok & Hu & Hn). apply adds_sys. intros r. apply adds_ret.
  exists ok. change (?a :: u ++ ?c) with ([a] ++ u ++ c)%list.
  rewrite !pwait_verdicts_app, !failed_app, Hu. split; [done|]. unfold failed at 1 3. cbn. lia.
Qed.

(** How main ends when the tests [ns] are made and [fails] of them failed: with 1 early, or
    with all verdicts and their count. *)
Definition ends (ns : list Z) (fails : Z) (r : Z + Z) (v : trace call) : Prop :=
  match r with
  | inl code => code = 1
  | inr code => code = 1 \/
      (ns ++ map fst (verdicts v))%list = [1; 2; 3; 4; 5; 6; 7; 8; 9] /\ code = (if fails + failed v =? 0 then 0 else 2)
  end.

Lemma adds_test t exits which fails ns (m : E (trace call) Z) (k : Z -> E (trace call) Z) : adds t m (tests exits which fails) ->
  (forall n t', fails <= n <= fails + 1 -> adds t' (k n) (ends (ns ++ [which]) n)) -> adds t (e_bind m k) (ends ns fails).
Proof.
  intros Hm Hk. eapply adds_bind; [exact Hm|by intros code u (_ & -> & _)|]. intros n u (ok & Hu & ->).
  assert (Hb : 0 <= failed u <= 1) by (unfold failed; rewrite Hu; cbn; destruct ok; cbn; lia).
  eapply adds_mono; [apply Hk; lia|]. intros [code|code] v Hv; [exact Hv|]. destruct Hv as [->|[Hns ->]]; [by left|right].
  rewrite pwait_verdicts_app, failed_app, map_app, Hu. cbn [map fst]. rewrite (assoc_L (++)), Hns. split; [done|].
  by rewrite Z.add_assoc.
Qed.

(** A call that is no verdict. *)
Lemma adds_other t ns fails c (k : Z -> E (trace call) Z) : (forall r, verdicts [(c, r)] = []) ->
  (forall r t', adds t' (k r) (ends ns fails)) -> adds t (e_bind (sys c) k) (ends ns fails).
Proof.
  intros Hc Hk. apply adds_sys. intros r. eapply adds_mono; [apply Hk|]. intros [code|code] v Hv; [exact Hv|].
  destruct Hv as [->|[Hns ->]]; [by left|right]. change ((c, r) :: v) with ([(c, r)] ++ v)%list.
  rewrite pwait_verdicts_app, failed_app, Hc. unfold failed at 2. rewrite Hc. by split.
Qed.

Lemma main_ends t : adds t main (ends [] 0).
Proof.
  unfold main.
  apply adds_other; [done|intros epfd ?]. destruct (epfd =? -1); [apply adds_ret; by left|].
  do 2 (apply adds_other; [done|intros ? ?]; destruct (_ <? 0); [apply adds_ret; by left|]).
  apply adds_other; [done|intros pfd ?].
  eapply adds_test; [by apply expect_error_tests|intros n1 ? H1]. apply adds_other; [done|intros ? ?].
  eapply adds_test; [apply expect_error_tests; [lia|done]|intros n2 ? H2].
  eapply adds_test; [apply expect_error_tests; [lia|done]|intros n3 ? H3].
  eapply adds_test; [apply expect_error_tests; [lia|done]|intros n4 ? H4].
  eapply adds_test; [apply expect_error_tests; [lia|done]|intros n5 ? H5].
  eapply adds_test; [apply test_none_tests; lia|intros n6 ? H6].
  eapply adds_test; [apply test_one_tests; lia|intros n7 ? H7].
  do 2 (apply adds_other; [done|intros ? ?]; destruct (negb _); [apply adds_ret; by left|]).
  eapply adds_test; [apply test_blocked_tests; lia|intros n8 ? H8].
  eapply adds_test; [apply test_unblocked_tests; lia|intros n9 ? H9].
  apply adds_ret. right. split; [done|]. unfold failed. cbn. rewrite Z.add_0_r. by destruct (n9 =? 0).
Qed.
End proofs.

(** Whatever the kernel answers, the program ends, with 1 when a call of its set-up
    fails, with 0 when it has printed nine verdicts in order and all are good, with 2
    when it has printed nine and one is not. *)
Theorem epoll_pwait_exit answers : exists r t, main (Os0 := tracing answers) [] = Ok (r, t) /\
  match r with
  | inl code => code = 1
  | inr code => code = 1 \/
      map fst (verdicts t) = [1; 2; 3; 4; 5; 6; 7; 8; 9] /\
      code = if forallb snd (verdicts t) then 0 else 2
  end.
Proof.
  apply adds_run. eapply adds_mono; [apply main_ends|]. intros [code|code] t Ht; [exact Ht|].
  destruct Ht as [->|[Hv ->]]; [by left|right]. split; [exact Hv|]. clear Hv. unfold failed. cbn.
  induction (verdicts t) as [|[n []] l IH]; cbn [List.filter forallb snd negb andb length]; [done|done|].
  by rewrite (proj2 (Z.eqb_neq _ 0)) by lia.
Qed.

(** An error of the sixth call, which should find no event, is taken for good. *)
Lemma none_available_error : exists t, test_none (Os0 := tracing (fun _ _ => -1)) 3 0 [] = Ok (inr 0, t) /\ verdicts t = [(6, true)].
Proof. eexists. split; vm_compute; reflexivity. Qed.
