(* ===== verification/Ztest.v ===== *)
(** * ztest.c: how long zlib takes to inflate a file

    The file is mapped, deflated, inflated and compared, and then inflated over and over
    for some time.  The two functions of zlib are arguments: a function is given its input
    and the room for its output, and gives a result and its output. *)
From Stdlib Require Import ZArith Lia Bool.
From stdpp Require Import base tactics list strings.
From S2P Require Import Prelude Exits Libc.

Definition Z_OK : Z := 0.
Definition Z_STREAM_END : Z := 1.
Definition MIN_TESTIME : Z := 2 * 1000000.
Definition INNER_CYCLES : Z := 32.

(** The lines printed. *)
Inductive line := Perror (what : list Z) | Whoops (err : Z) | NoStreamEnd | Mismatch (ulen size : Z) | Differs | Testing (path : list Z) | PerCycle (us : Z).

(** The kernel and the libraries.  [open_file] gives the contents of a file that can be
    opened and whose size can be had; [map_file] says whether it can be mapped, [alloc]
    whether there is memory; [inits] are the results of deflateInit, deflateEnd,
    inflateInit and inflateEnd; [clock] gives the time of the [n]-th call. *)
Record env := mk_env {
  open_file : list Z -> option (list Z);
  map_file : list Z -> bool;
  alloc : Z -> bool;
  deflate : list Z -> Z -> Z * list Z;
  inflate : list Z -> Z -> Z * list Z;
  inits : Z * Z * Z * Z;
  clock : nat -> Z
}.

(** The time and the output so far. *)
Record state := mk_state { calls : nat; out : list line }.

Section program.
Context (e : env).

Definition print (l : line) : M state unit := puts (fun s => mk_state (calls s) (out s ++ [l])).
Definition getustime : M state Z := fun s => Ok (u64 (clock e (calls s)), mk_state (S (calls s)) (out s)).

Definition CHECK_ERR (err : Z) : E state unit := if negb (err =? Z_OK) then e_exit 1 else e_ret tt.

(** [do_defl]: the output; its length is the new [*clen]. *)
Definition do_defl (clen : Z) (udata : list Z) : E state (list Z) :=
  let '(dinit, dend, _, _) := inits e in
  _ <~ CHECK_ERR dinit;
  let '(err, cdata) := deflate e (take (Z.to_nat (u32 (strlen udata))) udata) (u32 clen) in
  if negb (err =? Z_STREAM_END) then _ <~ e_run (print (Whoops err)); e_exit 1 else
  _ <~ CHECK_ERR dend;
  e_ret cdata.

Definition do_infl (cdata : list Z) (ulen : Z) : E state (list Z) :=
  let '(_, _, iinit, iend) := inits e in
  _ <~ CHECK_ERR iinit;
  let '(err, udata) := inflate e (take (Z.to_nat (u32 (strlen cdata))) cdata) (u32 ulen) in
  if negb (err =? Z_STREAM_END) then _ <~ e_run (print NoStreamEnd); e_exit 1 else
  _ <~ CHECK_ERR iend;
  e_ret udata.

(** The inner loop of the test. *)
Fixpoint inner (n : nat) (cbuf : list Z) (size : Z) : E state unit :=
  match n with
  | O => e_ret tt
  | S n => _ <~ do_infl cbuf size; inner n cbuf size
  end.

(** The loop until the time is over; the result is the time of a cycle. *)
Fixpoint test_loop (fuel : nat) (cbuf : list Z) (size ts n : Z) : E state Z :=
  match fuel with
  | O => nofuel
  | S fuel =>
    _ <~ inner (Z.to_nat INNER_CYCLES) cbuf size;
    let n := u64 (n + INNER_CYCLES) in
    te <~ e_run getustime;
    if u64 (te - ts) <? MIN_TESTIME then test_loop fuel cbuf size ts n
    else if n =? 0 then e_run fault else e_ret (u64 (te - ts) / n)
  end.

Definition do_filebench (fuel : nat) (fpath : list Z) : E state Z :=
  match open_file e fpath with
  | None => _ <~ e_run (print (Perror fpath)); e_ret (-1)
  | Some ubuf =>
    if negb (map_file e ubuf) then _ <~ e_run (print (Perror (str "mmap"%string))); e_ret (-1) else
    let size := strlen ubuf in
    let clen := u64 (size + 4096) in
    if negb (alloc e (u64 (size + clen))) then _ <~ e_run (print (Perror (str "malloc"%string))); e_ret (-1) else
    cbuf <~ do_defl clen ubuf;
    tbuf <~ do_infl cbuf size;
    if negb (strlen tbuf =? size) then _ <~ e_run (print (Mismatch (strlen tbuf) size)); e_ret (-1)
    else if bool_decide (tbuf <> ubuf) then _ <~ e_run (print Differs); e_ret (-1) else
    _ <~ e_run (print (Testing fpath));
    ts <~ e_run getustime;
    us <~ test_loop fuel cbuf size ts 0;
    _ <~ e_run (print (PerCycle us));
    e_ret 0
  end.

Fixpoint main_loop (fuel : nat) (av : list (list Z)) : E state unit :=
  match av with
  | [] => e_ret tt
  | a :: av => _ <~ do_filebench fuel a; main_loop fuel av
  end.

(** The arguments are those behind the program name. *)
Definition main (fuel : nat) (av : list (list Z)) : E state Z := _ <~ main_loop fuel av; e_ret 0.
End program.

(** ** What zlib promises *)

(** The output fits; a stream that ended inflates to what was deflated. *)
Record zlib_ok (e : env) : Prop := {
  inits_ok : inits e = (Z_OK, Z_OK, Z_OK, Z_OK);
  deflate_fits : forall u room, strlen (deflate e u room).2 <= Z.max room 0;
  inflate_back : forall u room, (deflate e u room).1 = Z_STREAM_END -> inflate e (deflate e u room).2 (strlen u) = (Z_STREAM_END, u)
}.

(** ** Proofs *)
Section proofs.
Context (e : env).

Lemma do_infl_run cdata u s : zlib_ok e -> strlen cdata < 2 ^ 32 -> strlen u < 2 ^ 32 -> inflate e cdata (strlen u) = (Z_STREAM_END, u) ->
  do_infl e cdata (strlen u) s = Ok (inr u, s).
Proof.
  intros Hz Hc Hu Hi. unfold do_infl. rewrite (inits_ok e Hz). unfold strlen in *.
  rewrite !u32_small by lia. rewrite Nat2Z.id, firstn_all, Hi. done.
Qed.

Lemma inner_run n cdata u s : zlib_ok e -> strlen cdata < 2 ^ 32 -> strlen u < 2 ^ 32 -> inflate e cdata (strlen u) = (Z_STREAM_END, u) ->
  inner e n cdata (strlen u) s = Ok (inr tt, s).
Proof.
  intros Hz Hc Hu Hi. induction n as [|n IH]; [done|]. cbn [inner]. rewrite (run_e_bind _ _ _ u s) by by apply do_infl_run. exact IH.
Qed.

(** The time is over at the [k]-th look at the clock behind [ts]. *)
Definition time_over (ts : Z) (from k : nat) : Prop :=
  (forall j, (from <= j)%nat -> ts <= clock e j < 2 ^ 64) /\ MIN_TESTIME <= clock e (from + k) - ts.

Lemma test_loop_run cdata u ts fuel : zlib_ok e -> strlen cdata < 2 ^ 32 -> strlen u < 2 ^ 32 ->
  inflate e cdata (strlen u) = (Z_STREAM_END, u) -> 0 <= ts -> forall k n s, time_over ts (calls s) k -> (k < fuel)%nat ->
  0 <= n -> n + INNER_CYCLES * (Z.of_nat k + 1) < 2 ^ 64 ->
  exists us c, test_loop e fuel cdata (strlen u) ts n s = Ok (inr us, mk_state c (out s)) /\ 0 <= us.
Proof.
  intros Hz Hc Hu Hi Hts. induction fuel as [|fuel IH]; intros k n s [Hck Hk] Hf Hn Hb; [lia|]. cbn [test_loop].
  rewrite (run_e_bind _ _ _ tt s) by by apply inner_run. erewrite run_e_bind; [|done].
  rewrite (u64_small (clock e (calls s))) by (specialize (Hck (calls s) ltac:(lia)); lia).
  rewrite (u64_small (n + INNER_CYCLES)) by (unfold INNER_CYCLES in *; lia).
  rewrite u64_small by (specialize (Hck (calls s) ltac:(lia)); lia).
  destruct (Z.ltb_spec (clock e (calls s) - ts) MIN_TESTIME) as [Hlt|Hge].
  - destruct k as [|k]; [rewrite Nat.add_0_r in Hk; lia|].
    apply (IH k _ (mk_state (S (calls s)) (out s))); cbn [calls]; [|lia|unfold INNER_CYCLES in *; lia|unfold INNER_CYCLES in *; lia].
    split; [by intros j Hj; apply Hck; lia|]. by replace (S (calls s) + k)%nat with (calls s + S k)%nat by lia.
  - rewrite (proj2 (Z.eqb_neq _ 0)) by (unfold INNER_CYCLES; lia). do 2 eexists. split; [done|].
    apply Z.div_pos; [unfold MIN_TESTIME in Hge; lia|unfold INNER_CYCLES; lia].
Qed.
End proofs.

(** With a zlib that gives back what it has deflated, the test of a file that fits in
    the 32 bits of zlib's lengths returns 0 when the clock has gone on for two seconds;
    and whatever zlib does, it only returns 0 if inflating gave the file back. *)
Theorem ztest_filebench e fuel path ubuf k s :
  open_file e path = Some ubuf -> strlen ubuf + 4096 < 2 ^ 32 ->
  (map_file e ubuf = true -> alloc e (u64 (strlen ubuf + u64 (strlen ubuf + 4096))) = true -> zlib_ok e ->
   (deflate e ubuf (strlen ubuf + 4096)).1 = Z_STREAM_END ->
   0 <= clock e (calls s) < 2 ^ 64 -> time_over e (clock e (calls s)) (S (calls s)) k -> (k < fuel)%nat -> Z.of_nat k < 2 ^ 50 ->
   exists us c, do_filebench e fuel path s = Ok (inr 0, mk_state c (out s ++ [Testing path; PerCycle us])) /\ 0 <= us) /\
  (forall s', do_filebench e fuel path s = Ok (inr 0, s') -> exists cbuf room, inflate e cbuf room = (Z_STREAM_END, ubuf)).
Proof.
  intros Ho Hs. assert (H0 : 0 <= strlen ubuf) by (unfold strlen; lia). split.
  - intros Hm Ha Hz Hd Hc Hover Hf Hk. unfold do_filebench. rewrite Ho, Hm, Ha. cbn [negb].
    set (cbuf := (deflate e ubuf (strlen ubuf + 4096)).2).
    assert (Hdefl : do_defl e (u64 (strlen ubuf + 4096)) ubuf s = Ok (inr cbuf, s)).
    { unfold do_defl. rewrite (inits_ok e Hz). rewrite (u64_small (strlen ubuf + 4096)) by lia.
      rewrite !u32_small by lia. unfold strlen at 1. rewrite Nat2Z.id, firstn_all. unfold cbuf.
      destruct (deflate e ubuf (strlen ubuf + 4096)) as [err c]. cbn [fst] in Hd. by rewrite Hd. }
    rewrite (run_e_bind _ _ _ _ _ Hdefl).
    assert (Hlen : strlen cbuf < 2 ^ 32) by (pose proof (deflate_fits e Hz ubuf (strlen ubuf + 4096)); unfold cbuf; lia).
    pose proof (inflate_back e Hz ubuf (strlen ubuf + 4096) Hd) as Hi. fold cbuf in Hi.
    rewrite (run_e_bind _ _ _ ubuf s) by (apply do_infl_run; (done || lia)).
    rewrite Z.eqb_refl. cbn [negb]. rewrite bool_decide_eq_false_2 by tauto.
    erewrite run_e_bind; [|done]. erewrite run_e_bind; [|done]. cbn [calls out]. rewrite (u64_small (clock e (calls s))) by lia.
    destruct (test_loop_run e cbuf ubuf (clock e (calls s)) fuel Hz Hlen ltac:(lia) Hi ltac:(lia) k 0
      (mk_state (S (calls s)) (out s ++ [Testing path])) Hover Hf ltac:(lia)) as (us & c & Hl & Hus).
    { unfold INNER_CYCLES. lia. }
    rewrite (run_e_bind _ _ _ _ _ Hl). erewrite run_e_bind; [|done]. cbn [calls out]. do 2 eexists. split; [|exact Hus].
    by rewrite <- (assoc_L (++)).
  - intros s'. unfold do_filebench. rewrite Ho. destruct (negb (map_file e ubuf)); [done|]. destruct (negb (alloc e _)); [done|].
    unfold e_bind at 1, mbind, M_bind. destruct (do_defl e _ ubuf s) as [[[code|cbuf] s1]| |]; try done.
    unfold e_bind at 1, mbind, M_bind. destruct (do_infl e cbuf (strlen ubuf) s1) as [[[code|tbuf] s2]| |] eqn:Ei; try done.
    destruct (negb (strlen tbuf =? strlen ubuf)); [done|]. case_bool_decide as Hne; [done|]. intros _.
    assert (tbuf = ubuf) as -> by (destruct (decide (tbuf = ubuf)); [done|by destruct Hne]). revert Ei. unfold do_infl.
    destruct (inits e) as [[[? ?] iinit] iend]. unfold e_bind at 1, mbind, M_bind, CHECK_ERR at 1. destruct (negb (iinit =? Z_OK)); [done|].
    cbn [e_ret mret M_ret]. destruct (inflate e _ _) as [err u] eqn:Ei. destruct (Z.eqb_spec err Z_STREAM_END) as [->|]; cbn [negb]; [|done].
    unfold CHECK_ERR. destruct (negb (iend =? Z_OK)); [done|]. intros [= -> ->]. by do 2 eexists.
Qed.

(** A zlib that stores a file as it is, and a clock of three seconds a call. *)
Definition demo_env : env := mk_env (fun _ => Some [1; 2; 3]) (fun _ => true) (fun _ => true)
  (fun u room => if strlen u <=? room then (Z_STREAM_END, u) else (Z_OK, [])) (fun c room => if strlen c <=? room then (Z_STREAM_END, c) else (Z_OK, []))
  (0, 0, 0, 0) (fun n => if (n =? 0)%nat then 0 else 3000000).

Lemma demo_zlib : zlib_ok demo_env.
Proof.
  split; [done| |]; intros u room; cbn; destruct (Z.leb_spec (strlen u) room); cbn; try (unfold strlen in *; cbn in *; lia).
  all: try done. all: by rewrite Z.leb_refl.
Qed.

Lemma ztest_filebench_witness :
  (exists us c, do_filebench demo_env 1 (str "f"%string) (mk_state 0 []) = Ok (inr 0, mk_state c [Testing (str "f"%string); PerCycle us]) /\ 0 <= us) /\
  (forall s', do_filebench demo_env 1 (str "f"%string) (mk_state 0 []) = Ok (inr 0, s') -> exists cbuf room, inflate demo_env cbuf room = (Z_STREAM_END, [1; 2; 3])).
Proof.
  destruct (ztest_filebench demo_env 1 (str "f"%string) [1; 2; 3] 0 (mk_state 0 []) ltac:(done) ltac:(done)) as [H1 H2].
  split; [|exact H2]. apply H1; [done|done|apply demo_zlib|done|done| |lia|done].
  split; [intros [|j]; [lia|done]|done].
Defined.

(** The clock never goes back, and two seconds are over after [k + 1] looks at it. *)
Definition good_clock (e : env) (k : nat) : Prop :=
  (forall i j, (i <= j)%nat -> 0 <= clock e i <= clock e j) /\ (forall i, clock e i < 2 ^ 64) /\
  forall i, MIN_TESTIME <= clock e (S i + k) - clock e i.

(** A file that can be read, mapped and deflated. *)
Definition good_file (e : env) (path : list Z) : Prop := exists ubuf, open_file e path = Some ubuf /\ strlen ubuf + 4096 < 2 ^ 32 /\
  map_file e ubuf = true /\ alloc e (u64 (strlen ubuf + u64 (strlen ubuf + 4096))) = true /\ (deflate e ubuf (strlen ubuf + 4096)).1 = Z_STREAM_END.

(** What is printed for such a file, and for one that cannot be opened. *)
Definition file_lines (e : env) (path : list Z) (l : list line) : Prop :=
  (open_file e path = None /\ l = [Perror path]) \/ (good_file e path /\ exists us, l = [Testing path; PerCycle us] /\ 0 <= us).

(** Over such a clock main of ztest ends with 0, whatever files it is given that are good or
    missing: it prints the time of each good one and a message for each missing one, in
    order, and goes on after the latter. *)
Theorem ztest_main e fuel k av : zlib_ok e -> good_clock e k -> (k < fuel)%nat -> Z.of_nat k < 2 ^ 50 ->
  Forall (fun path => open_file e path = None \/ good_file e path) av ->
  exists c ls, main e fuel av (mk_state 0 []) = Ok (inr 0, mk_state c (concat ls)) /\ Forall2 (file_lines e) av ls.
Proof.
  intros Hz (Hm & Hb & Hg) Hf Hk Hav.
  assert (forall av s, Forall (fun path => open_file e path = None \/ good_file e path) av ->
    exists c ls, main_loop e fuel av s = Ok (inr tt, mk_state c (out s ++ concat ls)) /\ Forall2 (file_lines e) av ls) as H.
  { clear av Hav. induction av as [|path av IH]; intros s Hav; cbn [main_loop].
    { exists (calls s), []. split; [|constructor]. cbn. rewrite app_nil_r. by destruct s. }
    apply Forall_cons in Hav as [Hp Hav].
    assert (exists r c l, do_filebench e fuel path s = Ok (inr r, mk_state c (out s ++ l)) /\ file_lines e path l) as (r & c & l & Hr & Hl).
    { destruct Hp as [Hn|Hfile].
      - exists (-1), (calls s), [Perror path]. unfold do_filebench. rewrite Hn. split; [done|by left].
      - destruct Hfile as (ubuf & Ho & Hs & Hmp & Ha & Hd).
        destruct (proj1 (ztest_filebench e fuel path ubuf k s Ho Hs) Hmp Ha Hz Hd) as (us & c & Hr & Hu);
          [by split; [apply (Hm _ (calls s))|apply Hb]| |done|done|].
        + split; [|apply Hg]. intros j Hj. split; [apply Hm; lia|apply Hb].
        + exists 0, c, [Testing path; PerCycle us]. split; [done|]. right. split; [by exists ubuf|by exists us]. }
    rewrite (run_e_bind _ _ _ _ _ Hr). destruct (IH (mk_state c (out s ++ l)) Hav) as (c' & ls & Hrun & Hls).
    exists c', (l :: ls). split; [|by constructor]. rewrite Hrun. cbn [out concat]. by rewrite <-(assoc_L (++)). }
  destruct (H av (mk_state 0 []) Hav) as (c & ls & Hr & Hls). exists c, ls. split; [|done].
  unfold main. rewrite (run_e_bind _ _ _ _ _ Hr). done.
Qed.
