(* ===== verification/FgetLight.v ===== *)
(** * fget-light-test.c: reading a file with one and with two threads

    The program reads a file block by block, alone and with a second thread that waits
    on a mutex, and prints the times.  It is written as the calls it makes (see
    [Trace]). *)
From Stdlib Require Import ZArith Lia Bool.
From stdpp Require Import base tactics list strings.
From S2P Require Import Prelude Exits Libc Trace.

(** The calls.  [Malloc] gives 0 for no memory, [Create] 0 when the thread was made;
    [Gettimeofday] gives microseconds. *)
Inductive call :=
| Malloc (n : Z) | Open (path : list Z) | Lseek (fd : Z) | Read (fd n : Z) | Perror (path : list Z)
| Lock | Unlock | Create | Gettimeofday | Print_time (us : Z) | Close (fd : Z).

Definition DEVZERO_FILE : list Z := str "/dev/zero"%string.
Definition DEF_BUFSIZE : Z := 1024.
Definition DEF_READSIZE : Z := 1024 * 1024.
Definition RUN_SHARED : Z := Z.shiftl 1 0.
Definition RUN_UNSHARED : Z := Z.shiftl 1 1.

Record options := mk_options { zfname : list Z; bufsize : Z; size : Z; mode : Z }.
Definition options0 : options := mk_options DEVZERO_FILE DEF_BUFSIZE DEF_READSIZE (Z.lor RUN_SHARED RUN_UNSHARED).

(** The results of getopt. *)
Fixpoint main_options (opts : list (Z * list Z)) (o : options) : option options :=
  match opts with
  | [] => Some o
  | (c, optarg) :: opts =>
    if c =? 102 then main_options opts (mk_options optarg (bufsize o) (size o) (mode o))
    else if c =? 98 then main_options opts (mk_options (zfname o) (atoi optarg) (size o) (mode o))
    else if c =? 114 then main_options opts (mk_options (zfname o) (bufsize o) (atol optarg) (mode o))
    else if c =? 85 then main_options opts (mk_options (zfname o) (bufsize o) (size o) (Z.land (mode o) (Z.lnot RUN_UNSHARED)))
    else if c =? 83 then main_options opts (mk_options (zfname o) (bufsize o) (size o) (Z.land (mode o) (Z.lnot RUN_SHARED)))
    else None
  end.

Section program.
Context {K : Type} `{!Os call K}.

Definition getustime : E K Z := tm <~ sys Gettimeofday; e_ret (u64 tm).

(** The loop of [read_test] from [rsize] on. *)
Fixpoint read_loop (fuel : nat) (zfname : list Z) (fd bufsize size rsize : Z) : E K Z :=
  match fuel with
  | O => nofuel
  | S fuel =>
    if rsize <? size then
      let cnt := s64 (size - rsize) in
      let cnt := if bufsize <? cnt then bufsize else cnt in
      r <~ sys (Read fd (u64 cnt));
      if negb (r =? cnt) then _ <~ sys (Perror zfname); e_ret rsize
      else read_loop fuel zfname fd bufsize size (s64 (rsize + cnt))
    else e_ret rsize
  end.

Definition read_test (fuel : nat) (zfname : list Z) (fd bufsize size : Z) : E K Z :=
  _ <~ sys (Lseek fd); read_loop fuel zfname fd bufsize size 0.

(** A run with the time it takes. *)
Definition timed_test (fuel : nat) (o : options) (fd : Z) : E K unit :=
  ts <~ getustime;
  _ <~ read_test fuel (zfname o) fd (bufsize o) (size o);
  te <~ getustime;
  _ <~ sys (Print_time (u64 (te - ts)));
  e_ret tt.

Definition shared_test (fuel : nat) (o : options) (fd : Z) : E K unit :=
  _ <~ sys Lock;
  r <~ sys Create;
  if negb (r =? 0) then e_exit 2 else
  _ <~ timed_test fuel o fd;
  _ <~ sys Unlock;
  e_ret tt.

Definition main (fuel : nat) (opts : list (Z * list Z)) : E K Z :=
  match main_options opts options0 with
  | None => e_ret 1
  | Some o =>
    buf <~ sys (Malloc (u64 (bufsize o)));
    if buf =? 0 then e_ret 2 else
    fd <~ sys (Open (zfname o));
    if fd =? -1 then e_ret 2 else
    _ <~ (if Z.land (mode o) (Z.lor RUN_SHARED RUN_UNSHARED) =? Z.lor RUN_SHARED RUN_UNSHARED
          then _ <~ read_test fuel (zfname o) fd (bufsize o) (size o); e_ret tt else e_ret tt);
    _ <~ (if negb (Z.land (mode o) RUN_UNSHARED =? 0) then timed_test fuel o fd else e_ret tt);
    _ <~ (if negb (Z.land (mode o) RUN_SHARED =? 0) then shared_test fuel o fd else e_ret tt);
    _ <~ sys (Close fd);
    e_ret 0
  end.
End program.

(** The second thread: it waits until main lets the mutex go. *)
Definition thproc : list call := [Lock; Unlock].

(** ** What is read

    The lengths of the reads of [n] bytes in blocks of [b]. *)
Fixpoint blocks (k : nat) (b n : Z) : list Z :=
  match k with
  | O => []
  | S k => if 0 <? n then Z.min b n :: blocks k b (n - Z.min b n) else []
  end.

Lemma sum_blocks b : 0 < b -> forall k n, 0 <= n <= Z.of_nat k -> zsum (blocks k b n) = n.
Proof.
  intros Hb. induction k as [|k IH]; intros n Hn; cbn [blocks]; [cbn; lia|].
  destruct (Z.ltb_spec 0 n); cbn; [|lia]. fold (zsum (blocks k b (n - Z.min b n))). rewrite IH by lia. lia.
Qed.

(** What [read_test] adds when [want] is to be read: blocks in turn, up to the end or to
    the first that is not given in full. *)
Inductive reads (zfname : list Z) (fd : Z) : list Z -> Z -> trace call -> Prop :=
| reads_all : reads zfname fd [] 0 []
| reads_block c want n u : reads zfname fd want n u -> reads zfname fd (c :: want) (c + n) ((Read fd c, c) :: u)
| reads_short c want r p : r <> c -> reads zfname fd (c :: want) 0 [(Read fd c, r); (Perror zfname, p)].

(** ** What a run has done *)
Definition mutex_calls (t : trace call) : list call :=
  omap (fun e => match e.1 with Lock | Unlock | Create => Some e.1 | _ => None end) t.
Definition times (t : trace call) : Z := zsum (map (fun e => match e.1 with Print_time _ => 1 | _ => 0 end) t).
Definition bytes_read (t : trace call) : Z := zsum (map (fun e => match e.1 with Read _ _ => e.2 | _ => 0 end) t).

(** The reads are given what they ask for; they stay in a block of [b] bytes. *)
Definition in_full (t : trace call) : Prop := Forall (fun e => match e.1 with Read _ n => e.2 = n | _ => True end) t.
Definition in_block (b : Z) (t : trace call) : Prop := Forall (fun e => match e.1 with Read _ n => 0 <= n <= b | _ => True end) t.

(** What a part of a run has added. *)
Record part (b : Z) (u : trace call) (ms : list call) (n bytes : Z) : Prop := {
  part_mutex : mutex_calls u = ms;
  part_times : times u = n;
  part_bytes : in_full u -> bytes_read u = bytes;
  part_block : in_block b u
}.

Lemma fget_part_app b u v ms1 ms2 n1 n2 d1 d2 : part b u ms1 n1 d1 -> part b v ms2 n2 d2 -> part b (u ++ v) (ms1 ++ ms2) (n1 + n2) (d1 + d2).
Proof.
  intros [<- <- Hd1 Hb1] [<- <- Hd2 Hb2]. split.
  - apply omap_app.
  - unfold times. by rewrite map_app, zsum_app.
  - intros [H1 H2]%Forall_app. unfold bytes_read in *. by rewrite map_app, zsum_app, Hd1, Hd2.
  - by apply Forall_app.
Qed.

Lemma fget_part_nil b : part b [] [] 0 0.
Proof. split; try done. by apply Forall_nil. Qed.

(** Calls that matter for the mutex, and calls that do not matter. *)
Lemma part_mutex_call b c r : c = Lock \/ c = Unlock \/ c = Create -> part b [(c, r)] [c] 0 0.
Proof. intros [->|[->| ->]]; split; try done; by apply Forall_singleton. Qed.

Definition quiet (c : call) : Prop := match c with Lock | Unlock | Create | Print_time _ | Read _ _ => False | _ => True end.
Lemma part_quiet b c r : quiet c -> part b [(c, r)] [] 0 0.
Proof. intros Hc. destruct c; try done; split; try done; by apply Forall_singleton. Qed.

Lemma fget_part_cons b c r v ms n d : quiet c -> part b v ms n d -> part b ((c, r) :: v) ms n d.
Proof. intros Hc Hv. by apply (fget_part_app b [(c, r)] v [] ms 0 n 0 d); [apply part_quiet|]. Qed.

Lemma blocks_fit b : 0 < b -> forall k n, Forall (fun c => 0 <= c <= b) (blocks k b n).
Proof.
  intros Hb. induction k as [|k IH]; intros n; cbn [blocks]; [by apply Forall_nil|].
  destruct (Z.ltb_spec 0 n); [|by apply Forall_nil]. apply Forall_cons; split; [lia|apply IH].
Qed.

Lemma reads_part b zf fd want n u : Forall (fun c => 0 <= c <= b) want -> reads zf fd want n u -> part b u [] 0 (zsum want).
Proof.
  intros Hw. induction 1 as [|c want n u Hu IH|c want r p Hr]; [apply fget_part_nil| |]; apply Forall_cons in Hw as [Hc Hw].
  - apply (fget_part_app b [_] u [] [] 0 0 c (zsum want)); [|by apply IH]. split; try done; [intros _; cbn; lia|by apply Forall_singleton].
  - split; try done; [intros [H _]%Forall_cons; cbn in H; done|]. by repeat apply Forall_cons_2.
Qed.

Section proofs.
Context (answers : trace call -> call -> Z).
#[local] Instance the_os : Os call (trace call) := tracing answers.

Lemma read_loop_reads zf fd b n : 0 < b < 2 ^ 31 -> n < 2 ^ 63 -> forall fuel k rsize t,
  0 <= rsize -> n - rsize <= Z.of_nat k -> (length (blocks k b (n - rsize)) < fuel)%nat ->
  adds t (read_loop fuel zf fd b n rsize)
    (fun r u => exists m, r = inr (rsize + m) /\ reads zf fd (blocks k b (n - rsize)) m u).
Proof.
  intros Hb Hn. induction fuel as [|fuel IH]; intros k rsize t H0 Hk Hf; [lia|]. cbn [read_loop].
  destruct (Z.ltb_spec rsize n) as [Hlt|Hge].
  2:{ apply adds_ret. exists 0. split; [f_equal; lia|]. destruct k; cbn [blocks]; [apply reads_all|].
      rewrite (proj2 (Z.ltb_ge 0 _)) by lia. apply reads_all. }
  destruct k as [|k]; [lia|]. cbn [blocks] in *. rewrite (proj2 (Z.ltb_lt 0 _)) in * by lia. cbn [length] in Hf.
  rewrite (s64_small (n - rsize)) by lia. set (c := Z.min b (n - rsize)) in *.
  replace (if b <? n - rsize then b else n - rsize) with c by (unfold c; destruct (Z.ltb_spec b (n - rsize)); lia).
  rewrite (u64_small c) by lia. apply adds_sys. intros r. destruct (Z.eqb_spec r c) as [->|Hr]; cbn [negb].
  - rewrite s64_small by lia. replace (n - rsize - c) with (n - (rsize + c)) in * by lia.
    eapply adds_mono; [apply (IH k (rsize + c)); lia|]. intros r u (m & -> & Hu). exists (c + m).
    split; [f_equal; lia|]. by apply reads_block.
  - apply adds_sys. intros p. apply adds_ret. exists 0. split; [f_equal; lia|]. by apply reads_short.
Qed.

Lemma read_test_part t fuel o fd : 0 < bufsize o < 2 ^ 31 -> 0 <= size o < 2 ^ 63 -> (Z.to_nat (size o) < fuel)%nat ->
  adds t (read_test fuel (zfname o) fd (bufsize o) (size o))
    (fun r u => exists n, r = inr n /\ part (bufsize o) u [] 0 (size o)).
Proof.
  intros Hb Hs Hf. unfold read_test. apply adds_sys. intros p.
  eapply adds_mono; [apply (read_loop_reads (zfname o) fd _ _ Hb (proj2 Hs) fuel (Z.to_nat (size o)) 0); [lia|lia|]|].
  - eapply Nat.le_lt_trans; [|exact Hf]. rewrite Z.sub_0_r. generalize (size o) at 2. generalize (Z.to_nat (size o)). intros k.
    induction k as [|k IH]; intros n; cbn [blocks length]; [lia|]. destruct (0 <? n); cbn [length]; [|lia]. specialize (IH (n - Z.min (bufsize o) n)). lia.
  - intros r u (m & -> & Hu). exists (0 + m). split; [done|]. apply fget_part_cons; [done|].
    rewrite Z.sub_0_r in Hu. apply (reads_part (bufsize o)) in Hu; [|apply blocks_fit; lia]. by rewrite sum_blocks in Hu by lia.
Qed.

Lemma fget_adds_getustime {B} t (k : Z -> E (trace call) B) Q :
  (forall r, adds (t ++ [(Gettimeofday, r)]) (k (u64 r)) (fun x v => Q x ((Gettimeofday, r) :: v))) -> adds t (e_bind getustime k) Q.
Proof. exact (adds_sys answers t Gettimeofday (fun r => k (u64 r)) Q). Qed.

Lemma timed_test_part t fuel o fd : 0 < bufsize o < 2 ^ 31 -> 0 <= size o < 2 ^ 63 -> (Z.to_nat (size o) < fuel)%nat ->
  adds t (timed_test fuel o fd) (fun r u => r = inr tt /\ part (bufsize o) u [] 1 (size o)).
Proof.
  intros Hb Hs Hf. unfold timed_test. apply fget_adds_getustime. intros ts.
  eapply adds_bind; [by apply read_test_part|by intros ? ? (? & ? & _)|]. intros n u (? & _ & Hu).
  apply fget_adds_getustime. intros te. apply adds_sys. intros p. apply adds_ret. split; [done|]. apply fget_part_cons; [done|].
  rewrite <-(Z.add_0_r (size o)). apply (fget_part_app _ u _ [] [] 0 1 (size o) 0); [exact Hu|]. apply fget_part_cons; [done|].
  split; try done. by apply Forall_singleton.
Qed.

(** How main ends: with 0, the second thread made and the mutex let go if there is a
    shared run; with 2 when the thread was not made. *)
Definition shared_ends (r : Z + unit) (b : Z) (u : trace call) (bytes : Z) : Prop :=
  match r with
  | inl code => code = 2 /\ part b u [Lock; Create] 0 0
  | inr _ => part b u [Lock; Create; Unlock] 1 bytes
  end.

Lemma shared_test_part t fuel o fd : 0 < bufsize o < 2 ^ 31 -> 0 <= size o < 2 ^ 63 -> (Z.to_nat (size o) < fuel)%nat ->
  adds t (shared_test fuel o fd) (fun r u => shared_ends r (bufsize o) u (size o)).
Proof.
  intros Hb Hs Hf. unfold shared_test. apply adds_sys. intros l. apply adds_sys. intros r.
  assert (Hlc : part (bufsize o) [(Lock, l); (Create, r)] [Lock; Create] 0 0)
    by (apply (fget_part_app _ [_] [_] [_] [_] 0 0 0 0); apply part_mutex_call; auto).
  destruct (negb (r =? 0)); [by apply adds_exit|].
  eapply adds_bind; [by apply timed_test_part|by intros ? ? [? _]|]. intros [] u [_ Hu].
  apply adds_sys. intros p. apply adds_ret. cbn [shared_ends].
  apply (fget_part_app _ [_; _] _ [Lock; Create] [Unlock] 0 1 0 (size o)); [exact Hlc|].
  rewrite <-(Z.add_0_r (size o)). apply (fget_part_app _ u [_] [] [_] 1 0); [exact Hu|]. apply part_mutex_call. tauto.
Qed.
End proofs.

(** fget-light-test with a block of at least one byte always ends.  Its reads stay in the
    block it has allocated; when it ends with 0 it has printed one time for each kind of
    run asked for, has read the size asked for in each of them and in the warming up
    when both are asked for (unless a read was short), and has let the mutex go if it
    took it, so that the second thread ends as well; else it ends with 2. *)
Theorem fget_light_main answers fuel opts o : main_options opts options0 = Some o ->
  0 < bufsize o < 2 ^ 31 -> 0 <= size o < 2 ^ 63 -> (Z.to_nat (size o) < fuel)%nat ->
  let shared := negb (Z.land (mode o) RUN_SHARED =? 0) in
  let unshared := negb (Z.land (mode o) RUN_UNSHARED =? 0) in
  let both := Z.land (mode o) (Z.lor RUN_SHARED RUN_UNSHARED) =? Z.lor RUN_SHARED RUN_UNSHARED in
  exists r t, main (Os0 := tracing answers) fuel opts [] = Ok (r, t) /\ in_block (bufsize o) t /\
    (either (fun code _ => code = 2) (fun code _ => code = 2) r t \/
     r = inr 0 /\ mutex_calls t = (if shared then [Lock; Create; Unlock] else []) /\
     times t = Z.b2z shared + Z.b2z unshared /\
     (in_full t -> bytes_read t = (Z.b2z both + Z.b2z shared + Z.b2z unshared) * size o)).
Proof.
  intros Ho Hb Hs Hf shared unshared both. apply adds_run. unfold main. rewrite Ho. fold shared unshared both.
  apply adds_sys. intros buf. destruct (buf =? 0); [apply adds_ret; split; [by apply Forall_singleton|by left]|].
  apply adds_sys. intros fd. destruct (fd =? -1); [apply adds_ret; split; [by repeat apply Forall_cons_2|by left]|].
  eapply (adds_bind _ _ _ (fun r u => r = inr tt /\ part (bufsize o) u [] 0 (Z.b2z both * size o))); [|by intros ? ? [? _]|].
  { destruct both; [|apply adds_ret; split; [done|apply fget_part_nil]].
    eapply adds_bind; [by apply read_test_part|by intros ? ? (? & ? & _)|]. intros n u (? & _ & Hu). apply adds_ret.
    rewrite app_nil_r, Z.mul_1_l. by split. }
  intros [] u1 [_ H1].
  eapply (adds_bind _ _ _ (fun r u => r = inr tt /\ part (bufsize o) u [] (Z.b2z unshared) (Z.b2z unshared * size o))); [|by intros ? ? [? _]|].
  { destruct unshared; [|apply adds_ret; split; [done|apply fget_part_nil]]. rewrite Z.mul_1_l. by apply timed_test_part. }
  intros [] u2 [_ H2]. pose proof (fget_part_app _ _ _ _ _ _ _ _ _ H1 H2) as H12. cbn [app] in H12.
  eapply (adds_bind _ _ _ (fun r u => if shared then shared_ends r (bufsize o) u (size o) else r = inr tt /\ part (bufsize o) u [] 0 0)).
  { destruct shared; [by apply shared_test_part|]. apply adds_ret. split; [done|apply fget_part_nil]. }
  - intros code u3 H3. destruct shared; [|by destruct H3]. destruct H3 as [-> H3].
    pose proof (fget_part_app _ _ _ _ _ _ _ _ _ H12 H3) as H. rewrite <-(assoc_L (++)) in H.
    split; [|by left]. do 2 (apply Forall_cons_2; [done|]). apply H.
  - intros [] u3 H3. apply adds_sys. intros p. apply adds_ret.
    assert (H : part (bufsize o) u3 (if shared then [Lock; Create; Unlock] else []) (Z.b2z shared) (Z.b2z shared * size o)).
    { destruct shared; [by rewrite Z.mul_1_l|apply H3]. }
    pose proof (fget_part_app _ _ _ _ _ _ _ _ _ H12 (fget_part_app _ _ _ _ _ _ _ _ _ H (part_quiet _ (Close fd) p I))) as Hp.
    rewrite <-(assoc_L (++)), app_nil_r, !Z.add_0_r in Hp.
    destruct (fget_part_cons _ (Malloc (u64 (bufsize o))) buf _ _ _ _ I (fget_part_cons _ (Open (zfname o)) fd _ _ _ _ I Hp)) as [Hm Ht Hd Hk].
    split; [exact Hk|]. right. split; [done|]. split; [exact Hm|]. split; [rewrite Ht; lia|]. intros Hfull. rewrite Hd by done. lia.
Qed.

(** With a block of no bytes (-b 0) and a kernel that reads nothing when asked for
    nothing, the loop never ends. *)
Lemma fget_no_block answers fuel zf fd n : 0 < n < 2 ^ 63 -> (forall t, answers t (Read fd 0) = 0) ->
  forall t, read_loop (K := trace call) (Os0 := tracing answers) fuel zf fd 0 n 0 t = NoFuel.
Proof.
  intros Hn Ha. induction fuel as [|fuel IH]; intros t; [done|]. cbn [read_loop].
  rewrite (proj2 (Z.ltb_lt 0 n)), Z.sub_0_r, s64_small, (proj2 (Z.ltb_lt 0 n)) by lia.
  unfold e_bind, sys, e_run, mbind, M_bind, os, tracing. cbn [mret M_ret]. change (u64 0) with 0. rewrite Ha. cbn [Z.eqb negb].
  apply IH.
Qed.

Lemma fget_no_block_option : main_options [(98, str "0"%string)] options0 = Some (mk_options DEVZERO_FILE 0 DEF_READSIZE 3).
Proof. reflexivity. Qed.
