(* ===== verification/EpwBench.v ===== *)
(** * epwbench.c: how long epoll_wait takes with all pipes ready

    The program puts a byte in each of its pipes, and then counts how many calls of
    [epoll_wait] it makes in a quarter of a second, 16 times.  It is written as the calls
    it makes (see [Trace]); the averages of the samples are in [Stats]. *)
From Stdlib Require Import ZArith Lia Bool.
From stdpp Require Import base tactics list.
From S2P Require Import Prelude Exits Libc Trace.

(** [Pipe i] fills [pipes[2 * i]] and [pipes[2 * i + 1]], and the other calls name a
    descriptor by its place in [pipes].  [Gettimeofday] gives microseconds.  [Complain] is
    the message about an unexpected number of events, [Print_sample] the line of a run. *)
Inductive call :=
| Setrlimit (n : Z) | Calloc (n size : Z) | Epoll_create (n : Z) | Pipe (i : Z) | Ctl_add (cell idx : Z) | Write (cell : Z)
| Epoll_wait (n : Z) | Gettimeofday | Complain (res want : Z) | Print_sample (tr work : Z).

Definition RUNTIMES : nat := 16.
Definition NBATCH : nat := 16.
Definition MIN_TESTTIME : Z := 250 * 1000.

Record options := mk_options { num_pipes : Z; quiet : Z }.
Definition options0 : options := mk_options 200 0.

(** The results of getopt. *)
Fixpoint main_options (opts : list (Z * list Z)) (o : options) : option options :=
  match opts with
  | [] => Some o
  | (c, optarg) :: opts =>
    if c =? 110 then main_options opts (mk_options (atoi optarg) (quiet o))
    else if c =? 113 then main_options opts (mk_options (num_pipes o) (s32 (quiet o + 1)))
    else None
  end.

Section program.
Context {K : Type} `{!Os call K}.

Definition getustime : E K Z := tm <~ sys Gettimeofday; e_ret (u64 tm).

(** The inner loop of [run_once], [n] turns of it. *)
Fixpoint batch (n : nat) (num_pipes : Z) : E K unit :=
  match n with
  | O => e_ret tt
  | S n =>
    res <~ sys (Epoll_wait num_pipes);
    _ <~ (if negb (res =? num_pipes) then _ <~ sys (Complain res num_pipes); e_ret tt else e_ret tt);
    batch n num_pipes
  end.

(** The results are [*work] and [*tr]. *)
Fixpoint run_loop (fuel : nat) (num_pipes ts work : Z) : E K (Z * Z) :=
  match fuel with
  | O => nofuel
  | S fuel =>
    _ <~ batch NBATCH num_pipes;
    let work := s64 (work + Z.of_nat NBATCH) in
    now <~ getustime;
    let tr := u64 (now - ts) in
    if tr <? MIN_TESTTIME then run_loop fuel num_pipes ts work else e_ret (work, tr)
  end.

Definition run_once (fuel : nat) (num_pipes : Z) : E K (Z * Z) :=
  ts <~ getustime; run_loop fuel num_pipes ts 0.

(** An access to [pipes[j]]. *)
Definition cell (num_pipes j : Z) : E K Z :=
  if (0 <=? j) && (j <? s32 (num_pipes * 2)) then e_ret j else e_run fault.

Definition open_pipes (num_pipes : Z) : E K unit :=
  e_for_each (seqZ 0 num_pipes) (fun i =>
    c <~ cell num_pipes (2 * i + 1); r <~ sys (Pipe i); if r =? -1 then e_exit 5 else e_ret tt).

Definition add_pipes (num_pipes : Z) : E K unit :=
  e_for_each (seqZ 0 num_pipes) (fun i =>
    c <~ cell num_pipes (2 * i); r <~ sys (Ctl_add c i); if r <? 0 then e_exit 6 else e_ret tt).

Definition fill_pipes (num_pipes : Z) : E K unit :=
  e_for_each (seqZ 0 num_pipes) (fun i => c <~ cell num_pipes (2 * i + 1); _ <~ sys (Write c); e_ret tt).

(** [n] runs; the samples are the quotients of the results. *)
Fixpoint samples (n fuel : nat) (o : options) : E K (list (Z * Z)) :=
  match n with
  | O => e_ret []
  | S n =>
    wt <~ run_once fuel (num_pipes o);
    if wt.1 =? 0 then e_exit 7 else
    _ <~ (if quiet o =? 0 then _ <~ sys (Print_sample wt.2 wt.1); e_ret tt else e_ret tt);
    l <~ samples n fuel o;
    e_ret (wt :: l)
  end.

(** main; its result is the samples when it is about to return 0. *)
Definition main (fuel : nat) (opts : list (Z * list Z)) : E K (list (Z * Z)) :=
  match main_options opts options0 with
  | None => e_exit 1
  | Some o =>
    r <~ sys (Setrlimit (u64 (s32 (num_pipes o * 2 + 50))));
    if r =? -1 then e_exit 2 else
    e <~ sys (Calloc (u64 (num_pipes o)) 12);
    p <~ sys (Calloc (u64 (s32 (num_pipes o * 2))) 4);
    if (e =? 0) || (p =? 0) then e_exit 3 else
    epfd <~ sys (Epoll_create (num_pipes o));
    if epfd =? -1 then e_exit 4 else
    _ <~ open_pipes (num_pipes o);
    _ <~ add_pipes (num_pipes o);
    _ <~ fill_pipes (num_pipes o);
    samples RUNTIMES fuel o
  end.
End program.

(** ** What a run has done *)
Definition waits (t : trace call) : list Z := omap (fun e => match e.1 with Epoll_wait _ => Some e.2 | _ => None end) t.
Definition complaints (t : trace call) : list Z := omap (fun e => match e.1 with Complain res _ => Some res | _ => None end) t.

(** The number of looks at the clock. *)
Definition is_clock (c : call) : bool := match c with Gettimeofday => true | _ => false end.
Abbreviation looks := (Trace.looks is_clock).

Definition work_of (l : list (Z * Z)) : Z := zsum (map fst l).

(** What a part of a run has added: [n] calls of [epoll_wait], a complaint about each that
    did not give [np] events, [k] looks at the clock. *)
Record part (np : Z) (u : trace call) (n : Z) (k : nat) : Prop := {
  part_waits : Z.of_nat (length (waits u)) = n;
  part_complaints : complaints u = List.filter (fun r => negb (r =? np)) (waits u);
  part_looks : looks u = k
}.

Lemma epw_waits_app t u : waits (t ++ u) = (waits t ++ waits u)%list.
Proof. apply omap_app. Qed.
Lemma complaints_app t u : complaints (t ++ u) = (complaints t ++ complaints u)%list.
Proof. apply omap_app. Qed.
Lemma epw_part_app np u v n1 n2 k1 k2 : part np u n1 k1 -> part np v n2 k2 -> part np (u ++ v) (n1 + n2) (k1 + k2).
Proof.
  intros [<- Hc1 <-] [<- Hc2 <-]. split; rewrite ?epw_waits_app, ?complaints_app, ?looks_app, ?length_app, ?List.filter_app; [lia| |done].
  by rewrite Hc1, Hc2.
Qed.

Lemma epw_part_nil np : part np [] 0 0.
Proof. by split. Qed.

Definition other (c : call) : Prop := match c with Epoll_wait _ | Complain _ _ | Gettimeofday => False | _ => True end.
Lemma epw_part_cons np c r v n k : other c -> part np v n k -> part np ((c, r) :: v) n k.
Proof. intros Hc [H1 H2 H3]. destruct c; try done; by split. Qed.

Section proofs.
Context (answers : trace call -> call -> Z).
#[local] Instance the_os : Os call (trace call) := tracing answers.

(** The clock of a kernel: it goes on, by [MIN_TESTTIME] at the latest in [k] looks. *)
Abbreviation clock_goes clock k := (Trace.clock_goes answers is_clock Gettimeofday clock MIN_TESTTIME k).

Lemma batch_part np n t : adds t (batch n np) (fun r u => r = inr tt /\ part np u (Z.of_nat n) 0).
Proof.
  revert t. induction n as [|n IH]; intros t; cbn [batch]; [by apply adds_ret|].
  apply adds_sys. intros res.
  eapply (adds_bind _ _ _ (fun r u => r = inr tt /\ part np ((Epoll_wait np, res) :: u) 1 0)); [|by intros ? ? [? _]|].
  - destruct (res =? np) eqn:Er; cbn [negb].
    + apply adds_ret. split; [done|]. split; [done| |done]. cbn. by rewrite Er.
    + apply adds_sys. intros p. apply adds_ret. split; [done|]. split; [done| |done]. cbn. by rewrite Er.
  - intros [] u [_ Hu]. eapply adds_mono; [apply IH|]. intros r v [-> Hv]. split; [done|].
    change (?a :: u ++ v) with ((a :: u) ++ v)%list. replace (Z.of_nat (S n)) with (1 + Z.of_nat n) by lia.
    by apply (epw_part_app np _ v 1 (Z.of_nat n) 0 0).
Qed.

Lemma adds_getustime {B} clock k t (f : Z -> E (trace call) B) np Q : clock_goes clock k ->
  (forall u, part np u 0 1 -> adds (t ++ u) (f (clock (looks t))) (fun x v => Q x (u ++ v))) -> adds t (e_bind getustime f) Q.
Proof. intros Hc Hf. eapply adds_tick; [exact Hc|]. apply (Hf [_]). by split. Qed.

Lemma run_loop_part clock k np from fuel : clock_goes clock k -> forall i t work, looks t = S (from + i) -> (i < k)%nat -> (k - i <= fuel)%nat ->
  0 <= work -> work + 16 * Z.of_nat (k - i) < 2 ^ 63 ->
  adds t (run_loop fuel np (clock from) work) (fun r u => exists w tr j, r = inr (work + w, tr) /\
    part np u w j /\ 0 < w /\ (16 | w) /\ MIN_TESTTIME <= tr).
Proof.
  intros Hc. induction fuel as [|fuel IH]; intros i t work Hl Hi Hf Hw Hb; [lia|]. cbn [run_loop].
  eapply adds_bind; [apply batch_part|by intros ? ? [? _]|]. intros [] u [_ Hu].
  apply (adds_getustime clock k _ _ np); [done|]. intros u1 Hu1.
  rewrite looks_app, Hl, (part_looks _ _ _ _ Hu), Nat.add_0_r. change (Z.of_nat NBATCH) with 16 in *.
  destruct Hc as [Ha Hm Hx Hk]. pose proof (Hm from (S (from + i))). pose proof (Hx (S (from + i))).
  rewrite (u64_small (_ - _)) by lia. rewrite s64_small by lia.
  assert (H16 : part np (u ++ u1) 16 1) by (by apply (epw_part_app np u u1 16 0 0 1)).
  destruct (Z.ltb_spec (clock (S (from + i)) - clock from) MIN_TESTTIME) as [Hlt|Hge].
  - destruct (Nat.eq_dec (S i) k) as [<-|Hne]; [specialize (Hk from); rewrite Nat.add_succ_r in Hk; lia|].
    eapply adds_mono; [apply (IH (S i)); [|lia..]|].
    + rewrite !looks_app, Hl, (part_looks _ _ _ _ Hu), (part_looks _ _ _ _ Hu1). lia.
    + intros r v (w & tr & j & -> & Hv & Hw1 & Hw2 & Htr). exists (16 + w), tr, (S j). split; [do 2 f_equal; lia|].
      split; [rewrite (assoc_L (++)); by apply (epw_part_app np _ v 16 w 1 j)|]. split; [lia|]. split; [|done].
      apply Z.divide_add_r; [apply Z.divide_refl|done].
  - apply adds_ret. exists 16, (clock (S (from + i)) - clock from), 1%nat. rewrite app_nil_r. split; [done|]. split; [done|]. split; [lia|]. split; [apply Z.divide_refl|done].
Qed.

(** A run: its samples are of whole batches and of the time wanted. *)
Definition good_sample (wt : Z * Z) : Prop := 0 < wt.1 /\ (16 | wt.1) /\ MIN_TESTTIME <= wt.2.

Lemma run_once_part clock k np fuel t : clock_goes clock k -> (0 < k <= fuel)%nat -> 16 * Z.of_nat k < 2 ^ 63 ->
  adds t (run_once fuel np) (fun r u => exists wt j, r = inr wt /\ good_sample wt /\ part np u wt.1 j).
Proof.
  intros Hc Hk Hb. unfold run_once. apply (adds_getustime clock k _ _ np); [done|]. intros u Hu.
  eapply adds_mono.
  - apply (run_loop_part clock k np (looks t) fuel Hc 0); [|lia..]. rewrite looks_app, (part_looks _ _ _ _ Hu). lia.
  - intros r v (w & tr & j & -> & Hv & H). exists (0 + w, tr), (1 + j)%nat. split; [done|]. split; [exact H|].
    by apply (epw_part_app np u v 0 w 1 j).
Qed.

Lemma samples_part clock k o fuel n t : clock_goes clock k -> (0 < k <= fuel)%nat -> 16 * Z.of_nat k < 2 ^ 63 ->
  adds t (samples n fuel o) (fun r u => exists l j, r = inr l /\ length l = n /\ Forall good_sample l /\ part (num_pipes o) u (work_of l) j).
Proof.
  intros Hc Hk Hb. revert t. induction n as [|n IH]; intros t; cbn [samples].
  { apply adds_ret. exists [], 0%nat. split; [done|]. split; [done|]. split; [by apply Forall_nil|apply epw_part_nil]. }
  eapply adds_bind; [by apply (run_once_part clock k)|by intros ? ? (? & ? & ? & _)|].
  intros wt u (wt' & j & [= <-] & Hg & Hu). rewrite (proj2 (Z.eqb_neq wt.1 0)) by (destruct Hg; lia).
  eapply (adds_bind _ _ _ (fun r v => r = inr tt /\ part (num_pipes o) v 0 0)); [|by intros ? ? [? _]|].
  { destruct (quiet o =? 0); [apply adds_sys; intros p|]; apply adds_ret; (split; [done|]); [apply epw_part_cons; [done|]|]; apply epw_part_nil. }
  intros [] v [_ Hv]. eapply adds_bind; [apply IH|by intros ? ? (? & ? & ? & _)|].
  intros l x (l' & j' & [= <-] & Hl & Hf & Hx). apply adds_ret. exists (wt :: l), (j + (0 + j'))%nat. rewrite app_nil_r.
  split; [done|]. split; [cbn; lia|]. split; [by apply Forall_cons|]. cbn [work_of map foldr].
  apply (epw_part_app _ _ _ wt.1 (work_of l)); [done|]. by apply (epw_part_app _ v x 0 (work_of l) 0 j').
Qed.

(** The set-up: it ends the program, or goes through without looking at the clock. *)
Definition setup (np : Z) (r : Z + unit) (u : trace call) : Prop :=
  match r with inl code => code = 5 \/ code = 6 | inr _ => part np u 0 0 end.

Lemma setup_for_each np (l : list Z) (f : Z -> E (trace call) unit) :
  (forall i t, i ∈ l -> adds t (f i) (setup np)) -> forall t, adds t (e_for_each l f) (setup np).
Proof.
  induction l as [|x l IH]; intros Hf t; cbn [e_for_each]; [apply adds_ret, epw_part_nil|].
  eapply adds_bind; [apply Hf, list_elem_of_here|done|]. intros [] u Hu.
  eapply adds_mono; [apply IH; intros i t' Hi; apply Hf; by apply list_elem_of_further|].
  intros [code|[]] v Hv; [done|]. by apply (epw_part_app np u v 0 0 0 0).
Qed.

Lemma adds_cell {B} t np j (k : Z -> E (trace call) B) Q : 0 <= j < s32 (np * 2) -> adds t (k j) Q -> adds t (e_bind (cell np j) k) Q.
Proof.
  intros Hj Hk. unfold cell. rewrite (proj2 (Z.leb_le 0 j)), (proj2 (Z.ltb_lt j _)) by lia. exact Hk.
Qed.
End proofs.

(** epwbench with fewer than 2^30 pipes always ends, whatever the kernel answers, if its clock goes
    on by a quarter of a second in every [k] looks: with 2 to 6 as a call of its set-up
    fails, or with 16 samples, never with 7.  It stays in its array of descriptors; each
    sample has a positive number of whole batches of 16 calls and took at least the time
    wanted; as many calls of [epoll_wait] as the samples say were made, and there is one
    complaint for each of them that did not report every pipe. *)
Theorem epwbench_main answers clock k fuel opts o : main_options opts options0 = Some o -> num_pipes o < 2 ^ 30 ->
  Trace.clock_goes answers is_clock Gettimeofday clock MIN_TESTTIME k -> (0 < k <= fuel)%nat -> 16 * Z.of_nat k < 2 ^ 63 ->
  exists r t, main (Os0 := tracing answers) fuel opts [] = Ok (r, t) /\
    match r with
    | inl code => 2 <= code <= 6
    | inr l => length l = RUNTIMES /\ Forall good_sample l /\ Z.of_nat (length (waits t)) = work_of l /\
        complaints t = List.filter (fun res => negb (res =? num_pipes o)) (waits t)
    end.
Proof.
  intros Ho Hn Hc Hk Hb. apply adds_run. unfold main. rewrite Ho. set (np := num_pipes o) in *.
  apply adds_sys; intros r. destruct (r =? -1); [apply adds_exit; lia|].
  apply adds_sys; intros e. apply adds_sys; intros p. destruct (_ || _); [apply adds_exit; lia|].
  apply adds_sys; intros epfd. destruct (epfd =? -1); [apply adds_exit; lia|].
  assert (Hcell : forall i, i ∈ seqZ 0 np -> 0 <= 2 * i /\ 2 * i + 1 < s32 (np * 2)).
  { intros i Hi%elem_of_seqZ. rewrite s32_small by lia. lia. }
  assert (Hone : forall c q (t : trace call), other c -> part np [(c, q)] 0 0) by (intros; apply epw_part_cons; [done|apply epw_part_nil]).
  eapply adds_bind; [apply (setup_for_each np)|intros code u [->| ->]; lia|].
  { intros i t Hi. apply adds_cell; [specialize (Hcell i Hi); lia|]. apply adds_sys; intros q.
    destruct (q =? -1); [apply adds_exit; by left|apply adds_ret; by apply Hone]. }
  intros [] u1 H1. eapply adds_bind; [apply (setup_for_each np)|intros code u [->| ->]; lia|].
  { intros i t Hi. apply adds_cell; [specialize (Hcell i Hi); lia|]. apply adds_sys; intros q.
    destruct (q <? 0); [apply adds_exit; by right|apply adds_ret; by apply Hone]. }
  intros [] u2 H2. eapply adds_bind; [apply (setup_for_each np)|intros code u [->| ->]; lia|].
  { intros i t Hi. apply adds_cell; [specialize (Hcell i Hi); lia|]. apply adds_sys; intros q. apply adds_ret. by apply Hone. }
  intros [] u3 H3. eapply adds_mono; [by apply (samples_part answers clock k)|].
  intros r' v (l & j & -> & Hl & Hf & Hv).
  pose proof (epw_part_app _ _ _ _ _ _ _ H1 (epw_part_app _ _ _ _ _ _ _ H2 (epw_part_app _ _ _ _ _ _ _ H3 Hv))) as [Hw Hq _].
  split; [done|]. split; [done|]. split; [exact Hw|exact Hq].
Qed.
