(* ===== verification/PollRdhup.v ===== *)
(** * pollrdhup-test.c: what poll says when the other side has shut down its writing

    The program listens on a socket in the file system, lets a child connect to it and
    shut down its writing side, and prints the events that [poll] reports.  It is written
    as the calls it makes (see [Trace]); [Fork] gives 0 in the child, so that the main
    of this file is that of both processes. *)
From Stdlib Require Import ZArith Lia Bool.
From stdpp Require Import base tactics list strings.
From S2P Require Import Prelude Exits Libc Trace.

(** [Bind] and [Connect] are given the name in [sun_path] and the length passed. *)
Inductive call :=
| Socket | Unlink (path : list Z) | Bind (fd : Z) (path : list Z) (len : Z) | Listen (fd backlog : Z)
| Connect (fd : Z) (path : list Z) (len : Z) | Close (fd : Z) | Fork | Shutdown_wr (fd : Z) | Read1 (fd : Z)
| Accept (fd : Z) | Poll (fd events timeout : Z) | Print_events (names : list (list Z)) | Write (fd : Z) (data : list Z)
| Waitpid (pid : Z) | Remove (path : list Z).

Definition POLLIN : Z := 1.
Definition POLLOUT : Z := 4.
Definition POLLHUP : Z := 16.
Definition POLLRDHUP : Z := 8192.
Definition USOCK_PATH : list Z := str "/tmp/pollrdhup-test"%string.

(** The size of [sun_path] and of [sun_family]. *)
Definition SUN_PATH : Z := 108.
Definition SUN_FAMILY : Z := 2.

(** The names that [prdht_events_print] prints. *)
Definition prdht_events_print (events : Z) : list (list Z) :=
  ((if negb (Z.land events POLLIN =? 0) then [str " POLLIN"%string] else []) ++
   (if negb (Z.land events POLLOUT =? 0) then [str " POLLOUT"%string] else []) ++
   (if negb (Z.land events POLLHUP =? 0) then [str " POLLHUP"%string] else []) ++
   (if negb (Z.land events POLLRDHUP =? 0) then [str " POLLRDHUP"%string] else []))%list.

Section program.
Context {K : Type} `{!Os call K}.

(** [strcpy] into [sun_path]. *)
Definition sun_strcpy (path : list Z) : E K (list Z) := if strlen path <? SUN_PATH then e_ret path else e_run fault.

Definition prdht_connect (path : list Z) : E K Z :=
  susk <~ sys Socket;
  if susk =? -1 then e_ret (-1) else
  name <~ sun_strcpy path;
  r <~ sys (Connect susk name (strlen name + SUN_FAMILY));
  if r =? -1 then _ <~ sys (Close susk); e_ret (-1) else e_ret susk.

(** [strncpy] into the zeroed [sun_path], all but its last byte. *)
Definition prdht_sockcreate (path : list Z) : E K Z :=
  usk <~ sys Socket;
  if usk =? -1 then e_ret (-1) else
  let name := take (Z.to_nat (SUN_PATH - 1)) path in
  _ <~ sys (Unlink name);
  r <~ sys (Bind usk name (strlen name + SUN_FAMILY));
  if r =? -1 then _ <~ sys (Close usk); e_ret (-1) else
  r <~ sys (Listen usk 8);
  if r =? -1 then _ <~ sys (Close usk); e_ret (-1) else e_ret usk.

Definition child (path : list Z) : E K Z :=
  cufd <~ prdht_connect path;
  if cufd =? -1 then e_exit 1 else
  _ <~ sys (Shutdown_wr cufd);
  _ <~ sys (Read1 cufd);
  _ <~ sys (Close cufd);
  e_exit 0.

Definition main : E K Z :=
  let upath := USOCK_PATH in
  ufd <~ prdht_sockcreate upath;
  if ufd =? -1 then e_ret 1 else
  cpid <~ sys Fork;
  if cpid =? 0 then child upath else
  if cpid =? -1 then e_ret 2 else
  cufd <~ sys (Accept ufd);
  if cufd =? -1 then e_ret 3 else
  revents <~ sys (Poll cufd (Z.lor POLLIN POLLRDHUP) (-1));
  _ <~ sys (Print_events (prdht_events_print (u32 revents)));
  _ <~ sys (Write cufd (str "r"%string));
  _ <~ sys (Close cufd);
  _ <~ sys (Close ufd);
  _ <~ sys (Waitpid cpid);
  _ <~ sys (Remove upath);
  e_ret 0.
End program.

(** ** What a run has done *)

(** The descriptors that are open, from those that were before. *)
Definition open_after (l : list Z) (t : trace call) : list Z :=
  fold_left (fun l e => match e with
    | (Socket, fd) | (Accept _, fd) => if fd =? -1 then l else fd :: l
    | (Close fd, _) => List.filter (fun x => negb (x =? fd)) l
    | _ => l
    end) t l.

(** What [poll] answered, and what was printed. *)
Definition polled (t : trace call) : list Z := omap (fun e => match e with (Poll _ _ _, r) => Some r | _ => None end) t.
Definition printed (t : trace call) : list (list (list Z)) := omap (fun e => match e with (Print_events l, _) => Some l | _ => None end) t.
Definition forked (t : trace call) : list Z := omap (fun e => match e with (Fork, pid) => Some pid | _ => None end) t.
Definition waited (t : trace call) : list Z := omap (fun e => match e with (Waitpid pid, _) => Some pid | _ => None end) t.

(** A flag is named if and only if it is set. *)
Lemma elem_of_if (b : bool) (x y : list Z) : x ∈ (if b then [y] else []) <-> b = true /\ x = y.
Proof. destruct b; [rewrite list_elem_of_singleton|rewrite elem_of_nil]; naive_solver. Qed.

Lemma events_names e name flag :
  (flag, name) ∈ [(POLLIN, " POLLIN"); (POLLOUT, " POLLOUT"); (POLLHUP, " POLLHUP"); (POLLRDHUP, " POLLRDHUP")]%string ->
  str name ∈ prdht_events_print e <-> Z.land e flag <> 0.
Proof.
  intros H. unfold prdht_events_print. rewrite !elem_of_app, !elem_of_if, !negb_true_iff, !Z.eqb_neq.
  rewrite !elem_of_cons, elem_of_nil in H. repeat destruct H as [H|H]; try done; injection H as -> ->;
    (split; [|auto]); intros Hs; repeat destruct Hs as [Hs|Hs]; destruct Hs as [Hs He]; done.
Qed.

Lemma rdhup_open_app l t u : open_after l (t ++ u) = open_after (open_after l t) u.
Proof. apply fold_left_app. Qed.
Lemma forked_app t u : forked (t ++ u) = (forked t ++ forked u)%list.
Proof. apply omap_app. Qed.
Lemma waited_app t u : waited (t ++ u) = (waited t ++ waited u)%list.
Proof. apply omap_app. Qed.
Lemma rdhup_printed_app t u : printed (t ++ u) = (printed t ++ printed u)%list.
Proof. apply omap_app. Qed.
Lemma polled_app t u : polled (t ++ u) = (polled t ++ polled u)%list.
Proof. apply omap_app. Qed.

(** ** Proofs *)
Section proofs.
Context (answers : trace call -> call -> Z).
#[local] Instance the_os : Os call (trace call) := tracing answers.

(** Nothing of this part shows: no process, no events. *)
Definition silent (u : trace call) : Prop := forked u = [] /\ waited u = [] /\ printed u = [] /\ polled u = [].

(** How the listening socket is made: it is the only descriptor left, or none is. *)
Lemma sockcreate_ends path t : adds t (prdht_sockcreate path) (fun r u => exists fd, r = inr fd /\ silent u /\
  open_after [] u = if fd =? -1 then [] else [fd]).
Proof.
  unfold prdht_sockcreate. apply adds_sys; intros usk. destruct (usk =? -1) eqn:Eu; [apply adds_ret; exists (-1); cbn; by rewrite Eu|].
  apply adds_sys; intros ?. apply adds_sys; intros b.
  assert (Hdrop : List.filter (fun x => negb (x =? usk)) [usk] = []) by (cbn; by rewrite Z.eqb_refl).
  destruct (b =? -1); [apply adds_sys; intros ?; apply adds_ret; exists (-1); cbn; by rewrite Eu|].
  apply adds_sys; intros l. destruct (l =? -1); [apply adds_sys; intros ?; apply adds_ret; exists (-1)|apply adds_ret; exists usk];
    cbn; by rewrite ?Eu.
Qed.

(** The child, once the fork has said that it is one. *)
Lemma child_ends t : adds t (child USOCK_PATH) (fun r u => forked u = [] /\ (r = inl 0 \/ r = inl 1)).
Proof.
  unfold child. eapply (adds_bind _ _ _ (fun r u => exists fd, r = inr fd /\ forked u = [])); [|by intros ? ? (? & ? & _)|].
  - unfold prdht_connect. apply adds_sys; intros susk. destruct (susk =? -1); [apply adds_ret; by exists (-1)|].
    unfold sun_strcpy. change (strlen USOCK_PATH <? SUN_PATH) with true. cbn iota.
    change (e_bind (e_ret USOCK_PATH) ?k) with (k USOCK_PATH). cbn beta.
    apply adds_sys; intros r. destruct (r =? -1); [apply adds_sys; intros ?; apply adds_ret; by exists (-1)|apply adds_ret; by exists susk].
  - intros fd u (_ & _ & Hu). destruct (fd =? -1).
    + apply adds_exit. rewrite app_nil_r. split; [done|by right].
    + do 3 (apply adds_sys; intros ?). apply adds_exit. split; [|by left]. by rewrite forked_app, Hu.
Qed.

Lemma rdhup_main_ends : adds [] main (fun r t => match r with
  | inl code => forked t = [0] /\ (code = 0 \/ code = 1)
  | inr code =>
      code = 0 /\ open_after [] t = [] /\ waited t = forked t /\ printed t = map (fun e => prdht_events_print (u32 e)) (polled t) /\
        length (forked t) = 1%nat /\ length (polled t) = 1%nat \/
      code = 1 /\ open_after [] t = [] \/
      (code = 2 /\ forked t = [-1] \/ code = 3) /\ length (open_after [] t) = 1%nat
  end).
Proof.
  unfold main. eapply adds_bind; [apply sockcreate_ends|by intros ? ? (? & ? & _)|].
  intros ufd u (fd & [= <-] & (Hf & Hw & Hp & Hq) & Ho). destruct (ufd =? -1) eqn:Eu.
  { apply adds_ret. rewrite app_nil_r. right; left. by split. }
  apply adds_sys; intros cpid. destruct (Z.eqb_spec cpid 0) as [->|Hc].
  { eapply adds_mono; [apply child_ends|]. intros r v [Hv Hr]. change (?a :: v) with ([a] ++ v)%list.
    destruct Hr as [-> | ->]; rewrite !forked_app, Hf, Hv; auto. }
  destruct (Z.eqb_spec cpid (-1)) as [->|Hc1].
  { apply adds_ret. right; right. split; [left; split; [done|by rewrite forked_app, Hf]|]. by rewrite rdhup_open_app, Ho. }
  apply adds_sys; intros cufd. destruct (cufd =? -1) eqn:Ec.
  { apply adds_ret. right; right. split; [by right|]. rewrite rdhup_open_app, Ho. cbn. by rewrite Ec. }
  do 7 (apply adds_sys; intros ?). apply adds_ret. left. split; [done|].
  rewrite rdhup_open_app, waited_app, rdhup_printed_app, polled_app, forked_app, Ho, Hf, Hw, Hp, Hq.
  split; [|done]. cbn. rewrite Ec. cbn. rewrite Z.eqb_refl. cbn. destruct (ufd =? cufd) eqn:E; cbn; [done|]. by rewrite Z.eqb_refl.
Qed.
End proofs.

(** pollrdhup-test always ends, in both of its processes.  In the parent, with 0: it has
    waited for its child, left no descriptor open, and printed exactly the flags that
    the one call of [poll] reported; with 1: the listening socket was not made and no
    descriptor is open; with 2 or 3: it could not fork or accept, and that socket is
    still open.  The child ends with 0 or 1. *)
Theorem pollrdhup_main answers : exists r t, main (Os0 := tracing answers) [] = Ok (r, t) /\
  match r with
  | inl code => forked t = [0] /\ (code = 0 \/ code = 1)
  | inr code =>
      code = 0 /\ open_after [] t = [] /\ waited t = forked t /\ printed t = map (fun e => prdht_events_print (u32 e)) (polled t) /\
        length (forked t) = 1%nat /\ length (polled t) = 1%nat \/
      code = 1 /\ open_after [] t = [] \/
      (code = 2 /\ forked t = [-1] \/ code = 3) /\ length (open_after [] t) = 1%nat
  end.
Proof. apply (adds_run (main (Os0 := tracing answers))), rdhup_main_ends. Qed.
