(* ===== verification/ExtFd.v ===== *)
(** * extfd-test.c: descriptors outside the sequence

    The program tries system calls of a kernel patch that gives descriptors out of the
    usual sequence.  It is written as the calls it makes (see [Trace]); [Fork] gives 0 in
    the child, so that this file has both sides of its forks. *)
From Stdlib Require Import ZArith Lia Bool.
From stdpp Require Import base tactics list strings.
From S2P Require Import Prelude Exits Libc Trace.

(** [Show] is a line that names a descriptor. *)
Inductive call :=
| Nonseqfd (fd flags : Z) | Socket2 (domain type protocol flags : Z) | Dup (fd : Z) | Dup2 (fd newfd : Z) | Open (path : list Z) (flags : Z)
| Write (fd : Z) (data : list Z) | Close (fd : Z) | Fork | Waitpid (pid : Z) | Getpid | Execvp (argv : list (list Z)) | Show (fd : Z) | Getchar.

Definition O_RDWR : Z := 2.
Definition O_NONSEQFD : Z := 524288.   (* 02000000 *)
Definition PF_INET : Z := 2.
Definition SOCK_STREAM : Z := 1.

Definition xfdstr : list Z := (str "This comes from xfd!!"%string ++ [LF])%list.
Definition xfdstrc : list Z := (str "This comes from xfd (child)!!"%string ++ [LF])%list.
Definition nfdstr : list Z := (str "This comes from nfd!!"%string ++ [LF])%list.

(** The arguments of the [ls] that shows the descriptors of the process [me]. *)
Definition ls_argv (me : Z) : list (list Z) :=
  [str "ls"%string; str "-l"%string; (str "/proc/"%string ++ dec (u32 me) ++ str "/fd/"%string)%list].

Section program.
Context {K : Type} `{!Os call K}.

(** The loop of [test_fdmap_grow], [n] turns of it. *)
Fixpoint grow_loop (n : nat) (fd : Z) : E K unit :=
  match n with
  | O => e_ret tt
  | S n =>
    xfd <~ sys (Nonseqfd fd 0);
    if xfd =? -1 then e_exit 1 else
    _ <~ sys (Show xfd);
    grow_loop n fd
  end.

(** It ends with [exit]; its own child ends with 1 when [execvp] returns. *)
Definition test_fdmap_grow (fd : Z) : E K Z :=
  _ <~ grow_loop 800 fd;
  me <~ sys Getpid;
  pid <~ sys Fork;
  if pid =? 0 then _ <~ sys (Execvp (ls_argv me)); e_exit 1 else
  _ <~ sys (Waitpid pid);
  e_exit 0.

Definition main : E K Z :=
  xfd <~ sys (Nonseqfd 1 0);
  if xfd =? -1 then e_ret 1 else
  _ <~ sys (Show xfd);
  _ <~ sys (Write xfd xfdstr);
  pid <~ sys Fork;
  if pid =? 0 then
    _ <~ sys (Write xfd xfdstrc); _ <~ sys (Close xfd); e_exit 0
  else
  nfd <~ sys (Dup xfd);
  if nfd =? -1 then e_ret 1 else
  _ <~ sys (Show nfd);
  _ <~ sys (Write nfd nfdstr);
  _ <~ sys (Close nfd);
  nfd <~ sys (Dup2 1 xfd);
  if nfd =? -1 then e_ret 1 else
  _ <~ sys (Show nfd);
  _ <~ sys (Write nfd nfdstr);
  _ <~ sys (Close nfd);
  _ <~ sys (Close xfd);
  xfd <~ sys (Socket2 PF_INET SOCK_STREAM 0 O_NONSEQFD);
  if xfd =? -1 then e_ret 1 else
  _ <~ sys (Show xfd);
  _ <~ sys (Close xfd);
  xfd <~ sys (Open (str "/dev/null"%string) (Z.lor O_RDWR O_NONSEQFD));
  if xfd =? -1 then e_ret 1 else
  _ <~ sys (Show xfd);
  n <~ sys (Write xfd (str "hello?!"%string));
  if negb (n =? 7) then e_ret 1 else
  _ <~ sys (Close xfd);
  _ <~ sys Getchar;
  pid <~ sys Fork;
  if pid =? 0 then test_fdmap_grow 1 else
  _ <~ sys (Waitpid pid);
  e_ret 0.
End program.

(** ** What a run has done *)

(** The descriptors that were made, in order, and those that were closed. *)
Definition made (t : trace call) : list Z :=
  omap (fun e => match e.1 with
    | Nonseqfd _ _ | Socket2 _ _ _ _ | Dup _ | Dup2 _ _ | Open _ _ => if e.2 =? -1 then None else Some e.2
    | _ => None end) t.
Definition closed (t : trace call) : list Z := omap (fun e => match e.1 with Close fd => Some fd | _ => None end) t.
Definition written (t : trace call) : list (Z * list Z) := omap (fun e => match e.1 with Write fd d => Some (fd, d) | _ => None end) t.

Lemma made_app t u : made (t ++ u) = (made t ++ made u)%list.
Proof. apply omap_app. Qed.
Lemma closed_app t u : closed (t ++ u) = (closed t ++ closed u)%list.
Proof. apply omap_app. Qed.
Lemma written_app t u : written (t ++ u) = (written t ++ written u)%list.
Proof. apply omap_app. Qed.

(** ** Proofs *)
Section proofs.
Context (answers : trace call -> call -> Z).
#[local] Instance the_os : Os call (trace call) := tracing answers.

Lemma grow_loop_ends n fd t : adds t (grow_loop n fd) (fun r u =>
  written u = [] /\ closed u = [] /\ match r with inl code => code = 1 | inr _ => length (made u) = n end).
Proof.
  revert t. induction n as [|n IH]; intros t; cbn [grow_loop]; [by apply adds_ret|].
  apply adds_sys; intros xfd. destruct (xfd =? -1) eqn:E; [by apply adds_exit|].
  apply adds_sys; intros ?. eapply adds_mono; [apply IH|]. intros [code|[]] u (Hw & Hc & Hr); (split; [done|]; split; [done|]); [done|].
  cbn. rewrite E. cbn. by f_equal.
Qed.

Lemma grow_ends t : adds t (test_fdmap_grow 1) (fun r u => written u = [] /\ closed u = [] /\
  (r = inl 1 \/ r = inl 0 /\ length (made u) = 800%nat)).
Proof.
  unfold test_fdmap_grow. eapply adds_bind; [apply grow_loop_ends|intros code u (? & ? & ->); auto|].
  intros [] u (Hw & Hc & Hm). apply adds_sys; intros me. apply adds_sys; intros pid.
  assert (Happ : forall v, written v = [] -> closed v = [] -> made v = [] -> written (u ++ v) = [] /\ closed (u ++ v) = [] /\ length (made (u ++ v)) = 800%nat).
  { intros v Hw' Hc' Hm'. by rewrite written_app, closed_app, made_app, Hw, Hw', Hc, Hc', Hm', !app_nil_r. }
  destruct (pid =? 0); apply adds_sys; intros q; apply adds_exit.
  - destruct (Happ [(Getpid, me); (Fork, pid); (Execvp (ls_argv me), q)] eq_refl eq_refl eq_refl) as (-> & -> & _). auto.
  - destruct (Happ [(Getpid, me); (Fork, pid); (Waitpid pid, q)] eq_refl eq_refl eq_refl) as (-> & -> & ->). auto.
Qed.
End proofs.

(** extfd-test always ends, in all of its processes.  The parent ends with 0 only when it
    has made all five descriptors and written the four texts to those they are meant
    for, and has then closed all it made; the child of the first fork writes its text to
    the descriptor it has inherited and closes it, and the one of the second makes 800
    descriptors, or fails with 1. *)
Theorem extfd_main answers : exists r t, main (Os0 := tracing answers) [] = Ok (r, t) /\
  match r with
  | inl code =>
      code = 0 /\ (exists xfd, made t = [xfd] /\ written t = [(xfd, xfdstr); (xfd, xfdstrc)] /\ closed t = [xfd]) \/
      (exists xfd n1 n2 sock null, take 5 (made t) = [xfd; n1; n2; sock; null] /\
        (code = 1 \/ code = 0 /\ length (made t) = 805%nat))
  | inr code => code = 1 \/ code = 0 /\ exists xfd n1 n2 sock null, made t = [xfd; n1; n2; sock; null] /\
      written t = [(xfd, xfdstr); (n1, nfdstr); (n2, nfdstr); (null, str "hello?!"%string)] /\ closed t = [n1; n2; xfd; sock; null]
  end.
Proof.
  apply adds_run. unfold main.
  apply adds_sys; intros xfd. destruct (xfd =? -1) eqn:E1; [apply adds_ret; by left|].
  do 2 (apply adds_sys; intros ?). apply adds_sys; intros pid. destruct (pid =? 0).
  { do 2 (apply adds_sys; intros ?). apply adds_exit. left. split; [done|]. exists xfd. cbn. by rewrite E1. }
  apply adds_sys; intros n1. destruct (n1 =? -1) eqn:E2; [apply adds_ret; by left|].
  do 3 (apply adds_sys; intros ?). apply adds_sys; intros n2. destruct (n2 =? -1) eqn:E3; [apply adds_ret; by left|].
  do 4 (apply adds_sys; intros ?). apply adds_sys; intros sock. destruct (sock =? -1) eqn:E4; [apply adds_ret; by left|].
  do 2 (apply adds_sys; intros ?). apply adds_sys; intros null. destruct (null =? -1) eqn:E5; [apply adds_ret; by left|].
  apply adds_sys; intros ?. apply adds_sys; intros n. destruct (negb (n =? 7)); [apply adds_ret; by left|].
  do 2 (apply adds_sys; intros ?). apply adds_sys; intros pid2. destruct (pid2 =? 0).
  - eapply adds_mono; [apply grow_ends|]. cbn beta. intros res u (_ & _ & Hr).
    destruct Hr as [-> | [-> Hl]]; right; exists xfd, n1, n2, sock, null; cbn; rewrite E1, E2, E3, E4, E5; cbn.
    + split; [by rewrite take_0|by left].
    + split; [by rewrite take_0|right; split; [done|]]. unfold made in Hl. cbn in Hl. rewrite Hl. done.
  - apply adds_sys; intros ?. apply adds_ret. right. split; [done|]. exists xfd, n1, n2, sock, null. cbn. by rewrite E1, E2, E3, E4, E5.
Qed.
