(* ===== verification/ZeroBench.v ===== *)
(** * memiszero.c: main, the comparison of the three scans

    main allocates a block, fills it with zeros but for its last byte, and times each of
    the scans over it.  It is written as the calls it makes (see [Trace]) around the scans
    of [MemIsZero], which must never find the block to be zero. *)
From Stdlib Require Import ZArith Lia Bool.
From stdpp Require Import base tactics list.
From S2P Require Import Prelude Exits Libc Trace MemIsZero.

(** The calls.  [Malloc] gives the address of the block, 0 for none; [Gettimeofday] gives
    microseconds. *)
Inductive call := Malloc (n : Z) | Gettimeofday | Broken | Print_time (us : Z).

Definition MIN_TEST_TIME : Z := 1000000.
Definition LOOP_COUNT : nat := 200.

Section program.
Context {K : Type} `{!Os call K}.

Definition getustime : E K Z := tm <~ sys Gettimeofday; e_ret (u64 tm).
Definition lift {A} (r : res A) : E K A := fun k => match r with Ok a => Ok (inr a, k) | Fault => Fault | NoFuel => NoFuel end.

(** The inner loop: the sum of the results of [k] scans. *)
Fixpoint scans (k : nat) (scan : block -> Z -> Z -> res Z) (b : block) (size n : Z) : E K Z :=
  match k with
  | O => e_ret n
  | S k => r <~ lift (scan b (blk_base b) size); scans k scan b size (s32 (n + r))
  end.

(** The loop for one of the scans. *)
Fixpoint bench_loop (fuel : nat) (scan : block -> Z -> Z -> res Z) (b : block) (size ts count : Z) : E K unit :=
  match fuel with
  | O => nofuel
  | S fuel =>
    n <~ scans LOOP_COUNT scan b size 0;
    let count := u64 (count + 1) in
    if negb (n =? 0) then _ <~ sys Broken; e_exit 1 else
    te <~ getustime;
    if u64 (te - ts) <? MIN_TEST_TIME then bench_loop fuel scan b size ts count
    else if count =? 0 then e_run fault
    else _ <~ sys (Print_time (u64 (te - ts) / count)); e_ret tt
  end.

Definition bench (fuel : nat) (scan : block -> Z -> Z -> res Z) (b : block) (size : Z) : E K unit :=
  ts <~ getustime; bench_loop fuel scan b size ts 0.

(** [memset] and the store to the last byte, in a block of [size] bytes at [p]. *)
Definition fill (p size : Z) : E K block :=
  if (p =? 0) || (size <=? 0) then e_run fault
  else e_ret {| blk_base := p; blk_data := <[Z.to_nat (size - 1) := 1]> (replicate (Z.to_nat size) 0) |}.

(** [av] are the arguments behind the program name. *)
Definition main (fuel : nat) (av : list (list Z)) : E K Z :=
  let size := match av with a :: _ => u64 (atol a) | [] => 1024 * 128 end in
  p <~ sys (Malloc size);
  b <~ fill p size;
  _ <~ bench fuel memiszero_loop b size;
  _ <~ bench fuel memiszero_32 b size;
  _ <~ bench fuel memiszero b size;
  e_ret 0.
End program.

Definition is_clock (c : call) : bool := match c with Gettimeofday => true | _ => false end.

(** The times printed, and whether a scan was said to be broken. *)
Definition times (t : trace call) : list Z := omap (fun e => match e.1 with Print_time us => Some us | _ => None end) t.
Definition broken (t : trace call) : list unit := omap (fun e => match e.1 with Broken => Some tt | _ => None end) t.

Lemma times_app t u : times (t ++ u) = (times t ++ times u)%list.
Proof. apply omap_app. Qed.
Lemma broken_app t u : broken (t ++ u) = (broken t ++ broken u)%list.
Proof. apply omap_app. Qed.

(** ** Proofs *)

(** The block of main: it is well-formed, and not zero. *)
Definition the_block (p size : Z) : block :=
  {| blk_base := p; blk_data := <[Z.to_nat (size - 1) := 1]> (replicate (Z.to_nat size) 0) |}.

Lemma the_block_ok p size : 0 < p -> 0 < size -> p + size < 2 ^ 64 -> block_ok (the_block p size) /\ in_block (the_block p size) p size.
Proof.
  intros Hp Hs Hb. unfold block_ok, in_block, the_block. cbn [blk_base blk_data]. rewrite length_insert, length_replicate.
  split; [|lia]. split; [done|]. split; [lia|]. apply Forall_insert; [by apply Forall_replicate|lia].
Qed.

Lemma the_block_not_zero p size : 0 < size -> all_zero (the_block p size) p size = false.
Proof.
  intros Hs. unfold all_zero, slice, the_block. cbn [blk_base blk_data]. rewrite Z.sub_diag. change (Z.to_nat 0) with 0%nat. rewrite drop_0.
  rewrite take_ge by (rewrite length_insert, length_replicate; lia).
  apply not_true_iff_false. rewrite forallb_forall. intros Hz. enough (0 =? 1 = true) by done. apply Hz.
  apply list_elem_of_In, list_elem_of_lookup. exists (Z.to_nat (size - 1)). apply list_lookup_insert_eq. rewrite length_replicate. lia.
Qed.

Section proofs.
Context (answers : trace call -> call -> Z).
#[local] Instance the_os : Os call (trace call) := tracing answers.
Abbreviation looks := (Trace.looks is_clock).
Context (clock : nat -> Z) (k : nat) (Hclock : clock_goes answers is_clock Gettimeofday clock MIN_TEST_TIME k).

(** Nothing is said to be broken, and [n] times are printed. *)
Definition good (n : nat) (u : trace call) : Prop := broken u = [] /\ length (times u) = n.

Lemma good_app n m u v : good n u -> good m v -> good (n + m) (u ++ v).
Proof. intros [H1 H2] [H3 H4]. split; [by rewrite broken_app, H1, H3|by rewrite times_app, length_app, H2, H4]. Qed.

Lemma scans_run j scan b size (t : trace call) : scan b (blk_base b) size = Ok 0 -> scans j scan b size 0 t = Ok (inr 0, t).
Proof.
  intros Hs. induction j as [|j IH]; [done|]. cbn [scans].
  rewrite (run_e_bind _ _ _ 0 t); [exact IH|]. unfold lift. by rewrite Hs.
Qed.

Lemma bench_loop_good scan b size from fuel : scan b (blk_base b) size = Ok 0 ->
  forall i t, looks t = S (from + i) -> (i < k)%nat -> (k - i <= fuel)%nat -> Z.of_nat k < 2 ^ 64 ->
  adds t (bench_loop fuel scan b size (clock from) (Z.of_nat i)) (fun r u => r = inr tt /\ good 1 u).
Proof.
  intros Hs. induction fuel as [|fuel IH]; intros i t Hl Hi Hf Hk; [lia|]. cbn [bench_loop].
  eapply (adds_bind _ _ _ (fun r u => r = inr 0 /\ u = [])); [|by intros ? ? [? _]|].
  { unfold adds, wp. rewrite scans_run by done. exists []. by rewrite app_nil_r. }
  intros n u [[= ->] ->]. cbn [Z.eqb negb]. rewrite app_nil_r. eapply adds_tick; [exact Hclock|]. rewrite Hl.
  destruct Hclock as [_ Hm Hx Hst]. pose proof (Hm from (S (from + i))). pose proof (Hx (S (from + i))).
  rewrite (u64_small (_ - _)) by lia. replace (Z.of_nat i + 1) with (Z.of_nat (S i)) by lia. rewrite u64_small by lia.
  destruct (Z.ltb_spec (clock (S (from + i)) - clock from) MIN_TEST_TIME) as [Hlt|Hge].
  - destruct (Nat.eq_dec (S i) k) as [Hki|Hne]; [specialize (Hst from); rewrite <-Hki, Nat.add_succ_r in Hst; lia|].
    eapply adds_mono; [apply (IH (S i)); [|lia..]|].
    + rewrite looks_app, Hl. cbn. lia.
    + intros r v [-> Hv]. split; [done|]. by apply (good_app 0 1 [_] v).
  - rewrite (proj2 (Z.eqb_neq (Z.of_nat (S i)) 0)) by lia. apply adds_sys; intros p. by apply adds_ret.
Qed.

Lemma bench_good scan b size fuel t : scan b (blk_base b) size = Ok 0 -> (0 < k <= fuel)%nat -> Z.of_nat k < 2 ^ 64 ->
  adds t (bench fuel scan b size) (fun r u => r = inr tt /\ good 1 u).
Proof.
  intros Hs Hk Hb. unfold bench. eapply adds_tick; [exact Hclock|]. eapply adds_mono.
  - apply (bench_loop_good scan b size (looks t) fuel Hs 0); [|lia..]. rewrite looks_app. cbn. lia.
  - intros r v [-> Hv]. split; [done|]. by apply (good_app 0 1 [_] v).
Qed.
End proofs.

(** With a block of at least one byte that could be had, and a clock that goes on, main
    returns 0: it prints the times of the three scans and never says that one of them is
    broken. *)
Theorem zero_bench_main answers clock k fuel av : let size := match av with a :: _ => u64 (atol a) | [] => 1024 * 128 end in
  0 < size -> 0 < answers [] (Malloc size) -> answers [] (Malloc size) + size < 2 ^ 64 ->
  clock_goes answers is_clock Gettimeofday clock MIN_TEST_TIME k -> (0 < k <= fuel)%nat -> Z.of_nat k < 2 ^ 64 ->
  exists t, main (Os0 := tracing answers) fuel av [] = Ok (inr 0, t) /\ broken t = [] /\ length (times t) = 3%nat.
Proof.
  intros size Hs Hp Hb Hc Hk Hk2. enough (Ha : adds [] (main (Os0 := tracing answers) fuel av) (fun r u => r = inr 0 /\ good 3 u)).
  { apply (adds_run (main (Os0 := tracing answers) fuel av)) in Ha as (r & t & Hr & -> & Ht). by exists t. }
  unfold main. fold size. apply adds_call. set (p := answers [] (Malloc size)) in *. set (b := the_block p size).
  destruct (the_block_ok p size Hp Hs Hb) as [Hok Hin].
  assert (Hscan : forall scan, scan ∈ [memiszero; memiszero_32; memiszero_loop] -> scan b (blk_base b) size = Ok 0).
  { intros scan Hscan. rewrite (scans_ok b (blk_base b) size) by done. unfold b. by rewrite the_block_not_zero. }
  unfold fill. rewrite (proj2 (Z.eqb_neq p 0)), (proj2 (Z.leb_gt size 0)) by lia. cbn [orb]. fold (the_block p size). fold b.
  change (e_bind (e_ret b) ?f) with (f b). cbn beta.
  eapply adds_bind; [apply (bench_good answers clock k Hc memiszero_loop); [apply Hscan; rewrite !elem_of_cons; auto|lia|lia]|by intros ? ? [? _]|].
  intros [] u1 [_ H1].
  eapply adds_bind; [apply (bench_good answers clock k Hc memiszero_32); [apply Hscan; rewrite !elem_of_cons; auto|lia|lia]|by intros ? ? [? _]|].
  intros [] u2 [_ H2].
  eapply adds_bind; [apply (bench_good answers clock k Hc memiszero); [apply Hscan; rewrite !elem_of_cons; auto|lia|lia]|by intros ? ? [? _]|].
  intros [] u3 [_ H3]. apply adds_ret. split; [done|]. rewrite app_nil_r.
  apply (good_app 0 3 [_]); [done|]. apply (good_app 1 2); [done|]. by apply (good_app 1 1).
Qed.

(** A size of 0 makes main write before the block. *)
Lemma zero_bench_no_bytes answers fuel : main (Os0 := tracing answers) fuel [[48]] [] = Fault.
Proof.
  unfold main. rewrite (run_e_bind _ _ [] (answers [] (Malloc 0)) [(Malloc 0, answers [] (Malloc 0))]) by done.
  unfold fill. by rewrite orb_true_r.
Qed.
