(* ===== verification/SloadMain.v ===== *)
(** * sload.c: calibration, and the parent and its children

    main behind its options ([Sload.main_options]): the calibration, the pipes and
    processes of the tasks, and the collection of their reports.  It is written as the
    calls it makes (see [Trace]); [Fork] gives 0 in a child, so that this file has both
    sides.  The loop of a child is [Sload.child_loop]; here it is one call.  The samples of
    the calibration are pairs, whose quotients are in [SloadChild]; the shares of a
    line, in doubles, and the messages of -D are left out. *)
From Stdlib Require Import ZArith Lia Bool.
From stdpp Require Import base tactics list.
From S2P Require Import Prelude Exits Libc Trace Sload.

(** The calls of the [k]-th process of the [i]-th task have [(i, k)] in them.  [Read_report]
    gives the number of bytes read; the fields of the block it has filled are the answers
    of [Report_time] and [Report_missd]. *)
Inductive call :=
| Setaffinity (cpu : Z) | Getscheduler | Getparam | Setscheduler (policy prio : Z) | Restore_scheduler (policy : Z) | Gettimeofday | Signal
| Pipe (ik : Z * Z) | Fork (ik : Z * Z)
| Alarm (secs : Z) | Setpriority (nice : Z) | Child_loop (t : sltask) | Write_report (ik : Z * Z)
| Waitpid (pid : Z) | Read_report (ik : Z * Z) | Report_time (ik : Z * Z) | Report_missd (ik : Z * Z)
| Print_total (ms : Z) | Print_task (name : list Z) (k nice ms missd : Z).

Definition SCHED_RR : Z := 2.
Definition MIN_CALIBRATION : Z := 25000.

Section program.
Context {K : Type} `{!Os call K}.

Definition getustime : E K Z := tm <~ sys Gettimeofday; e_ret (u64 tm).

(** The inner loop of [calibrate_loop] from [tl] on: a sample. *)
Fixpoint sample_loop (fuel : nat) (ts tl : Z) : E K (Z * Z) :=
  match fuel with
  | O => nofuel
  | S fuel =>
    let tl := u64 (tl + 1024) in
    tn <~ getustime;
    if u64 (tn - ts) <? MIN_CALIBRATION then sample_loop fuel ts tl else e_ret (u64 (tn - ts), tl)
  end.

(** [n] samples. *)
Fixpoint calibrate_samples (n fuel : nat) : E K (list (Z * Z)) :=
  match n with
  | O => e_ret []
  | S n => ts <~ getustime; s <~ sample_loop fuel ts 0; l <~ calibrate_samples n fuel; e_ret (s :: l)
  end.

(** [usloop] is the least quotient of these samples. *)
Definition calibrate_loop (fuel : nat) : E K (list (Z * Z)) :=
  oldpolicy <~ sys Getscheduler;
  if oldpolicy <? 0 then e_exit 1 else
  r <~ sys Getparam;
  if negb (r =? 0) then e_exit 1 else
  r <~ sys (Setscheduler SCHED_RR 99);
  l <~ calibrate_samples (if negb (r =? 0) then 8 else 2) fuel;
  _ <~ sys (Restore_scheduler oldpolicy);
  e_ret l.

(** The processes in the order of the two loops, with their tasks. *)
Definition children (ts : list sltask) : list ((Z * Z) * sltask) :=
  concat (imap (fun i t => (fun k => ((Z.of_nat i, k), t)) <$> seqZ 0 (count t)) ts).

(** A child, from the label on. *)
Definition child (runfor : Z) (ik : Z * Z) (t : sltask) : E K Z :=
  _ <~ (if 0 <? runfor then _ <~ sys (Alarm runfor); e_ret tt else e_ret tt);
  _ <~ sys (Setpriority (nice t));
  _ <~ sys (Child_loop t);
  _ <~ sys (Write_report ik);
  e_exit 0.

(** The first two loops; the results are the [pids]. *)
Fixpoint spawn (runfor : Z) (l : list ((Z * Z) * sltask)) : E K (list Z) :=
  match l with
  | [] => e_ret []
  | (ik, t) :: l =>
    r <~ sys (Pipe ik);
    if negb (r =? 0) then e_exit 1 else
    pid <~ sys (Fork ik);
    _ <~ (if pid =? 0 then child runfor ik t else e_ret 0);
    pids <~ spawn runfor l;
    e_ret (pid :: pids)
  end.

(** The next two: the reports read. *)
Fixpoint collect (l : list (((Z * Z) * sltask) * Z)) : E K (list slreport) :=
  match l with
  | [] => e_ret []
  | ((ik, _), pid) :: l =>
    r <~ sys (Waitpid pid);
    if negb (r =? pid) then e_exit 1 else
    r <~ sys (Read_report ik);
    if negb (r =? 16) then e_exit 1 else
    tm <~ sys (Report_time ik);
    ms <~ sys (Report_missd ik);
    reps <~ collect l;
    e_ret (mk_slreport (u64 ms) (u64 tm) :: reps)
  end.

Definition print_tasks (l : list (((Z * Z) * sltask) * slreport)) : E K unit :=
  e_for_each l (fun x => let '(ik, t, rep) := x in
    _ <~ sys (Print_task (name t) ik.2 (nice t) (time rep / 1000) (missd rep)); e_ret tt).

(** main behind its options. *)
Definition run_tasks (fuel : nat) (o : options) : E K Z :=
  r <~ (if 0 <=? cpu_bind o then r <~ sys (Setaffinity (cpu_bind o)); e_ret r else e_ret 0);
  if r =? -1 then e_ret 1 else
  _ <~ calibrate_loop fuel;
  _ <~ sys Signal; _ <~ sys Signal;
  let l := children (tasks o) in
  pids <~ spawn (runfor o) l;
  reps <~ collect (zip l pids);
  let total := totcpu reps 0 in
  _ <~ sys (Print_total (total / 1000));
  _ <~ (if negb (total =? 0) then print_tasks (zip l reps) else e_ret tt);
  e_ret 0.
End program.

(** ** What a run has done *)
Definition is_clock (c : call) : bool := match c with Gettimeofday => true | _ => false end.

(** The forks and their answers, the processes waited for, the reports read, the total and
    the lines printed. *)
Definition forks (t : trace call) : list ((Z * Z) * Z) := omap (fun e => match e.1 with Fork ik => Some (ik, e.2) | _ => None end) t.
Definition waits (t : trace call) : list Z := omap (fun e => match e.1 with Waitpid pid => Some pid | _ => None end) t.
Definition times (t : trace call) : list Z := omap (fun e => match e.1 with Report_time _ => Some (u64 e.2) | _ => None end) t.
Definition totals (t : trace call) : list Z := omap (fun e => match e.1 with Print_total ms => Some ms | _ => None end) t.
Definition lines (t : trace call) : list (list Z * Z * Z) := omap (fun e => match e.1 with Print_task name k _ ms _ => Some (name, k, ms) | _ => None end) t.

Lemma forks_app t u : forks (t ++ u) = (forks t ++ forks u)%list.
Proof. apply omap_app. Qed.
Lemma waits_app t u : waits (t ++ u) = (waits t ++ waits u)%list.
Proof. apply omap_app. Qed.
Lemma tasks_times_app t u : times (t ++ u) = (times t ++ times u)%list.
Proof. apply omap_app. Qed.
Lemma totals_app t u : totals (t ++ u) = (totals t ++ totals u)%list.
Proof. apply omap_app. Qed.
Lemma lines_app t u : lines (t ++ u) = (lines t ++ lines u)%list.
Proof. apply omap_app. Qed.

Definition view (t : trace call) := (forks t, waits t, times t, totals t, lines t).
Lemma tasks_view_app t u f1 w1 m1 s1 l1 f2 w2 m2 s2 l2 : view t = (f1, w1, m1, s1, l1) -> view u = (f2, w2, m2, s2, l2) ->
  view (t ++ u) = (f1 ++ f2, w1 ++ w2, m1 ++ m2, s1 ++ s2, l1 ++ l2)%list.
Proof. intros [= <- <- <- <- <-] [= <- <- <- <- <-]. unfold view. by rewrite forks_app, waits_app, tasks_times_app, totals_app, lines_app. Qed.

Definition nothing : list ((Z * Z) * Z) * list Z * list Z * list Z * list (list Z * Z * Z) := ([], [], [], [], []).

Lemma tasks_view_cons c r u : view [(c, r)] = nothing -> view ((c, r) :: u) = view u.
Proof.
  intros H. change ((c, r) :: u) with ([(c, r)] ++ u)%list.
  by rewrite (tasks_view_app [(c, r)] u [] [] [] [] [] (forks u) (waits u) (times u) (totals u) (lines u)).
Qed.

(** ** Proofs *)
Section proofs.
Context (answers : trace call -> call -> Z).
#[local] Instance the_os : Os call (trace call) := tracing answers.

Lemma child_exits runfor ik t tr : adds tr (child runfor ik t) (fun r u => r = inl 0 /\ view u = nothing).
Proof.
  unfold child. eapply (adds_bind _ _ _ (fun r u => r = inr tt /\ view u = nothing)); [|by intros ? ? [? _]|].
  - destruct (0 <? runfor); [apply adds_sys; intros ?|]; by apply adds_ret.
  - intros [] u [_ Hu]. do 3 (apply adds_sys; intros ?). apply adds_exit. split; [done|]. by apply (tasks_view_app u [_; _; _] _ _ _ _ _ _ _ _ _ _ Hu).
Qed.

(** The forks in turn: all of them, in the parent; up to the one that gave 0, in a child. *)
Lemma spawn_ends runfor l t : adds t (spawn runfor l) (fun r u => match r with
  | inl code => code = 0 \/ code = 1
  | inr pids => length pids = length l /\ Forall (fun pid => pid <> 0) pids /\ view u = (zip (map fst l) pids, [], [], [], [])
  end).
Proof.
  revert t. induction l as [|[ik tk] l IH]; intros t; cbn [spawn]; [by apply adds_ret; repeat split; constructor|].
  apply adds_sys; intros r. destruct (negb (r =? 0)); [apply adds_exit; by right|]. apply adds_sys; intros pid.
  destruct (Z.eqb_spec pid 0) as [->|Hp].
  - eapply adds_bind; [apply child_exits|intros code u [[= ->] _]; by left|by intros ? ? [? _]].
  - change (e_bind (e_ret 0) ?k) with (k 0). cbn beta. eapply adds_bind; [apply IH|done|].
    intros pids u (Hl & Hz & Hu). apply adds_ret. rewrite app_nil_r. split; [cbn; lia|]. split; [by constructor|].
    apply (tasks_view_app [(Pipe ik, r); (Fork ik, pid)] u [(ik, pid)] [] [] [] []); [done|exact Hu].
Qed.

Lemma collect_ends l t : adds t (collect l) (fun r u => match r with
  | inl code => code = 1
  | inr reps => length reps = length l /\ view u = ([], map snd l, map time reps, [], [])
  end).
Proof.
  revert t. induction l as [|[[ik tk] pid] l IH]; intros t; cbn [collect]; [by apply adds_ret|].
  apply adds_sys; intros r. destruct (negb (r =? pid)); [by apply adds_exit|].
  apply adds_sys; intros n. destruct (negb (n =? 16)); [by apply adds_exit|].
  apply adds_sys; intros tm. apply adds_sys; intros ms. eapply adds_bind; [apply IH|done|].
  intros reps u [Hl Hu]. apply adds_ret. rewrite app_nil_r. split; [cbn; lia|].
  apply (tasks_view_app [(Waitpid pid, r); (Read_report ik, n); (Report_time ik, tm); (Report_missd ik, ms)] u [] [pid] [u64 tm] [] []); [done|exact Hu].
Qed.

Lemma print_tasks_ends l t : adds t (print_tasks l) (fun r u => r = inr tt /\
  view u = ([], [], [], [], map (fun x => (name x.1.2, x.1.1.2, time x.2 / 1000)) l)).
Proof.
  unfold print_tasks. revert t. induction l as [|[[ik tk] rep] l IH]; intros t; cbn [e_for_each]; [by apply adds_ret|].
  eapply (adds_bind _ _ _ (fun r u => r = inr tt /\ view u = ([], [], [], [], [(name tk, ik.2, time rep / 1000)]))); [|by intros ? ? [? _]|].
  { apply adds_sys; intros ?. by apply adds_ret. }
  intros [] u [_ Hu]. eapply adds_mono; [apply IH|]. intros r v [-> Hv]. split; [done|].
  apply (tasks_view_app u v [] [] [] [] [(name tk, ik.2, time rep / 1000)]); [exact Hu|exact Hv].
Qed.

Context (clock : nat -> Z) (k : nat) (Hclock : clock_goes answers is_clock Gettimeofday clock MIN_CALIBRATION k).
Abbreviation looks := (Trace.looks is_clock).

(** The calibration ends, and takes samples of whole thousands of turns. *)
Definition good_sample (s : Z * Z) : Prop := MIN_CALIBRATION <= s.1 /\ 0 < s.2 /\ (1024 | s.2).

Lemma sample_loop_ends from fuel : forall i t, looks t = S (from + i) -> (i < k)%nat -> (k - i <= fuel)%nat -> 1024 * Z.of_nat k < 2 ^ 64 ->
  adds t (sample_loop fuel (clock from) (1024 * Z.of_nat i)) (fun r u => exists s, r = inr s /\ good_sample s /\ view u = nothing).
Proof.
  induction fuel as [|fuel IH]; intros i t Hl Hi Hf Hk; [lia|]. cbn [sample_loop].
  rewrite u64_small by lia. replace (1024 * Z.of_nat i + 1024) with (1024 * Z.of_nat (S i)) by lia.
  eapply adds_tick; [exact Hclock|]. rewrite Hl.
  destruct Hclock as [_ Hm Hx Hst]. pose proof (Hm from (S (from + i))). pose proof (Hx (S (from + i))). rewrite u64_small by lia.
  destruct (Z.ltb_spec (clock (S (from + i)) - clock from) MIN_CALIBRATION) as [Hlt|Hge].
  - destruct (Nat.eq_dec (S i) k) as [Hki|Hne]; [specialize (Hst from); rewrite <-Hki, Nat.add_succ_r in Hst; lia|].
    eapply adds_mono; [apply (IH (S i)); [|lia..]|]; [rewrite looks_app, Hl; cbn; lia|].
    intros r u (s & -> & Hs & Hu). exists s. split; [done|]. split; [done|]. by rewrite tasks_view_cons.
  - apply adds_ret. eexists. split; [done|]. split; [|done]. split; [done|]. split; [cbn [snd]; lia|]. cbn [snd]. apply Z.divide_factor_l.
Qed.

Lemma samples_end n fuel t : (0 < k <= fuel)%nat -> 1024 * Z.of_nat k < 2 ^ 64 ->
  adds t (calibrate_samples n fuel) (fun r u => exists l, r = inr l /\ length l = n /\ Forall good_sample l /\ view u = nothing).
Proof.
  intros Hk Hb. revert t. induction n as [|n IH]; intros t; cbn [calibrate_samples]; [apply adds_ret; exists []; by repeat split; constructor|].
  eapply adds_tick; [exact Hclock|].
  eapply adds_bind; [apply (sample_loop_ends (looks t) fuel 0); [|lia..]|by intros ? ? (? & ? & _)|]; [rewrite looks_app; cbn; lia|].
  intros s u (s' & [= <-] & Hs & Hu). eapply adds_bind; [apply IH|by intros ? ? (? & ? & _)|].
  intros l v (l' & [= <-] & Hl & Hf & Hv). apply adds_ret. exists (s :: l). rewrite app_nil_r. split; [done|]. split; [cbn; lia|].
  split; [by constructor|]. rewrite tasks_view_cons by done. by apply (tasks_view_app u v [] [] [] [] []).
Qed.

(** Least quotients are taken of two samples, or of eight without the real-time priority. *)
Lemma calibrate_loop_ends fuel t : (0 < k <= fuel)%nat -> 1024 * Z.of_nat k < 2 ^ 64 ->
  adds t (calibrate_loop fuel) (fun r u => view u = nothing /\ match r with
    | inl code => code = 1
    | inr l => (length l = 2%nat \/ length l = 8%nat) /\ Forall good_sample l
    end).
Proof.
  intros Hk Hb. unfold calibrate_loop. apply adds_sys; intros old. destruct (old <? 0); [by apply adds_exit|].
  apply adds_sys; intros p. destruct (negb (p =? 0)); [by apply adds_exit|]. apply adds_sys; intros r.
  eapply adds_bind; [by apply samples_end|by intros ? ? (? & ? & _)|].
  intros l u (l' & [= <-] & Hl & Hf & Hu). apply adds_sys; intros ?. apply adds_ret. split.
  - rewrite !tasks_view_cons by done. by apply (tasks_view_app u [_] [] [] [] [] []).
  - split; [|done]. rewrite Hl. destruct (negb (r =? 0)); auto.
Qed.
End proofs.

Lemma totcpu_sum reps : forall acc, totcpu reps (u64 acc) = u64 (acc + zsum (map time reps)).
Proof.
  induction reps as [|r reps IH]; intros acc; cbn [totcpu map foldr]; [by rewrite Z.add_0_r|].
  rewrite IH. unfold u64. by rewrite <-Z.add_assoc, Zplus_mod_idemp_l.
Qed.

(** sload behind its options ends in each of its processes, if its clock goes on.  The
    parent ends with 0 only when it has made a process for each count of each task, in
    order, has waited for each of them once by its number and has read its report; it
    then prints the sum of the times, modulo 2^64, and, unless the sum is 0, a line for each
    process with the name of its task and its own time. *)
Theorem sload_run_tasks answers clock k fuel o : clock_goes answers is_clock Gettimeofday clock MIN_CALIBRATION k ->
  (0 < k <= fuel)%nat -> 1024 * Z.of_nat k < 2 ^ 64 ->
  exists r t, run_tasks (Os0 := tracing answers) fuel o [] = Ok (r, t) /\
    (r = inl 0 \/ r = inl 1 \/ r = inr 1 \/
     r = inr 0 /\ let l := children (tasks o) in exists pids ts,
       length pids = length l /\ length ts = length l /\ Forall (fun pid => pid <> 0) pids /\
       forks t = zip (map fst l) pids /\ waits t = pids /\ times t = ts /\
       let total := u64 (zsum ts) in
       totals t = [total / 1000] /\
       lines t = if total =? 0 then [] else map (fun x => (name x.1.2, x.1.1.2, x.2 / 1000)) (zip l ts)).
Proof.
  intros Hc Hk Hb. apply adds_run. unfold run_tasks.
  eapply (adds_bind _ _ _ (fun r u => exists c, r = inr c /\ view u = nothing)); [|by intros ? ? (? & ? & _)|].
  { destruct (0 <=? cpu_bind o); [apply adds_sys; intros r; apply adds_ret; by exists r|apply adds_ret; by exists 0]. }
  intros c u0 (c' & [= <-] & H0). destruct (c =? -1); [apply adds_ret; auto|].
  eapply adds_bind; [by apply (calibrate_loop_ends answers clock k)|intros code u [_ ->]; auto|].
  intros samples u1 [H1 _]. do 2 (apply adds_sys; intros ?). set (l := children (tasks o)).
  eapply adds_bind; [apply spawn_ends|intros code u [->| ->]; auto|].
  intros pids u2 (Hl & Hz & H2). eapply adds_bind; [apply collect_ends|intros code u ->; auto|].
  intros reps u3 [Hr H3].
  assert (Hlen : length reps = length l) by (rewrite Hr, length_zip_with; lia).
  assert (Htot : totcpu reps 0 = u64 (zsum (map time reps))) by exact (totcpu_sum reps 0).
  apply adds_sys; intros p.
  eapply (adds_bind _ _ _ (fun r u => r = inr tt /\ view u = ([], [], [], [], if totcpu reps 0 =? 0 then [] else
    map (fun x => (name x.1.2, x.1.1.2, time x.2 / 1000)) (zip l reps)))); [|by intros ? ? [? _]|].
  { destruct (totcpu reps 0 =? 0); [by apply adds_ret|apply print_tasks_ends]. }
  intros [] u4 [_ H4]. apply adds_ret. right; right; right. split; [done|]. exists pids, (map time reps).
  split; [done|]. split; [by rewrite length_map|]. split; [done|]. rewrite <-Htot.
  assert (Hw : map snd (zip l pids) = pids) by (apply snd_zip; lia). rewrite Hw in H3.
  set (total := totcpu reps 0) in *.
  pose proof (tasks_view_app u3 _ _ _ _ _ _ [] [] [] [total / 1000] _ H3 (tasks_view_app [(Print_total (total / 1000), p)] u4 [] [] [] [total / 1000] [] _ _ _ _ _ eq_refl H4)) as H34.
  pose proof (tasks_view_app u2 _ _ _ _ _ _ _ _ _ _ _ H2 H34) as H24. cbn [app] in H24.
  assert (Hall : forall a b v, view v = view (u0 ++ u1 ++ (Signal, a) :: (Signal, b) :: v)).
  { intros a b v. pose proof (tasks_view_app u1 _ [] [] [] [] [] _ _ _ _ _ H1 (tasks_view_cons Signal a ((Signal, b) :: v) eq_refl)) as Hv.
    pose proof (tasks_view_app u0 _ [] [] [] [] [] _ _ _ _ _ H0 Hv) as Hv0. cbn [app] in Hv0. rewrite Hv0.
    symmetry. exact (tasks_view_cons Signal b v eq_refl). }
  rewrite app_nil_r. erewrite Hall in H24. injection H24 as -> -> -> -> ->. rewrite !app_nil_r.
  split; [done|]. split; [done|]. split; [done|]. split; [done|]. destruct (total =? 0); [done|].
  clearbody l. clear. revert l. induction reps as [|rep reps IH]; intros [|x l]; cbn; [done..|]. by rewrite IH.
Qed.
