(* ===== verification/QspinsMain.v ===== *)
(** * qspins.c: main, the threads of the lock test

    main behind its options ([SpinLocks.parse_options]): the locks, the threads, and
    their samples.  It is written as the calls it makes (see [Trace]); the averages of the
    samples, in doubles, are in [Stats]. *)
From Stdlib Require Import ZArith Lia Bool.
From stdpp Require Import base tactics list strings.
From S2P Require Import Prelude Exits Libc Trace SpinLocks.

(** [Malloc] gives the address of the contexts, 0 for none; [Clock_gettime] gives
    nanoseconds, [Rdtsc] cycles; [Create] and [Join] name a thread by its context.  The
    last row is that of the test threads ([QspinsThreads]). *)
Inductive call :=
| Sysconf | Malloc (n : Z) | Init_locks (i : Z) | Setaffinity (cpu : Z) | Setscheduler (p : policy) (prio : Z)
| Clock_getres | Clock_gettime | Rdtsc | Sleep | Print_cycles (n : Z)
| Create (i cpu : Z) | Go | Yield | Join (i : Z) | Sort (i : Z)
| Read_go | Take_lock (d : test_desc) (k : Z) | Release_lock (d : test_desc) (k : Z).

(** The size of the arrays of locks, and of a context. *)
Definition MAX_CPUS : Z := 128.
Definition CTX_SIZE : Z := 288.

Section program.
Context {K : Type} `{!Os call K}.

(** [CPU_SET] ignores numbers outside its mask. *)
Definition thread_setched (o : options) (cpu : Z) : E K unit :=
  r <~ sys (Setaffinity cpu);
  if r =? -1 then e_exit 1 else
  r <~ sys (Setscheduler (sched_policy o) (sched_prio o));
  if r =? -1 then e_exit 1 else e_ret tt.

Definition thread_setup (o : options) (cpu : Z) : E K unit := thread_setched o cpu.

(** The initialisation of [tspin[i]] and [spin[i]]. *)
Definition init_locks (n : Z) : E K unit :=
  e_for_each (seqZ 0 n) (fun i =>
    if i <? MAX_CPUS then _ <~ sys (Init_locks i); e_ret tt else e_run fault).

Definition cycles : E K Z := c <~ sys Rdtsc; e_ret (u64 c).

(** The cycles of a microsecond, over a second. *)
Definition uscycles : E K Z :=
  t1 <~ sys Clock_gettime;
  ts <~ cycles;
  _ <~ sys Sleep;
  t2 <~ sys Clock_gettime;
  te <~ cycles;
  let us := u64 (u64 ((t2 / 10 ^ 9 - t1 / 10 ^ 9) * 1000000) + Z.quot (t2 mod 10 ^ 9 - t1 mod 10 ^ 9) 1000) in
  if us =? 0 then e_run fault else e_ret (u64 (te - ts) / us).

Definition create_threads (n : Z) : E K unit :=
  e_for_each (seqZ 0 n) (fun i =>
    r <~ sys (Create i i);
    if r =? -1 then e_exit 1 else e_ret tt).

Definition join_threads (n : Z) : E K unit :=
  e_for_each (seqZ 0 n) (fun i =>
    r <~ sys (Join i);
    if r =? -1 then e_exit 1 else _ <~ sys (Sort i); e_ret tt).

(** [av] are the arguments behind the program name. *)
Definition main (av : list (list Z)) : E K Z :=
  ncpus <~ sys Sysconf;
  let o := clamp_threads (s32 ncpus) (parse_options av options0) in
  let n := num_threads o in
  p <~ sys (Malloc (u64 (u64 n * CTX_SIZE)));
  _ <~ (if (n <? 0) || (p =? 0) && negb (n =? 0) then e_run fault else e_ret tt);
  _ <~ init_locks n;
  _ <~ sys Clock_getres;
  _ <~ thread_setched o 0;
  uc <~ uscycles;
  _ <~ sys (Print_cycles uc);
  _ <~ create_threads n;
  _ <~ sys Go;
  _ <~ sys Yield;
  _ <~ join_threads n;
  e_ret 0.
End program.

(** ** What a run has done: the calls about threads, in order. *)
Definition threads (t : trace call) : list call :=
  omap (fun e => match e.1 with Create _ _ | Go | Join _ | Sort _ => Some e.1 | _ => None end) t.

Lemma threads_app t u : threads (t ++ u) = (threads t ++ threads u)%list.
Proof. apply omap_app. Qed.

Definition creates (l : list Z) : list call := (fun i => Create i i) <$> l.
Definition joins (l : list Z) : list call := concat ((fun i => [Join i; Sort i]) <$> l).

(** ** Proofs *)
Section proofs.
Context (answers : trace call -> call -> Z).
#[local] Instance the_os : Os call (trace call) := tracing answers.

(** A part that does [cs] with the threads, or ends the program with 1. *)
Definition does (cs : list call) (r : Z + unit) (u : trace call) : Prop :=
  match r with inl code => code = 1 | inr _ => threads u = cs end.

Lemma does_for_each (f : Z -> E (trace call) unit) (g : Z -> list call) (l : list Z) :
  (forall i t, i ∈ l -> adds t (f i) (does (g i))) -> forall t, adds t (e_for_each l f) (does (concat (g <$> l))).
Proof.
  induction l as [|x l IH]; intros Hf t; cbn [e_for_each]; [by apply adds_ret|].
  eapply adds_bind; [apply Hf, list_elem_of_here|done|]. intros [] u Hu.
  eapply adds_mono; [apply IH; intros i t' Hi; apply Hf; by apply list_elem_of_further|].
  intros [code|[]] v Hv; [done|]. cbn [does] in *. by rewrite threads_app, Hu, Hv.
Qed.

Lemma thread_setched_does o cpu t : adds t (thread_setched o cpu) (does []).
Proof.
  unfold thread_setched. apply adds_sys; intros a. destruct (a =? -1); [by apply adds_exit|].
  apply adds_sys; intros b. destruct (b =? -1); [by apply adds_exit|by apply adds_ret].
Qed.

Definition is_clock (c : call) : bool := match c with Clock_gettime => true | _ => false end.

(** A second takes at least a microsecond, by the clock. *)
Definition second_passes : Prop := forall t u, Trace.looks is_clock u = 0%nat ->
  let t1 := answers t Clock_gettime in let t2 := answers (t ++ (Clock_gettime, t1) :: u) Clock_gettime in
  0 <= t1 /\ t1 + 1000 <= t2 < 2 ^ 63.

Lemma adds_cycles {B} t (f : Z -> E (trace call) B) Q :
  (forall c, adds (t ++ [(Rdtsc, c)]) (f (u64 c)) (fun r v => Q r ((Rdtsc, c) :: v))) -> adds t (e_bind cycles f) Q.
Proof. exact (adds_sys answers t Rdtsc (fun c => f (u64 c)) Q). Qed.

Lemma uscycles_does t : second_passes -> adds t uscycles (fun r u => (exists c, r = inr c) /\ threads u = []).
Proof.
  intros Hs. unfold uscycles. apply adds_call. set (t1 := answers t Clock_gettime).
  apply adds_cycles; intros c1. apply adds_sys; intros sl. apply adds_call.
  destruct (Hs t [(Rdtsc, c1); (Sleep, sl)] eq_refl) as [H0 H1]. fold t1 in H0, H1. rewrite <-!(assoc_L (++)). cbn [app].
  set (t2 := answers (t ++ _) Clock_gettime) in *.
  apply adds_cycles; intros c2.
  set (us := u64 (u64 _ + _)). assert (Hus : us <> 0).
  { unfold us. assert (H2 : 0 < (t2 / 10 ^ 9 - t1 / 10 ^ 9) * 1000000 + Z.quot (t2 mod 10 ^ 9 - t1 mod 10 ^ 9) 1000 < 2 ^ 63)
      by (change (10 ^ 9) with 1000000000; clear - H0 H1; Z.to_euclidean_division_equations; lia).
    unfold u64. rewrite Zplus_mod_idemp_l, Z.mod_small by lia. lia. }
  rewrite (proj2 (Z.eqb_neq us 0)) by done. apply adds_ret. split; [by eexists|done].
Qed.
End proofs.

(** qspins with up to 128 threads, a memory block, and a clock that goes on while it
    sleeps: it ends with 1 when the scheduling cannot be set, or with 0, when it has made
    each thread once, in order, let all of them go, and then waited once for each and
    sorted its samples. *)
Theorem qspins_main answers av : let ncpus := s32 (answers [] Sysconf) in
  let n := num_threads (clamp_threads ncpus (parse_options av options0)) in
  0 <= n <= MAX_CPUS -> (forall t m, answers t (Malloc m) <> 0) -> second_passes answers ->
  exists r t, main (Os0 := tracing answers) av [] = Ok (r, t) /\
    (r = inl 1 \/ r = inr 0 /\ threads t = (creates (seqZ 0 n) ++ Go :: joins (seqZ 0 n))%list).
Proof.
  intros ncpus n Hn Hm Hs. apply adds_run. unfold main. apply adds_call. fold ncpus. fold n.
  apply adds_call. set (p := answers _ (Malloc _)).
  rewrite (proj2 (Z.ltb_ge n 0)), (proj2 (Z.eqb_neq p 0)) by (lia || apply Hm). cbn [orb andb].
  change (e_bind (e_ret tt) ?f) with (f tt). cbn beta.
  eapply adds_bind; [apply (does_for_each _ (fun _ => []))|intros code u ->; auto|].
  { intros i t Hi%elem_of_seqZ. rewrite (proj2 (Z.ltb_lt i MAX_CPUS)) by lia. apply adds_sys; intros q. by apply adds_ret. }
  intros [] u1 H1. cbn [does] in H1. apply adds_sys; intros g. eapply adds_bind; [apply thread_setched_does|intros code u ->; auto|].
  intros [] u2 H2. cbn [does] in H2. eapply adds_bind; [by apply uscycles_does|by intros ? ? [[? ?] _]|]. intros uc u3 [_ H3].
  apply adds_sys; intros q. eapply adds_bind; [apply (does_for_each _ (fun i => [Create i i]))|intros code u ->; auto|].
  { intros i t Hi. apply adds_sys; intros c. destruct (c =? -1); [by apply adds_exit|by apply adds_ret]. }
  intros [] u4 H4. cbn [does] in H4. apply adds_sys; intros go. apply adds_sys; intros y.
  eapply adds_bind; [apply (does_for_each _ (fun i => [Join i; Sort i]))|intros code u ->; auto|].
  { intros i t Hi. apply adds_sys; intros j. destruct (j =? -1); [by apply adds_exit|]. apply adds_sys; intros s. by apply adds_ret. }
  intros [] u5 H5. cbn [does] in H5. apply adds_ret. right. split; [done|].
  rewrite app_nil_r. change (threads (u1 ++ [(Clock_getres, g)] ++ u2 ++ u3 ++ [(Print_cycles uc, q)] ++ u4 ++ [(Go, go); (Yield, y)] ++ u5) =
    creates (seqZ 0 n) ++ Go :: joins (seqZ 0 n))%list.
  rewrite !threads_app, H1, H2, H3, H4, H5. cbn [app threads omap list_omap fst].
  assert (E0 : forall l, concat ((fun _ : Z => [] : list call) <$> l) = []) by (intros l; induction l as [|x l IH]; [done|exact IH]).
  assert (E1 : forall l, concat ((fun i : Z => [Create i i]) <$> l) = creates l) by (intros l; induction l as [|x l IH]; [done|cbn; by rewrite IH]).
  by rewrite E0, E1.
Qed.

(** More than 128 processors, and as many threads: the locks behind the arrays are
    initialised. *)
Lemma qspins_too_many : main (Os0 := tracing (fun _ _ => 200)) [str "-n"%string; str "129"%string] [] = Fault.
Proof. by vm_compute. Qed.
