(* ===== verification/QspinsThreads.v ===== *)
(** * qspins.c: the test threads, and all of them on the ring of locks

    The code of the two test threads over the calls they make, and the step relation of
    [n] such threads on [n] ticket locks, each of which is that of [SpinLocks.ticket] with
    its words: a thread takes a ticket, enters when it is served, and leaves. *)
From Stdlib Require Import ZArith Lia Bool.
From stdpp Require Import base tactics list sets.
From S2P Require Import Prelude Exits Trace Steps SpinLocks QspinsMain.

Section program.
Context {K : Type} `{!Os call K} (o : options) (d : test_desc).

(** An access to a lock of the arrays. *)
Definition lock_call (k : Z) (c : call) : E K unit :=
  if (0 <=? k) && (k <? MAX_CPUS) then _ <~ sys c; e_ret tt else e_run fault.
Definition take_lock (k : Z) : E K unit := lock_call k (Take_lock d k).
Definition release_lock (k : Z) : E K unit := lock_call k (Release_lock d k).

(** [while (!go) sched_yield();] *)
Fixpoint wait_go (fuel : nat) : E K unit :=
  match fuel with
  | O => nofuel
  | S fuel =>
    go <~ sys Read_go;
    if negb (go =? 0) then e_ret tt else _ <~ sys Yield; wait_go fuel
  end.

(** The inner loop: [n] turns from the lock [k] on, and the lock held then. *)
Fixpoint iters (n : nat) (k : Z) : E K Z :=
  match n with
  | O => e_ret k
  | S n =>
    _ <~ release_lock k;
    let k := next_lock (num_threads o) k in
    _ <~ take_lock k;
    iters n k
  end.

(** [n] samples, and the lock held then. *)
Fixpoint sample_loop (n : nat) (k : Z) : E K (list Z * Z) :=
  match n with
  | O => e_ret ([], k)
  | S n =>
    ts <~ cycles;
    k <~ iters NR_ITERS k;
    te <~ cycles;
    r <~ sample_loop n k;
    e_ret (u64 (te - ts) :: r.1, r.2)
  end.

(** The samples of the thread; [cpu] is in its context. *)
Definition test_thread (fuel : nat) (cpu : Z) : E K (list Z) :=
  _ <~ thread_setup o cpu;
  _ <~ take_lock cpu;
  _ <~ wait_go fuel;
  r <~ sample_loop MAX_SAMPLES cpu;
  _ <~ release_lock r.2;
  e_ret r.1.
End program.

(** The two functions have the same text for the two kinds of locks. *)
Definition tspin_thread {K} `{!Os call K} (o : options) := test_thread o TICKLOCK.
Definition spin_thread {K} `{!Os call K} (o : options) := test_thread o SPINLOCK.

(** ** The calls of a thread on its locks *)
Definition lock_op (d : test_desc) (c : call) : option op :=
  match c, d with
  | Take_lock TICKLOCK k, TICKLOCK | Take_lock SPINLOCK k, SPINLOCK => Some (Lock k)
  | Release_lock TICKLOCK k, TICKLOCK | Release_lock SPINLOCK k, SPINLOCK => Some (Unlock k)
  | _, _ => None
  end.
Definition lock_ops (d : test_desc) (t : trace call) : list op := omap (fun e => lock_op d e.1) t.

Lemma lock_ops_app d t u : lock_ops d (t ++ u) = (lock_ops d t ++ lock_ops d u)%list.
Proof. apply omap_app. Qed.

Definition is_go (c : call) : bool := match c with Read_go => true | _ => false end.

(** ** Proofs: one thread *)
Section thread_proofs.
Context (answers : trace call -> call -> Z) (o : options) (d : test_desc).
Context (Hn : 0 < num_threads o <= MAX_CPUS).
#[local] Instance qs_os : Os call (trace call) := tracing answers.

Lemma next_lock_range k : 0 <= k < num_threads o -> 0 <= next_lock (num_threads o) k < num_threads o.
Proof. intros Hk. unfold next_lock. destruct (Z.leb_spec (num_threads o) (k + 1)); lia. Qed.

Lemma lock_call_adds k c t (x : op) : 0 <= k < num_threads o -> lock_op d c = Some x ->
  adds t (lock_call k c) (fun r u => r = inr tt /\ lock_ops d u = [x]).
Proof.
  intros Hk Hx. unfold lock_call. rewrite (proj2 (Z.leb_le 0 k)), (proj2 (Z.ltb_lt k MAX_CPUS)) by lia. cbn [andb].
  apply adds_sys. intros r. apply adds_ret. split; [done|]. unfold lock_ops. cbn. by rewrite Hx.
Qed.

Lemma take_lock_adds k t : 0 <= k < num_threads o -> adds t (take_lock d k) (fun r u => r = inr tt /\ lock_ops d u = [Lock k]).
Proof. intros Hk. apply lock_call_adds; [done|by destruct d]. Qed.
Lemma release_lock_adds k t : 0 <= k < num_threads o -> adds t (release_lock d k) (fun r u => r = inr tt /\ lock_ops d u = [Unlock k]).
Proof. intros Hk. apply lock_call_adds; [done|by destruct d]. Qed.

Lemma iters_adds n : forall k t, 0 <= k < num_threads o ->
  adds t (iters o d n k) (fun r u => exists k', r = inr k' /\ 0 <= k' < num_threads o /\
    iterations n (num_threads o) k = (lock_ops d u, k')).
Proof.
  induction n as [|n IH]; intros k t Hk; cbn [iters iterations]; [apply adds_ret; by exists k|].
  pose proof (next_lock_range k Hk) as Hk'.
  eapply adds_bind; [by apply release_lock_adds|by intros ? ? [[=] _]|]. intros [] u [_ Hu].
  eapply adds_bind; [by apply take_lock_adds|by intros ? ? [[=] _]|]. intros [] v [_ Hv].
  eapply adds_mono; [by apply IH|]. cbv beta. intros r w (k' & -> & Hr & Hi). exists k'. split_and!; [done|lia..|].
  rewrite Hi, !lock_ops_app, Hu, Hv. done.
Qed.

Lemma iterations_add n m N k : iterations (n + m) N k =
  let (l, k1) := iterations n N k in let (l', k2) := iterations m N k1 in ((l ++ l')%list, k2).
Proof.
  revert k. induction n as [|n IH]; intros k; cbn [Nat.add iterations]; [by destruct (iterations m N k)|].
  rewrite IH. destruct (iterations n N _) as [l k1]. by destruct (iterations m N k1).
Qed.

Lemma sample_loop_adds n : forall k t, 0 <= k < num_threads o ->
  adds t (sample_loop o d n k) (fun r u => exists x, r = inr x /\ length x.1 = n /\ 0 <= x.2 < num_threads o /\
    iterations (n * NR_ITERS) (num_threads o) k = (lock_ops d u, x.2)).
Proof.
  induction n as [|n IH]; intros k t Hk; cbn [sample_loop]; [apply adds_ret; by exists ([], k)|].
  apply adds_cycles. intros c1. eapply adds_bind; [by apply iters_adds|by intros ? ? (? & [=] & _)|].
  intros k1 u (? & [= <-] & Hk1 & Hu). apply adds_cycles. intros c2.
  eapply adds_bind; [by apply IH|by intros ? ? (? & [=] & _)|]. intros [l k2] v (? & [= <-] & Hl & Hk2 & Hv).
  cbn [fst snd] in *. apply adds_ret. exists (u64 (u64 c2 - u64 c1) :: l, k2). cbn [fst snd length].
  split_and!; [done|by rewrite Hl|lia..|]. change (S n * NR_ITERS)%nat with (NR_ITERS + n * NR_ITERS)%nat.
  rewrite iterations_add, Hu, Hv. rewrite app_nil_r.
  change ((Rdtsc, c1) :: u ++ (Rdtsc, c2) :: v)%list with ([(Rdtsc, c1)] ++ u ++ [(Rdtsc, c2)] ++ v)%list.
  by rewrite !lock_ops_app.
Qed.

(** [go] is set by the [m]-th look at it. *)
Definition goes (m : nat) : Prop := forall t, (m <= looks is_go t)%nat -> answers t Read_go <> 0.

Lemma wait_go_adds m fuel : goes m -> forall t, (m <= fuel + looks is_go t)%nat ->
  adds t (wait_go (S fuel)) (fun r u => r = inr tt /\ lock_ops d u = []).
Proof.
  intros Hg. induction fuel as [|fuel IH]; intros t Hf; cbn [wait_go]; apply adds_call;
    (destruct (Z.eqb_spec (answers t Read_go) 0) as [H0|H0]; cbn [negb]; [|by apply adds_ret; destruct d]).
  - by apply Hg in H0.
  - apply adds_sys. intros y. eapply adds_mono; [apply IH|].
    + rewrite !looks_app. cbn. lia.
    + cbv beta. intros r u [-> Hu]. split; [done|]. unfold lock_ops in *. by destruct d.
Qed.

Lemma test_thread_adds m fuel cpu t : goes m -> (m < fuel)%nat -> 0 <= cpu < num_threads o ->
  adds t (test_thread o d fuel cpu) (fun r u => (r = inl 1 /\ lock_ops d u = []) \/
    exists l, r = inr l /\ length l = MAX_SAMPLES /\ lock_ops d u = thread_ops (num_threads o) cpu).
Proof.
  intros Hg Hf Hc. unfold test_thread.
  eapply (adds_bind _ _ _ (fun r u => (r = inl 1 \/ r = inr tt) /\ lock_ops d u = [])).
  - unfold thread_setup, thread_setched. apply adds_sys. intros a. destruct (a =? -1); [apply adds_exit; by destruct d; auto|].
    apply adds_sys. intros b. destruct (b =? -1); [apply adds_exit; by destruct d; auto|apply adds_ret; by destruct d; auto].
  - intros code u [[[= ->]|[=]] Hu]. by left.
  - intros [] u [_ Hu]. eapply adds_bind; [by apply take_lock_adds|by intros ? ? [[=] _]|]. intros [] v [_ Hv].
    destruct fuel as [|fuel]; [lia|].
    eapply adds_bind; [apply (wait_go_adds m); [done|lia]|by intros ? ? [[=] _]|]. intros [] w [_ Hw].
    eapply adds_bind; [by apply sample_loop_adds|by intros ? ? (? & [=] & _)|]. intros [l k] x (? & [= <-] & Hl & Hk & Hx).
    cbn [fst snd] in *. eapply adds_bind; [by apply release_lock_adds|by intros ? ? [[=] _]|]. intros [] y [_ Hy].
    apply adds_ret. right. exists l. split; [done|]. split; [done|]. rewrite !lock_ops_app, Hu, Hv, Hw, Hy.
    unfold thread_ops. by rewrite Hx.
Qed.
End thread_proofs.

(** A test thread of qspins, of either kind, with up to 128 threads and [go] set some time: it
    exits with 1 when its scheduling cannot be set, and otherwise ends with 32 samples
    having taken and released the locks of the ring in turn, one at a time, never outside
    of the arrays. *)
Theorem test_threads_ops answers o d m fuel cpu : goes answers m -> (m < fuel)%nat ->
  num_threads o <= MAX_CPUS -> 0 <= cpu < num_threads o ->
  exists r t, test_thread (Os0 := tracing answers) o d fuel cpu [] = Ok (r, t) /\
    ((r = inl 1 /\ lock_ops d t = []) \/
     exists l, r = inr l /\ length l = MAX_SAMPLES /\ lock_ops d t = thread_ops (num_threads o) cpu).
Proof. intros Hg Hf Hn Hc. apply adds_run. by apply (test_thread_adds answers o d ltac:(lia) m). Qed.

(** ** All threads on the ring of ticket locks *)

(** The two halves of [tspin_lock], and [tspin_unlock]. *)
Inductive micro := Take (k : nat) | Enter (k : nat) | Leave (k : nat).
Definition micros (l : list op) : list micro :=
  concat (map (fun x => match x with
    | Lock k => [Take (Z.to_nat k); Enter (Z.to_nat k)]
    | Unlock k => [Leave (Z.to_nat k)] end) l).

(** The locks, and what every thread has still to do. *)
Record ring := mk_ring { locks : list ticket.state; todo : list (list micro) }.

(** Thread [i] goes on: one step of one lock, by that thread. *)
Inductive step : ring -> ring -> Prop :=
| step_take i k l s pos lk g : todo g !! i = Some (Take k :: l) -> locks g !! k = Some s ->
    ticket.threads s !! i = Some ticket.TIdle -> tspin_xadd (ticket.lock s) = (pos, lk) ->
    step g (mk_ring (<[k := ticket.mk_state lk (<[i := ticket.TWait pos]> (ticket.threads s)) (ticket.taken s ++ [i]) (ticket.released s)]> (locks g))
      (<[i := l]> (todo g)))
| step_enter i k l s pos g : todo g !! i = Some (Enter k :: l) -> locks g !! k = Some s ->
    ticket.threads s !! i = Some (ticket.TWait pos) -> tspin_served pos (ticket.lock s) = true ->
    step g (mk_ring (<[k := ticket.mk_state (ticket.lock s) (<[i := ticket.THeld]> (ticket.threads s)) (ticket.taken s) (ticket.released s)]> (locks g))
      (<[i := l]> (todo g)))
| step_leave i k l s g : todo g !! i = Some (Leave k :: l) -> locks g !! k = Some s ->
    ticket.threads s !! i = Some ticket.THeld ->
    step g (mk_ring (<[k := ticket.mk_state (tspin_unlock (ticket.lock s)) (<[i := ticket.TIdle]> (ticket.threads s)) (ticket.taken s) (ticket.released s ++ [i])]> (locks g))
      (<[i := l]> (todo g))).

Definition start (n : nat) : ring :=
  mk_ring (replicate n (ticket.mk_state tspin_lock_init (replicate n ticket.TIdle) [] []))
    (map (fun i => micros (thread_ops (Z.of_nat n) (Z.of_nat i))) (seq 0 n)).

(** Every thread is through, and no lock is held or waited for. *)
Definition finished (n : nat) (g : ring) : Prop :=
  Forall (fun l => l = []) (todo g) /\ length (todo g) = n /\
  Forall (fun s => ticket.threads s = replicate n ticket.TIdle) (locks g).

(** ** Proofs: the ring *)

(** Whole turns at a lock. *)
Inductive turns (n : nat) : list micro -> Prop :=
| turns_nil : turns n []
| turns_cons k l : (k < n)%nat -> turns n l -> turns n (Take k :: Enter k :: Leave k :: l).

Inductive good_todo (n : nat) : list micro -> Prop :=
| good_turns l : turns n l -> good_todo n l
| good_enter k l : (k < n)%nat -> turns n l -> good_todo n (Enter k :: Leave k :: l)
| good_leave k l : (k < n)%nat -> turns n l -> good_todo n (Leave k :: l).

(** What a thread with [l] to do is at the lock [k]. *)
Definition expects (l : list micro) (k : nat) (t : ticket.thread) : Prop :=
  match l with
  | Enter k' :: _ => if decide (k = k') then exists pos, t = ticket.TWait pos else t = ticket.TIdle
  | Leave k' :: _ => if decide (k = k') then t = ticket.THeld else t = ticket.TIdle
  | _ => t = ticket.TIdle
  end.

Record ring_inv (n : nat) (g : ring) : Prop := {
  ri_locks : length (locks g) = n;
  ri_todo : length (todo g) = n;
  ri_good : forall i l, todo g !! i = Some l -> good_todo n l;
  ri_reach : forall k s, locks g !! k = Some s -> ticket.reach n s;
  ri_expects : forall i k l s, todo g !! i = Some l -> locks g !! k = Some s ->
    exists t, ticket.threads s !! i = Some t /\ expects l k t
}.

Lemma turns_expects n l k : turns n l -> expects l k ticket.TIdle.
Proof. by destruct 1. Qed.

Lemma ring_inv_update n g i k m l s s' t : ring_inv n g -> todo g !! i = Some (m :: l) -> locks g !! k = Some s ->
  ticket.step s s' -> ticket.threads s' = <[i := t]> (ticket.threads s) -> good_todo n l -> expects l k t ->
  (forall k' x, k' <> k -> expects (m :: l) k' x -> expects l k' x) ->
  ring_inv n (mk_ring (<[k := s']> (locks g)) (<[i := l]> (todo g))).
Proof.
  intros [] Hi Hk Hst Ht Hl Hx Ho. split; cbn [locks todo]; rewrite ?length_insert; try done.
  - intros i' l' H'. destruct (decide (i' = i)) as [->|].
    + rewrite list_lookup_insert_eq in H' by (by eapply lookup_lt_Some). by injection H' as <-.
    + rewrite list_lookup_insert_ne in H' by done. eauto.
  - intros k' s0 H'. destruct (decide (k' = k)) as [->|].
    + rewrite list_lookup_insert_eq in H' by (by eapply lookup_lt_Some). injection H' as <-. eapply ticket.reach_step; eauto.
    + rewrite list_lookup_insert_ne in H' by done. eauto.
  - intros i' k' l' s0 H1 H2. destruct (decide (k' = k)) as [->|Hkk].
    + rewrite list_lookup_insert_eq in H2 by (by eapply lookup_lt_Some). injection H2 as <-. rewrite Ht.
      destruct (decide (i' = i)) as [->|].
      * rewrite list_lookup_insert_eq in H1 by (by eapply lookup_lt_Some). injection H1 as <-. exists t. split; [|done].
        destruct (ri_expects0 i k _ s Hi Hk) as (t0 & Ht0 & _). apply list_lookup_insert_eq. by eapply lookup_lt_Some.
      * rewrite list_lookup_insert_ne in H1 by done. rewrite list_lookup_insert_ne by done. eauto.
    + rewrite list_lookup_insert_ne in H2 by done. destruct (decide (i' = i)) as [->|].
      * rewrite list_lookup_insert_eq in H1 by (by eapply lookup_lt_Some). injection H1 as <-.
        destruct (ri_expects0 i k' _ s0 Hi H2) as (t0 & Ht0 & Hx0). exists t0. eauto.
      * rewrite list_lookup_insert_ne in H1 by done. eauto.
Qed.

Lemma good_take n k l : good_todo n (Take k :: l) -> exists l', l = Enter k :: Leave k :: l' /\ (k < n)%nat /\ turns n l'.
Proof. inversion 1 as [? H'| |]; subst. inversion H'; subst. eauto. Qed.
Lemma good_enter_inv n k l : good_todo n (Enter k :: l) -> exists l', l = Leave k :: l' /\ (k < n)%nat /\ turns n l'.
Proof. inversion 1 as [? H'| |]; subst; [inversion H'|eauto]. Qed.
Lemma good_leave_inv n k l : good_todo n (Leave k :: l) -> (k < n)%nat /\ turns n l.
Proof. inversion 1 as [? H'| |]; subst; [inversion H'|done]. Qed.

Lemma ring_inv_step n g g' : ring_inv n g -> step g g' -> ring_inv n g'.
Proof.
  intros Hinv Hst. destruct Hst as [i k l s pos lk g Hi Hk Ht Hx|i k l s pos g Hi Hk Ht Hs|i k l s g Hi Hk Ht];
    pose proof (ri_good n g Hinv i _ Hi) as Hgood.
  - apply good_take in Hgood as (l' & -> & Hkn & Hl').
    eapply ring_inv_update; [exact Hinv|exact Hi|exact Hk|by apply ticket.step_xadd|done|by constructor| |].
    + cbn. rewrite decide_True by done. by eexists.
    + intros k' x Hne. cbn. by rewrite decide_False.
  - apply good_enter_inv in Hgood as (l' & -> & Hkn & Hl').
    eapply ring_inv_update; [exact Hinv|exact Hi|exact Hk|by eapply ticket.step_served|done|by constructor| |].
    + cbn. by rewrite decide_True.
    + intros k' x Hne. cbn. by rewrite !decide_False.
  - apply good_leave_inv in Hgood as [Hkn Hl'].
    eapply ring_inv_update; [exact Hinv|exact Hi|exact Hk|by apply ticket.step_unlock|done|by constructor|by eapply turns_expects|].
    intros k' x Hne. cbn. rewrite decide_False by done. intros ->. by eapply turns_expects.
Qed.

Lemma concat_insert_length {A} (t : list (list A)) : forall i m l, t !! i = Some (m :: l) ->
  length (concat t) = S (length (concat (<[i := l]> t))).
Proof.
  induction t as [|x t IH]; intros [|i] m l Hi; [done..| |].
  - injection Hi as ->. done.
  - change (<[S i := l]> (x :: t)) with (x :: <[i := l]> t). cbn [concat].
    rewrite !length_app, (IH i m l Hi). lia.
Qed.

Lemma step_shortens g g' : step g g' -> (length (concat (todo g')) < length (concat (todo g)))%nat.
Proof. intros [i k l ? ? ? ? Hi|i k l ? ? ? Hi|i k l ? ? Hi]; cbn [todo]; rewrite (concat_insert_length _ _ _ _ Hi); apply Nat.lt_succ_diag_r. Qed.

(** A thread that has a turn to end, or the oldest one at the lock of a thread that waits,
    can go on. *)
Lemma ring_progress n g : Z.of_nat n <= 2 ^ 16 -> ring_inv n g -> finished n g \/ exists g', step g g'.
Proof.
  intros Hn Hinv. pose proof Hinv as [].
  assert (Hlock : forall k, (k < n)%nat -> exists s, locks g !! k = Some s).
  { intros k Hk. apply lookup_lt_is_Some. lia. }
  assert (Hleave : forall i k l s, todo g !! i = Some (Leave k :: l) -> locks g !! k = Some s -> exists g', step g g').
  { intros i k l s Hi Hk. destruct (ri_expects0 i k _ s Hi Hk) as (t & Ht & Hx). cbn in Hx. rewrite decide_True in Hx by done.
    subst t. eexists. by eapply step_leave. }
  destruct (decide (Forall (fun l => l = []) (todo g))) as [Hall|Hsome].
  - left. split; [done|]. split; [done|]. apply Forall_forall. intros s [k Hk]%list_elem_of_lookup.
    destruct (ticket_reach_inv n s Hn (ri_reach0 k s Hk)) as [q Hq].
    apply list_eq_same_length with n; [by rewrite length_replicate|by apply (inv_len _ _ _ Hq)|].
    intros i x y Hi Hx Hy. apply lookup_replicate in Hy as [-> _].
    destruct (lookup_lt_is_Some_2 (todo g) i ltac:(lia)) as [l Hl].
    destruct (ri_expects0 i k l s Hl Hk) as (t & Ht & Hexp). rewrite Forall_lookup in Hall. rewrite (Hall i l Hl) in Hexp.
    cbn in Hexp. congruence.
  - right. apply not_Forall_Exists in Hsome; [|apply _]. apply Exists_exists in Hsome as (l & [i Hi]%list_elem_of_lookup & Hne).
    destruct l as [|m l]; [by destruct Hne|]. clear Hne. pose proof (ri_good0 i _ Hi) as Hgood. destruct m as [k|k|k].
    + apply good_take in Hgood as (l' & -> & Hk & _). destruct (Hlock k Hk) as [s Hs].
      destruct (ri_expects0 i k _ s Hi Hs) as (t & Ht & Hx). cbn in Hx. subst t. eexists. by eapply step_take.
    + apply good_enter_inv in Hgood as (l' & -> & Hk & _). destruct (Hlock k Hk) as [s Hs].
      destruct (ri_expects0 i k _ s Hi Hs) as (t & Ht & Hx). cbn in Hx. rewrite decide_True in Hx by done. destruct Hx as [pos ->].
      destruct (ticket_reach_inv n s Hn (ri_reach0 k s Hs)) as [q Hq].
      pose proof (inv_idle _ _ _ Hq i _ Ht ltac:(done)) as Hin. destruct q as [|j q]; [by apply elem_of_nil in Hin|].
      assert (Hjn : exists tj, ticket.threads s !! j = Some tj) by (destruct (inv_wait _ _ _ Hq O j eq_refl) as [?|[_ ?]]; eauto).
      destruct Hjn as [tj Hj]. assert (Hjlt : (j < n)%nat) by (rewrite <- (inv_len _ _ _ Hq); by eapply lookup_lt_Some).
      destruct (lookup_lt_is_Some_2 (todo g) j ltac:(lia)) as [lj Hlj].
      destruct (ri_expects0 j k lj s Hlj Hs) as (t' & Ht' & Hxj). assert (t' = tj) as -> by congruence.
      destruct (inv_wait _ _ _ Hq O j eq_refl) as [Hw|[_ Hh]].
      * assert (tj = ticket.TWait (u16 (qtail (ticket.lock s) + Z.of_nat 0))) as -> by congruence.
        destruct lj as [|[k'|k'|k'] lj]; cbn in Hxj; try done; destruct (decide (k = k')) as [<-|]; try done.
        eexists. eapply step_enter; [exact Hlj|exact Hs|exact Hj|]. apply Z.eqb_eq. rewrite Z.add_0_r.
        unfold u16. apply Z.mod_small, (inv_tail _ _ _ Hq).
      * assert (tj = ticket.THeld) as -> by congruence.
        destruct lj as [|[k'|k'|k'] lj]; cbn in Hxj; try done; destruct (decide (k = k')) as [<-|]; try done.
        { by destruct Hxj. }
        by eapply Hleave.
    + apply good_leave_inv in Hgood as [Hk _]. destruct (Hlock k Hk) as [s Hs]. by eapply Hleave.
Qed.

(** The program of a thread makes whole turns. *)
Lemma micros_app l l' : micros (l ++ l') = (micros l ++ micros l')%list.
Proof. unfold micros. by rewrite map_app, concat_app. Qed.

Lemma iterations_turns n m : forall k, 0 <= k < Z.of_nat n ->
  let (l, k2) := iterations m (Z.of_nat n) k in turns n (Take (Z.to_nat k) :: Enter (Z.to_nat k) :: micros (l ++ [Unlock k2])).
Proof.
  induction m as [|m IH]; intros k Hk; cbn [iterations].
  - apply turns_cons; [lia|constructor].
  - assert (Hk' : 0 <= next_lock (Z.of_nat n) k < Z.of_nat n).
    { unfold next_lock. destruct (Z.leb_spec (Z.of_nat n) (k + 1)); lia. }
    specialize (IH _ Hk'). destruct (iterations m _ _) as [l k2]. apply turns_cons; [lia|exact IH].
Qed.

Lemma thread_ops_turns n cpu : 0 <= cpu < Z.of_nat n -> turns n (micros (thread_ops (Z.of_nat n) cpu)).
Proof.
  intros Hc. unfold thread_ops. generalize (MAX_SAMPLES * NR_ITERS)%nat as m. intros m.
  pose proof (iterations_turns n m cpu Hc) as Ht. destruct (iterations m (Z.of_nat n) cpu) as [l k]. exact Ht.
Qed.

Lemma ring_inv_start n : ring_inv n (start n).
Proof.
  assert (Hg : forall i l, todo (start n) !! i = Some l -> turns n l).
  { intros i l Hi. cbn [start todo] in Hi. apply list_lookup_fmap_Some in Hi as (j & -> & Hj). apply lookup_seq in Hj as [-> Hj].
    apply thread_ops_turns. lia. }
  split.
  - apply length_replicate.
  - cbn [start todo]. by rewrite length_map, length_seq.
  - intros i l Hi. apply good_turns. by eapply Hg.
  - intros k s Hk. apply lookup_replicate in Hk as [-> _]. constructor.
  - intros i k l s Hi Hk. apply lookup_replicate in Hk as [-> _]. exists ticket.TIdle. cbn [ticket.threads].
    split; [|by eapply turns_expects, Hg]. apply lookup_replicate. split; [done|].
    apply lookup_lt_Some in Hi. cbn [start todo] in Hi. by rewrite length_map, length_seq in Hi.
Qed.

(** C16: up to 2^16 threads that run the program of a test thread on a ring of as many ticket
    locks never deadlock and always end, whatever the interleaving, with all locks free: no
    state on the way is stuck, although the threads take each other's locks in a circle. *)
Theorem tspin_threads_end n : Z.of_nat n <= 2 ^ 16 -> inevitable step (finished n) (start n).
Proof.
  intros Hn. apply (inevitable_measure step (ring_inv n) (fun g => length (concat (todo g)))).
  - intros g g' Hg Hst. split; [by eapply ring_inv_step|by apply step_shortens].
  - intros g Hg. by apply ring_progress.
  - apply ring_inv_start.
Qed.

Lemma tspin_threads_end_witness : inevitable step (finished 4) (start 4).
Proof. apply (tspin_threads_end 4). lia. Defined.
