(* ===== verification/SignalProcs.v ===== *)
(** * signalfd-test.c: the tests with several processes

    The tests that fork, built from the functions of [SignalFd], over a class of kernels
    that adds processes and threads; [fork] gives 0 in the child, so that each test is that
    of both its processes.  [process_kernel] is what one process sees: which numbers its
    forks give and which signals reach it while it waits are scripted.  Lines that only
    say what is going on are left out. *)
From Stdlib Require Import ZArith Lia Bool.
From stdpp Require Import base tactics list sets.
From S2P Require Import Prelude Exits SignalFd.

Definition SIGCHLD : Z := 17.
Definition FORK_PROC_COUNT : Z := 5000.

(** The functions of the threads of the stress test. *)
Inductive thread_proc := Creator (n : Z) | Forker (n : Z).

(** [thread_new] gives 0 for an error. *)
Class Procs (K : Type) := {
  fork : M K Z;
  getpid : M K Z;
  getppid : M K Z;
  waitpid : Z -> M K Z;
  usleep : Z -> M K unit;
  epoll_ctl_del : Z -> Z -> M K Z;
  thread_new : thread_proc -> M K Z;
  thread_wait : Z -> M K Z
}.

Section program.
Context {K : Type} `{!Kernel K, !Procs K}.

Definition run_proc_in_child (cproc : E (state K) unit) (pproc : option (E (state K) unit)) : E (state K) unit :=
  pid <~ e_run (sys fork);
  if pid =? 0 then _ <~ cproc; e_exit 0
  else if pid =? -1 then e_exit 1
  else
    _ <~ (match pproc with Some pproc => pproc | None => e_ret tt end);
    r <~ e_run (sys (waitpid pid));
    if negb (r =? pid) then _ <~ e_run (print (FailedWait pid)); e_exit 1 else e_ret tt.

Definition send (sig : Z) : E (state K) unit :=
  _ <~ e_run (print (Sending sig)); e_run (sys (kill 0 sig)).

Definition epoll_parent_proc_2 (sig : Z) : E (state K) unit := _ <~ e_run (sys (usleep 100000)); send sig.
Definition epoll_child_proc_2 (fuel : nat) (efd : Z) : E (state K) unit := e_run (xepoll_wait_sigs fuel efd 250 true).

Definition epoll_test_2 (fuel : nat) : E (state K) unit :=
  e <~ xcreate_epoll_signalfds SIGNALFDS_X_EPOLLFD true;
  _ <~ run_proc_in_child (epoll_child_proc_2 fuel e.1) (Some (epoll_parent_proc_2 SIGUSR1));
  e_run (xepoll_wait_sigs fuel e.1 250 true).

Definition epoll_child_proc_3 (fuel : nat) (efd : Z) : E (state K) unit :=
  _ <~ e_run (sys (usleep 100000));
  _ <~ send SIGUSR1;
  e_run (xepoll_wait_sigs fuel efd 250 true).

Definition epoll_test_3 (fuel : nat) : E (state K) unit :=
  e <~ xcreate_epoll_signalfds SIGNALFDS_X_EPOLLFD true;
  _ <~ run_proc_in_child (epoll_child_proc_3 fuel e.1) None;
  e_run (xepoll_wait_sigs fuel e.1 250 true).

(** [efd] and [sfds] are those of the structure [esf]. *)
Definition epoll_child_proc_4 (fuel : nat) (efd : Z) (sfds : list Z) : E (state K) unit :=
  _ <~ e_run (sys (usleep 500000));
  _ <~ e_run (xepoll_wait_sigs fuel efd 250 true);
  e_for_each sfds (fun fd => _ <~ e_run (sys (epoll_ctl_del efd fd)); e_ret tt).

Definition epoll_parent_proc_4 : E (state K) unit := _ <~ send SIGUSR1; e_exit 0.

Definition epoll_test_4 (fuel : nat) : E (state K) unit :=
  e <~ xcreate_epoll_signalfds SIGNALFDS_X_EPOLLFD true;
  run_proc_in_child (epoll_child_proc_4 fuel e.1 e.2) (Some epoll_parent_proc_4).

Definition stress_child_proc (fuel : nat) : E (state K) unit :=
  e <~ xcreate_epoll_signalfds SIGNALFDS_X_EPOLLFD false;
  me <~ e_run (sys getpid);
  _ <~ e_run (sys (kill me SIGUSR1));
  e_run (xepoll_wait_sigs fuel e.1 0 false).

Fixpoint fork_loop (n fuel : nat) : E (state K) unit :=
  match n with
  | O => e_ret tt
  | S n => _ <~ run_proc_in_child (stress_child_proc fuel) None; fork_loop n fuel
  end.
Definition forker_thproc (fuel : nat) (n : Z) : E (state K) unit := fork_loop (Z.to_nat (s32 n)) fuel.

Definition xthread_new (p : thread_proc) : E (state K) Z :=
  tid <~ e_run (sys (thread_new p)); if tid =? 0 then e_exit 1 else e_ret tid.

Definition signalfd_stress_fork : E (state K) unit :=
  _ <~ xcreate_epoll_signalfds SIGNALFDS_X_EPOLLFD true;
  ths <~ xthread_new (Creator SIGNALFD_CREATE_COUNT);
  thf <~ xthread_new (Forker FORK_PROC_COUNT);
  _ <~ e_run (sys (thread_wait thf));
  _ <~ e_run (sys (thread_wait ths));
  e_ret tt.

(** The first tests of main: a child that ends, one that sends a signal, and one that is
    sent a signal. *)
Definition sigchld_test (sfd : Z) : E (state K) unit :=
  pid <~ e_run (sys fork);
  if pid =? 0 then e_exit 0 else
  lsig <~ e_run (waitsig sfd 1000);
  e_run (print (GotSig lsig)).

Definition child_sends_test (sfd : Z) : E (state K) unit :=
  pid <~ e_run (sys fork);
  if pid =? 0 then
    parent <~ e_run (sys getppid);
    _ <~ e_run (sys (kill parent SIGUSR1)); e_exit 0
  else
  lsig <~ e_run (waitsig sfd 1000);
  _ <~ e_run (print (GotExpect lsig SIGUSR1));
  lsig <~ e_run (waitsig sfd 1000);
  e_run (print (GotExpect lsig SIGCHLD)).

Definition parent_sends_test (sfd : Z) : E (state K) unit :=
  pid <~ e_run (sys fork);
  if pid =? 0 then
    lsig <~ e_run (waitsig sfd 1000);
    _ <~ e_run (print (GotExpect lsig SIGUSR1)); e_exit 0
  else
  _ <~ e_run (sys (kill pid SIGUSR1));
  _ <~ e_run (sys (usleep 250000));
  lsig <~ e_run (waitsig sfd 1000);
  e_run (print (GotExpect lsig SIGCHLD)).

(** main: the threads of its multi-thread test ([SignalFd.threads]) have ended when it goes
    on to flush the signals. *)
Definition fork_tests : E (state K) Z :=
  sfd <~ xsignalfd (-1) (sigdelset sigfillset SIGINT);
  _ <~ e_run (print (Descriptor sfd));
  _ <~ sigchld_test sfd;
  _ <~ child_sends_test sfd;
  _ <~ parent_sends_test sfd;
  e_ret sfd.

Definition epoll_tests (fuel : nat) : E (state K) unit :=
  _ <~ run_proc_in_child (epoll_test_1 fuel) None;
  _ <~ run_proc_in_child (epoll_test_2 fuel) None;
  _ <~ run_proc_in_child (epoll_test_3 fuel) None;
  _ <~ run_proc_in_child (epoll_test_4 fuel) None;
  _ <~ e_run (sys (usleep (2 * 1000000)));
  run_proc_in_child signalfd_stress_fork None.

Definition main (fuel : nat) : E (state K) Z :=
  sfd <~ fork_tests;
  _ <~ main_tests fuel sfd;
  _ <~ epoll_tests fuel;
  e_ret 0.
End program.

(** ** What one process sees

    [forks] are the results of its forks in order, 0 in a child; [arrivals] are the signals
    that reach it in each of its waits in turn, [kills] those that it has sent. *)
Record psim := mk_psim { own : ksim; me : Z; forks : list Z; arrivals : list (list Z); kills : list (Z * Z) }.

Definition on_own {A} (m : M ksim A) : M psim A := fun p =>
  match m (own p) with
  | Ok (a, k) => Ok (a, mk_psim k (me p) (forks p) (arrivals p) (kills p))
  | Fault => Fault
  | NoFuel => NoFuel
  end.

(** Time passes: the next signals become pending. *)
Definition post (sigs : list Z) (k : ksim) : ksim := mk_ksim (fold_right insert_sig (pending k) sigs) (descs k) (err k).
Definition pass_time : M psim unit := fun p =>
  match arrivals p with
  | [] => Ok (tt, p)
  | a :: l => Ok (tt, mk_psim (post a (own p)) (me p) (forks p) l (kills p))
  end.

(** A wait of a function of [ksim] that may find nothing at first. *)
Definition waiting {A} (m : M ksim A) (found : A -> bool) (timeo : Z) : M psim A :=
  a ← on_own m;
  if found a || (timeo =? 0) then mret a else pass_time;; on_own m.

#[export] Instance process_kernel : Kernel psim := {
  signalfd ufc mask := on_own (k_signalfd ufc mask);
  set_nonblock fd b := on_own (k_set_nonblock fd b);
  epoll_create n := on_own (new_desc (Epoll []));
  epoll_ctl_add efd fd data := on_own (k_add efd fd data);
  epoll_wait efd m timeo := waiting (k_epoll_wait efd m timeo) (fun l => negb (bool_decide (l = []))) timeo;
  poll_in fd timeo := waiting (k_poll fd timeo) snd timeo;
  read_siginfo fd := on_own (k_read fd);
  errno := on_own (gets err);
  kill pid sig := fun p => Ok (tt, mk_psim (if (pid =? 0) || (pid =? me p) then post [sig] (own p) else own p)
    (me p) (forks p) (arrivals p) (kills p ++ [(pid, sig)]));
  close fd := on_own (fun k => Ok (tt, set_desc fd Closed k))
}.

(** The parent has the number 1; a process waited for has ended, and its SIGCHLD is there. *)
#[export] Instance process_procs : Procs psim := {
  fork p := match forks p with
            | [] => Ok (-1, p)
            | pid :: l => Ok (pid, mk_psim (own p) (me p) l (arrivals p) (kills p))
            end;
  getpid := gets me;
  getppid := mret 1;
  waitpid pid := pass_time;; puts (fun p => mk_psim (post [SIGCHLD] (own p)) (me p) (forks p) (arrivals p) (kills p));; mret pid;
  usleep n := pass_time;
  epoll_ctl_del efd fd := mret 0;
  thread_new f := mret 100;
  thread_wait tid := mret 0
}.

(** A process of number 20 before a test: the numbers its forks give, and its signals. *)
Definition start (forks : list Z) (arrivals : list (list Z)) : state psim :=
  mk_state (mk_psim (mk_ksim [] [] 0) 20 forks arrivals []) [].

(** ** Proofs *)

(** In no kernel does a child go on with what follows in its parent; without a child the
    program ends; and a parent goes on only when it has waited for its child. *)
Lemma run_proc_ends {K} `{!Kernel K, !Procs K} (cproc : E (state K) unit) pproc (s s' : state K) r :
  run_proc_in_child cproc pproc s = Ok (r, s') -> exists pid k, fork (kern s) = Ok (pid, k) /\
    ((pid = 0 -> exists code, r = inl code) /\ (pid = -1 -> r = inl 1) /\
     (r = inr tt -> exists k1 k2, waitpid pid k1 = Ok (pid, k2) /\ kern s' = k2)).
Proof.
  unfold run_proc_in_child, e_bind, e_run, mbind, M_bind, sys at 1. destruct (fork (kern s)) as [[pid k]| |]; [|done|done].
  cbn [mret M_ret]. intros Hr. exists pid, k. split; [done|]. destruct (Z.eqb_spec pid 0) as [->|H0].
  { split; [intros _|split; [done|intros ->]].
    - destruct (cproc _) as [[[code|[]] s1]| |]; [|by injection Hr as <- _; eexists..|done|done].
      injection Hr as <- _. by eexists.
    - exfalso. destruct (cproc _) as [[[code|[]] s1]| |]; done. }
  destruct (Z.eqb_spec pid (-1)) as [->|H1]; [injection Hr as <- _; done|].
  split; [done|]. split; [done|]. intros ->.
  destruct (match pproc with Some p => p | None => e_ret tt end (mk_state k (out s))) as [[[code|[]] s1]| |]; [done| |done|done].
  cbn [mret M_ret] in Hr. unfold sys in Hr. destruct (waitpid pid (kern s1)) as [[q k2]| |] eqn:Ew; [|done|done]. cbn in Hr.
  destruct (Z.eqb_spec q pid) as [->|Hq]; cbn in Hr; [|done]. injection Hr as <-. by exists (kern s1), k2.
Qed.

(** The lines of a run, and the signals sent. *)
Definition run (m : E (state psim) unit) (s : state psim) : option (Z + unit) * list line * list (Z * Z) :=
  match m s with Ok (r, s) => (Some r, out s, kills (kern s)) | _ => (None, [], []) end.

Definition descriptors : list line := Descriptor <$> seqZ 4 10.

(** A signal is read once, and stolen from the nine other descriptors reported. *)
Definition read_once (sig : Z) : list line := SignalRead sig 4 :: (Stolen <$> seqZ 5 9).

Lemma epoll_test_2_runs :
  run (epoll_test_2 3) (start [30] []) = (Some (inr tt), descriptors ++ Sending SIGUSR1 :: SignalRead SIGUSR1 4 :: SignalRead SIGCHLD 5 :: (Stolen <$> seqZ 6 8), [(0, SIGUSR1)])%list /\
  run (epoll_test_2 3) (start [0] [[SIGUSR1]]) = (Some (inl 0), descriptors ++ read_once SIGUSR1, [])%list.
Proof. by vm_compute. Qed.

Lemma epoll_test_3_runs :
  run (epoll_test_3 3) (start [30] [[SIGUSR1]]) = (Some (inr tt), descriptors ++ SignalRead SIGUSR1 4 :: SignalRead SIGCHLD 5 :: (Stolen <$> seqZ 6 8), [])%list /\
  run (epoll_test_3 3) (start [0] []) = (Some (inl 0), descriptors ++ Sending SIGUSR1 :: read_once SIGUSR1, [(0, SIGUSR1)])%list.
Proof. by vm_compute. Qed.

Lemma epoll_test_4_runs :
  run (epoll_test_4 3) (start [30] []) = (Some (inl 0), descriptors ++ [Sending SIGUSR1], [(0, SIGUSR1)])%list /\
  run (epoll_test_4 3) (start [0] [[SIGUSR1]]) = (Some (inl 0), descriptors ++ read_once SIGUSR1, [])%list.
Proof. by vm_compute. Qed.

(** A child of the stress test reads its own signal, and prints nothing. *)
Lemma stress_child_runs : run (stress_child_proc 3) (start [] []) = (Some (inr tt), [], [(20, SIGUSR1)]).
Proof. by vm_compute. Qed.

Definition as_unit {A} (m : E (state psim) A) : E (state psim) unit := _ <~ m; e_ret tt.

(** The first tests of main: the parent gets every signal it expects, and so does the
    child that is sent one. *)
Lemma fork_tests_runs :
  run (as_unit fork_tests) (start [30; 31; 32] [[SIGCHLD]; [SIGUSR1]; [SIGCHLD]; [SIGCHLD]]) =
    (Some (inr tt), [Descriptor 3; GotSig SIGCHLD; GotExpect SIGUSR1 SIGUSR1; GotExpect SIGCHLD SIGCHLD; GotExpect SIGCHLD SIGCHLD], [(32, SIGUSR1)]) /\
  run (as_unit fork_tests) (start [30; 0] [[SIGCHLD]]) = (Some (inl 0), [Descriptor 3; GotSig SIGCHLD], [(1, SIGUSR1)]) /\
  run (as_unit fork_tests) (start [30; 31; 0] [[SIGCHLD]; [SIGUSR1]; [SIGCHLD]; [SIGUSR1]]) =
    (Some (inl 0), [Descriptor 3; GotSig SIGCHLD; GotExpect SIGUSR1 SIGUSR1; GotExpect SIGCHLD SIGCHLD; GotExpect SIGUSR1 SIGUSR1], []).
Proof. by vm_compute. Qed.

(** A third fork that fails is not noticed: SIGUSR1 is sent to process -1, that is to every
    process there is. *)
Lemma failed_fork_kills_all :
  (run (as_unit fork_tests) (start [30; 31; -1] [[SIGCHLD]; [SIGUSR1]; [SIGCHLD]; []])).2 = [(-1, SIGUSR1)].
Proof. by vm_compute. Qed.

(** All of main, in the first process. *)
Lemma signal_main_ends : exists out, run (as_unit (main 4)) (start [30; 31; 32; 33; 34; 35; 36; 37] [[SIGCHLD]; [SIGUSR1]; [SIGCHLD]; [SIGCHLD]]) =
  (Some (inr tt), out, [(32, SIGUSR1); (0, SIGUSR1); (0, SIGUSR1)]).
Proof. eexists. by vm_compute. Qed.
