(* ===== verification/SigThreads.v ===== *)
(** * signalfd-test.c: its threads, by pthreads or by clone, and the start of main

    The program is compiled with one of two sets of thread functions (USE_PTHREAD); both
    are modelled over the calls they make, each as an instance of the interface [Threads]
    that [xthread_new] and the tests use.  [SignalProcs] has the tests over their
    promise: a thread or 0, and the wait for it. *)
From Stdlib Require Import ZArith Lia Bool.
From stdpp Require Import base tactics list.
From S2P Require Import Prelude Exits SignalFd Trace.

(** [Pthread_create] is followed by [Created], the value of the cell [tid]; [Clone] has the
    address of the stack. *)
Inductive call :=
| Pthread_create (proc data : Z) | Created | Pthread_join (tid : Z)
| Malloc (size : Z) | Clone (proc stack flags data : Z) | Waitpid (pid options : Z)
| Gettid | Tkill (tid sig : Z) | Perror
| Setvbuf (fd : Z) | Signal (sig : Z) | Sigprocmask_block (without : Z) | Print_real_signal (sig : Z).

Definition THREAD_STK_SIZE : Z := 1024 * 64.
Definition CLONE_FLAGS : Z := 512 + 1024 + 2048 + 256 + 17.   (* FS, FILES, SIGHAND, VM and SIGCHLD *)
Definition WALL : Z := 1073741824.

(** ** The interface *)
Class Threads (K : Type) := {
  thread_new : Z -> Z -> E K Z;      (* proc, data; the thread or 0 *)
  thread_wait : Z -> E K Z;          (* 0 or -1 *)
  thread_id : E K Z
}.

Section wrapper.
Context {K : Type} `{!Threads K}.

Definition xthread_new (proc data : Z) : E K Z :=
  tid <~ thread_new proc data;
  if tid =? 0 then e_exit 1 else e_ret tid.
End wrapper.

Section calls.
Context {K : Type} `{!Os call K}.

Definition gettid : E K Z := sys Gettid.
Definition tkill (tid sig : Z) : E K Z := sys (Tkill tid sig).

(** ** With USE_PTHREAD *)
Definition pthread_new (proc data : Z) : E K Z :=
  r <~ sys (Pthread_create proc data);
  if negb (r =? 0) then _ <~ sys Perror; e_ret 0 else
  tid <~ sys Created; e_ret tid.

Definition pthread_wait (tid : Z) : E K Z :=
  r <~ sys (Pthread_join tid);
  if negb (r =? 0) then _ <~ sys Perror; e_ret (-1) else e_ret 0.

Definition pthread_id : E K Z := gettid.

(** ** Without: the result of malloc is not looked at. *)
Definition clone_new (proc data : Z) : E K Z :=
  stk <~ sys (Malloc THREAD_STK_SIZE);
  tid <~ sys (Clone proc (stk + THREAD_STK_SIZE - 8) CLONE_FLAGS data);
  if tid <? 0 then _ <~ sys Perror; e_ret 0 else e_ret tid.

Definition clone_wait (tid : Z) : E K Z :=
  r <~ sys (Waitpid tid WALL);
  if negb (r =? tid) then _ <~ sys Perror; e_ret (-1) else e_ret 0.

Definition clone_id : E K Z := gettid.

Definition pthreads : Threads K := {| thread_new := pthread_new; thread_wait := pthread_wait; thread_id := pthread_id |}.
Definition clones : Threads K := {| thread_new := clone_new; thread_wait := clone_wait; thread_id := clone_id |}.

(** ** The handler, and main up to its first descriptor *)
Definition dummy_sig (sig : Z) : E K unit := _ <~ sys (Print_real_signal sig); e_ret tt.

Definition prepare : E K unit :=
  _ <~ sys (Setvbuf 1); _ <~ sys (Setvbuf 2);
  _ <~ sys (Signal TEST_SIG);
  _ <~ sys (Sigprocmask_block SIGINT); e_ret tt.
End calls.

(** ** What both promise *)

(** The threads there are: those made and not yet waited for, in the order of their making. *)
Definition made (e : call * Z) : option Z :=
  match e with
  | (Created, tid) => Some tid
  | (Clone _ _ _ _, tid) => if tid <? 0 then None else Some tid
  | _ => None
  end.
Definition waited (e : call * Z) : option Z :=
  match e with
  | (Pthread_join tid, r) => if r =? 0 then Some tid else None
  | (Waitpid tid _, r) => if r =? tid then Some tid else None
  | _ => None
  end.

Section promise.
Context (answers : trace call -> call -> Z).
#[local] Instance sig_os : Os call (trace call) := tracing answers.

(** What a program may rely on: a thread that is not 0 was made and is the only one made,
    the program ends without one, and 0 is the result of the wait exactly when the thread
    was waited for. *)
Record promises (T : Threads (trace call)) : Prop := mk_promises {
  pr_new proc data t : adds t (xthread_new (Threads0 := T) proc data) (fun r u =>
    (exists tid, r = inr tid /\ tid <> 0 /\ omap made u = [tid]) \/
    (r = inl 1 /\ Forall (fun tid => tid = 0) (omap made u)));
  pr_wait tid t : adds t (thread_wait (Threads := T) tid) (fun r u =>
    (r = inr 0 /\ omap waited u = [tid]) \/ (r = inr (-1) /\ omap waited u = []))
}.

Lemma xthread_new_promise (T : Threads (trace call)) proc data t :
  adds t (thread_new (Threads := T) proc data) (fun r u => exists tid, r = inr tid /\
    (omap made u = [tid] \/ tid = 0 /\ omap made u = [])) ->
  adds t (xthread_new (Threads0 := T) proc data) (fun r u =>
    (exists tid, r = inr tid /\ tid <> 0 /\ omap made u = [tid]) \/
    (r = inl 1 /\ Forall (fun tid => tid = 0) (omap made u))).
Proof.
  intros Hn. eapply adds_bind; [exact Hn|by intros code u (? & [=] & _)|].
  intros tid u (? & [= <-] & Hm). destruct (Z.eqb_spec tid 0) as [->|H0].
  - apply adds_exit. right. split; [done|]. rewrite app_nil_r. destruct Hm as [->|[_ ->]]; by repeat constructor.
  - apply adds_ret. left. exists tid. rewrite app_nil_r. by destruct Hm as [Hm|[? _]].
Qed.
End promise.

(** Both sets of functions keep the promise, whatever the system answers. *)
Theorem thread_functions_agree answers :
  promises (pthreads (Os0 := tracing answers)) /\ promises (clones (Os0 := tracing answers)).
Proof.
  split; split; intros.
  - apply xthread_new_promise. apply adds_sys. intros r. destruct (r =? 0); cbn [negb].
    + apply adds_sys. intros tid. apply adds_ret. exists tid. by split; [|left].
    + apply adds_sys. intros e. apply adds_ret. exists 0. by split; [|right].
  - apply adds_sys. intros r. destruct (Z.eqb_spec r 0) as [->|Hr]; cbn [negb].
    + apply adds_ret. by left.
    + apply adds_sys. intros e. apply adds_ret. right. split; [done|]. cbn. by rewrite (proj2 (Z.eqb_neq r 0)).
  - apply xthread_new_promise. apply adds_sys. intros stk. apply adds_sys. intros tid. destruct (tid <? 0) eqn:Ht.
    + apply adds_sys. intros e. apply adds_ret. exists 0. split; [done|]. right. split; [done|]. cbn. by rewrite Ht.
    + apply adds_ret. exists tid. split; [done|]. left. cbn. by rewrite Ht.
  - apply adds_sys. intros r. destruct (Z.eqb_spec r tid) as [->|Hr]; cbn [negb].
    + apply adds_ret. left. split; [done|]. cbn. by rewrite Z.eqb_refl.
    + apply adds_sys. intros e. apply adds_ret. right. split; [done|]. cbn. by rewrite (proj2 (Z.eqb_neq r tid)).
Qed.
