(* ===== verification/HttpMain.v ===== *)
(** * thrhttp.c: main, the accepting of connections

    main behind its options ([ThrHttp.parse_args]), written as the calls it makes (see
    [Trace]): one detached thread for each connection, whose session is [ThrHttp.thproc]. *)
From Stdlib Require Import ZArith Lia Bool.
From stdpp Require Import base tactics list.
From S2P Require Import Prelude Exits Libc Trace ThrHttp.

(** The calls.  [Stopped] reads [stopsvr]; [Count_conn] is the increment of [conns] under
    its mutex; [Create] gives 0 when the thread of a connection was made; [Report] prints
    the counters. *)
Inductive call :=
| Signals | Attr_detached | Attr_setstacksize (n : Z) | Socket | Setsockopt (fd : Z) (linger : bool)
| Bind (fd port : Z) | Listen (fd backlog : Z) | Stopped | Accept (fd : Z) | Count_conn | Create (fd : Z) | Close (fd : Z) | Report.

(** The handler of the signals, on [stopsvr]. *)
Definition sig_int (stopsvr : Z) : Z := s32 (stopsvr + 1).

Section program.
Context {K : Type} `{!Os call K}.

(** The loop of main. *)
Fixpoint accept_all (fuel : nat) (sfd : Z) : E K unit :=
  match fuel with
  | O => nofuel
  | S fuel =>
    stop <~ sys Stopped;
    if negb (stop =? 0) then e_ret tt else
    cfd <~ sys (Accept sfd);
    if cfd =? -1 then accept_all fuel sfd else
    _ <~ sys (Setsockopt cfd true);
    _ <~ sys Count_conn;
    r <~ sys (Create cfd);
    _ <~ (if negb (r =? 0) then _ <~ sys (Close cfd); e_ret tt else e_ret tt);
    accept_all fuel sfd
  end.

(** [av] are the arguments behind the program name. *)
Definition main (fuel : nat) (av : list (list Z)) : E K Z :=
  match parse_args av config0 with
  | None => e_ret 1
  | Some c =>
    _ <~ sys Signals;
    _ <~ sys Attr_detached;
    error <~ (if 0 <? stksize c then r <~ sys (Attr_setstacksize (u64 (stksize c))); e_ret r else e_ret 0);
    if negb (error =? 0) then e_ret 2 else
    sfd <~ sys Socket;
    if sfd =? -1 then e_ret 3 else
    _ <~ sys (Setsockopt sfd false);
    _ <~ sys (Setsockopt sfd true);
    r <~ sys (Bind sfd (htons (u16 (port c))));
    if r =? -1 then _ <~ sys (Close sfd); e_ret 4 else
    _ <~ sys (Listen sfd (lbklog c));
    _ <~ accept_all fuel sfd;
    _ <~ sys (Close sfd);
    _ <~ sys Report;
    e_ret 0
  end.
End program.

(** ** What a run has done *)

(** The connections accepted; those given to a thread; the descriptors closed; how many
    connections were counted. *)
Definition accepted (t : trace call) : list Z := omap (fun e => match e.1 with Accept _ => if e.2 =? -1 then None else Some e.2 | _ => None end) t.
Definition handed (t : trace call) : list (Z * bool) := omap (fun e => match e.1 with Create fd => Some (fd, e.2 =? 0) | _ => None end) t.
Definition closed (t : trace call) : list Z := omap (fun e => match e.1 with Close fd => Some fd | _ => None end) t.
Definition counted (t : trace call) : nat := length (omap (fun e => match e.1 with Count_conn => Some tt | _ => None end) t).

(** The connections without a thread. *)
Definition refused (l : list (Z * bool)) : list Z := omap (fun p => if p.2 : bool then None else Some p.1) l.

Definition is_stopped (c : call) : bool := match c with Stopped => true | _ => false end.
Abbreviation stop_looks := (Trace.looks is_stopped).

(** Every connection was counted and given to a thread, or closed at once. *)
Record served (u : trace call) (cs : list (Z * bool)) : Prop := {
  served_accepted : accepted u = map fst cs;
  served_handed : handed u = cs;
  served_closed : closed u = refused cs;
  served_counted : counted u = length cs
}.

Lemma served_app u v c1 c2 : served u c1 -> served v c2 -> served (u ++ v) (c1 ++ c2).
Proof.
  intros [A1 H1 C1 N1] [A2 H2 C2 N2]. split.
  - transitivity (accepted u ++ accepted v)%list; [apply omap_app|]. by rewrite A1, A2, map_app.
  - transitivity (handed u ++ handed v)%list; [apply omap_app|]. by rewrite H1, H2.
  - transitivity (closed u ++ closed v)%list; [apply omap_app|]. rewrite C1, C2. symmetry. apply omap_app.
  - transitivity (counted u + counted v)%nat; [unfold counted; rewrite <-length_app; f_equal; apply omap_app|]. by rewrite N1, N2, length_app.
Qed.

(** The end of main. *)
Lemma served_end v cs sfd q1 q2 : served v cs -> let t := (v ++ [(Close sfd, q1); (Report, q2)])%list in
  accepted t = map fst cs /\ handed t = cs /\ counted t = length cs /\ closed t = (refused cs ++ [sfd])%list.
Proof.
  intros [A H C N].
  assert (R : forall {B} (f : call * Z -> option B) l, f (Close sfd, q1) = None -> f (Report, q2) = None ->
    omap f (l ++ [(Close sfd, q1); (Report, q2)])%list = omap f l)
    by (intros B f l F1 F2; rewrite omap_app; cbn; by rewrite F1, F2, app_nil_r).
  unfold accepted, handed, counted, closed in *. cbn zeta. rewrite !R by done. split; [exact A|]. split; [exact H|]. split; [exact N|].
  rewrite omap_app, C. done.
Qed.

Section proofs.
Context (answers : trace call -> call -> Z).
#[local] Instance the_os : Os call (trace call) := tracing answers.

(** From the [k]-th look on the server is stopped. *)
Definition stops (k : nat) : Prop := forall t : trace call, (k <= stop_looks t)%nat -> answers t Stopped <> 0.

Lemma accept_all_serves k sfd fuel : stops k -> forall t, (k - stop_looks t < fuel)%nat ->
  adds t (accept_all fuel sfd) (fun r u => r = inr tt /\ exists cs, served u cs).
Proof.
  intros Hs. induction fuel as [|fuel IH]; intros t Hf; [lia|]. cbn [accept_all]. apply adds_call.
  destruct (Z.eqb_spec (answers t Stopped) 0) as [E|E]; cbn [negb]; [|apply adds_ret; split; [done|by exists []]].
  assert (Hl : (stop_looks t < k)%nat) by (destruct (decide (k <= stop_looks t)%nat) as [Hd|Hd]; [by destruct (Hs t Hd)|lia]).
  assert (Hmore : forall t' u cs, stop_looks t' = S (stop_looks t) -> served u cs ->
    adds t' (accept_all fuel sfd) (fun r v => r = inr tt /\ exists cs, served (u ++ v) cs)).
  { intros t' u cs Ht' Hu. eapply adds_mono; [apply IH; lia|]. intros r v [-> [cs' Hv]]. split; [done|].
    exists (cs ++ cs'). by apply served_app. }
  apply adds_sys; intros cfd. destruct (cfd =? -1) eqn:Ec.
  { apply (Hmore _ [(Stopped, _); (Accept sfd, cfd)] []); [rewrite !looks_app; cbn; lia|]. split; cbn; by rewrite ?Ec. }
  apply adds_sys; intros so. apply adds_sys; intros n. apply adds_sys; intros r.
  set (u := [(Stopped, answers t Stopped); (Accept sfd, cfd); (Setsockopt cfd true, so); (Count_conn, n); (Create cfd, r)]).
  destruct (r =? 0) eqn:Er; cbn [negb].
  - change (e_bind (e_ret tt) ?f) with (f tt). cbn beta.
    apply (Hmore _ u [(cfd, true)]); [rewrite !looks_app; cbn; lia|]. split; cbn; by rewrite ?Ec, ?Er.
  - eapply (adds_bind _ _ _ (fun r v => r = inr tt /\ exists q, v = [(Close cfd, q)])); [|by intros ? ? [? _]|].
    + apply adds_sys; intros q. apply adds_ret. split; [done|by exists q].
    + intros [] v [_ [q ->]].
      apply (Hmore _ (u ++ [(Close cfd, q)]) [(cfd, false)]); [rewrite !looks_app; cbn; lia|]. split; cbn; by rewrite ?Ec, ?Er.
Qed.
End proofs.

(** A server that is stopped at some time ends: with 1 for its usage, 2 to 4 as its set-up
    fails, or with 0.  It has then counted every connection it accepted, given each of
    them to a thread of its own or closed it at once, and it has closed the listening
    socket last. *)
Theorem http_main answers k fuel av : stops answers k -> (k < fuel)%nat ->
  exists code t, main (Os0 := tracing answers) fuel av [] = Ok (inr code, t) /\ 0 <= code <= 4 /\
    (code = 0 -> exists sfd cs, accepted t = map fst cs /\ handed t = cs /\ counted t = length cs /\ closed t = (refused cs ++ [sfd])%list).
Proof.
  intros Hs Hf. enough (Ha : adds [] (main (Os0 := tracing answers) fuel av) (fun r t => exists code, r = inr code /\ 0 <= code <= 4 /\
    (code = 0 -> exists sfd cs, accepted t = map fst cs /\ handed t = cs /\ counted t = length cs /\ closed t = (refused cs ++ [sfd])%list))).
  { apply (adds_run (main (Os0 := tracing answers) fuel av)) in Ha as (r & t & Hr & code & -> & H). by exists code, t. }
  unfold main. destruct (parse_args av config0) as [c|]; [|apply adds_ret; by exists 1].
  do 2 (apply adds_sys; intros ?).
  eapply (adds_bind _ _ _ (fun r u => (exists e, r = inr e) /\ served u [] /\ stop_looks u = 0%nat)); [|by intros ? ? [[? ?] _]|].
  { destruct (0 <? stksize c); [apply adds_sys; intros e|]; apply adds_ret; (split; [by eexists|]); by repeat split. }
  intros e u0 [_ [H0 L0]]. destruct (negb (e =? 0)); [apply adds_ret; by exists 2|].
  apply adds_sys; intros sfd. destruct (sfd =? -1); [apply adds_ret; by exists 3|]. do 2 (apply adds_sys; intros ?).
  apply adds_sys; intros b. destruct (b =? -1); [apply adds_sys; intros ?; apply adds_ret; by exists 4|]. apply adds_sys; intros l.
  eapply adds_bind; [apply (accept_all_serves answers k); [done|]|by intros ? ? [? _]|].
  { rewrite !looks_app, L0. cbn. lia. }
  intros [] u [_ [cs Hu]]. apply adds_sys; intros q1. apply adds_sys; intros q2. apply adds_ret. exists 0. split; [done|]. split; [lia|]. intros _. exists sfd, cs.
  match goal with |- accepted ?T = _ /\ _ => assert (E : exists v, T = (v ++ [(Close sfd, q1); (Report, q2)])%list /\ served v cs) end.
  { eexists (_ :: _ :: (u0 ++ (_ :: _ :: _ :: _ :: _ :: u))). split; [cbn; rewrite <-(assoc_L (++)); reflexivity|].
    apply (served_app [_; _] _ [] cs); [by split|]. apply (served_app u0 _ [] cs); [done|].
    apply (served_app [_; _; _; _; _] u [] cs); [by split|done]. }
  destruct E as (v & -> & Hv). by apply served_end.
Qed.
