(* ===== verification/HttpSystem.v ===== *)
(** * thrhttp.c: main and the threads of the connections together

    [HttpMain] is the accepting loop of main, [ThrHttp] the session of a connection.  Here
    they are put together: the clients connect one after the other, main counts each
    connection and makes a detached thread for it or closes it, and the threads run
    [thproc].  A session is one step: what it shares with the others are the counters, to
    which it adds under their mutex.  A connection is named by its descriptor; a
    descriptor that is given twice stands for a client that does the same again. *)
From Stdlib Require Import ZArith Lia Bool.
From stdpp Require Import base tactics list.
From S2P Require Import Prelude Steps Libc ThrHttp.

(** The clients still to come, the connections that have a thread, those closed at once, the
    sessions that are over (whether the server was stopped when they began, and what was
    sent), the counters and [stopsvr]. *)
Record server := mk_server {
  incoming : list Z; threads : list Z; turned_away : list Z; answered : list ((Z * bool) * list Z);
  s_conns : Z; s_reqs : Z; s_tbytes : Z; stopped : bool
}.

Section system.
(** The options, the bound on the loops of a session, what [malloc] gives it as a buffer,
    and the clients. *)
Context (cfg : config) (fuel : nat) (heap : list Z) (clients : Z -> conn).

Definition open_session (cfd : Z) (s : server) : http conn :=
  let c := clients cfd in
  mk_http (mk_conn (c_in c) (c_acc c) [] (c_files c) (Z.b2z (stopped s))) 0 0 heap (s_conns s) (s_reqs s) (s_tbytes s).

(** The two ways of [pthread_create], and a thread. *)
Inductive step : server -> server -> Prop :=
| accept_client cfd rest s : incoming s = cfd :: rest -> stopped s = false ->
    step s (mk_server rest (threads s ++ [cfd]) (turned_away s) (answered s) (u64 (s_conns s + 1)) (s_reqs s) (s_tbytes s) (stopped s))
| refuse_client cfd rest s : incoming s = cfd :: rest -> stopped s = false ->
    step s (mk_server rest (threads s) (turned_away s ++ [cfd]) (answered s) (u64 (s_conns s + 1)) (s_reqs s) (s_tbytes s) (stopped s))
| run_thread i cfd h s : threads s !! i = Some cfd -> thproc cfg fuel (open_session cfd s) = Ok (tt, h) ->
    step s (mk_server (incoming s) (delete i (threads s)) (turned_away s) (answered s ++ [((cfd, stopped s), c_out (h_net h))])
              (s_conns s) (reqs h) (tbytes h) (stopped s)).

(** The handler of SIGINT. *)
Definition interrupt (s : server) : server :=
  mk_server (incoming s) (threads s) (turned_away s) (answered s) (s_conns s) (s_reqs s) (s_tbytes s) true.

Definition start (cfds : list Z) : server := mk_server cfds [] [] [] 0 0 0 false.

(** ** What is promised *)
Definition received (c : conn) : list Z := concat (omap id (c_in c)).

(** The reply to a client, as [plain_session] computes it from its bytes: to its first
    request only when the server is stopped. *)
Definition reply (stop : bool) (c : conn) : list Z * Z * Z :=
  plain_session cfg (c_files c) (Z.b2z stop) (S (length (received c))) (received c).

(** A client of [ThrHttp.thproc_session]: any pieces, and any parts sent. *)
Definition good_client (c : conn) : Prop :=
  Forall (fun d => exists x : list Z, d = Some x /\ x <> []) (c_in c) /\ Forall (fun k => 0 < k) (c_acc c) /\
  forall stop, strlen (reply stop c).1.1 < 2 ^ 63 /\ strlen (received c) + strlen (reply stop c).1.1 + 1 < Z.of_nat fuel.

Definition answer_of (x : (Z * bool) * list Z) : list Z * Z * Z := reply x.1.2 (clients x.1.1).

(** What the counters and the answers are, in every state. *)
Record counting (cfds : list Z) (s : server) : Prop := mk_counting {
  ct_clients : cfds ≡ₚ incoming s ++ threads s ++ turned_away s ++ map (fun x => x.1.1) (answered s);
  ct_replies : Forall (fun x => x.2 = (answer_of x).1.1) (answered s);
  ct_conns : s_conns s = u64 (Z.of_nat (length cfds) - Z.of_nat (length (incoming s)));
  ct_reqs : u64 (s_reqs s) = u64 (zsum (map (fun x => (answer_of x).1.2) (answered s)));
  ct_tbytes : u64 (s_tbytes s) = u64 (zsum (map (fun x => (answer_of x).2) (answered s)))
}.

(** No signal has come. *)
Definition running (cfds : list Z) (s : server) : Prop :=
  counting cfds s /\ stopped s = false /\ Forall (fun x => x.1.2 = false) (answered s).

(** Nobody waits, and no thread runs. *)
Definition all_served (cfds : list Z) (s : server) : Prop := running cfds s /\ incoming s = [] /\ threads s = [].

(** What main prints when it leaves its loop; the threads end with it. *)
Definition report (s : server) : option (Z * Z * Z) := if stopped s then Some (s_conns s, s_reqs s, s_tbytes s) else None.

(** ** Proofs *)
Context (Hheap : strlen heap = BSTREAM_BUFSIZE).

Lemma pieces_of c : Forall (fun d => exists x : list Z, d = Some x /\ x <> []) (c_in c) ->
  exists chunks, c_in c = map Some chunks /\ Forall (fun x => x <> []) chunks /\ received c = concat chunks.
Proof.
  unfold received. induction 1 as [|d l (x & -> & Hx) _ (chunks & -> & Hc & Hr)]; [by exists []|].
  exists (x :: chunks). split; [done|]. split; [by constructor|]. cbn. by rewrite Hr.
Qed.

Lemma http_session_served cfd s : good_client (clients cfd) -> exists h, let x := reply (stopped s) (clients cfd) in
  thproc cfg fuel (open_session cfd s) = Ok (tt, h) /\ c_out (h_net h) = x.1.1 /\
  u64 (reqs h) = u64 (s_reqs s + x.1.2) /\ u64 (tbytes h) = u64 (s_tbytes s + x.2).
Proof.
  intros (Hin & Ha & Hb). destruct (pieces_of _ Hin) as (chunks & Hc & Hne & Hr). destruct (Hb (stopped s)) as [Hb1 Hb2].
  destruct (reply (stopped s) (clients cfd)) as [[o r] b] eqn:E. cbn [fst snd] in *. unfold reply in E. rewrite Hr in *.
  apply (thproc_pieces cfg fuel (open_session cfd s) chunks o r b); done.
Qed.

Section counting.
Context (cfds : list Z) (Hcfds : Forall (fun cfd => good_client (clients cfd)) cfds).

Definition work (s : server) : nat := (2 * length (incoming s) + length (threads s))%nat.

Lemma running_good s i cfd : counting cfds s -> threads s !! i = Some cfd -> good_client (clients cfd).
Proof.
  intros Hs Hi. rewrite Forall_forall in Hcfds. apply Hcfds. rewrite (ct_clients cfds s Hs), !elem_of_app.
  right. left. by eapply list_elem_of_lookup_2.
Qed.

Lemma counting_step s s' : counting cfds s -> step s s' -> counting cfds s' /\ (work s' < work s)%nat.
Proof.
  intros Hs Hst. destruct Hst as [cfd rest s Hi Hst|cfd rest s Hi Hst|i cfd h s Hi Hrun].
  - destruct Hs. unfold work. cbn [incoming threads]. rewrite Hi in *. rewrite length_app. split; [|cbn; lia].
    split; cbn [incoming threads turned_away answered s_conns s_reqs s_tbytes]; try done.
    + rewrite ct_clients0. solve_Permutation.
    + rewrite ct_conns0, u64_add_u64. cbn [length]. f_equal. lia.
  - destruct Hs. unfold work. cbn [incoming threads]. rewrite Hi in *. split; [|cbn; lia].
    split; cbn [incoming threads turned_away answered s_conns s_reqs s_tbytes]; try done.
    + rewrite ct_clients0. solve_Permutation.
    + rewrite ct_conns0, u64_add_u64. cbn [length]. f_equal. lia.
  - destruct (http_session_served cfd s (running_good s i cfd Hs Hi)) as (h' & Hrun' & Ho & Hr & Hb).
    rewrite Hrun in Hrun'. injection Hrun' as <-. pose proof (delete_Permutation _ _ _ Hi) as Hp. destruct Hs.
    unfold work. cbn [incoming threads]. rewrite (length_delete _ _ ltac:(eauto)). pose proof (lookup_lt_Some _ _ _ Hi).
    split; [|lia]. split; cbn [incoming threads turned_away answered s_conns s_reqs s_tbytes]; try done.
    + rewrite ct_clients0, map_app. cbn [map fst]. revert Hp. generalize (delete i (threads s)). intros d ->. solve_Permutation.
    + apply Forall_app. split; [done|]. by apply Forall_singleton.
    + rewrite Hr, <-u64_add_u64, ct_reqs0, u64_add_u64, map_app, zsum_app. cbn. f_equal. lia.
    + rewrite Hb, <-u64_add_u64, ct_tbytes0, u64_add_u64, map_app, zsum_app. cbn. f_equal. lia.
Qed.

Lemma counting_start : counting cfds (start cfds).
Proof. split; cbn; try done; [by rewrite !app_nil_r|by rewrite Z.sub_diag]. Qed.

Lemma counting_interrupt s : counting cfds s -> counting cfds (interrupt s).
Proof. by intros []. Qed.

Lemma running_step s s' : running cfds s -> step s s' -> running cfds s' /\ (work s' < work s)%nat.
Proof.
  intros (Hs & Hst & Hf) Hstep. destruct (counting_step s s' Hs Hstep) as [Hs' Hw]. split; [split; [done|]|done].
  destruct Hstep; cbn [stopped answered]; try done. split; [done|]. apply Forall_app. split; [done|]. by apply Forall_singleton.
Qed.

Lemma running_progress s : running cfds s -> all_served cfds s \/ exists s', step s s'.
Proof.
  intros Hr. pose proof Hr as (Hs & Hst & _). destruct (threads s) as [|cfd l] eqn:Et.
  - destruct (incoming s) as [|cfd rest] eqn:Ei; [by left|right]. eexists. by eapply accept_client.
  - right. destruct (http_session_served cfd s) as (h & Hrun & _); [apply (running_good s 0 cfd Hs); by rewrite Et|].
    eexists. apply (run_thread 0 cfd h); [by rewrite Et|exact Hrun].
Qed.
End counting.
End system.


(** Whenever the signal comes: what main prints are the connections accepted, and the sums
    over the sessions that are over. *)
Lemma http_report cfg fuel heap clients cfds s conns reqs tbytes : strlen heap = BSTREAM_BUFSIZE ->
  Forall (fun cfd => good_client cfg fuel (clients cfd)) cfds ->
  reach (fun s s' => step cfg fuel heap clients s s' \/ s' = interrupt s) (start cfds) s -> report s = Some (conns, reqs, tbytes) ->
  conns = u64 (Z.of_nat (length (threads s) + length (turned_away s) + length (answered s))) /\
  u64 reqs = u64 (zsum (map (fun x => (answer_of cfg clients x).1.2) (answered s))) /\
  u64 tbytes = u64 (zsum (map (fun x => (answer_of cfg clients x).2) (answered s))).
Proof.
  intros Hh Hc Hr. assert (counting cfg clients cfds s) as [Hp _ Hn Hq Hb].
  { apply (reach_invariant (fun s s' => step cfg fuel heap clients s s' \/ s' = interrupt s) (counting cfg clients cfds) (start cfds));
      [apply counting_start| |done]. intros x x' Hx [Hst| ->]; [by eapply counting_step|by apply counting_interrupt]. }
  unfold report. destruct (stopped s); [|done]. intros [= <- <- <-]. split; [|done]. rewrite Hn, Hp, !length_app, length_map. f_equal. lia.
Qed.

(** Three clients, one of which sends nothing. *)
Definition demo_clients (cfd : Z) : conn := if cfd =? 9 then mk_conn [] [] [] (fun _ => None) 0 else h_net demo_conn.

Lemma demo_client_good cfd : good_client config0 200 (demo_clients cfd).
Proof.
  unfold demo_clients. destruct (cfd =? 9); (split; [|split; [|intros []; vm_compute; done]]);
    repeat constructor; eexists; (split; [reflexivity|discriminate]).
Qed.


(** The signal comes while a session runs: it is cut off, and its request is not in the sums. *)
Lemma session_cut_off cfg fuel heap clients : exists s,
  reach (fun s s' => step cfg fuel heap clients s s' \/ s' = interrupt s) (start [5]) s /\
  threads s = [5] /\ report s = Some (1, 0, 0).
Proof.
  exists (interrupt (mk_server [] [5] [] [] 1 0 0 false)). split; [|done].
  eapply reach_step; [eapply reach_step; [apply reach_start|]|by right]. left. by apply (accept_client cfg fuel heap clients 5 [] (start [5])).
Qed.
