(* ===== verification/LatctxMain.v ===== *)
(** * pthread-lat-ctx.c: main and the base time

    main, the measurement of a write and a read by one thread, and the wrappers that end
    the program, written as the calls they make (see [Trace]).  The two threads are
    [Peers.latctx.step].  The times per turn, in doubles, are left out: what is printed is
    kept as the numbers they are computed from. *)
From Stdlib Require Import ZArith Lia Bool.
From stdpp Require Import base tactics list.
From S2P Require Import Prelude Exits Libc Trace.

(** The calls.  [Pipe], [Setaffinity] and [Create] give 0 when they succeed; [Write1] and
    [Read1] are those of one byte on the first pipe; [Thread_time] is an element of
    [thtimes]. *)
Inductive call :=
| Pipe (i : Z) | Setaffinity (cpu : Z) | Gettimeofday | Write1 | Read1 | Create (thid swcount : Z) | Join (thid : Z)
| Thread_time (thid : Z) | Print_base (us count : Z) | Print_count (count : Z) | Print_thread (us count : Z).

Definition MIN_TEST_TIME_US : Z := 2000000.

Section program.
Context {K : Type} `{!Os call K}.

(** The x-functions end the program when their call fails. *)
Definition or_exit (c : call) : E K unit := r <~ sys c; if negb (r =? 0) then e_exit 1 else e_ret tt.
Definition xpipe (i : Z) : E K unit := or_exit (Pipe i).
Definition xsched_setaffinity (cpu : Z) : E K unit := or_exit (Setaffinity cpu).
Definition xpthread_create (thid swcount : Z) : E K unit := or_exit (Create thid swcount).
Definition pin_to_cpu (cpu : Z) : E K unit := xsched_setaffinity cpu.

Definition getustime : E K Z := tm <~ sys Gettimeofday; e_ret (u64 tm).

(** [n] turns of the inner loop: the results are looked at, and ignored. *)
Fixpoint turns (n : nat) : E K unit :=
  match n with
  | O => e_ret tt
  | S n =>
    w <~ sys Write1;
    _ <~ (if negb (w =? 1) then e_ret tt else _ <~ sys Read1; e_ret tt);
    turns n
  end.

(** The loop; the results are the time and [*pcount]. *)
Fixpoint base_loop (fuel : nat) (ts count : Z) : E K (Z * Z) :=
  match fuel with
  | O => nofuel
  | S fuel =>
    _ <~ turns (Z.to_nat 10000);
    let count := u64 (count + 10000) in
    te <~ getustime;
    if u64 (te - ts) <? MIN_TEST_TIME_US then base_loop fuel ts count else e_ret (u64 (te - ts), count)
  end.

Definition get_base_switch_time (fuel : nat) : E K (Z * Z) := ts <~ getustime; base_loop fuel ts 0.

(** The results of getopt: only -h is known, and does nothing. *)
Definition bad_option (opts : list (Z * list Z)) : bool := existsb (fun o => negb (o.1 =? 104)) opts.

Definition main (fuel : nat) (opts : list (Z * list Z)) : E K Z :=
  if bad_option opts then e_exit 1 else
  _ <~ xpipe 1;
  _ <~ xpipe 2;
  _ <~ pin_to_cpu 0;
  b <~ get_base_switch_time fuel;
  let '(us, count) := b in
  _ <~ sys (Print_base us count);
  _ <~ sys (Print_count count);
  _ <~ xpthread_create 0 count;
  _ <~ xpthread_create 1 count;
  _ <~ sys (Join 0);
  _ <~ sys (Join 1);
  t0 <~ sys (Thread_time 0);
  t1 <~ sys (Thread_time 1);
  _ <~ sys (Print_thread (u64 (u64 t0 + u64 t1) / 2) count);
  e_ret 0.
End program.

(** ** What a run has done *)
Definition is_clock (c : call) : bool := match c with Gettimeofday => true | _ => false end.
Abbreviation looks := (Trace.looks is_clock).

(** The calls about threads and what is printed, in order. *)
Definition shown (t : trace call) : list call :=
  omap (fun e => match e.1 with Create _ _ | Join _ | Print_base _ _ | Print_thread _ _ => Some e.1 | _ => None end) t.

Lemma shown_app t u : shown (t ++ u) = (shown t ++ shown u)%list.
Proof. apply omap_app. Qed.

Section proofs.
Context (answers : trace call -> call -> Z).
#[local] Instance the_os : Os call (trace call) := tracing answers.
Context (clock : nat -> Z) (k : nat) (Hclock : clock_goes answers is_clock Gettimeofday clock MIN_TEST_TIME_US k).

(** A part of which nothing shows, with [n] looks at the clock. *)
Definition hidden (n : nat) (u : trace call) : Prop := shown u = [] /\ looks u = n.

Lemma hidden_app n m u v : hidden n u -> hidden m v -> hidden (n + m) (u ++ v).
Proof. intros [H1 H2] [H3 H4]. split; [by rewrite shown_app, H1, H3|by rewrite looks_app, H2, H4]. Qed.

Lemma turns_hidden n t : adds t (turns n) (fun r u => r = inr tt /\ hidden 0 u).
Proof.
  revert t. induction n as [|n IH]; intros t; cbn [turns]; [by apply adds_ret|]. apply adds_sys; intros w.
  eapply (adds_bind _ _ _ (fun r u => r = inr tt /\ hidden 0 u)); [|by intros ? ? [? _]|].
  - destruct (negb (w =? 1)); [by apply adds_ret|]. apply adds_sys; intros ?. by apply adds_ret.
  - intros [] u [_ Hu]. eapply adds_mono; [apply IH|]. intros r v [-> Hv]. split; [done|].
    apply (hidden_app 0 0 [_]); [done|]. by apply (hidden_app 0 0).
Qed.

(** What the base time is: whole rounds of 10000 turns, for the time wanted. *)
Definition good_base (b : Z * Z) : Prop := MIN_TEST_TIME_US <= b.1 /\ 0 < b.2 /\ (10000 | b.2).

Lemma base_loop_good from fuel : forall i t, looks t = S (from + i) -> (i < k)%nat -> (k - i <= fuel)%nat -> 10000 * Z.of_nat k < 2 ^ 64 ->
  adds t (base_loop fuel (clock from) (10000 * Z.of_nat i)) (fun r u => exists b, r = inr b /\ good_base b /\ shown u = []).
Proof.
  induction fuel as [|fuel IH]; intros i t Hl Hi Hf Hk; [lia|]. cbn [base_loop].
  eapply adds_bind; [apply turns_hidden|by intros ? ? [? _]|]. intros [] u [_ [Hs Hu]].
  rewrite u64_small by lia. replace (10000 * Z.of_nat i + 10000) with (10000 * Z.of_nat (S i)) by lia.
  eapply adds_tick; [exact Hclock|]. rewrite looks_app, Hl, Hu, Nat.add_0_r.
  destruct Hclock as [_ Hm Hx Hst]. pose proof (Hm from (S (from + i))). pose proof (Hx (S (from + i))). rewrite u64_small by lia.
  destruct (Z.ltb_spec (clock (S (from + i)) - clock from) MIN_TEST_TIME_US) as [Hlt|Hge].
  - destruct (Nat.eq_dec (S i) k) as [Hki|Hne]; [specialize (Hst from); rewrite <-Hki, Nat.add_succ_r in Hst; lia|].
    eapply adds_mono; [apply (IH (S i)); [|lia..]|]; [rewrite !looks_app, Hl, Hu; cbn; lia|].
    intros r v (b & -> & Hb & Hv). exists b. split; [done|]. split; [done|]. rewrite shown_app, Hs. exact Hv.
  - apply adds_ret. eexists. split; [done|]. split; [|by rewrite shown_app, Hs].
    split; [done|]. split; [cbn [snd]; lia|]. cbn [snd]. apply Z.divide_factor_l.
Qed.

Lemma or_exit_does c t : adds t (or_exit c) (fun r u => r = inl 1 \/ r = inr tt /\ exists q, u = [(c, q)]).
Proof.
  unfold or_exit. apply adds_sys; intros r. destruct (negb (r =? 0)); [apply adds_exit; by left|apply adds_ret; right; split; [done|by exists r]].
Qed.
End proofs.

(** pthread-lat-ctx with known options and a clock that goes on ends, with 1 when a pipe,
    a thread or the processor cannot be had, else with 0: it has then made both threads
    with the number of turns that it has measured itself, a positive multiple of
    10000, has joined both, and printed the mean of their times for this number. *)
Theorem latctx_main answers clock k fuel opts : bad_option opts = false ->
  clock_goes answers is_clock Gettimeofday clock MIN_TEST_TIME_US k -> (0 < k <= fuel)%nat -> 10000 * Z.of_nat k < 2 ^ 64 ->
  exists r t, main (Os0 := tracing answers) fuel opts [] = Ok (r, t) /\
    (r = inl 1 \/ r = inr 0 /\ exists us count mean, good_base (us, count) /\
       shown t = [Print_base us count; Create 0 count; Create 1 count; Join 0; Join 1; Print_thread mean count]).
Proof.
  intros Ho Hc Hk Hb. apply adds_run. unfold main. rewrite Ho.
  unfold xpipe, pin_to_cpu, xsched_setaffinity, xpthread_create.
  do 3 (eapply adds_bind; [apply or_exit_does|intros code u [[= ->]|[? _]]; [by left|done]|intros [] ? [?|[_ [? ->]]]; [done|]]).
  unfold get_base_switch_time.
  eapply (adds_bind _ _ _ (fun r u => exists b, r = inr b /\ good_base b /\ shown u = [])); [|by intros ? ? (? & ? & _)|].
  { eapply adds_tick; [exact Hc|]. eapply adds_mono; [apply (base_loop_good answers clock k Hc _ fuel 0); [|lia..]|].
    - rewrite !looks_app. cbn. lia.
    - intros r u (b & -> & Hg & Hu). by exists b. }
  intros [us count] u (? & [= <-] & Hg & Hu). do 2 (apply adds_sys; intros ?).
  do 2 (eapply adds_bind; [apply or_exit_does|intros code v [[= ->]|[? _]]; [by left|done]|intros [] ? [?|[_ [? ->]]]; [done|]]).
  do 2 (apply adds_sys; intros ?). apply adds_sys; intros t0. apply adds_sys; intros t1. apply adds_sys; intros p. apply adds_ret.
  right. split; [done|]. exists us, count, (u64 (u64 t0 + u64 t1) / 2). split; [done|].
  cbn [app]. do 3 (match goal with |- shown (?e :: ?l) = _ => change (shown l = [Print_base us count; Create 0 count; Create 1 count; Join 0; Join 1; Print_thread (u64 (u64 t0 + u64 t1) / 2) count]) end).
  rewrite shown_app, Hu. reflexivity.
Qed.
