(* ===== verification/EvSemMain.v ===== *)
(** * eventfd-sem.c: main and the two players, call by call

    The program over the answers of the system (see [Trace]); [Fork] gives 0 in a child,
    so that this file has the parent and both players.  [Peers.evsem] has the
    interleavings of the players when no call fails: here a player is shown to make
    exactly those calls. *)
From Stdlib Require Import ZArith Lia Bool.
From stdpp Require Import base tactics list.
From S2P Require Import Prelude Exits Trace Peers.

(** The calls; a [Read] puts the value [Counter] tells into its cell. *)
Inductive call :=
| Usage | Eventfd2 (count flags : Z) | Fork | Waitpid (pid : Z)
| Read (fd : Z) | Counter (fd : Z) | Write (fd cntr : Z)
| Print_completed (fd count : Z) | Print_posting (n fd : Z) | Print_waiting (times fd : Z).

Definition EFD_SEMLIKE : Z := 1.

Section program.
Context {K : Type} `{!Os call K}.

Definition eventfd2 (count flags : Z) : E K Z := sys (Eventfd2 count flags).

Definition xsem_wait (fd : Z) : E K unit :=
  r <~ sys (Read fd);
  if negb (r =? 8) then e_exit 1 else
  cntr <~ sys (Counter fd);
  _ <~ sys (Print_completed fd cntr);
  e_ret tt.

Definition xsem_post (fd count : Z) : E K unit :=
  r <~ sys (Write fd (u64 count));
  if negb (r =? 8) then e_exit 1 else e_ret tt.

Definition sem_player (fd1 fd2 : Z) : E K unit :=
  _ <~ sys (Print_posting 1 fd1); _ <~ xsem_post fd1 1;
  _ <~ sys (Print_waiting 1 fd2); _ <~ xsem_wait fd2;
  _ <~ sys (Print_posting 1 fd1); _ <~ xsem_post fd1 1;
  _ <~ sys (Print_waiting 1 fd2); _ <~ xsem_wait fd2;
  _ <~ sys (Print_posting 5 fd1); _ <~ xsem_post fd1 5;
  _ <~ sys (Print_waiting 5 fd2); _ <~ xsem_wait fd2;
  _ <~ xsem_wait fd2; _ <~ xsem_wait fd2; _ <~ xsem_wait fd2; xsem_wait fd2.

(** A child that plays: it never comes back. *)
Definition child (fd1 fd2 : Z) : E K unit := _ <~ sem_player fd1 fd2; e_exit 0.

(** [opts] are the results of getopt. *)
Definition main (opts : list Z) : E K Z :=
  match opts with
  | _ :: _ => _ <~ sys Usage; e_ret 1
  | [] =>
    fd1 <~ eventfd2 0 EFD_SEMLIKE;
    if fd1 =? -1 then e_ret 1 else
    fd2 <~ eventfd2 0 EFD_SEMLIKE;
    if fd2 =? -1 then e_ret 1 else
    cpid_poster <~ sys Fork;
    _ <~ (if cpid_poster =? 0 then child fd1 fd2 else e_ret tt);
    cpid_waiter <~ sys Fork;
    _ <~ (if cpid_waiter =? 0 then child fd2 fd1 else e_ret tt);
    _ <~ sys (Waitpid cpid_poster);
    _ <~ sys (Waitpid cpid_waiter);
    e_ret 0
  end.
End program.

(** ** What a run has done *)

(** The puts and takes that went through, with their descriptors; the descriptors made,
    the processes made and waited for. *)
Definition moves (t : trace call) : list (Z * option Z) :=
  omap (fun e => match e with (Write fd n, 8) => Some (fd, Some n) | (Read fd, 8) => Some (fd, None) | _ => None end) t.
Definition made (t : trace call) : list Z := omap (fun e => match e.1 with Eventfd2 _ _ => Some e.2 | _ => None end) t.
Definition forked (t : trace call) : list Z := omap (fun e => match e.1 with Fork => Some e.2 | _ => None end) t.
Definition reaped (t : trace call) : list Z := omap (fun e => match e.1 with Waitpid pid => Some pid | _ => None end) t.

(** The moves of [Peers] on the descriptors of their channels. *)
Definition on_fds (fd1 fd2 : Z) (l : list act) : list (Z * option Z) :=
  map (fun a => match a with
    | Put ch n => (if ch then fd2 else fd1, Some n)
    | Get ch => (if ch then fd2 else fd1, None) end) l.

Lemma moves_app t u : moves (t ++ u) = (moves t ++ moves u)%list.
Proof. apply omap_app. Qed.
Lemma evsem_made_app t u : made (t ++ u) = (made t ++ made u)%list.
Proof. apply omap_app. Qed.
Lemma evsem_forked_app t u : forked (t ++ u) = (forked t ++ forked u)%list.
Proof. apply omap_app. Qed.
Lemma reaped_app t u : reaped (t ++ u) = (reaped t ++ reaped u)%list.
Proof. apply omap_app. Qed.

Section proofs.
Context (answers : trace call -> call -> Z).
#[local] Instance evsem_os : Os call (trace call) := tracing answers.

(** [m] makes the moves [l] and comes back, or makes some of the first of them and exits
    with 1; it makes no process and no descriptor. *)
Definition plays (m : E (trace call) unit) (l : list (Z * option Z)) : Prop := forall t, adds t m (fun r u =>
  (made u = [] /\ forked u = [] /\ reaped u = []) /\
  (r = inr tt /\ moves u = l \/ r = inl 1 /\ exists k, (k < length l)%nat /\ moves u = take k l)).

Lemma plays_print (c : call) m l : (match c with Print_posting _ _ | Print_waiting _ _ => True | _ => False end) ->
  plays m l -> plays (_ <~ sys c; m) l.
Proof.
  intros Hc Hm t. apply adds_sys. intros r. eapply adds_mono; [apply Hm|]. cbv beta. intros r' u H.
  by destruct c.
Qed.

Lemma plays_seq m k l l' : plays m l -> plays k l' -> plays (_ <~ m; k) (l ++ l').
Proof.
  intros Hm Hk t. eapply adds_bind; [apply Hm| |].
  - intros code u (Hq & [[[=] _]|[[= ->] (n & Hn & Hu)]]). split; [done|]. right. split; [done|]. exists n.
    rewrite length_app, take_app_le by lia. split; [lia|done].
  - intros [] u ((Hq1 & Hq2 & Hq3) & [[_ Hu]|[[=] _]]). eapply adds_mono; [apply Hk|]. cbv beta.
    intros r v ((Hv1 & Hv2 & Hv3) & Hv). rewrite evsem_made_app, evsem_forked_app, reaped_app, moves_app, Hq1, Hq2, Hq3, Hu. split; [done|].
    destruct Hv as [[-> ->]|[-> (n & Hn & ->)]]; [by left|right]. split; [done|]. exists (length l + n)%nat.
    rewrite length_app, take_app_add. split; [lia|done].
Qed.

Lemma xsem_wait_plays fd : plays (xsem_wait fd) [(fd, None)].
Proof.
  intros t. apply adds_sys. intros r. destruct (Z.eqb_spec r 8) as [->|Hr]; cbn [negb].
  - apply adds_sys. intros c. apply adds_sys. intros p. apply adds_ret. split; [done|by left].
  - apply adds_exit. split; [done|]. right. split; [done|]. exists 0%nat. split; [cbn; lia|].
    unfold moves. cbn. by repeat (destruct r as [|[r|r|]|]; try done).
Qed.

Lemma xsem_post_plays fd n : plays (xsem_post fd n) [(fd, Some (u64 n))].
Proof.
  intros t. apply adds_sys. intros r. destruct (Z.eqb_spec r 8) as [->|Hr]; cbn [negb].
  - apply adds_ret. split; [done|by left].
  - apply adds_exit. split; [done|]. right. split; [done|]. exists 0%nat. split; [cbn; lia|].
    unfold moves. cbn. by repeat (destruct r as [|[r|r|]|]; try done).
Qed.

(** A player makes the moves of its peer, for either order of the descriptors. *)
Lemma sem_player_plays fd1 fd2 : plays (sem_player fd1 fd2) (on_fds fd1 fd2 (evsem.sem_player false true)).
Proof.
  unfold sem_player.
  repeat first
    [ apply plays_print; [done|]
    | eapply (plays_seq _ _ [_]); [first [apply xsem_wait_plays|apply xsem_post_plays]|]
    | apply xsem_wait_plays ].
Qed.

Lemma on_fds_swap fd1 fd2 : on_fds fd2 fd1 (evsem.sem_player false true) = on_fds fd1 fd2 (evsem.sem_player true false).
Proof. done. Qed.

(** What a player leaves: all its moves and the code 0, or the first of them and 1. *)
Definition played (r : Z + Z) (ms l : list (Z * option Z)) : Prop :=
  r = inl 0 /\ ms = l \/ r = inl 1 /\ exists k, (k < length l)%nat /\ ms = take k l.

Lemma child_plays {A} t fd1 fd2 (k : unit -> E (trace call) A) (Q : Z + A -> trace call -> Prop) :
  (forall code u, made u = [] -> forked u = [] -> reaped u = [] ->
     played (inl code) (moves u) (on_fds fd1 fd2 (evsem.sem_player false true)) -> Q (inl code) u) ->
  adds t (e_bind (child fd1 fd2) k) Q.
Proof.
  intros HQ. eapply (adds_bind _ _ _ (fun r u => exists code, r = inl code /\ Q (inl code) u)).
  - eapply adds_bind; [apply sem_player_plays| |].
    + intros code u ((Hm & Hf & Hr) & [[[=] _]|[[= ->] Hu]]). exists 1. split; [done|]. apply HQ; [done..|]. by right.
    + intros [] u ((Hm & Hf & Hr) & [[_ Hu]|[[=] _]]). apply adds_exit. exists 0. split; [done|].
      rewrite app_nil_r. apply HQ; [done..|]. by left.
  - by intros code u (c & [= ->] & H).
  - by intros a u (c & [=] & _).
Qed.
End proofs.

(** Main of eventfd-sem ends whatever the system answers: without both descriptors it
    gives up at once; the parent makes two processes, waits for these two and returns 0;
    a child exits with 0 exactly when it has made all the moves of its player of
    [Peers.evsem], in order, and with 1 behind the first call that failed. *)
Theorem evsem_main answers : exists r t, main (Os0 := tracing answers) [] [] = Ok (r, t) /\
  ((r = inr 1 /\ -1 ∈ made t /\ forked t = [] /\ moves t = []) \/
   exists fd1 fd2, made t = [fd1; fd2] /\
     ((exists p w, p <> 0 /\ w <> 0 /\ forked t = [p; w] /\ r = inr 0 /\ reaped t = [p; w] /\ moves t = []) \/
      (forked t = [0] /\ reaped t = [] /\ played r (moves t) (on_fds fd1 fd2 (evsem.sem_player false true))) \/
      (exists p, p <> 0 /\ forked t = [p; 0] /\ reaped t = [] /\
         played r (moves t) (on_fds fd1 fd2 (evsem.sem_player true false))))).
Proof.
  apply adds_run. apply adds_sys. intros fd1. destruct (Z.eqb_spec fd1 (-1)) as [->|H1].
  { apply adds_ret. left. split_and!; [done|apply list_elem_of_here|done|done]. }
  apply adds_sys. intros fd2. destruct (Z.eqb_spec fd2 (-1)) as [->|H2].
  { apply adds_ret. left. split_and!; [done|apply list_elem_of_further, list_elem_of_here|done|done]. }
  apply adds_sys. intros p. destruct (Z.eqb_spec p 0) as [->|Hp].
  { apply child_plays. intros code u Hm Hf Hr Hu. right. exists fd1, fd2.
    split; [exact (f_equal (fun l => fd1 :: fd2 :: l) Hm)|]. right; left. split; [exact (f_equal (cons 0) Hf)|done]. }
  eapply (adds_bind _ (e_ret tt) _ (fun r u => r = inr tt /\ u = [])); [by apply adds_ret|by intros code u [[=] _]|]. intros [] u [_ ->].
  rewrite app_nil_r. apply adds_sys. intros w. destruct (Z.eqb_spec w 0) as [->|Hw].
  { apply child_plays. intros code u Hm Hf Hr Hu. right. exists fd1, fd2.
    split; [exact (f_equal (fun l => fd1 :: fd2 :: l) Hm)|]. right; right. exists p.
    split_and!; [done|exact (f_equal (fun l => p :: 0 :: l) Hf)|done|done]. }
  eapply (adds_bind _ (e_ret tt) _ (fun r u => r = inr tt /\ u = [])); [by apply adds_ret|by intros code u [[=] _]|]. intros [] u [_ ->].
  rewrite app_nil_r. apply adds_sys. intros s1. apply adds_sys. intros s2. apply adds_ret.
  right. exists fd1, fd2. split; [done|]. left. exists p, w. done.
Qed.
