(* ===== verification/Stats.v ===== *)
(** * The averages of the benchmarks: sorting, trimmed mean and deviation

    pipetest-4.c, eventfd-bench.c, epwbench.c and qspins.c sort their samples and
    average those in the middle.  Doubles are the binary64 numbers of the Standard
    Library's [SpecFloat], every operation rounded to nearest even, as the SSE2
    instructions of x86_64 compute them.  qsort is a sort by insertion; since equal
    samples cannot be told apart, the sorted array does not depend on that choice. *)
From Stdlib Require Import ZArith Lia Bool Sorting.Sorted.
From Stdlib Require Import Floats.SpecFloat.
From stdpp Require Import base tactics list sets sorting.
From S2P Require Import Prelude SpinLocks.

(** ** Doubles *)
Abbreviation double := spec_float.
Definition of_Z (n : Z) : double := binary_normalize 53 1024 n 0 false.
Definition dadd : double -> double -> double := SFadd 53 1024.
Definition dsub : double -> double -> double := SFsub 53 1024.
Definition dmul : double -> double -> double := SFmul 53 1024.
Definition ddiv : double -> double -> double := SFdiv 53 1024.
Definition dsqrt : double -> double := SFsqrt 53 1024.

Definition cmp_double (d1 d2 : double) : Z := if SFltb d2 d1 then 1 else if SFltb d1 d2 then -1 else 0.

(** ** qsort *)
Section qsort.
Context {A : Type} (cmp : A -> A -> Z).
Fixpoint insert_sorted (x : A) (l : list A) : list A :=
  match l with
  | [] => [x]
  | y :: l' => if 0 <? cmp x y then y :: insert_sorted x l' else x :: l
  end.
Definition qsort (l : list A) : list A := foldr insert_sorted [] l.
End qsort.

(** ** The mean and the deviation of the samples in the middle

    [runs] samples, of which the [navg] in the middle of the sorted array count. *)
Section middle.
Context {A : Type} (value : A -> double) (runs navg : nat).

Definition middle (l : list A) (i : nat) : res double :=
  match l !! (i + runs / 2 - navg / 2)%nat with Some x => Ok (value x) | None => Fault end.

(** The loops [for (i = 0, acc = 0; i < NAVG; i++)], from [i] on for [n] turns. *)
Fixpoint sum_loop (f : double -> double) (l : list A) (i n : nat) (acc : double) : res double :=
  match n with
  | O => Ok acc
  | S n => x ← middle l i; sum_loop f l (S i) n (dadd acc (f x))
  end.

Definition mean (l : list A) : res double :=
  s ← sum_loop id l 0 navg (of_Z 0); Ok (ddiv s (of_Z (Z.of_nat navg))).

Definition deviation (avg : double) (l : list A) : res double :=
  s ← sum_loop (fun x => let sv := dsub avg x in dmul sv sv) l 0 navg (of_Z 0);
  Ok (dsqrt (ddiv s (of_Z (Z.of_nat navg)))).

(** AVG and SIG. *)
Definition report (cmp : A -> A -> Z) (samps : list A) : res (double * double) :=
  let l := qsort cmp samps in
  avg ← mean l; sig ← deviation avg l; Ok (avg, sig).
End middle.

(** The samples of a run: its time and its work, as [run_once] leaves them. *)
Definition sample (tr work : Z) : double := ddiv (of_Z tr) (of_Z work).

Definition RUNTIMES : nat := 16.
Definition NAVG : nat := 6.

(** The three programs of the doubles; the samples are pairs of work and time. *)
Definition bench_report (l : list (Z * Z)) : res (double * double) :=
  report id RUNTIMES NAVG cmp_double (map (fun wt => sample wt.2 wt.1) l).
Definition ev_report (l : list (Z * Z)) : res (double * double) := bench_report l.
Definition epw_report (l : list (Z * Z)) : res (double * double) := bench_report l.

(** qspins, one thread: the samples are cycle counts. *)
Definition QNAVG : nat := 16.
Definition spins_report (samples : list Z) : res (double * double) :=
  report of_Z MAX_SAMPLES QNAVG cmp_ull samples.

(** ** Proofs: sorting

    A comparison that orders the values of [P] totally, none of them equal to another. *)
Class Compares {A} (cmp : A -> A -> Z) (P : A -> Prop) : Prop := {
  cmp_flip x y : P x -> P y -> 0 < cmp x y -> cmp y x <= 0;
  cmp_trans x y z : P x -> P y -> P z -> cmp x y <= 0 -> cmp y z <= 0 -> cmp x z <= 0;
  cmp_eq x y : P x -> P y -> cmp x y <= 0 -> cmp y x <= 0 -> x = y
}.

Section sorting.
Context {A} {cmp : A -> A -> Z} {P : A -> Prop} `{!Compares cmp P}.
Abbreviation le := (fun x y => cmp x y <= 0).

Lemma insert_sorted_perm x l : insert_sorted cmp x l ≡ₚ x :: l.
Proof.
  induction l as [|y l IH]; cbn; [done|]. destruct (0 <? cmp x y); [|done]. rewrite IH. apply Permutation_swap.
Qed.

Lemma qsort_perm l : qsort cmp l ≡ₚ l.
Proof. induction l as [|x l IH]; cbn; [done|]. by rewrite insert_sorted_perm, IH. Qed.

Lemma insert_sorted_ok x l : P x -> Forall P l -> StronglySorted le l -> StronglySorted le (insert_sorted cmp x l).
Proof.
  intros Hx Hl. induction 1 as [|y l Hs IH Hy]; cbn; [by repeat constructor|].
  apply Forall_cons in Hl as [HPy Hl]. destruct (Z.ltb_spec 0 (cmp x y)) as [H|H].
  - constructor; [by apply IH|]. rewrite insert_sorted_perm. constructor; [by apply cmp_flip|done].
  - constructor; [by constructor|]. constructor; [done|]. rewrite Forall_forall in *. intros z Hz.
    apply (cmp_trans x y z); auto.
Qed.

Lemma qsort_sorted l : Forall P l -> StronglySorted le (qsort cmp l).
Proof.
  induction 1 as [|x l Hx Hl IH]; [constructor|]. change (qsort cmp (x :: l)) with (insert_sorted cmp x (qsort cmp l)).
  apply insert_sorted_ok; [done|by rewrite qsort_perm|done].
Qed.

(** The sorted array is determined by what it holds. *)
Lemma sorted_unique l l' : Forall P l -> StronglySorted le l -> StronglySorted le l' -> l ≡ₚ l' -> l = l'.
Proof.
  intros HP H1 H2 Hp. apply (StronglySorted_unique_strong le); [|done..]. intros x y Hx Hy.
  assert (HP' : Forall P l') by by rewrite <-Hp. rewrite Forall_forall in HP, HP'. apply cmp_eq; auto.
Qed.

Lemma qsort_perm_eq l l' : Forall P l -> l ≡ₚ l' -> qsort cmp l = qsort cmp l'.
Proof.
  intros HP Hp. assert (HP' : Forall P l') by by rewrite <-Hp.
  apply sorted_unique; [by rewrite qsort_perm|by apply qsort_sorted..|]. by rewrite !qsort_perm.
Qed.

Lemma qsort_app l h : Forall P l -> Forall P h -> (forall x y, x ∈ l -> y ∈ h -> cmp x y <= 0) ->
  qsort cmp (l ++ h) = qsort cmp l ++ qsort cmp h.
Proof.
  intros Hl Hh Hlh. apply sorted_unique.
  - rewrite qsort_perm. by apply Forall_app.
  - apply qsort_sorted. by apply Forall_app.
  - apply StronglySorted_app_2; [|by apply qsort_sorted..]. intros x y. rewrite !qsort_perm. apply Hlh.
  - by rewrite !qsort_perm.
Qed.
End sorting.

#[export] Instance cmp_ull_compares P : Compares cmp_ull P.
Proof.
  unfold cmp_ull. split; intros *; repeat match goal with |- context [?a <? ?b] => destruct (Z.ltb_spec a b) end; lia.
Qed.

(** ** Proofs: doubles that are not negative *)
Definition nonneg (x : double) : Prop :=
  match x with S754_zero s | S754_infinity s | S754_finite s _ _ => s = false | S754_nan => False end.

(** Their order: by class, then by exponent, then by mantissa. *)
Definition rank (x : double) : Z * Z * Z :=
  match x with S754_zero _ => (0, 0, 0) | S754_finite _ m e => (1, e, Z.pos m) | _ => (2, 0, 0) end.
Definition rank_lt (a b : Z * Z * Z) : Prop :=
  a.1.1 < b.1.1 \/ a.1.1 = b.1.1 /\ (a.1.2 < b.1.2 \/ a.1.2 = b.1.2 /\ a.2 < b.2).

Lemma SFltb_rank x y : nonneg x -> nonneg y -> SFltb x y = true <-> rank_lt (rank x) (rank y).
Proof.
  unfold SFltb, rank_lt.
  destruct x as [s|s| |s m e], y as [s'|s'| |s' m' e']; cbn; try done; intros -> ->; cbn; try (split; [done|lia]); try (split; lia).
  change (Pos.compare_cont Eq m m') with (m ?= m')%positive.
  destruct (Z.compare_spec e e'); [destruct (Pos.compare_spec m m')|..]; split; try done; try lia.
Qed.

Lemma cmp_double_rank x y : nonneg x -> nonneg y -> cmp_double x y <= 0 <-> ~ rank_lt (rank y) (rank x).
Proof.
  intros Hx Hy. unfold cmp_double. pose proof (SFltb_rank y x Hy Hx) as H. destruct (SFltb y x).
  - split; [lia|]. intros Hn. by destruct Hn; apply H.
  - split; [|by destruct (SFltb x y)]. intros _ Hn. by apply H in Hn.
Qed.

#[export] Instance cmp_double_compares : Compares cmp_double nonneg.
Proof.
  split.
  - intros x y Hx Hy H. apply Z.lt_nge in H. rewrite cmp_double_rank in H |- * by done. unfold rank_lt in *. lia.
  - intros x y z Hx Hy Hz. rewrite !cmp_double_rank by done. unfold rank_lt. lia.
  - intros x y Hx Hy. rewrite !cmp_double_rank by done. intros H1 H2.
    assert (He : rank x = rank y).
    { unfold rank_lt in *. destruct (rank x) as [[? ?] ?], (rank y) as [[? ?] ?]. cbn in *. f_equal; [f_equal|]; lia. }
    clear H1 H2. destruct x, y; cbn in *; simplify_eq; try done.
Qed.

(** *** What rounding gives *)

Definition pos_record (r : shr_record) : Prop := 0 <= shr_m r.

Lemma iter_pos_inv {A} (f : A -> A) (I : A -> Prop) : (forall x, I x -> I (f x)) -> forall n x, I x -> I (SpecFloat.iter_pos f n x).
Proof. intros Hf. induction n as [n IH|n IH|]; cbn; auto. Qed.

Lemma shr_1_le r m : 0 <= shr_m r <= m -> 0 <= shr_m (shr_1 r) <= m.
Proof. destruct r as [[|[p|p|]|p] r s]; cbn; lia. Qed.

Lemma shr_fexp_spec m e l : 0 <= m -> 0 <= shr_m (shr_fexp 53 1024 m e l).1 <= m /\
  (shr_fexp 53 1024 m e l).2 = Z.max e (fexp 53 1024 (Zdigits2 m + e)).
Proof.
  intros Hm. unfold shr_fexp, shr. set (d := fexp 53 1024 (Zdigits2 m + e) - e).
  assert (H0 : shr_m (shr_record_of_loc m l) = m) by (destruct l as [|[]]; done).
  destruct d as [|p|p] eqn:Ed; cbn [fst snd]; rewrite ?H0; try (subst d; split; lia).
  split; [|subst d; lia].
  apply (iter_pos_inv shr_1 (fun r => 0 <= shr_m r <= m)); [intros x; apply shr_1_le|rewrite H0; lia].
Qed.

Lemma digits2_size p : digits2_pos p = Pos.size p.
Proof. induction p as [p IH|p IH|]; cbn [digits2_pos Pos.size]; by rewrite ?IH. Qed.

Lemma Zdigits2_le n k : 0 <= n < 2 ^ k -> Zdigits2 n <= k.
Proof.
  intros Hn. assert (Hk : 0 <= k) by (destruct (Z.neg_nonneg_cases k); [rewrite Z.pow_neg_r in Hn by done; lia|done]).
  destruct n as [|p|p]; cbn; [done| |lia].
  rewrite digits2_size.
  pose proof (Pos.size_le p) as Hp. apply Pos2Z.pos_le_pos in Hp.
  destruct (Z.le_gt_cases (Z.pos (Pos.size p)) k) as [|Hc]; [done|exfalso].
  assert (2 ^ (k + 1) <= Z.pos (2 ^ Pos.size p)).
  { rewrite Pos2Z.inj_pow. apply Z.pow_le_mono_r; lia. }
  rewrite Z.pow_add_r in * by lia. lia.
Qed.

Lemma shr_1_half r : 0 <= shr_m r -> shr_m (shr_1 r) = shr_m r / 2.
Proof.
  destruct r as [[|[p|p|]|p] r s]; cbn; intros; Z.to_euclidean_division_equations; lia.
Qed.

Lemma iter_shr n : forall r, 0 <= shr_m r -> shr_m (SpecFloat.iter_pos shr_1 n r) = shr_m r / 2 ^ Z.pos n.
Proof.
  assert (Hp : forall n r, 0 <= shr_m r -> 0 <= shr_m (SpecFloat.iter_pos shr_1 n r)).
  { intros k r Hr. apply (iter_pos_inv shr_1 (fun r => 0 <= shr_m r)); [|done]. intros x Hx.
    rewrite shr_1_half by done. apply Z.div_pos; lia. }
  induction n as [n IH|n IH|]; intros r Hr; cbn [SpecFloat.iter_pos].
  - assert (H1 : 0 <= shr_m (shr_1 r)) by (rewrite shr_1_half by done; apply Z.div_pos; lia).
    rewrite !IH, shr_1_half by auto. rewrite !Z.div_div by (try apply Z.pow_pos_nonneg; lia).
    f_equal. rewrite (Pos2Z.inj_xI n), !Z.pow_add_r, Z.mul_comm by lia.
    replace (2 * Z.pos n) with (Z.pos n + Z.pos n) by lia. rewrite Z.pow_add_r by lia. lia.
  - rewrite !IH by auto. rewrite !Z.div_div by (try apply Z.pow_pos_nonneg; lia).
    f_equal. rewrite (Pos2Z.inj_xO n). replace (2 * Z.pos n) with (Z.pos n + Z.pos n) by lia. by rewrite Z.pow_add_r by lia.
  - by rewrite shr_1_half.
Qed.

Lemma shr_fexp_pos m e l : 0 < m -> -1000 <= e -> 0 < shr_m (shr_fexp 53 1024 m e l).1.
Proof.
  intros Hm He. unfold shr_fexp, shr. set (d := fexp 53 1024 (Zdigits2 m + e) - e).
  assert (H0 : shr_m (shr_record_of_loc m l) = m) by (destruct l as [|[]]; done).
  destruct d as [|n|n] eqn:Ed; cbn [fst]; rewrite ?H0; [lia| |lia].
  assert (Hmn : 0 <= m) by lia. rewrite iter_shr, H0 by (rewrite H0; lia). apply Z.div_str_pos. split; [apply Z.pow_pos_nonneg; lia|].
  destruct m as [|p|p]; [lia| |lia]. 
  pose proof (Pos.size_le p) as Hp. apply Pos2Z.pos_le_pos in Hp. rewrite Pos2Z.inj_pow in Hp.
  pose proof (Pos.size_gt p) as Hg. 
  assert (Z.pos n + 1 <= Z.pos (Pos.size p)) by (subst d; unfold fexp, emin in *; cbn [Zdigits2] in Ed; rewrite digits2_size in Ed; lia).
  assert (Hle : 2 ^ (Z.pos n + 1) <= 2 ^ Z.pos (Pos.size p)) by (apply Z.pow_le_mono_r; lia).
  rewrite Z.pow_add_r in Hle by lia. lia.
Qed.

Definition finite (x : double) : Prop := match x with S754_zero _ | S754_finite _ _ _ => True | _ => False end.

Lemma round_nonneg m e l : 0 <= m -> nonneg (binary_round_aux 53 1024 false m e l).
Proof.
  intros Hm. unfold binary_round_aux. pose proof (shr_fexp_spec m e l Hm) as [H1 _].
  destruct (shr_fexp 53 1024 m e l) as [r1 e1]. cbn [fst snd] in H1.
  assert (H2 : 0 <= round_nearest_even (shr_m r1) (loc_of_shr_record r1)).
  { unfold round_nearest_even. destruct (loc_of_shr_record r1) as [|[]]; [lia|destruct (Z.even _)|..]; lia. }
  pose proof (shr_fexp_spec _ e1 loc_Exact H2) as [H3 _]. destruct (shr_fexp 53 1024 _ e1 loc_Exact) as [r2 e2].
  cbn [fst snd] in H3. destruct (shr_m r2); [done| |lia]. by destruct (e2 <=? 1024 - 53).
Qed.

Lemma round_finite m e l : 0 <= m < 2 ^ 64 -> e <= 0 -> finite (binary_round_aux 53 1024 false m e l).
Proof.
  intros Hm He. unfold binary_round_aux. assert (Hm0 : 0 <= m) by lia. pose proof (shr_fexp_spec m e l Hm0) as [H1 E1].
  destruct (shr_fexp 53 1024 m e l) as [r1 e1]. cbn [fst snd] in *.
  assert (H2 : 0 <= round_nearest_even (shr_m r1) (loc_of_shr_record r1) < 2 ^ 65).
  { unfold round_nearest_even. destruct (loc_of_shr_record r1) as [|[]]; [lia|destruct (Z.even _)|..]; lia. }
  assert (H20 : 0 <= round_nearest_even (shr_m r1) (loc_of_shr_record r1)) by lia.
  pose proof (shr_fexp_spec _ e1 loc_Exact H20) as [H3 E3]. pose proof (Zdigits2_le _ _ Hm). pose proof (Zdigits2_le _ _ H2).
  destruct (shr_fexp 53 1024 _ e1 loc_Exact) as [r2 e2]. cbn [fst snd] in *. unfold fexp, emin in *.
  destruct (shr_m r2); [done| |lia]. by rewrite (proj2 (Z.leb_le e2 (1024 - 53))) by lia.
Qed.

Lemma round_not_zero m e l s : 0 < m -> -1000 <= e -> binary_round_aux 53 1024 false m e l <> S754_zero s.
Proof.
  intros Hm He. unfold binary_round_aux. assert (Hm0 : 0 <= m) by lia.
  pose proof (shr_fexp_pos m e l Hm He) as H1. pose proof (shr_fexp_spec m e l Hm0) as [_ E1].
  destruct (shr_fexp 53 1024 m e l) as [r1 e1]. cbn [fst snd] in *.
  assert (H2 : 0 < round_nearest_even (shr_m r1) (loc_of_shr_record r1)).
  { unfold round_nearest_even. destruct (loc_of_shr_record r1) as [|[]]; [lia|destruct (Z.even _)|..]; lia. }
  assert (He1 : -1000 <= e1) by lia. pose proof (shr_fexp_pos _ e1 loc_Exact H2 He1) as H3.
  destruct (shr_fexp 53 1024 _ e1 loc_Exact) as [r2 e2]. cbn [fst] in H3. destruct (shr_m r2); [lia| |lia].
  by destruct (e2 <=? 1024 - 53).
Qed.

Lemma iter_xO p n : Z.pos (Pos.iter xO p n) = Z.pos p * 2 ^ Z.pos n.
Proof.
  revert p. induction n as [|n IH] using Pos.peano_ind; intros p; [cbn; lia|].
  rewrite Pos.iter_succ, Pos2Z.inj_xO, IH, Pos2Z.inj_succ, Z.pow_succ_r by lia. lia.
Qed.

Lemma of_Z_ok n : 0 <= n < 2 ^ 64 -> nonneg (of_Z n) /\ finite (of_Z n) /\ (0 < n -> forall s, of_Z n <> S754_zero s).
Proof.
  intros Hn. unfold of_Z, binary_normalize. destruct n as [|p|p]; [by repeat split| |lia]. unfold binary_round, shl_align.
  pose proof (Zdigits2_le _ _ Hn) as Hd. cbn [Zdigits2] in Hd.
  set (x := fexp 53 1024 (Z.pos (digits2_pos p) + 0)). assert (Hx : x = Z.pos (digits2_pos p) - 53) by (unfold x, fexp, emin; lia).
  destruct (x - 0) as [|q|q] eqn:Ex; 
    try (split; [apply round_nonneg; lia|split; [apply round_finite; lia|intros _ s; apply round_not_zero; lia]]).
  assert (Hq : 0 <= Z.pos (Pos.iter xO p q) < 2 ^ 64).
  { rewrite iter_xO. assert (Z.pos p < 2 ^ Z.pos (digits2_pos p)).
    { rewrite digits2_size. pose proof (Pos.size_gt p) as Hg. apply Pos2Z.pos_lt_pos in Hg. by rewrite Pos2Z.inj_pow in Hg. }
    split; [lia|]. apply (Z.lt_le_trans _ (2 ^ Z.pos (digits2_pos p) * 2 ^ Z.pos q)); [apply Z.mul_lt_mono_pos_r; lia|].
    rewrite <-Z.pow_add_r by lia. apply Z.pow_le_mono_r; lia. }
  split; [apply round_nonneg; lia|split; [apply round_finite; lia|intros _ s; apply round_not_zero; lia]].
Qed.

Lemma div_eucl_fst a b : (Z.div_eucl a b).1 = a / b.
Proof. unfold Z.div. by destruct (Z.div_eucl a b). Qed.

Lemma ddiv_nonneg x y : nonneg x -> finite x -> nonneg y -> finite y -> (forall s, y <> S754_zero s) -> nonneg (ddiv x y).
Proof.
  intros Hx Fx Hy Fy H0. unfold ddiv.
  destruct x as [s|s| |s m e], y as [s'|s'| |s' m' e']; cbn in Hx, Hy; try done; subst; try done; try (by destruct (H0 false)).
  unfold SFdiv, SFdiv_core_binary. set (m1 := match _ with Z0 => _ | Zpos _ => _ | Zneg _ => _ end).
  assert (Hm1 : 0 <= m1) by (unfold m1; destruct (_ - _ - _); [lia|apply Z.shiftl_nonneg; lia|lia]).
  pose proof (div_eucl_fst m1 (Z.pos m')) as Hq. destruct (Z.div_eucl m1 (Z.pos m')) as [q r]. cbn [fst xorb] in *.
  apply round_nonneg. rewrite Hq. apply Z.div_pos; lia.
Qed.

(** A sample as the programs measure it: a time of 64 bits and a positive [long]. *)
Definition measured (wt : Z * Z) : Prop := 0 < wt.1 < 2 ^ 63 /\ 0 <= wt.2 < 2 ^ 64.

Lemma sample_nonneg wt : measured wt -> nonneg (sample wt.2 wt.1).
Proof.
  intros [Hw Ht]. assert (Hw' : 0 <= wt.1 < 2 ^ 64) by lia.
  destruct (of_Z_ok wt.2 Ht) as (H1 & H2 & _), (of_Z_ok wt.1 Hw') as (H3 & H4 & H5). apply ddiv_nonneg; auto. apply H5; lia.
Qed.

(** ** The middle of the sorted array *)
Section middle.
Context {A : Type} (value : A -> double) (runs navg : nat).

Lemma sum_loop_window f l l' n : forall i acc,
  (forall j, (i <= j < i + n)%nat -> l !! (j + runs / 2 - navg / 2)%nat = l' !! (j + runs / 2 - navg / 2)%nat) ->
  sum_loop value runs navg f l i n acc = sum_loop value runs navg f l' i n acc.
Proof.
  induction n as [|n IH]; intros i acc H; cbn [sum_loop]; [done|]. unfold middle. rewrite H by lia.
  destruct (l' !! _); [|done]. rewrite !res_bind_ok. apply IH. intros j Hj. apply H. lia.
Qed.

Lemma sum_loop_ok f l n : forall i acc, (i + n <= navg)%nat -> (navg <= runs)%nat -> (runs <= length l)%nat ->
  exists s, sum_loop value runs navg f l i n acc = Ok s.
Proof.
  induction n as [|n IH]; intros i acc Hi Hn Hl; cbn [sum_loop]; [by eexists|].
  unfold middle. destruct (lookup_lt_is_Some_2 l (i + runs / 2 - navg / 2)) as [x ->].
  { assert (2 * (runs / 2) <= runs)%nat by (apply Nat.Div0.mul_div_le).
    pose proof (Nat.div_mod_eq navg 2). pose proof (Nat.mod_upper_bound navg 2). pose proof (Nat.div_mod_eq runs 2). 
    pose proof (Nat.mod_upper_bound runs 2). lia. }
  rewrite res_bind_ok. apply IH; lia.
Qed.

Lemma report_total cmp l : (navg <= runs)%nat -> length l = runs -> exists r, report value runs navg cmp l = Ok r.
Proof.
  intros Hn Hl. unfold report, mean, deviation.
  assert (Hq : (runs <= length (qsort cmp l))%nat) by (by rewrite qsort_perm, Hl).
  destruct (sum_loop_ok id (qsort cmp l) navg 0 (of_Z 0)) as [s ->]; [done..|]. rewrite !res_bind_ok.
  match goal with |- context [sum_loop value runs navg ?f ?l 0 navg ?a] =>
    destruct (sum_loop_ok f l navg 0 a) as [q ->]; [done..|] end.
  rewrite !res_bind_ok. by eexists.
Qed.

(** Only the samples of the window matter. *)
Lemma report_window cmp l l' :
  (forall j, (j < navg)%nat -> qsort cmp l !! (j + runs / 2 - navg / 2)%nat = qsort cmp l' !! (j + runs / 2 - navg / 2)%nat) ->
  report value runs navg cmp l = report value runs navg cmp l'.
Proof.
  intros H. unfold report, mean, deviation.
  assert (He : forall f acc, sum_loop value runs navg f (qsort cmp l) 0 navg acc = sum_loop value runs navg f (qsort cmp l') 0 navg acc).
  { intros f acc. apply sum_loop_window. intros j Hj. apply H. lia. }
  rewrite He. destruct (sum_loop value runs navg id (qsort cmp l') 0 navg (of_Z 0)); [|done..]. rewrite !res_bind_ok. by rewrite He.
Qed.

Context {cmp : A -> A -> Z} {P : A -> Prop} `{!Compares cmp P}.

Lemma qsort_middle l lo mid hi : l ≡ₚ lo ++ mid ++ hi -> Forall P l ->
  (forall x y, x ∈ lo -> y ∈ mid ++ hi -> cmp x y <= 0) -> (forall x y, x ∈ mid -> y ∈ hi -> cmp x y <= 0) ->
  qsort cmp l = qsort cmp lo ++ qsort cmp mid ++ qsort cmp hi.
Proof.
  intros Hl HP Hlo Hhi. assert (HP' : Forall P (lo ++ mid ++ hi)) by by rewrite <-Hl.
  rewrite (qsort_perm_eq _ _ HP Hl). apply Forall_app in HP' as [H1 H2]. pose proof H2 as [H3 H4]%Forall_app.
  by rewrite !qsort_app.
Qed.

Lemma report_middle l l' lo mid hi lo' hi' : l ≡ₚ lo ++ mid ++ hi -> l' ≡ₚ lo' ++ mid ++ hi' ->
  Forall P l -> Forall P l' ->
  length mid = navg -> length lo = (runs / 2 - navg / 2)%nat -> length lo' = length lo -> (navg / 2 <= runs / 2)%nat ->
  (forall x y, x ∈ lo ++ lo' -> y ∈ mid ++ hi ++ hi' -> cmp x y <= 0) ->
  (forall x y, x ∈ mid -> y ∈ hi ++ hi' -> cmp x y <= 0) ->
  report value runs navg cmp l = report value runs navg cmp l'.
Proof.
  intros Hl Hl' HP HP' Hm Hlo Hlo' Hn Hlow Hhigh. apply report_window. intros j Hj.
  rewrite (qsort_middle l lo mid hi), (qsort_middle l' lo' mid hi') by (done || set_solver).
  assert (Hlen : forall k, length (qsort cmp k) = length k) by (intros k; by rewrite qsort_perm).
  assert (Hw : forall a b, length a = (runs / 2 - navg / 2)%nat ->
    (qsort cmp a ++ qsort cmp mid ++ qsort cmp b) !! (j + runs / 2 - navg / 2)%nat = qsort cmp mid !! j).
  { intros a b Ha. rewrite lookup_app_r, lookup_app_l by (rewrite !Hlen; lia). f_equal. rewrite Hlen. lia. }
  by rewrite !Hw by congruence.
Qed.
End middle.

(** ** What the programs print *)

(** [x] took no longer per event than [y], as the doubles tell. *)
Definition no_slower (x y : Z * Z) : Prop := cmp_double (sample x.2 x.1) (sample y.2 y.1) <= 0.

#[export] Instance no_slower_dec x y : Decision (no_slower x y).
Proof. unfold no_slower. apply _. Defined.

(** C19: The averages that pipetest-4, eventfd-bench and epwbench print are those of
    the six samples in the middle: of 16 samples in any order, of which five are no
    slower and five no faster than the other six, AVG and SIG are always computed,
    from inside the array, and they depend neither on the order of the samples nor
    on the ten outer ones, which may be any others on their side. *)
Theorem bench_report_trimmed l l' lo mid hi lo' hi' : l ≡ₚ lo ++ mid ++ hi -> l' ≡ₚ lo' ++ mid ++ hi' ->
  Forall measured l -> Forall measured l' ->
  length mid = 6%nat -> length lo = 5%nat -> length lo' = 5%nat -> length hi = 5%nat -> length hi' = 5%nat ->
  (forall x y, x ∈ lo ++ lo' -> y ∈ mid ++ hi ++ hi' -> no_slower x y) ->
  (forall x y, x ∈ mid -> y ∈ hi ++ hi' -> no_slower x y) ->
  exists avg sig, bench_report l = Ok (avg, sig) /\ bench_report l' = Ok (avg, sig).
Proof.
  intros Hl Hl' HP HP' Hm Hlo Hlo' Hhi Hhi' Hlow Hhigh.
  set (f := fun wt : Z * Z => sample wt.2 wt.1).
  assert (He : bench_report l = bench_report l').
  { apply (report_middle (P := nonneg) id RUNTIMES NAVG _ _ (map f lo) (map f mid) (map f hi) (map f lo') (map f hi')).
    - by rewrite Hl, !map_app.
    - by rewrite Hl', !map_app.
    - apply Forall_fmap. eapply Forall_impl; [exact HP|]. exact sample_nonneg.
    - apply Forall_fmap. eapply Forall_impl; [exact HP'|]. exact sample_nonneg.
    - by rewrite length_map.
    - by rewrite length_map.
    - by rewrite !length_map, Hlo.
    - cbn. lia.
    - intros x y. rewrite <-!map_app. intros (a & -> & Ha)%list_elem_of_fmap (b & -> & Hb)%list_elem_of_fmap. by apply Hlow.
    - intros x y. rewrite <-!map_app. intros (a & -> & Ha)%list_elem_of_fmap (b & -> & Hb)%list_elem_of_fmap. by apply Hhigh. }
  assert (Ht : exists r, bench_report l' = Ok r).
  { apply report_total; [unfold NAVG, RUNTIMES; lia|]. rewrite length_map, Hl', !length_app, Hm, Hlo', Hhi'. done. }
  destruct Ht as [[avg sig] Ht]. exists avg, sig. by rewrite He.
Qed.

(** Sixteen runs, some of them disturbed; the disturbances shrink or grow. *)
Definition runs_mid : list (Z * Z) := map (fun t => (1000, t)) [1003; 1001; 1002; 1006; 1005; 1004].
Definition runs_low (d : Z) : list (Z * Z) := map (fun t => (1000, t - d)) [900; 901; 700; 702; 400].
Definition runs_high (d : Z) : list (Z * Z) := map (fun t => (1000, t + d)) [5000; 1007; 1008; 90000; 1007].

Lemma bench_report_trimmed_witness : exists avg sig,
  bench_report (runs_high 0 ++ runs_low 0 ++ runs_mid) = Ok (avg, sig) /\
  bench_report (runs_low 300 ++ runs_mid ++ runs_high 10) = Ok (avg, sig).
Proof.
  apply (bench_report_trimmed _ _ (runs_low 0) runs_mid (runs_high 0) (runs_low 300) (runs_high 10)).
  - rewrite app_assoc, (Permutation_app_comm (runs_high 0)), <-app_assoc. apply Permutation_app_head, Permutation_app_comm.
  - reflexivity.
  - repeat constructor; vm_compute; congruence.
  - repeat constructor; vm_compute; congruence.
  - reflexivity.
  - reflexivity.
  - reflexivity.
  - reflexivity.
  - reflexivity.
  - intros x y Hx Hy. revert y Hy. apply Forall_forall. revert x Hx. apply Forall_forall.
    apply (bool_decide_unpack _). vm_compute. exact I.
  - intros x y Hx Hy. revert y Hy. apply Forall_forall. revert x Hx. apply Forall_forall.
    apply (bool_decide_unpack _). vm_compute. exact I.
Defined.

(** qspins prints for each thread the average of the sixteen samples in the middle of
    its 32: it is computed from inside the array, whatever the samples are, and does
    not depend on their order or on the outer sixteen. *)
Theorem spins_report_trimmed l l' lo mid hi lo' hi' : l ≡ₚ lo ++ mid ++ hi -> l' ≡ₚ lo' ++ mid ++ hi' ->
  length mid = 16%nat -> length lo = 8%nat -> length lo' = 8%nat -> length hi = 8%nat -> length hi' = 8%nat ->
  (forall x y, x ∈ lo ++ lo' -> y ∈ mid ++ hi ++ hi' -> x <= y) ->
  (forall x y, x ∈ mid -> y ∈ hi ++ hi' -> x <= y) ->
  exists avg sig, spins_report l = Ok (avg, sig) /\ spins_report l' = Ok (avg, sig).
Proof.
  intros Hl Hl' Hm Hlo Hlo' Hhi Hhi' Hlow Hhigh.
  assert (Hc : forall x y, x <= y -> cmp_ull x y <= 0).
  { intros x y H. unfold cmp_ull. rewrite (proj2 (Z.ltb_ge y x)) by done. by destruct (x <? y). }
  assert (He : spins_report l = spins_report l').
  { apply (report_middle (P := fun _ => True) of_Z MAX_SAMPLES QNAVG _ _ lo mid hi lo' hi');
      try done; try (by apply Forall_true); try (intros; apply Hc; auto).
    - by rewrite Hlo, Hlo'.
    - unfold QNAVG, MAX_SAMPLES. cbn. lia. }
  assert (Ht : exists r, spins_report l' = Ok r).
  { apply report_total; [unfold QNAVG, MAX_SAMPLES; lia|]. rewrite Hl', !length_app, Hm, Hlo', Hhi'. done. }
  destruct Ht as [[avg sig] Ht]. exists avg, sig. by rewrite He.
Qed.
