(* ===== verification/SloadChild.v ===== *)
(** * sload.c: the busy loop and the rounds of a child

    The busy loop with its doubles, the handler of the signals, and what the loop of a
    child ([Sload.child_loop]) does between its start and the signal: the kernel below
    keeps a log of it. *)
From Stdlib Require Import ZArith Lia Bool.
From Stdlib Require Import Floats.SpecFloat.
From stdpp Require Import base tactics list.
From S2P Require Import Prelude Sload Stats.

(** ** Burning time *)
Definition AUXSIZE : Z := 32.

(** One turn of the loop; [aux] is the static array. *)
Definition burn_turn (aux : list Z) (i : Z) : list Z :=
  let k := Z.to_nat (i mod AUXSIZE) in <[k := u64 (nth k aux 0 + u64 (i * 7 - 3))]> aux.
Definition burn_loop (aux : list Z) : list Z := fold_left burn_turn (seqZ 0 100) aux.

(** The loop of [burn] from [t] on; with the array the number of calls of [burn_loop]. *)
Fixpoint burn_from (fuel : nat) (usloop us t : double) (aux : list Z) (calls : nat) : res (list Z * nat) :=
  match fuel with
  | O => NoFuel
  | S fuel =>
    if SFltb t us then burn_from fuel usloop us (dadd t usloop) (burn_loop aux) (S calls) else Ok (aux, calls)
  end.
Definition burn (fuel : nat) (usloop : double) (usecs : Z) (aux : list Z) : res (list Z * nat) :=
  burn_from fuel usloop (of_Z usecs) (of_Z 0) aux 0.

(** DBL_MAX, and [usloop] after the samples [(tn - ts, tl)] of [calibrate_loop]. *)
Definition DBL_MAX : double := S754_finite false (2 ^ 53 - 1) 971.
Definition less_sample (usloop : double) (s : Z * Z) : double :=
  let ust := sample s.1 s.2 in if SFltb ust usloop then ust else usloop.
Definition usloop_of (samples : list (Z * Z)) : double := fold_left less_sample samples DBL_MAX.

(** The handler: [stop_test], and that it stays installed. *)
Definition sig_int (sig stop_test : Z) : Z * Z := (s32 (stop_test + 1), sig).

(** ** A kernel that keeps a log

    What it answers may depend on all that happened before. *)
Inductive event := Clock (now : Z) | Burnt (us : Z) | Slept (us : Z).

Definition is_clock (e : event) : bool := match e with Clock _ => true | _ => false end.
Definition clocks (l : list event) : nat := length (filter (fun e => is_clock e = true) l).

Lemma clocks_app l l' : clocks (l ++ l') = (clocks l + clocks l')%nat.
Proof. unfold clocks. by rewrite filter_app, length_app. Qed.

Definition logging (clock : list event -> Z) (stopped : list event -> bool) : Kernel (list event) := {|
  k_time l := (clock l, l ++ [Clock (clock l)]);
  k_burn us l := l ++ [Burnt us];
  k_usleep us l := l ++ [Slept us];
  k_stopped l := stopped l
|}.

(** ** Rounds *)
Section rounds.
Context (t : sltask).

(** A burst of [b], a sleep, and the wait for the deadline of a round that began at [ts];
    [m] is 1 when it was missed. *)
Definition burnt (l : list event) (b : Z) : Prop :=
  if bus t =? 0 then l = [] /\ b = 0 else l = [Burnt b] /\ near (bus t) (jbus t) b.
Definition slept (l : list event) : Prop :=
  if sus t =? 0 then l = [] else exists s, l = [Slept s] /\ near (sus t) (jsus t) s.
Definition waited (ts : Z) (l : list event) (m : Z) : Prop :=
  if wus t =? 0 then l = [] /\ m = 0 else
  exists w tn, near (wus t) (jwus t) w /\
    if tn <? u64 (ts + w) then l = [Clock tn; Slept (u64 (ts + w - tn))] /\ m = 0 else l = [Clock tn] /\ m = 1.

Record round := mk_round { r_log : list event; r_burnt : Z; r_missed : Z }.

Definition good_round (r : round) : Prop := exists ts lb ls lw,
  r_log r = Clock ts :: lb ++ ls ++ lw /\ burnt lb (r_burnt r) /\ slept ls /\ waited ts lw (r_missed r).

(** The child behind the rounds [rs] of its log [l0]. *)
Definition behind (l0 : list event) (rs : list round) (c : child (W := list event)) : Prop :=
  world c = l0 ++ concat (r_log <$> rs) /\ 0 <= rand c < 2 ^ 64 /\
  time (rep c) = u64 (zsum (r_burnt <$> rs)) /\ missd (rep c) = u64 (zsum (r_missed <$> rs)).

Definition small_task : Prop :=
  (0 <= bus t < 2 ^ 63 /\ 0 <= sus t < 2 ^ 63 /\ 0 <= wus t < 2 ^ 63) /\
  (0 <= jbus t < 2 ^ 62 /\ 0 <= jsus t < 2 ^ 62 /\ 0 <= jwus t < 2 ^ 62).

Context (Ht : small_task) (clock : list event -> Z) (stopped : list event -> bool).
#[local] Instance log_kernel : Kernel (list event) := logging clock stopped.
Abbreviation C := (child (W := list event)).

Lemma wp_timed v j (c : C) (Q : Z -> C -> Prop) : 0 <= v < 2 ^ 63 -> 0 <= j < 2 ^ 62 -> 0 <= rand c < 2 ^ 64 ->
  (forall x r, near v j x -> 0 <= r < 2 ^ 64 -> Q x (mk_child (world c) r (rep c))) -> wp (timed v j) c Q.
Proof.
  intros Hv Hj Hr HQ. destruct (jval_near v j (rand c) Hv Hr Hj) as (x & Hx & Hn).
  unfold wp, timed. rewrite Hx. apply HQ; [done|]. destruct (0 <? j); [apply u64_range|done].
Qed.

Lemma wp_burn_part (c : C) (Q : unit -> C -> Prop) : 0 <= rand c < 2 ^ 64 ->
  (forall l b r, burnt l b -> 0 <= r < 2 ^ 64 ->
     Q tt (mk_child (world c ++ l) r (mk_slreport (missd (rep c)) (if bus t =? 0 then time (rep c) else u64 (time (rep c) + b))))) ->
  wp (burn_part t) c Q.
Proof.
  intros Hr HQ. unfold burn_part, burnt in *. destruct (bus t =? 0).
  - apply wp_ret. specialize (HQ [] 0 (rand c)). rewrite app_nil_r in HQ. destruct c as [w r [m tm]]. by apply HQ.
  - apply wp_bind, wp_timed; [apply Ht|apply Ht|done|]. intros x r Hx Hr'. by apply (HQ [Burnt x] x r).
Qed.

Lemma wp_sleep_part (c : C) (Q : unit -> C -> Prop) : 0 <= rand c < 2 ^ 64 ->
  (forall l r, slept l -> 0 <= r < 2 ^ 64 -> Q tt (mk_child (world c ++ l) r (rep c))) -> wp (sleep_part t) c Q.
Proof.
  intros Hr HQ. unfold sleep_part, slept in *. destruct (sus t =? 0).
  - apply wp_ret. specialize (HQ [] (rand c)). rewrite app_nil_r in HQ. destruct c. by apply HQ.
  - apply wp_bind, wp_timed; [apply Ht|apply Ht|done|]. intros x r Hx Hr'. apply (HQ [Slept x] r); [by exists x|done].
Qed.

Lemma wp_wait_part ts (c : C) (Q : unit -> C -> Prop) : 0 <= rand c < 2 ^ 64 ->
  (forall l m r, waited ts l m -> 0 <= r < 2 ^ 64 ->
     Q tt (mk_child (world c ++ l) r (mk_slreport (if m =? 0 then missd (rep c) else u64 (missd (rep c) + m)) (time (rep c))))) ->
  wp (wait_part t ts) c Q.
Proof.
  intros Hr HQ. unfold wait_part, waited in *. destruct (wus t =? 0).
  - apply wp_ret. specialize (HQ [] 0 (rand c)). rewrite app_nil_r in HQ. destruct c as [w r [m tm]]. by apply HQ.
  - apply wp_bind, wp_timed; [apply Ht|apply Ht|done|]. intros x r Hx Hr'. set (tn := clock (world c)).
    change (wp (if tn <? u64 (ts + x) then act (k_usleep (u64 (ts + x - tn)))
      else Sload.report (fun r => mk_slreport (u64 (missd r + 1)) (time r))) (mk_child (world c ++ [Clock tn]) r (rep c)) Q).
    destruct (tn <? u64 (ts + x)) eqn:Hd.
    + specialize (HQ [Clock tn; Slept (u64 (ts + x - tn))] 0 r). cbn in HQ.
      apply wp_puts. cbn. rewrite <- app_assoc. destruct c as [w r0 [m tm]]. apply HQ; [|done].
      exists x, tn. by rewrite Hd.
    + specialize (HQ [Clock tn] 1 r). apply wp_puts. apply HQ; [|done]. exists x, tn. by rewrite Hd.
Qed.

(** One turn of the loop adds a round. *)
Lemma child_turn l0 rs (c : C) (k : M C unit) (Q : unit -> C -> Prop) : behind l0 rs c ->
  (forall r c', good_round r -> behind l0 (rs ++ [r]) c' -> (clocks (world c) < clocks (world c'))%nat -> wp k c' Q) ->
  wp (ts ← now; burn_part t;; sleep_part t;; wait_part t ts;; k) c Q.
Proof.
  intros (Hw & Hr & Htm & Hms) HQ. apply wp_bind. set (ts := clock (world c)).
  change (wp (burn_part t;; sleep_part t;; wait_part t ts;; k) (mk_child (world c ++ [Clock ts]) (rand c) (rep c)) Q).
  apply wp_bind, wp_burn_part; [done|]. intros lb b r1 Hb Hr1. apply wp_bind, wp_sleep_part; [done|].
  intros ls r2 Hs Hr2. apply wp_bind, wp_wait_part; [done|]. intros lw m r3 Hm Hr3. cbn [world rand rep missd time].
  apply (HQ (mk_round (Clock ts :: lb ++ ls ++ lw) b m)).
  - by exists ts, lb, ls, lw.
  - split_and!; cbn [world rand rep missd time]; rewrite ?fmap_app, ?concat_app, ?zsum_app; cbn.
    + rewrite Hw, app_nil_r, <- !app_assoc. done.
    + apply Hr3.
    + apply Hr3.
    + unfold burnt in Hb. destruct (bus t =? 0).
      * destruct Hb as [_ ->]. by rewrite !Z.add_0_r.
      * by rewrite Htm, Z.add_0_r, u64_add_u64.
    + destruct (Z.eqb_spec m 0) as [->|_]; [by rewrite !Z.add_0_r|]. by rewrite Hms, Z.add_0_r, u64_add_u64.
  - cbn [world]. rewrite !clocks_app. change (clocks [Clock ts]) with 1%nat. lia.
Qed.

Lemma child_loop_runs n : (forall l, (n <= clocks l)%nat -> stopped l = true) -> forall fuel l0 rs c,
  (n <= fuel + clocks (world c))%nat -> Forall good_round rs -> behind l0 rs c ->
  wp (child_loop t (S fuel)) c (fun _ c' => exists rs', Forall good_round rs' /\ behind l0 rs' c' /\ stopped (world c') = true).
Proof.
  intros Hst. induction fuel as [|fuel IH]; intros l0 rs c Hf Hrs Hc; cbn [child_loop];
    apply wp_bind, wp_get; change (k_stopped (world c)) with (stopped (world c));
    (destruct (stopped (world c)) eqn:Hs; [apply wp_ret; by exists rs|]).
  - rewrite (Hst (world c)) in Hs by (cbn in Hf; lia). done.
  - apply (child_turn l0 rs); [done|]. intros r c' Hr Hc' Hlt. apply (IH l0 (rs ++ [r])); [lia| |done].
    apply Forall_app. auto.
Qed.
End rounds.


(** A task with all three times, stopped by the fourth look at the clock. *)
Definition demo_task : sltask := mk_sltask [] 0 1000 20 5000 100 0 50 1.
Definition demo_clock (l : list event) : Z := Z.of_nat (length l) * 2500.
Definition demo_stop (l : list event) : bool := (4 <=? clocks l)%nat.


(** ** The least sample *)
Lemma not_less x y : nonneg x -> nonneg y -> SFltb x y = false <-> ~ rank_lt (rank x) (rank y).
Proof. intros Hx Hy. rewrite <- SFltb_rank by done. by destruct (SFltb x y). Qed.

Lemma usloop_step l : forall u, nonneg u -> Forall (fun s => nonneg (sample s.1 s.2)) l ->
  let r := fold_left less_sample l u in
  nonneg r /\ SFltb u r = false /\ Forall (fun s => SFltb (sample s.1 s.2) r = false) l /\
  (r = u \/ exists s, s ∈ l /\ r = sample s.1 s.2).
Proof.
  induction l as [|s l IH]; intros u Hu Hl; cbn [fold_left].
  - split_and!; [done| |done|by left]. apply not_less; [done|done|]. unfold rank_lt. lia.
  - apply Forall_cons in Hl as [Hs Hl]. cbv zeta.
    set (u' := less_sample u s).
    assert (Hd : nonneg u' /\ (u' = sample s.1 s.2 /\ rank_lt (rank u') (rank u) \/
      u' = u /\ ~ rank_lt (rank (sample s.1 s.2)) (rank u))).
    { unfold u', less_sample. destruct (SFltb (sample s.1 s.2) u) eqn:Hd; (split; [done|]).
      - left. split; [done|]. by apply SFltb_rank.
      - right. split; [done|]. by apply not_less. }
    clearbody u'. destruct Hd as [Hu' Hd], (IH u' Hu' Hl) as (Hr & Hlt & Hall & Hin). clear IH.
    revert Hr Hlt Hall Hin. generalize (fold_left less_sample l u').
    intros r Hr Hlt Hall Hin. rewrite not_less in Hlt by done.
    split; [done|]. split; [apply not_less; [done|done|]|split].
    + unfold rank_lt in *. destruct Hd as [[-> ?]|[-> ?]]; lia.
    + apply Forall_cons. split; [|done]. apply not_less; [done|done|]. unfold rank_lt in *. destruct Hd as [[-> ?]|[-> ?]]; lia.
    + destruct Hin as [->|(s' & Hs' & ->)].
      * destruct Hd as [[-> ?]|[-> ?]]; [right; exists s; split; [apply list_elem_of_here|done]|by left].
      * right. exists s'. split; [by apply list_elem_of_further|done].
Qed.

(** No sample of the calibration is below [usloop], and it is one of them unless all are
    above DBL_MAX. *)
Theorem usloop_least samples : Forall (fun s => measured (s.2, s.1)) samples ->
  Forall (fun s => SFltb (sample s.1 s.2) (usloop_of samples) = false) samples /\
  (usloop_of samples = DBL_MAX \/ exists s, s ∈ samples /\ usloop_of samples = sample s.1 s.2).
Proof.
  intros Hm. destruct (usloop_step samples DBL_MAX) as (_ & _ & Ha & Hi); [done| |by split].
  eapply Forall_impl; [exact Hm|]. intros s Hs. by apply (sample_nonneg (s.2, s.1)).
Qed.

(** ** The busy loop *)

(** When a step is lost in rounding before the time is up the loop goes on for ever; from
    2^53 steps on it is. *)
Lemma burn_stuck usloop us t : SFltb t us = true -> dadd t usloop = t ->
  forall fuel aux calls, burn_from fuel usloop us t aux calls = NoFuel.
Proof.
  intros Hlt Hs. induction fuel as [|fuel IH]; intros aux calls; [done|]. cbn [burn_from]. by rewrite Hlt, Hs, IH.
Qed.

Lemma burn_stuck_demo fuel aux calls : burn_from fuel (of_Z 1) (of_Z (2 ^ 54)) (of_Z (2 ^ 53)) aux calls = NoFuel.
Proof. by apply burn_stuck. Qed.
