(* ===== verification/ExBench.v ===== *)
(** * cpp-exbench.cpp: the benchmark of exceptions

    A function that may throw returns the thrown [int] or its result.  main is written
    as the calls it makes (see [Trace]). *)
From Stdlib Require Import ZArith Lia Bool.
From stdpp Require Import base tactics list.
From S2P Require Import Prelude Exits Trace.

(** [Gettimeofday] gives microseconds; the others are the lines that are printed. *)
Inductive call := Gettimeofday | Not_caught | Print_thrower (us : Z) | Print_non_thrower (us : Z).

Definition MIN_TEST_TIME : Z := 1000000.
Definition LOOP_COUNT : Z := 10000.
Definition NTLOOP_COUNT : Z := 100000.

Definition thrower (n : Z) : Z + unit := inl n.
Definition non_thrower (n : Z) : Z + unit := inr tt.

(** The inner loops: [try] the function, and run the handler when it throws. *)
Definition try_loop (f : Z -> Z + unit) (handler : Z -> Z) (n caught : Z) : Z :=
  foldl (fun caught i => match f i with inl _ => handler caught | inr _ => caught end) caught (seqZ 0 n).

Section program.
Context {K : Type} `{!Os call K}.

Definition getustime : E K Z := tm <~ sys Gettimeofday; e_ret (u64 tm).

(** The timed loops; their result is [count], [caught] and [te]. *)
Fixpoint bench_loop (fuel : nat) (body : Z -> Z) (ts count caught : Z) : E K (Z * Z * Z) :=
  match fuel with
  | O => nofuel
  | S fuel =>
    let caught := body caught in
    let count := u64 (count + 1) in
    te <~ getustime;
    if u64 (te - ts) <? MIN_TEST_TIME then bench_loop fuel body ts count caught else e_ret (count, caught, te)
  end.

Definition main (fuel : nat) : E K Z :=
  ts <~ getustime;
  r <~ bench_loop fuel (try_loop thrower (fun caught => u64 (caught + 1)) LOOP_COUNT) ts 0 0;
  let '(count, caught, te) := r in
  _ <~ (if negb (caught =? u64 (count * LOOP_COUNT)) then _ <~ sys Not_caught; e_ret tt else e_ret tt);
  if count =? 0 then e_run fault else
  _ <~ sys (Print_thrower (u64 (te - ts) / count));
  ts <~ getustime;
  r <~ bench_loop fuel (try_loop non_thrower (fun caught => caught) NTLOOP_COUNT) ts 0 caught;
  let '(count, _, te) := r in
  if count =? 0 then e_run fault else
  _ <~ sys (Print_non_thrower (u64 (te - ts) / count));
  e_ret 0.
End program.

Definition is_clock (c : call) : bool := match c with Gettimeofday => true | _ => false end.

(** What was printed. *)
Definition printed (t : trace call) : list call := omap (fun e => if is_clock e.1 then None else Some e.1) t.

Lemma exb_printed_app t u : printed (t ++ u) = (printed t ++ printed u)%list.
Proof. apply omap_app. Qed.

(** ** Proofs *)
Lemma thrower_caught n caught : 0 < n -> try_loop thrower (fun c => u64 (c + 1)) n caught = u64 (caught + n).
Proof.
  intros Hn. unfold try_loop. replace n with (Z.of_nat (length (seqZ 0 n))) at 2 by (rewrite length_seqZ; lia).
  assert (Hl : seqZ 0 n <> []) by (intros E; apply (f_equal length) in E; rewrite length_seqZ in E; cbn in E; lia).
  revert Hl. generalize (seqZ 0 n). clear. intros l. revert caught.
  induction l as [|i l IH]; intros caught Hl; [done|]. cbn [foldl thrower]. destruct l as [|j l]; [done|].
  rewrite IH by done. unfold u64. rewrite Zplus_mod_idemp_l. f_equal. cbn [length]. lia.
Qed.

Lemma non_thrower_caught handler n caught : try_loop non_thrower handler n caught = caught.
Proof. unfold try_loop. induction (seqZ 0 n) as [|i l IH]; [done|exact IH]. Qed.

Section proofs.
Context (answers : trace call -> call -> Z).
#[local] Instance the_os : Os call (trace call) := tracing answers.
Context (clock : nat -> Z) (k : nat) (Hclock : clock_goes answers is_clock Gettimeofday clock MIN_TEST_TIME k).
Abbreviation looks := (Trace.looks is_clock).

(** A timed loop, where [F] tells what [caught] is after so many turns: it runs until
    the time is over, and at least once. *)
Lemma bench_loop_counts body (F : nat -> Z) from fuel : (forall i, body (F i) = F (S i)) ->
  forall i t, looks t = S (from + i) -> (i < k)%nat -> (k - i <= fuel)%nat -> Z.of_nat k < 2 ^ 64 ->
  adds t (bench_loop fuel body (clock from) (Z.of_nat i) (F i)) (fun r u => exists j, (0 < j <= k)%nat /\
    r = inr (Z.of_nat j, F j, clock (from + j)%nat) /\ printed u = [] /\ (looks u + i = j)%nat).
Proof.
  intros HF. induction fuel as [|fuel IH]; intros i t Hl Hi Hf Hk; [lia|]. cbn [bench_loop].
  eapply adds_tick; [exact Hclock|]. rewrite Hl, HF.
  destruct Hclock as [_ Hm Hx Hst]. pose proof (Hm from (S (from + i))). pose proof (Hx (S (from + i))).
  rewrite (u64_small (_ - _)) by lia. replace (Z.of_nat i + 1) with (Z.of_nat (S i)) by lia. rewrite u64_small by lia.
  destruct (Z.ltb_spec (clock (S (from + i)) - clock from) MIN_TEST_TIME) as [Hlt|Hge].
  - destruct (Nat.eq_dec (S i) k) as [Hki|Hne]; [specialize (Hst from); rewrite <-Hki, Nat.add_succ_r in Hst; lia|].
    eapply adds_mono; [apply (IH (S i)); [|lia..]|].
    + rewrite looks_app, Hl. cbn. lia.
    + intros r v (j & Hj & -> & Hv & Hlv). exists j. repeat split; [lia..|done|]. cbn. fold (looks v). lia.
  - apply adds_ret. exists (S i). split; [lia|]. by rewrite Nat.add_succ_r.
Qed.

End proofs.

(** With a clock that goes on, main returns 0.  It never says that exceptions were not
    caught: as many are caught as were thrown, modulo 2^64 in both counts; it prints two
    averages, each the time of a loop, at least a second, over the number of its rounds. *)
Theorem exbench_main answers clock k fuel : clock_goes answers is_clock Gettimeofday clock MIN_TEST_TIME k ->
  (0 < k <= fuel)%nat -> Z.of_nat k < 2 ^ 64 ->
  exists t i j, main (Os0 := tracing answers) fuel [] = Ok (inr 0, t) /\ (0 < i <= k)%nat /\ (0 < j <= k)%nat /\
    let t1 := clock i - clock 0%nat in let t2 := clock (S (i + j)) - clock (S i) in
    printed t = [Print_thrower (t1 / Z.of_nat i); Print_non_thrower (t2 / Z.of_nat j)].
Proof.
  intros Hc Hk Hb.
  enough (Ha : adds [] (main (Os0 := tracing answers) fuel) (fun r u => r = inr 0 /\ exists i j, (0 < i <= k)%nat /\ (0 < j <= k)%nat /\
    printed u = [Print_thrower ((clock i - clock 0%nat) / Z.of_nat i); Print_non_thrower ((clock (S (i + j)) - clock (S i)) / Z.of_nat j)])).
  { apply (adds_run (main (Os0 := tracing answers) fuel)) in Ha as (r & t & Hr & -> & i & j & Hi & Hj & Hp). by exists t, i, j. }
  unfold main. eapply adds_tick; [exact Hc|]. change (Trace.looks is_clock []) with 0%nat. cbn [app].
  eapply adds_bind.
  { apply (bench_loop_counts answers clock k Hc _ (fun i => u64 (Z.of_nat i * LOOP_COUNT)) 0 fuel) with (i := 0%nat); [|done|lia..].
    intros i. rewrite thrower_caught by done. unfold u64. rewrite Zplus_mod_idemp_l. f_equal. lia. }
  { by intros ? ? (? & _ & ? & _). }
  intros [[count caught] te] u (i & Hi & [= -> -> ->] & Hp1 & Hl1). rewrite Nat.add_0_r in Hl1. change (0 + i)%nat with i.
  rewrite Z.eqb_refl. cbn [negb]. change (e_bind (e_ret tt) ?f) with (f tt). cbn beta.
  rewrite (proj2 (Z.eqb_neq (Z.of_nat i) 0)) by lia.
  assert (Hm : forall a b, (a <= b)%nat -> u64 (clock b - clock a) = clock b - clock a).
  { intros a b Hab. destruct Hc as [_ Hmo Hx _]. pose proof (Hmo a b Hab). pose proof (Hx b). apply u64_small. lia. }
  rewrite Hm by lia. apply adds_sys; intros p1. eapply adds_tick; [exact Hc|].
  set (t1 := (([(Gettimeofday, _)] ++ u) ++ [_])%list). assert (Hl : Trace.looks is_clock t1 = S i).
  { unfold t1. rewrite !looks_app, Hl1. change (Trace.looks is_clock [(Gettimeofday, ?x)]) with 1%nat.
    change (Trace.looks is_clock [(Print_thrower ?x, ?y)]) with 0%nat. change (Trace.looks is_clock []) with 0%nat. lia. }
  rewrite Hl. eapply adds_bind.
  { apply (bench_loop_counts answers clock k Hc _ (fun _ => u64 (Z.of_nat i * LOOP_COUNT)) (S i) fuel) with (i := 0%nat); [|rewrite looks_app, Hl; cbn; lia|lia..].
    intros j. apply non_thrower_caught. }
  { by intros ? ? (? & _ & ? & _). }
  intros [[count caught] te] v (j & Hj & [= -> -> ->] & Hp2 & Hl2).
  rewrite (proj2 (Z.eqb_neq (Z.of_nat j) 0)) by lia. rewrite Hm by lia. apply adds_sys; intros p2. apply adds_ret.
  split; [done|]. exists i, j. split; [done|]. split; [done|].
  change (printed ([(Gettimeofday, clock 0%nat)] ++ u ++ [(Print_thrower ((clock i - clock 0%nat) / Z.of_nat i), p1)] ++
    [(Gettimeofday, clock (S i))] ++ v ++ [(Print_non_thrower ((clock (S i + j)%nat - clock (S i)) / Z.of_nat j), p2)]) =
    [Print_thrower ((clock i - clock 0%nat) / Z.of_nat i); Print_non_thrower ((clock (S (i + j)) - clock (S i)) / Z.of_nat j)]).
  by rewrite !exb_printed_app, Hp1, Hp2.
Qed.
