(* ===== verification/Tools.v ===== *)
(** * ht2date.c and syminfo.c: dates and symbols

    Both print what a library function answers for each argument: ctime in the one;
    dlopen, dlsym and dladdr in the other.  These are arguments of the definitions. *)
From Stdlib Require Import ZArith Lia Bool String.
From stdpp Require Import base tactics list.
From S2P Require Import Prelude Libc.

Definition TAB : Z := 9.

Module ht2date.
(** [ctime] gives the text of a time, its line feed included; [av] are the arguments
    behind the program name.  The result is what is printed. *)
Definition main (ctime : Z -> list Z) (av : list (list Z)) : list Z :=
  concat (map (fun a => let t := s64 (strtoull 0 a).1 in a ++ [TAB] ++ ctime t) av).
End ht2date.

Module syminfo.
(** What [dladdr] tells of an address. *)
Record Dl_info := mk_info { dli_fname : list Z; dli_fbase : Z; dli_sname : list Z; dli_saddr : Z }.

Section program.
(** A handle is an address, 0 for none; [dladdr] fails with [None]. *)
Context (dlopen : list Z -> Z) (dlsym : Z -> list Z -> Z) (dladdr : Z -> option Dl_info).

Definition RTLD_NEXT : Z := -1.

(** The loop over the options: an exit code, or the library and the arguments left. *)
Fixpoint parse_args (lib : Z) (av : list (list Z)) : Z + Z * list (list Z) :=
  match av with
  | [] => inr (lib, [])
  | a :: av' =>
    if streq a (str "-l") then
      match av' with
      | [] => inr (lib, [])
      | path :: av' => let lib := dlopen path in if lib =? 0 then inl 2 else parse_args lib av'
      end
    else if streq a (str "-h") then inl 1
    else inr (lib, av)
  end.

(** The rows behind the head line: the symbol, its address, and what is known of it. *)
Definition row (lib : Z) (sym : list Z) : list Z * Z * option Dl_info :=
  let symaddr := dlsym lib sym in (sym, symaddr, dladdr symaddr).

(** The exit code and the rows that are printed. *)
Definition main (av : list (list Z)) : Z * list (list Z * Z * option Dl_info) :=
  match parse_args RTLD_NEXT av with
  | inl code => (code, [])
  | inr (lib, syms) => (0, map (row lib) syms)
  end.
End program.
End syminfo.

(** ** Proofs: decimal numbers *)

(** Reading the digits that were printed. *)
Lemma digits_dec_digits fuel : forall n acc a, 0 <= n < 10 ^ Z.of_nat fuel ->
  exists k, 0 <= k /\ digits 10 (dec_digits fuel n acc) a = digits 10 acc (a * 10 ^ k + n).
Proof.
  induction fuel as [|fuel IH]; intros n acc a Hn; [exists 0; cbn in Hn; replace n with 0 by lia; split; [lia|cbn; f_equal; lia]|].
  cbn [dec_digits]. rewrite Nat2Z.inj_succ, Z.pow_succ_r in Hn by lia.
  pose proof (Z.mod_pos_bound n 10) as Hm. pose proof (Z.div_mod n 10) as Hd.
  assert (Hc : forall a, digits 10 (48 + n mod 10 :: acc) a = digits 10 acc (a * 10 + n mod 10)).
  { intros b. cbn [digits]. unfold digit_val, isdigit.
    rewrite (proj2 (Z.leb_le 48 _)), (proj2 (Z.leb_le _ 57)) by lia. cbn [andb].
    rewrite (proj2 (Z.ltb_lt _ 10)) by lia. f_equal. lia. }
  destruct (Z.eqb_spec (n / 10) 0) as [H0|H0].
  - exists 1. split; [lia|]. rewrite Hc. f_equal. lia.
  - destruct (IH (n / 10) (48 + n mod 10 :: acc) a) as (k & Hk & ->); [split; [apply Z.div_pos; lia|apply Z.div_lt_upper_bound; lia]|].
    exists (Z.succ k). split; [lia|]. rewrite Hc, Z.pow_succ_r by done. f_equal. lia.
Qed.

(** A printed number begins with a digit, which is 0 only in the number 0. *)
Lemma dec_digits_head fuel : forall n acc, 0 <= n < 10 ^ Z.of_nat fuel -> (0 < fuel)%nat ->
  exists c s, dec_digits fuel n acc = c :: s /\ 48 <= c <= 57 /\ (c = 48 -> n = 0 /\ s = acc).
Proof.
  induction fuel as [|fuel IH]; intros n acc Hn Hf; [lia|]. cbn [dec_digits].
  rewrite Nat2Z.inj_succ, Z.pow_succ_r in Hn by lia.
  pose proof (Z.mod_pos_bound n 10) as Hm. pose proof (Z.div_mod n 10) as Hd. destruct (Z.eqb_spec (n / 10) 0) as [H0|H0].
  - do 2 eexists. split; [done|]. split; [lia|]. intros. split; [lia|done].
  - assert (Hn' : 0 <= n / 10 < 10 ^ Z.of_nat fuel) by (split; [apply Z.div_pos; lia|apply Z.div_lt_upper_bound; lia]).
    assert (Hf' : (0 < fuel)%nat) by (destruct fuel; [cbn in Hn'; lia|lia]).
    destruct (IH _ (48 + n mod 10 :: acc) Hn' Hf') as (c & s & -> & Hc & H48). do 2 eexists. split; [done|]. split; [done|].
    intros H. destruct (H48 H). lia.
Qed.

Lemma strtoull_dec n : 0 <= n < 2 ^ 64 -> strtoull 0 (dec n) = (n, []).
Proof.
  intros Hn. unfold dec. rewrite (proj2 (Z.ltb_ge n 0)) by lia.
  assert (Hn25 : 0 <= n < 10 ^ Z.of_nat 25) by (cbn; lia).
  destruct (dec_digits_head 25 n [] Hn25 ltac:(lia)) as (c & s & E & Hc & H48).
  destruct (digits_dec_digits 25 n [] 0 Hn25) as (k & Hk & Ed). rewrite E in *.
  unfold strtoull. cbn [skip_spaces]. unfold isspace.
  rewrite (proj2 (Z.eqb_neq c 32)), (proj2 (Z.leb_gt c 13)) by lia. rewrite andb_false_r. cbn [orb].
  assert (Hs : sign (c :: s) = (false, c :: s)).
  { unfold sign. destruct c as [|c|c]; try done. repeat (destruct c as [c|c|]; try done; try lia). }
  rewrite Hs. destruct (Z.eq_dec c 48) as [->|Hne].
  { destruct (H48 eq_refl) as [-> ->]. by vm_compute. }
  assert (Hb : base_prefix 0 (c :: s) = (10, c :: s)).
  { unfold base_prefix. destruct c as [|c|c]; try done. repeat (destruct c as [c|c|]; try done; try lia). }
  rewrite Hb. unfold digit_val at 1, isdigit. rewrite (proj2 (Z.leb_le 48 c)), (proj2 (Z.leb_le c 57)) by lia. cbn [andb].
  rewrite (proj2 (Z.ltb_lt _ 10)) by lia. rewrite Ed. cbn [digits]. rewrite Z.mul_0_l, Z.add_0_l.
  by rewrite (proj2 (Z.leb_gt (2 ^ 64) n)) by lia.
Qed.

(** ** Proofs: the programs *)

(** Given times in decimal, ht2date prints each of them with its date. *)
Theorem ht2date_decimal ctime ts : Forall (fun t => 0 <= t < 2 ^ 63) ts ->
  ht2date.main ctime (map dec ts) = concat (map (fun t => dec t ++ [TAB] ++ ctime t) ts).
Proof.
  induction 1 as [|t ts Ht _ IH]; [done|]. unfold ht2date.main in *. cbn [map concat]. f_equal; [|exact IH].
  rewrite strtoull_dec by lia. cbn [fst]. by rewrite s64_small by lia.
Qed.

Lemma ht2date_decimal_witness : ht2date.main (fun t => dec (t / 86400)) [str "864000"; str "0"] =
  str "864000" ++ [TAB] ++ str "10" ++ str "0" ++ [TAB] ++ str "0".
Proof.
  refine (ht2date_decimal (fun t => dec (t / 86400)) [864000; 0] _).
  repeat constructor; vm_compute; congruence.
Defined.

(** The options of a command line: the libraries of the [-l]. *)
Definition with_libs (libs : list (list Z)) (rest : list (list Z)) : list (list Z) :=
  concat (map (fun l => [str "-l"; l]) libs) ++ rest.

(** syminfo looks every symbol up in the library of its last [-l], opened after all
    the ones before it, and prints one row for each of them, in order; a library that
    cannot be opened ends it with 2 before anything is printed, even when another one
    follows. *)
Theorem syminfo_rows dlopen dlsym dladdr libs syms :
  Forall (fun s => s <> str "-l" /\ s <> str "-h") syms ->
  syminfo.main dlopen dlsym dladdr (with_libs libs syms) =
    if forallb (fun l => negb (dlopen l =? 0)) libs
    then (0, map (fun s => let lib := default syminfo.RTLD_NEXT (dlopen <$> last libs) in
                           (s, dlsym lib s, dladdr (dlsym lib s))) syms)
    else (2, []).
Proof.
  intros Hs. unfold syminfo.main. generalize syminfo.RTLD_NEXT. induction libs as [|l libs IH]; intros lib.
  - change (with_libs [] syms) with syms. cbn [forallb last fmap option_fmap option_map default from_option].
    destruct syms as [|s syms]; [done|]. apply Forall_cons in Hs as [[H1 H2] _]. cbn [syminfo.parse_args].
    unfold streq. by rewrite !bool_decide_false.
  - change (with_libs (l :: libs) syms) with (str "-l" :: l :: with_libs libs syms). cbn [syminfo.parse_args].
    change (streq (str "-l") (str "-l")) with true. cbn iota. cbn [forallb]. destruct (dlopen l =? 0); [done|].
    cbn [negb andb]. rewrite IH. destruct (forallb _ libs); [|done]. rewrite last_cons. by destruct (last libs).
Qed.

Lemma syminfo_rows_witness :
  syminfo.main strlen (fun lib s => lib + strlen s) (fun a => if a =? 11 then None else Some (syminfo.mk_info [] a [] a))
    (with_libs [str "libc"; str "libpthread"] [str "free"; str "x"]) =
    (0, [(str "free", 14, Some (syminfo.mk_info [] 14 [] 14)); (str "x", 11, None)]).
Proof.
  rewrite syminfo_rows; [vm_compute; reflexivity|]. repeat constructor; vm_compute; discriminate.
Defined.
